(* ===== verification/_CoqProject ===== *)
-Q . S2P
Prelude.v
Text.v
UnorderedMap.v
Room.v
RoomRepository.v
InMemoryRoomRepository.v
RoomService.v
RoomServiceSpec.v
Json.v
JsonTree.v
ControlDispatcher.v
ControlDispatcherSpec.v
ProtocolCodec.v
ProtocolCodecSpec.v
SessionRegistry.v
Session.v
SessionSpec.v
Config.v
Server.v
System.v
SystemInv.v
SystemRun.v
SystemSafety.v
MessageTypes.v
Rosters.v
Effects.v
Progress.v
Sending.v
Signaling.v
LifeCycle.v
Interleaving.v
InterleavingSpec.v
InterleavingCalls.v
InterleavingRun.v
Samples.v
RoomProps.v
ServiceProps.v
DispatchProps.v
ProtocolProps.v
SessionProps.v
SystemProps.v
ProgressProps.v
RosterProps.v
RefinementProps.v
LifeCycleProps.v
InterleavingProps.v
ConfigProps.v
