(* ===== verification/Prelude.v ===== *)
(** * BuzzWeb signaling server: a verification development

    BuzzWeb is a WebSocket server through which the browsers of a video call find
    each other: a client creates a room or joins one by its code, learns who else
    is in it, and exchanges WebRTC offers, answers and ICE candidates with them.
    This library models the C++ program under src/ - all of it but the logging
    and the libraries it calls - and proves what its layers promise.

    ** The program and its model

    The layers, from the inside out; an arrow is a call:

    net (Listener, Session, SessionRegistry, Server) -> app (ProtocolCodec,
    ControlDispatcher, RoomService) -> domain (RoomRepository, Room, Participant)

    - Prelude.v: computations [prog E S A] that change a state [S] and may throw;
      what was written before a throw stays written, as in C++.  Simulations
      ([sim]) between computations on two representations of a state.
    - Text.v: [std::setw], [std::setfill] and the bases of [std::ostream].
    - UnorderedMap.v: [std::unordered_map] as the list of its entries in iteration
      order; the order after a rehash is a parameter ([BucketOrder]).
    - Room.v: src/domain/Participant.cpp, src/domain/Room.cpp.
    - RoomRepository.v: the interface (include/buzzweb/domain/RoomRepository.hpp)
      as the class [RoomRepository], and its contract [LawfulRepository]: every
      operation simulates the abstract one on a finite map of rooms.
    - InMemoryRoomRepository.v: src/domain/InMemoryRoomRepository.cpp, and the
      proof that it meets the contract.
    - RoomService.v: include/buzzweb/app/Result.hpp, src/app/RoomService.cpp, over
      any repository, which may throw anywhere.  RoomServiceSpec.v: the use cases
      as pure functions of the finite map, the refinement to them over every
      lawful repository, and the invariants of the stored rooms.
    - Json.v: the interface of nlohmann::json, with the laws the proofs use; it is
      not part of the repository.  JsonTree.v: an instance, a small JSON printer
      and parser, with which the theorems are evaluated on message texts.
    - ControlDispatcher.v, ControlDispatcherSpec.v: src/app/ControlDispatcher.cpp;
      [dispatch_spec] is the abstract answer to a request.
    - ProtocolCodec.v, ProtocolCodecSpec.v: src/app/ProtocolCodec.cpp; [encodes]
      is the protocol as a relation between JSON values and requests.
    - SessionRegistry.v: src/net/SessionRegistry.cpp.
    - Session.v, SessionSpec.v: include/buzzweb/net/Session.hpp and
      src/net/Session.cpp; the specification is the outbox of each handler, the
      list of the messages it posts.
    - Config.v: src/util/Env.cpp, src/util/Config.cpp.
    - Server.v: src/net/Listener.cpp, src/net/Server.cpp, src/main.cpp.
    - System.v: [io_context_.run()] as a transition system.  SystemInv.v,
      SystemRun.v and SystemSafety.v: the invariant of its reachable states.
      MessageTypes.v: the messages the encoders produce, answers and
      notifications.  Rosters.v: what a client reads in them about its rooms.
      Effects.v: what each completion handler does to the network state, as a
      function of it.  Progress.v: the measure of the work that is left.
      Sending.v: what has been sent to a session, in its order.  Signaling.v: the
      service that the whole server provides, in the abstract.  LifeCycle.v: the
      phases of a session, as a state machine.
    - Interleaving.v: the use cases of RoomService.v on several threads, their
      calls of the repository interleaved by a schedule.  InterleavingSpec.v,
      InterleavingCalls.v and InterleavingRun.v: which calls each use case makes
      and what each call changes, and what every schedule preserves.
    - Samples.v: concrete parameters and runs.
    - RoomProps.v, ServiceProps.v, DispatchProps.v, ProtocolProps.v,
      SessionProps.v, SystemProps.v, ProgressProps.v, RosterProps.v,
      RefinementProps.v, LifeCycleProps.v, InterleavingProps.v, ConfigProps.v: the
      properties (C1 to C40, in the order of importance) and further theorems on
      the same components.

    Definitions have the names of the C++ functions where they are free; a state
    component has the name of the data member.  A lambda that captures locals by
    reference is an [Updater] with a component for the locals; a handler passed
    as [std::function] is an argument.

    ** The state of the server and its steps

    The service's state is the repository and the number of codes drawn so far;
    the network's ([Net]) is the registry, the session objects by address, the
    number of ids drawn so far, whether the acceptor is open, and [pending]: one
    element for each asynchronous operation that has been started and for each
    posted function object.  A step ([run_event]) takes any element out of
    [pending], with the outcome the environment gives it, and runs its handler to
    the end, as the server's single thread does.  A call of the public [Close] of
    a session or [Stop] of the listener is a step, too.  Nothing is assumed about
    the order in which operations complete, but for C3, C8 and C10 (below).  An
    exception that leaves a handler ends the process ([Crashed]).

    ** Several threads

    docs/ARCHITECTURE.md asks for repositories whose member functions are thread
    safe; InMemoryRoomRepository holds its mutex throughout each of them, so each
    is one atomic step.  The use cases are not atomic: each makes several calls.
    Interleaving.v runs the very definitions of RoomService.v and
    ControlDispatcher.v over a repository ([interfered]) whose contents at each
    call are whatever the other threads have made of them.  A thread is its list
    of tasks and the calls it has made; a step of the schedule ([run_step]) lets
    one thread make its next call on the shared contents, which is found by
    running the thread's code again on what its earlier calls have found
    ([replay]); as the code depends on the repository through its calls only,
    this resumes it where it was ([genuine_perform]).

    ** What is proved

    - The whole server (C2, C3, C21): it implements the abstract service of
      Signaling.v, in which there are rooms, participants online and the notices
      they are sent, but no sessions, registry, texts, queues or handlers.  The
      service is driven by what the events of the run mean ([action_of]): somebody
      connects, says something or disconnects; it leads to the rooms and the
      registered participants of the server, and what a client has read are the
      first of the notices to its participant.  [main] fails as the start-up does,
      or serves this ([main_serves_safely] of SystemProps.v: with one accept
      outstanding, never crashing).
    - The running server (C1, C4 to C6, C12 to C17, C20): no exception ends it;
      writes of a session do not overlap and keep their order, everything sent to
      an open session arrives, and so does one answer to each message it handles;
      the members of rooms are connected, unless a message that had already been
      read is handled after its session was closed, and then they need not be
      (C20); stored rooms are well formed; the registry is exact; without new
      input the server comes to rest, but for accepts that fail, which are retried
      at once; the listener keeps accepting until it is stopped; everything sent is
      a message of the protocol.
    - New clients (C7): whatever the others have done, a new one can connect, and
      what it asks can be answered.
    - What clients learn (C8 to C10): the affairs of a room are told to those who
      are in it only, but for the result of leaving it; the last list of
      participants a member is sent is that of the stored room; and the lists
      written to the members converge to it.
    - Sessions: their life is a state machine, which decides what they wait for;
      they are registered while they read, until they are closing (C11;
      [registered_sessions_read] of SystemProps.v).  Every message is answered
      exactly once, as docs/TODO.md requires of a request id (C18); who is sent what
      when a client signals (C19; [join_is_broadcast], [removal_notifies_rooms] and
      [rejected_message_changes_nothing] of SessionProps.v: when it joins,
      disconnects or sends something that is no request).
    - Dispatcher (C22), use cases (C23 to C26, C33, C34): functional behaviour on
      every branch, refinement to the abstract specification over every lawful
      repository, behaviour under a repository that throws.
    - Use cases on several threads (C27 to C32): no update is lost, membership is
      changed by one's own requests only, no empty room is left behind, joining
      and leaving take effect at one call, and requests are wait-free; creating a
      room and joining it is not atomic (C32).
    - Repository (C35): refinement to a finite map ([update_is_transactional] of
      RoomProps.v: transactions).
    - Protocol (C36 to C39): the decoder accepts exactly the protocol, and reports
      its errors with the request's id ([decode_fixes_sender] of ProtocolProps.v:
      it never lets a client speak for another); requests and responses
      round-trip ([event_readable] and [signal_readable]: events and relayed
      signals).
    - Configuration (C40; [port_silently_truncated] and [stoi_reads_prefix] of
      ConfigProps.v).

    Three assumptions are made where a theorem says so.  The participant ids drawn
    so far are different (64 random bits; C2, C3, C8, C10, C14, C21): the registry
    holds one session per id.  Posted lambdas run in order ([orderly], C3, and
    [fifo_reachable], C8, C10): Asio runs the function objects posted to an
    [io_context] of one thread in the order in which they were posted; of this only
    the order of those posted to the same session is assumed, and nothing on the
    order of other completions.  No late read is handled, that is, no message of a
    session that is no longer registered ([fifo_reachable], C8, C10, and the
    strict [reachable], C12): nothing in the code prevents one (C20).

    ** Parameters, bounds and fuel

    The bucket order of hash tables, the draws of the two random generators
    (any sequences within the ranges of their distributions), the JSON library
    with its laws, [getenv] and the results of socket and TLS calls are
    parameters.  All recursion of the model is structural but two printers and
    parsers: [digits] has the binary size of the number as fuel, enough for every
    base from two on ([undigits_digits]); [read_tree] of JsonTree.v has the length
    of the text, which suffices for every printed tree ([read_tree_print]).
    [CreateRoom] makes at most [max_attempts] attempts, as the code does; with the
    call of [JoinRoom] that makes 101 calls of the repository for a request, the
    bound of C31.  The event loop has no fuel: a run is a list of events.
    Integers are unbounded but where the code is not: [stoi] and the conversion
    of the port write the 32 and 16 bits out.

    ** What is not modelled

    Logging ([ConfigureLogging] and the log statements), which has no effect on
    the state; the exhaustion of memory or of the stack; the streams of
    Boost.Beast and Boost.Asio beyond the outcome of each operation; the lifetime
    of session objects ([shared_ptr] keeps them alive while a handler refers to
    them); the read buffer of a session, which each read handler consumes as a
    whole before the next read is started, so that the outcome of a read carries
    the message that the buffer holds.
    [io_context::stop], which [Server::Stop] calls after it has stopped the
    listener, ends the run: no handler runs after it.  The
    server constructs its [io_context] for one thread and runs it on one; sessions
    and the registry on several threads are not modelled, only the use cases on
    the shared repository are. *)

From stdpp Require Export base tactics list strings gmap fin_maps.

(** ** Computations that may throw

    A C++ function that touches state and may throw is a [prog E S A]: from a
    state it yields an outcome (a returned value or a thrown exception) and the
    state at that point.  The writes made before a throw stay made, as in C++:
    nothing is rolled back unless the code does it. *)

Inductive outcome (E A : Type) : Type :=
| Ret (a : A)
| Throw (e : E).
Arguments Ret {E A} a.
Arguments Throw {E A} e.

#[export] Instance outcome_eq_dec `{EqDecision E, EqDecision A} :
  EqDecision (outcome E A).
Proof. solve_decision. Defined.

Definition obind {E A B} (m : outcome E A) (f : A → outcome E B) : outcome E B :=
  match m with
  | Ret a => f a
  | Throw e => Throw e
  end.

Definition ocatch {E F A} (m : outcome E A) (h : E → outcome F A) : outcome F A :=
  match m with
  | Ret a => Ret a
  | Throw e => h e
  end.

Definition prog (E S A : Type) : Type := S → outcome E A * S.

Section prog.
Context {E S : Type}.

Definition pret {A} (a : A) : prog E S A := λ s, (Ret a, s).

Definition pthrow {A} (e : E) : prog E S A := λ s, (Throw e, s).

Definition pbind {A B} (m : prog E S A) (f : A → prog E S B) : prog E S B :=
  λ s, match m s with
       | (Ret a, s') => f a s'
       | (Throw e, s') => (Throw e, s')
       end.

(** [try { m } catch (const E& e) { h e }]: the handler runs in the state the
    throw left. *)
Definition ptry {A} (m : prog E S A) (h : E → prog E S A) : prog E S A :=
  λ s, match m s with
       | (Ret a, s') => (Ret a, s')
       | (Throw e, s') => h e s'
       end.

Definition pget : prog E S S := λ s, (Ret s, s).

Definition pmodify (f : S → S) : prog E S unit := λ s, (Ret tt, f s).

Definition pgets {A} (f : S → A) : prog E S A := λ s, (Ret (f s), s).

(** A pure outcome as a computation that leaves the state alone. *)
Definition plift {A} (o : outcome E A) : prog E S A := λ s, (o, s).

(** A range-based [for] over a vector fixed before the loop starts. *)
Fixpoint pfor {A} (l : list A) (body : A → prog E S unit) : prog E S unit :=
  match l with
  | [] => pret tt
  | x :: l => pbind (body x) (λ _, pfor l body)
  end.
End prog.

(** Calling a function that owns the first (second) half of the state. *)
Definition on_fst {E S T A} (m : prog E S A) : prog E (S * T) A :=
  λ '(s, t), let '(o, s') := m s in (o, (s', t)).

Definition on_snd {E S T A} (m : prog E T A) : prog E (S * T) A :=
  λ '(s, t), let '(o, t') := m t in (o, (s, t')).

(** A block with local variables [c]: they are in scope (and may be captured by
    a lambda) while [m] runs and are gone afterwards. *)
Definition with_locals {E C S A} (c : C) (m : prog E (C * S) A) : prog E S A :=
  λ s, let '(o, (_, s')) := m (c, s) in (o, s').

Declare Scope prog_scope.
Delimit Scope prog_scope with prog.
Notation "x <- m ;; k" := (pbind m (λ x, k))
  (at level 100, m at next level, right associativity) : prog_scope.
Notation "m ;; k" := (pbind m (λ _, k))
  (at level 100, right associativity) : prog_scope.

Declare Scope outcome_scope.
Delimit Scope outcome_scope with outcome.
Notation "x <- m ;; k" := (obind m (λ x, k))
  (at level 100, m at next level, right associativity) : outcome_scope.

(** *** Laws and run lemmas *)

Section prog_lemmas.
Context {E S : Type}.

Lemma pbind_ret {A B} (m : prog E S A) (f : A → prog E S B) s a s' :
  m s = (Ret a, s') → pbind m f s = f a s'.
Proof. unfold pbind. by intros ->. Qed.

Lemma pbind_throw {A B} (m : prog E S A) (f : A → prog E S B) s e s' :
  m s = (Throw e, s') → pbind m f s = (Throw e, s').
Proof. unfold pbind. by intros ->. Qed.

Lemma ptry_ret {A} (m : prog E S A) h s a s' :
  m s = (Ret a, s') → ptry m h s = (Ret a, s').
Proof. unfold ptry. by intros ->. Qed.

Lemma ptry_throw {A} (m : prog E S A) h s e s' :
  m s = (Throw e, s') → ptry m h s = h e s'.
Proof. unfold ptry. by intros ->. Qed.

Lemma pbind_inv {A B} (m : prog E S A) (f : A → prog E S B) s b s' :
  pbind m f s = (Ret b, s') →
  ∃ a s1, m s = (Ret a, s1) ∧ f a s1 = (Ret b, s').
Proof. unfold pbind. destruct (m s) as [[a|e] s1]; naive_solver. Qed.

Lemma pfor_app {A} (l k : list A) (body : A → prog E S unit) s :
  pfor (l ++ k) body s = pbind (pfor l body) (λ _, pfor k body) s.
Proof.
  revert s. induction l as [|x l IH]; intros s; [done|].
  simpl. unfold pbind in *. destruct (body x s) as [[[]|e] s']; auto.
Qed.

(** A loop whose body never throws is a fold of its effect. *)
Lemma pfor_fold {A} (body : A → prog E S unit) (f : A → S → S) l s :
  (∀ x s, x ∈ l → body x s = (Ret tt, f x s)) →
  pfor l body s = (Ret tt, foldl (λ s x, f x s) s l).
Proof.
  revert s. induction l as [|x l IH]; intros s Hb; [done|].
  simpl. erewrite pbind_ret by (apply Hb; left).
  apply IH. intros y s' Hy. apply Hb. by right.
Qed.

(** A loop invariant: if each iteration returns and keeps [I], the loop
    returns and keeps it. *)
Lemma pfor_inv {A} (I : S → Prop) (body : A → prog E S unit) l s :
  I s →
  (∀ x s, x ∈ l → I s → ∃ s', body x s = (Ret tt, s') ∧ I s') →
  ∃ s', pfor l body s = (Ret tt, s') ∧ I s'.
Proof.
  revert s. induction l as [|x l IH]; intros s HI Hb; [by exists s|].
  destruct (Hb x s) as (s1 & Hx & HI1); [by left|done|].
  simpl. rewrite (pbind_ret _ _ _ _ _ Hx).
  apply IH; [done|]. intros y s' Hy. apply Hb. by right.
Qed.
End prog_lemmas.

Create HintDb prog discriminated.
Create HintDb sim discriminated.
#[export] Hint Unfold pret pthrow pget pmodify pgets plift : prog.

(** Runs the computation in the goal as far as its calls are known. *)
Ltac prun :=
  unfold pbind, ptry, pret, pthrow, pget, pgets, pmodify, plift, on_fst, on_snd,
    with_locals in *; simpl in *.

(** Splits on the scrutinee of a match in the goal or a hypothesis, then
    simplifies. *)
Ltac case_step :=
  match goal with
  | |- context [match ?x with _ => _ end] =>
      lazymatch x with
      | context [match _ with _ => _ end] => fail
      | _ => destruct x eqn:?
      end
  | H : context [match ?x with _ => _ end] |- _ =>
      lazymatch x with
      | context [match _ with _ => _ end] => fail
      | _ => destruct x eqn:?
      end
  end; simplify_eq/=.

(** ** C++ exceptions

    The classes of the standard hierarchy the program throws or catches, each
    with the text [what()] returns.  Those of the third-party libraries that
    also derive from [std::exception] are in [foreign_exception]. *)
Inductive exception : Type :=
| invalid_argument (what : string)
| out_of_range (what : string)
| runtime_error (what : string)
| bad_variant_access
| bad_optional_access
| foreign_exception (what : string).

#[export] Instance exception_eq_dec : EqDecision exception.
Proof. solve_decision. Defined.

(** ** Lists *)

(** [std::find_if]: the position of the first element that satisfies [p]. *)
Fixpoint find_pos {A} (p : A → bool) (l : list A) : option nat :=
  match l with
  | [] => None
  | x :: l => if p x then Some 0 else S <$> find_pos p l
  end.

Lemma find_pos_Some {A} (p : A → bool) l i :
  find_pos p l = Some i ↔
  ∃ x, l !! i = Some x ∧ p x = true ∧ ∀ j y, j < i → l !! j = Some y → p y = false.
Proof.
  revert i. induction l as [|x l IH]; intros i; simpl.
  { by split; [|intros (x & Hx & _)]. }
  destruct (p x) eqn:Hpx.
  { split.
    - intros [= <-]. exists x. split_and!; [done..|]. intros j y ?. lia.
    - intros (y & Hy & Hpy & Hfirst). destruct i as [|i]; [done|].
      specialize (Hfirst 0 x ltac:(lia) eq_refl). congruence. }
  rewrite fmap_Some. setoid_rewrite IH. split.
  - intros (k & (y & Hy & Hpy & Hfirst) & ->). exists y. split_and!; [done..|].
    intros [|j] z Hj Hz; simpl in *; [congruence|]. apply (Hfirst j); [lia|done].
  - intros (y & Hy & Hpy & Hfirst). destruct i as [|i]; simpl in *; [congruence|].
    exists i. split; [|done]. exists y. split_and!; [done..|].
    intros j z Hj Hz. apply (Hfirst (S j)); [lia|done].
Qed.

Lemma find_pos_None {A} (p : A → bool) l :
  find_pos p l = None ↔ ∀ x, x ∈ l → p x = false.
Proof.
  induction l as [|x l IH]; simpl.
  { split; [|done]. intros _ x Hx. by apply elem_of_nil in Hx. }
  destruct (p x) eqn:Hpx.
  { split; [done|]. intros H. specialize (H x ltac:(left)). congruence. }
  rewrite fmap_None, IH. setoid_rewrite elem_of_cons. split.
  - by intros H y [->|Hy]; [|apply H].
  - intros H y Hy. apply H. by right.
Qed.

Lemma existsb_true {A} (p : A → bool) l :
  existsb p l = true ↔ ∃ x, x ∈ l ∧ p x = true.
Proof. rewrite existsb_exists. by setoid_rewrite list_elem_of_In. Qed.

Lemma existsb_false {A} (p : A → bool) l :
  existsb p l = false ↔ ∀ x, x ∈ l → p x = false.
Proof.
  rewrite <- not_true_iff_false, existsb_true. split.
  - intros H x Hx. apply not_true_iff_false. naive_solver.
  - intros H (x & Hx & Hp). specialize (H x Hx). congruence.
Qed.

Lemma filter_id {A} (P : A → Prop) `{!∀ x, Decision (P x)} (l : list A) :
  (∀ x, x ∈ l → P x) → filter P l = l.
Proof.
  induction l as [|x l IH]; intros HP; [done|].
  rewrite filter_cons_True by (apply HP; left). f_equal. apply IH.
  intros y Hy. apply HP. by right.
Qed.

(** ** Simulation of one computation by another

    [sim Q m m']: from related states both computations have the same outcome
    (value or exception) and end in related states.  The congruence lemmas lift
    a simulation of the primitive calls to the programs composed of them. *)

Definition sim {E S T A} (Q : S → T → Prop) (m : prog E S A) (m' : prog E T A) : Prop :=
  ∀ s t, Q s t → ∃ o s' t', m s = (o, s') ∧ m' t = (o, t') ∧ Q s' t'.

(** Related states that carry the same extra component. *)
Definition with_left {C S T} (Q : S → T → Prop) : C * S → C * T → Prop :=
  λ p q, p.1 = q.1 ∧ Q p.2 q.2.

Definition with_right {C S T} (Q : S → T → Prop) : S * C → T * C → Prop :=
  λ p q, Q p.1 q.1 ∧ p.2 = q.2.

Section sim.
Context {E S T : Type} (Q : S → T → Prop).

Lemma sim_ret {A} (a : A) : sim (E := E) Q (pret a) (pret a).
Proof. intros s t HQ. by eexists (Ret a), s, t. Qed.

Lemma sim_throw {A} (e : E) : sim (A := A) Q (pthrow e) (pthrow e).
Proof. intros s t HQ. by eexists (Throw e), s, t. Qed.

Lemma sim_lift {A} (o : outcome E A) : sim Q (plift o) (plift o).
Proof. intros s t HQ. by eexists o, s, t. Qed.

Lemma sim_bind {A B} (m : prog E S A) (m' : prog E T A)
    (f : A → prog E S B) (f' : A → prog E T B) :
  sim Q m m' → (∀ a, sim Q (f a) (f' a)) → sim Q (pbind m f) (pbind m' f').
Proof.
  intros Hm Hf s t HQ. destruct (Hm s t HQ) as ([a|e] & s1 & t1 & Hs & Ht & HQ1).
  - destruct (Hf a s1 t1 HQ1) as (o & s2 & t2 & Hs2 & Ht2 & HQ2).
    exists o, s2, t2. unfold pbind. by rewrite Hs, Ht.
  - exists (Throw e), s1, t1. unfold pbind. by rewrite Hs, Ht.
Qed.

Lemma sim_try {A} (m : prog E S A) (m' : prog E T A) h h' :
  sim Q m m' → (∀ e, sim Q (h e) (h' e)) → sim Q (ptry m h) (ptry m' h').
Proof.
  intros Hm Hh s t HQ. destruct (Hm s t HQ) as ([a|e] & s1 & t1 & Hs & Ht & HQ1).
  - exists (Ret a), s1, t1. unfold ptry. by rewrite Hs, Ht.
  - destruct (Hh e s1 t1 HQ1) as (o & s2 & t2 & Hs2 & Ht2 & HQ2).
    exists o, s2, t2. unfold ptry. by rewrite Hs, Ht.
Qed.

Lemma sim_for {A} (l : list A) (b : A → prog E S unit) (b' : A → prog E T unit) :
  (∀ x, x ∈ l → sim Q (b x) (b' x)) → sim Q (pfor l b) (pfor l b').
Proof.
  induction l as [|x l IH]; intros Hb; simpl; [apply sim_ret|].
  apply sim_bind; [apply Hb; left|]. intros _. apply IH.
  intros y Hy. apply Hb. by right.
Qed.

Lemma sim_with_locals {C A} (c : C) (m : prog E (C * S) A) (m' : prog E (C * T) A) :
  sim (with_left Q) m m' → sim Q (with_locals c m) (with_locals c m').
Proof.
  intros Hm s t HQ.
  destruct (Hm (c, s) (c, t)) as (o & [c1 s1] & [c2 t1] & Hs & Ht & [Hc HQ1]);
    [by split|].
  exists o, s1, t1. unfold with_locals. by rewrite Hs, Ht.
Qed.

(** A call on the enclosing state from inside a block with locals. *)
Lemma sim_on_snd_left {C A} (m : prog E S A) (m' : prog E T A) :
  sim Q m m' → sim (with_left (C := C) Q) (on_snd m) (on_snd m').
Proof.
  intros Hm [c s] [c' t] [Hc HQ]. simpl in *. subst c'.
  destruct (Hm s t HQ) as (o & s1 & t1 & Hs & Ht & HQ1).
  exists o, (c, s1), (c, t1). rewrite Hs, Ht. by split_and!.
Qed.

Lemma sim_locals {C} :
  sim (E := E) (with_left (C := C) Q) (pgets fst) (pgets fst).
Proof.
  intros [c s] [c' t] [Hc HQ]. simpl in *. subst c'.
  by eexists (Ret c), (c, s), (c, t).
Qed.

Lemma sim_on_fst {C A} (m : prog E S A) (m' : prog E T A) :
  sim Q m m' → sim (with_right (C := C) Q) (on_fst m) (on_fst m').
Proof.
  intros Hm [s c] [t c'] [HQ Hc]. simpl in *. subst c'.
  destruct (Hm s t HQ) as (o & s1 & t1 & Hs & Ht & HQ1).
  exists o, (s1, c), (t1, c). rewrite Hs, Ht. by split_and!.
Qed.

Lemma sim_on_snd {C A} (m : prog E C A) :
  sim (with_right (C := C) Q) (on_snd m) (on_snd m).
Proof.
  intros [s c] [t c'] [HQ Hc]. simpl in *. subst c'. destruct (m c) as [o c'].
  exists o, (s, c'), (t, c'). by split_and!.
Qed.
End sim.

#[export] Hint Resolve sim_ret sim_throw sim_lift sim_bind sim_try sim_for
  sim_with_locals sim_on_fst sim_on_snd sim_on_snd_left sim_locals : sim.
