(* ===== verification/Text.v ===== *)
(** * Text: the number formatting the program takes from the standard library

    [GenerateRoomCode] and [GenerateParticipantId] print an unsigned integer on
    a [std::ostringstream], in base 10 or (after [std::hex]) 16, padded on the
    left by [std::setw] and [std::setfill].  This file models that formatting
    and gives its inverse, from which the generators' theorems follow. *)

From S2P Require Import Prelude.
From Stdlib Require Import Ascii.
From stdpp Require Import numbers list.


Local Open Scope N_scope.

Definition digit_chars : list ascii :=
  String.list_ascii_of_string "0123456789abcdef".

Definition digit_char (d : N) : ascii :=
  default "?"%char (digit_chars !! N.to_nat d).

(** The digits of [n] in base [b], most significant first; [0] prints as one
    digit.  [N.size n] rounds are enough for any base from 2 on. *)
Fixpoint digits_go (fuel : nat) (b n : N) (acc : list N) : list N :=
  match fuel with
  | O => n :: acc
  | S fuel =>
      if n <? b then n :: acc else digits_go fuel b (n / b) (n mod b :: acc)
  end.

Definition digits (b n : N) : list N := digits_go (N.size_nat n) b n [].

Definition undigits (b : N) (ds : list N) : N :=
  foldl (λ acc d, acc * b + d) 0 ds.

(** [stream << std::setw(w) << std::setfill('0') << n]: the value is padded up
    to [w] characters and never cut. *)
Definition setw_fill0 (w : nat) (ds : list N) : list N :=
  replicate (w - length ds) 0 ++ ds.

Definition text_of (ds : list N) : string :=
  String.string_of_list_ascii (digit_char <$> ds).

(** ** Digits *)

Lemma digits_go_bound fuel b n acc :
  1 < b → n < b ^ N.of_nat (S fuel) → Forall (λ d, d < b) acc →
  Forall (λ d, d < b) (digits_go fuel b n acc).
Proof.
  intros Hb. revert n acc. induction fuel as [|fuel IH]; intros n acc Hn Hacc; simpl.
  { constructor; [|done]. by rewrite N.pow_1_r in Hn. }
  destruct (N.ltb_spec n b) as [Hlt|Hge]; [by constructor|].
  apply IH.
  - apply N.Div0.div_lt_upper_bound. rewrite <- N.pow_succ_r'. by rewrite <- Nat2N.inj_succ.
  - constructor; [|done]. apply N.mod_lt. lia.
Qed.

Lemma size_pow2 n : n < 2 ^ N.of_nat (S (N.size_nat n)).
Proof.
  destruct n as [|p]; [done|].
  apply N.lt_trans with (2 ^ N.size (N.pos p)); [apply N.size_gt|].
  apply N.pow_lt_mono_r; [lia|]. simpl.
  enough (Pos.size_nat p = Pos.to_nat (Pos.size p)) by lia.
  induction p as [p IH|p IH|]; simpl; rewrite ?IH, ?Pos2Nat.inj_succ; done.
Qed.

Lemma digits_fuel b n : 1 < b → n < b ^ N.of_nat (S (N.size_nat n)).
Proof.
  intros Hb. eapply N.lt_le_trans; [apply size_pow2|].
  apply N.pow_le_mono_l. lia.
Qed.

Lemma digits_bound b n : 1 < b → Forall (λ d, d < b) (digits b n).
Proof.
  intros Hb. apply digits_go_bound; [done| |by constructor].
  by apply digits_fuel.
Qed.

Lemma undigits_app b ds ds' :
  undigits b (ds ++ ds') = foldl (λ acc d, acc * b + d) (undigits b ds) ds'.
Proof. unfold undigits. by rewrite foldl_app. Qed.

Lemma digits_go_value fuel b n acc :
  1 < b → n < b ^ N.of_nat (S fuel) →
  undigits b (digits_go fuel b n acc) = foldl (λ acc d, acc * b + d) n acc.
Proof.
  intros Hb. revert n acc. induction fuel as [|fuel IH]; intros n acc Hn; simpl.
  { done. }
  destruct (N.ltb_spec n b) as [Hlt|Hge]; [done|].
  rewrite IH.
  - simpl. f_equal. rewrite N.mul_comm. symmetry. apply N.div_mod'.
  - apply N.Div0.div_lt_upper_bound. rewrite <- N.pow_succ_r'. by rewrite <- Nat2N.inj_succ.
Qed.

Lemma undigits_digits b n : 1 < b → undigits b (digits b n) = n.
Proof.
  intros Hb. unfold digits. rewrite digits_go_value; [done..|].
  by apply digits_fuel.
Qed.

Lemma digits_go_length fuel b n acc k :
  1 < b → n < b ^ N.of_nat (S k) →
  (length (digits_go fuel b n acc) ≤ S k + length acc)%nat.
Proof.
  intros Hb. revert n acc k. induction fuel as [|fuel IH]; intros n acc k Hn; simpl; [lia|].
  destruct (N.ltb_spec n b) as [Hlt|Hge]; simpl; [lia|].
  destruct k as [|k]; [rewrite N.pow_1_r in Hn; lia|].
  specialize (IH (n / b) (n mod b :: acc) k). simpl in IH.
  assert (n / b < b ^ N.of_nat (S k)); [|specialize (IH H); lia].
  apply N.Div0.div_lt_upper_bound. rewrite <- N.pow_succ_r'. by rewrite <- Nat2N.inj_succ.
Qed.

Lemma digits_length b n k :
  1 < b → (0 < k)%nat → n < b ^ N.of_nat k → (length (digits b n) ≤ k)%nat.
Proof.
  intros Hb Hk Hn. destruct k as [|k]; [lia|].
  pose proof (digits_go_length (N.size_nat n) b n [] k Hb Hn) as Hlen.
  unfold digits. simpl in *. lia.
Qed.

(** ** Padding *)

Lemma setw_fill0_length w ds :
  (length ds ≤ w)%nat → length (setw_fill0 w ds) = w.
Proof. intros H. unfold setw_fill0. rewrite length_app, length_replicate. lia. Qed.

Lemma undigits_setw_fill0 b w ds : undigits b (setw_fill0 w ds) = undigits b ds.
Proof.
  unfold setw_fill0. rewrite undigits_app. generalize (w - length ds)%nat as k.
  intros k. enough (undigits b (replicate k 0) = 0) as -> by done.
  unfold undigits. induction k as [|k IH]; simpl; [done|]. by rewrite N.mul_0_l.
Qed.

Lemma setw_fill0_bound b w ds :
  0 < b → Forall (λ d, d < b) ds → Forall (λ d, d < b) (setw_fill0 w ds).
Proof. intros Hb Hds. apply Forall_app. split; [|done]. by apply Forall_replicate. Qed.

(** ** Characters *)

Lemma digit_char_inj d d' :
  d < 16 → d' < 16 → digit_char d = digit_char d' → d = d'.
Proof.
  unfold digit_char. intros Hd Hd' Heq.
  assert (Hlook : ∀ e, e < 16 → digit_chars !! N.to_nat e = Some (digit_char e)).
  { intros e He. unfold digit_char.
    destruct (lookup_lt_is_Some_2 digit_chars (N.to_nat e)) as [c Hc];
      [simpl; lia|]. by rewrite Hc. }
  assert (NoDup digit_chars) as Hnd by (by apply (bool_decide_eq_true_1 _); vm_compute).
  apply N2Nat.inj. eapply NoDup_lookup; [done|by apply Hlook|].
  rewrite (Hlook d') by done. unfold digit_char. by rewrite Heq.
Qed.

Lemma string_of_list_ascii_length l :
  String.length (String.string_of_list_ascii l) = length l.
Proof. induction l; simpl; congruence. Qed.

Lemma string_of_list_ascii_inj l l' :
  String.string_of_list_ascii l = String.string_of_list_ascii l' → l = l'.
Proof.
  intros H. by rewrite <- (String.list_ascii_of_string_of_list_ascii l), H,
    String.list_ascii_of_string_of_list_ascii.
Qed.

Lemma text_of_length ds : String.length (text_of ds) = length ds.
Proof. unfold text_of. by rewrite string_of_list_ascii_length, length_fmap. Qed.

Lemma text_of_inj ds ds' :
  Forall (λ d, d < 16) ds → Forall (λ d, d < 16) ds' →
  text_of ds = text_of ds' → ds = ds'.
Proof.
  unfold text_of. intros Hds Hds' Heq%string_of_list_ascii_inj. revert ds' Hds' Heq.
  induction Hds as [|d ds Hd Hds IH]; intros [|d' ds'] Hds' Heq; [done..|].
  apply Forall_cons_1 in Hds' as [Hd' Hds']. simpl in Heq.
  injection Heq as Hc Heq. f_equal; [by apply digit_char_inj|by apply IH].
Qed.

Lemma text_of_chars ds c b :
  b ≤ 16 → Forall (λ d, d < b) ds → c ∈ String.list_ascii_of_string (text_of ds) →
  c ∈ take (N.to_nat b) digit_chars.
Proof.
  intros Hb Hds Hc. unfold text_of in Hc.
  rewrite String.list_ascii_of_string_of_list_ascii in Hc.
  apply list_elem_of_fmap in Hc as (d & -> & Hd).
  pose proof (proj1 (Forall_forall _ _) Hds d Hd) as Hlt. simpl in Hlt.
  apply list_elem_of_lookup. exists (N.to_nat d).
  rewrite lookup_take_lt by lia. unfold digit_char.
  destruct (lookup_lt_is_Some_2 digit_chars (N.to_nat d)) as [x Hx]; [simpl; lia|].
  by rewrite Hx.
Qed.

(** Padded printing in a base up to 16 loses nothing. *)
Lemma padded_inj b w n n' :
  1 < b → b ≤ 16 →
  text_of (setw_fill0 w (digits b n)) = text_of (setw_fill0 w (digits b n')) →
  n = n'.
Proof.
  intros Hb Hb16 Heq.
  assert (H16 : ∀ m, Forall (λ d, d < 16) (setw_fill0 w (digits b m))).
  { intros m. eapply Forall_impl; [apply setw_fill0_bound, digits_bound; lia|].
    simpl. lia. }
  apply text_of_inj in Heq; [|done..].
  rewrite <- (undigits_digits b n), <- (undigits_digits b n') by done.
  rewrite <- (undigits_setw_fill0 b w (digits b n)),
    <- (undigits_setw_fill0 b w (digits b n')). by rewrite Heq.
Qed.

Lemma padded_length b w n :
  1 < b → (0 < w)%nat → n < b ^ N.of_nat w →
  String.length (text_of (setw_fill0 w (digits b n))) = w.
Proof.
  intros. rewrite text_of_length. apply setw_fill0_length. by apply digits_length.
Qed.
