(* ===== verification/UnorderedMap.v ===== *)
(** * UnorderedMap: [std::unordered_map] with string keys

    The standard leaves the iteration order of [std::unordered_map] open: an
    insertion may rehash and reorder the whole table, an erasure keeps the order
    of the elements that stay.  A table is therefore the list of its entries in
    iteration order together with the number of insertions so far, and the order
    after the [n]-th insertion is a parameter ([BucketOrder]) of which only the
    fact that it permutes the entries is known.

    [to_gmap] forgets the order; the lemmas relate every operation to the
    corresponding operation of [gmap], so that the clients reason about finite
    maps. *)

From S2P Require Import Prelude.

Class BucketOrder : Type := {
  rehash : ∀ {V : Type}, nat → list (string * V) → list (string * V);
  rehash_perm : ∀ {V} n (l : list (string * V)), rehash n l ≡ₚ l
}.

Record umap (V : Type) : Type := UMap {
  um_items : list (string * V);
  um_inserts : nat
}.
Arguments UMap {V}.
Arguments um_items {V}.
Arguments um_inserts {V}.

Section umap.
Context {BO : BucketOrder} {V : Type}.
Implicit Types (m : umap V) (k : string) (v : V).

Definition um_empty : umap V := UMap [] 0.

(** [find]: the mapped value, or [end()]. *)
Definition um_find k m : option V :=
  (λ r, r.2.2) <$> list_find (λ kv, kv.1 = k) (um_items m).

(** [contains] *)
Definition um_contains k m : bool := bool_decide (k ∈ (um_items m).*1).

(** The insertion of a new node. *)
Definition um_insert_new k v m : umap V :=
  UMap (rehash (um_inserts m) ((k, v) :: um_items m)) (S (um_inserts m)).

(** [emplace]: whether the insertion took place; an existing entry wins. *)
Definition um_emplace k v m : bool * umap V :=
  if um_contains k m then (false, m) else (true, um_insert_new k v m).

(** [it->second = v] for the iterator of the entry of [k]. *)
Definition um_assign k v m : umap V :=
  UMap ((λ kv, if decide (kv.1 = k) then (k, v) else kv) <$> um_items m)
    (um_inserts m).

(** [m[k] = v] *)
Definition um_set k v m : umap V :=
  if um_contains k m then um_assign k v m else um_insert_new k v m.

(** [erase(k)]: the number of removed elements. *)
Definition um_erase k m : nat * umap V :=
  (if um_contains k m then 1 else 0,
   UMap (filter (λ kv, kv.1 ≠ k) (um_items m)) (um_inserts m)).

(** The keys in iteration order. *)
Definition um_keys m : list string := (um_items m).*1.

Definition to_gmap m : gmap string V := list_to_map (um_items m).

(** Keys are unique. *)
Definition um_wf m : Prop := NoDup (um_keys m).
End umap.

Section umap_lemmas.
Context {BO : BucketOrder} {V : Type}.
Implicit Types (m : umap V) (k : string) (v : V).

Lemma um_contains_spec k m :
  um_contains k m = bool_decide (is_Some (to_gmap m !! k)).
Proof.
  unfold um_contains, to_gmap. apply bool_decide_ext.
  rewrite <- not_eq_None_Some, <- not_elem_of_list_to_map.
  destruct (decide (k ∈ (um_items m).*1)); naive_solver.
Qed.

Lemma um_find_spec k m : um_find k m = to_gmap m !! k.
Proof.
  unfold um_find, to_gmap. induction (um_items m) as [|[k' v] l IH]; [done|].
  cbn. case_decide as Hk; simplify_eq/=; [by rewrite lookup_insert_eq|].
  rewrite lookup_insert_ne by done. rewrite <- IH.
  by destruct (list_find _ l) as [[i [? ?]]|].
Qed.

Lemma um_keys_elem k m : k ∈ um_keys m ↔ is_Some (to_gmap m !! k).
Proof.
  unfold um_keys, to_gmap. rewrite <- not_eq_None_Some, <- not_elem_of_list_to_map.
  destruct (decide (k ∈ (um_items m).*1)); naive_solver.
Qed.

Lemma um_wf_empty : um_wf (um_empty (V := V)).
Proof. constructor. Qed.

Lemma to_gmap_empty : to_gmap (um_empty (V := V)) = ∅.
Proof. done. Qed.

Lemma um_insert_new_keys k v m : um_keys (um_insert_new k v m) ≡ₚ k :: um_keys m.
Proof. unfold um_keys, um_insert_new. simpl. by rewrite rehash_perm. Qed.

Lemma um_wf_insert_new k v m :
  um_wf m → to_gmap m !! k = None → um_wf (um_insert_new k v m).
Proof.
  unfold um_wf. intros Hm Hk. rewrite um_insert_new_keys. constructor; [|done].
  rewrite um_keys_elem, Hk. by intros [? ?].
Qed.

Lemma to_gmap_insert_new k v m :
  um_wf m → to_gmap m !! k = None →
  to_gmap (um_insert_new k v m) = <[k := v]> (to_gmap m).
Proof.
  intros Hm Hk. pose proof (um_wf_insert_new k v m Hm Hk) as Hwf.
  unfold to_gmap. change (<[k:=v]> (list_to_map (um_items m)) : gmap string V)
    with (list_to_map ((k, v) :: um_items m) : gmap string V).
  apply list_to_map_proper; [done|]. apply rehash_perm.
Qed.

Lemma um_assign_keys k v m : um_keys (um_assign k v m) = um_keys m.
Proof.
  unfold um_keys, um_assign. simpl. rewrite <- list_fmap_compose.
  apply list_fmap_ext. intros i [k' v'] _. simpl. by case_decide.
Qed.

Lemma um_assign_absent k v (l : list (string * V)) :
  k ∉ l.*1 → (λ kv, if decide (kv.1 = k) then (k, v) else kv) <$> l = l.
Proof.
  induction l as [|[k' w] l IH]; [done|]. rewrite fmap_cons, not_elem_of_cons.
  intros [Hne Hnot]. rewrite fmap_cons, IH by done. by rewrite decide_False.
Qed.

Lemma to_gmap_assign k v m :
  is_Some (to_gmap m !! k) → to_gmap (um_assign k v m) = <[k := v]> (to_gmap m).
Proof.
  unfold to_gmap, um_assign. simpl.
  induction (um_items m) as [|[k' v'] l IH]; intros Hk; simpl in *.
  { by destruct Hk. }
  case_decide as Heq; simplify_eq/=.
  - destruct (decide (is_Some ((list_to_map l : gmap string V) !! k))) as [Hin|Hin].
    + rewrite IH by done. by rewrite !insert_insert_eq.
    + rewrite insert_insert_eq, um_assign_absent; [done|].
      apply not_elem_of_list_to_map. by apply eq_None_not_Some.
  - rewrite lookup_insert_ne in Hk by done. rewrite IH by done.
    by rewrite insert_insert_ne.
Qed.

Lemma um_wf_assign k v m : um_wf m → um_wf (um_assign k v m).
Proof. unfold um_wf. by rewrite um_assign_keys. Qed.

Lemma um_wf_set k v m : um_wf m → um_wf (um_set k v m).
Proof.
  intros Hm. unfold um_set. rewrite um_contains_spec.
  case_bool_decide as Hk; [by apply um_wf_assign|].
  apply um_wf_insert_new; [done|by apply eq_None_not_Some].
Qed.

Lemma to_gmap_set k v m :
  um_wf m → to_gmap (um_set k v m) = <[k := v]> (to_gmap m).
Proof.
  intros Hm. unfold um_set. rewrite um_contains_spec.
  case_bool_decide as Hk; [by apply to_gmap_assign|].
  apply to_gmap_insert_new; [done|by apply eq_None_not_Some].
Qed.

Lemma um_erase_keys k m :
  um_keys (um_erase k m).2 = filter (λ k', k' ≠ k) (um_keys m).
Proof.
  unfold um_keys, um_erase. simpl. induction (um_items m) as [|[k' v] l IH]; [done|].
  rewrite fmap_cons. destruct (decide (k' = k)) as [->|Hne].
  - rewrite !filter_cons_False by (simpl; by intros []). exact IH.
  - rewrite !filter_cons_True by done. rewrite fmap_cons. by f_equal.
Qed.

Lemma um_wf_erase k m : um_wf m → um_wf (um_erase k m).2.
Proof. unfold um_wf. rewrite um_erase_keys. apply NoDup_filter. Qed.

Lemma to_gmap_erase k m : to_gmap (um_erase k m).2 = delete k (to_gmap m).
Proof.
  unfold to_gmap, um_erase. simpl.
  induction (um_items m) as [|[k' v] l IH]; simpl; [by rewrite delete_empty|].
  destruct (decide (k' = k)) as [->|Hne].
  - rewrite filter_cons_False by (simpl; by intros []).
    by rewrite delete_insert_eq.
  - rewrite filter_cons_True by done. simpl.
    by rewrite IH, delete_insert_ne.
Qed.

Lemma um_erase_count k m :
  (um_erase k m).1 = if decide (is_Some (to_gmap m !! k)) then 1 else 0.
Proof.
  simpl. rewrite um_contains_spec. by case_bool_decide; case_decide.
Qed.

Lemma um_keys_perm m : um_wf m → um_keys m ≡ₚ (map_to_list (to_gmap m)).*1.
Proof.
  intros Hm. unfold to_gmap. by rewrite map_to_list_to_map.
Qed.
End umap_lemmas.

(** Two concrete iteration orders, used to evaluate the definitions. *)
Definition push_front_order : BucketOrder.
Proof. refine {| rehash V n l := l |}. done. Defined.

Definition reversing_order : BucketOrder.
Proof. refine {| rehash V n l := reverse l |}. intros. apply reverse_Permutation. Defined.
