(* ===== verification/Room.v ===== *)
(** * Room: participants and rooms (the domain values)

    Models [Participant] (include/buzzweb/domain/Participant.hpp,
    src/domain/Participant.cpp) and [Room] (include/buzzweb/domain/Room.hpp,
    src/domain/Room.cpp).  Both are value objects: a mutating member function is
    a function that also returns the new value.  [std::string] is [string],
    [std::optional] is [option] and [std::vector] is [list]. *)

From S2P Require Import Prelude.

Abbreviation ParticipantId := string.
Abbreviation RoomCode := string.
Abbreviation RoomSecret := string.

(** ** Participant *)

Record Participant : Type := MkParticipant {
  id_ : ParticipantId;
  name_ : string
}.

#[export] Instance Participant_eq_dec : EqDecision Participant.
Proof. solve_decision. Defined.

Definition GetId (p : Participant) : ParticipantId := id_ p.
Definition GetName (p : Participant) : string := name_ p.
Definition SetName (name : string) (p : Participant) : Participant :=
  MkParticipant (id_ p) name.

(** ** Room *)

Module JoinRoomResult.
Inductive t : Type := Joined | InvalidSecret | SecretNotProvided | AlreadyInRoom.
#[global] Instance eq_dec : EqDecision t.
Proof. solve_decision. Defined.
End JoinRoomResult.

Module LeaveRoomResult.
Inductive t : Type := Left | NotInRoom.
#[global] Instance eq_dec : EqDecision t.
Proof. solve_decision. Defined.
End LeaveRoomResult.

Record Room : Type := MkRoom {
  code_ : RoomCode;
  room_secret_ : option RoomSecret;
  participants_ : list Participant
}.

#[export] Instance Room_eq_dec : EqDecision Room.
Proof. solve_decision. Defined.

Definition NewRoom (code : RoomCode) (room_secret : option RoomSecret) : Room :=
  MkRoom code room_secret [].

Definition GetCode (r : Room) : RoomCode := code_ r.

Definition IsSecretProtected (r : Room) : bool :=
  match room_secret_ r with Some _ => true | None => false end.

Definition IsEmpty (r : Room) : bool :=
  match participants_ r with [] => true | _ :: _ => false end.

(** The predicate both lookups and the removal use. *)
Definition has_id (participant_id : ParticipantId) (p : Participant) : bool :=
  bool_decide (GetId p = participant_id).

Definition HasParticipant (r : Room) (participant_id : ParticipantId) : bool :=
  existsb (has_id participant_id) (participants_ r).

Definition set_participants (r : Room) (l : list Participant) : Room :=
  MkRoom (code_ r) (room_secret_ r) l.

Definition TryAddParticipant (r : Room) (participant : Participant)
    (room_secret : option RoomSecret) : JoinRoomResult.t * Room :=
  if HasParticipant r (GetId participant) then
    (JoinRoomResult.AlreadyInRoom, r)
  else
    let add := (JoinRoomResult.Joined,
                set_participants r (participants_ r ++ [participant])) in
    match room_secret_ r with
    | None => add
    | Some own =>
        match room_secret with
        | None => (JoinRoomResult.SecretNotProvided, r)
        | Some given =>
            if decide (own ≠ given) then (JoinRoomResult.InvalidSecret, r) else add
        end
    end.

Definition RemoveParticipant (r : Room) (participant_id : ParticipantId)
    : LeaveRoomResult.t * Room :=
  if negb (HasParticipant r participant_id) then
    (LeaveRoomResult.NotInRoom, r)
  else
    (LeaveRoomResult.Left,
     set_participants r
       (filter (λ p, has_id participant_id p = false) (participants_ r))).

(** The two [FindParticipant] overloads.  The const one returns a copy; the
    other returns a reference into the vector, modelled as the position of the
    element it refers to. *)
Definition FindParticipant (r : Room) (participant_id : ParticipantId)
    : outcome exception Participant :=
  match list_find (λ p, has_id participant_id p = true) (participants_ r) with
  | Some (_, p) => Ret p
  | None => Throw (out_of_range "participant_not_found")
  end.

Definition FindParticipantRef (r : Room) (participant_id : ParticipantId)
    : outcome exception nat :=
  match find_pos (has_id participant_id) (participants_ r) with
  | Some i => Ret i
  | None => Throw (out_of_range "participant_not_found")
  end.

(** A write through the reference [FindParticipantRef] returned. *)
Definition write_ref (r : Room) (i : nat) (f : Participant → Participant) : Room :=
  set_participants r (alter f i (participants_ r)).

Definition GetParticipants (r : Room) : list Participant := participants_ r.

(** ** Lemmas *)

Definition ids (r : Room) : list ParticipantId := GetId <$> participants_ r.

(** A participant is listed at most once. *)
Definition room_wf (r : Room) : Prop := NoDup (ids r).

Lemma has_id_true pid p : has_id pid p = true ↔ GetId p = pid.
Proof. apply bool_decide_eq_true. Qed.

Lemma has_id_false pid p : has_id pid p = false ↔ GetId p ≠ pid.
Proof. apply bool_decide_eq_false. Qed.

Lemma HasParticipant_true r pid : HasParticipant r pid = true ↔ pid ∈ ids r.
Proof.
  unfold HasParticipant, ids. rewrite existsb_true, list_elem_of_fmap.
  setoid_rewrite has_id_true. naive_solver.
Qed.

Lemma HasParticipant_false r pid : HasParticipant r pid = false ↔ pid ∉ ids r.
Proof. rewrite <- not_true_iff_false. by rewrite HasParticipant_true. Qed.

Lemma IsEmpty_true r : IsEmpty r = true ↔ participants_ r = [].
Proof. unfold IsEmpty. by destruct (participants_ r). Qed.

Lemma IsEmpty_false r : IsEmpty r = false ↔ participants_ r ≠ [].
Proof. unfold IsEmpty. by destruct (participants_ r). Qed.

(** Whether the secret check of [TryAddParticipant] lets [given] pass. *)
Definition secret_ok (own given : option RoomSecret) : bool :=
  match own with
  | None => true
  | Some _ => bool_decide (own = given)
  end.

Definition join_outcome (r : Room) (p : Participant) (given : option RoomSecret)
    : JoinRoomResult.t :=
  if HasParticipant r (GetId p) then JoinRoomResult.AlreadyInRoom
  else if secret_ok (room_secret_ r) given then JoinRoomResult.Joined
  else match given with
       | None => JoinRoomResult.SecretNotProvided
       | Some _ => JoinRoomResult.InvalidSecret
       end.

Definition add_participant (r : Room) (p : Participant) : Room :=
  set_participants r (participants_ r ++ [p]).

Definition without (r : Room) (pid : ParticipantId) : Room :=
  set_participants r (filter (λ p, has_id pid p = false) (participants_ r)).

Lemma TryAddParticipant_eq r p given :
  TryAddParticipant r p given =
  (join_outcome r p given,
   if decide (join_outcome r p given = JoinRoomResult.Joined)
   then add_participant r p else r).
Proof.
  unfold TryAddParticipant, join_outcome, secret_ok.
  destruct (HasParticipant r (GetId p)); [done|].
  destruct (room_secret_ r) as [own|]; [|done].
  destruct given as [given|]; [|done].
  case_decide as Hne; case_bool_decide; simplify_eq; done.
Qed.

Lemma RemoveParticipant_eq r pid :
  RemoveParticipant r pid =
  (if HasParticipant r pid then LeaveRoomResult.Left else LeaveRoomResult.NotInRoom,
   without r pid).
Proof.
  unfold RemoveParticipant. destruct (HasParticipant r pid) eqn:Hp; simpl; [done|].
  unfold without, set_participants. destruct r as [c s l]. simpl. repeat f_equal.
  rewrite filter_id; [done|]. intros p Hin.
  unfold HasParticipant in Hp. by apply (proj1 (existsb_false _ _) Hp).
Qed.

Lemma ids_add r p : ids (add_participant r p) = ids r ++ [GetId p].
Proof. unfold ids. simpl. by rewrite fmap_app. Qed.

Lemma ids_without r pid : ids (without r pid) = filter (λ i, i ≠ pid) (ids r).
Proof.
  unfold ids. simpl. induction (participants_ r) as [|p l IH]; [done|].
  rewrite fmap_cons. destruct (decide (GetId p = pid)) as [Heq|Hne].
  - rewrite !filter_cons_False by (rewrite ?has_id_false; by intros []).
    done.
  - rewrite !filter_cons_True by (by rewrite ?has_id_false).
    rewrite fmap_cons. by f_equal.
Qed.

Lemma without_not_in r pid : pid ∉ ids (without r pid).
Proof. rewrite ids_without, list_elem_of_filter. naive_solver. Qed.

Lemma room_wf_new c s : room_wf (NewRoom c s).
Proof. constructor. Qed.

Lemma room_wf_add r p : room_wf r → GetId p ∉ ids r → room_wf (add_participant r p).
Proof.
  unfold room_wf. rewrite ids_add. intros Hr Hp. apply NoDup_app.
  split_and!; [done| |by apply NoDup_singleton].
  intros i Hi ->%list_elem_of_singleton. done.
Qed.

Lemma room_wf_without r pid : room_wf r → room_wf (without r pid).
Proof. unfold room_wf. rewrite ids_without. apply NoDup_filter. Qed.

Lemma without_add r p : GetId p ∉ ids r → without (add_participant r p) (GetId p) = r.
Proof.
  intros Hp. unfold without, add_participant. destruct r as [c s l]. simpl.
  unfold set_participants. simpl. f_equal. rewrite filter_app.
  rewrite filter_id; [rewrite filter_cons_False, app_nil_r; [done|]|].
  - rewrite has_id_false. naive_solver.
  - intros q Hq. apply has_id_false. intros Heq. apply Hp. unfold ids. simpl.
    rewrite <- Heq. by apply list_elem_of_fmap_2.
Qed.

Lemma without_fresh r pid : pid ∉ ids r → without r pid = r.
Proof.
  intros Hp%HasParticipant_false. pose proof (RemoveParticipant_eq r pid) as H.
  unfold RemoveParticipant in H. rewrite Hp in H. by injection H.
Qed.
