(* ===== verification/RoomRepository.v ===== *)
(** * RoomRepository: the storage interface and its contract

    Models the abstract class [RoomRepository] and its result enumerations
    (include/buzzweb/domain/RoomRepository.hpp).  The interface is the class
    [RoomRepository]; any member function of an implementation may throw.

    The contract is an abstract repository, [rooms_repository], whose state is a
    finite map from codes to rooms: [LawfulRepository R] says that every
    operation of the implementation [R] simulates the abstract one and that
    [GetRoomCodes] lists the keys in some order. *)

From S2P Require Import Prelude Room.

Module AddRoomResult.
Inductive t : Type := Added | AlreadyExists.
#[global] Instance eq_dec : EqDecision t.
Proof. solve_decision. Defined.
End AddRoomResult.

Module UpdateRoomResult.
Inductive t : Type := Updated | NotFound | Aborted.
#[global] Instance eq_dec : EqDecision t.
Proof. solve_decision. Defined.
End UpdateRoomResult.

Module RemoveRoomResult.
Inductive t : Type := Removed | NotFound.
#[global] Instance eq_dec : EqDecision t.
Proof. solve_decision. Defined.
End RemoveRoomResult.

Module RemoveEmptyRoomResult.
Inductive t : Type := Removed | NotEmpty | NotFound.
#[global] Instance eq_dec : EqDecision t.
Proof. solve_decision. Defined.
End RemoveEmptyRoomResult.

Module TransactionResult.
Inductive t : Type := Commit | Abort.
#[global] Instance eq_dec : EqDecision t.
Proof. solve_decision. Defined.
End TransactionResult.

(** [std::function<TransactionResult(Room&)>]: a closure over the locals [C] of
    its caller that may write them and the room it is given. *)
Definition Updater (C : Type) : Type := prog exception (C * Room) TransactionResult.t.

Class RoomRepository (R : Type) : Type := {
  repo_Add : Room → prog exception R AddRoomResult.t;
  repo_FindByCode : RoomCode → prog exception R (option Room);
  repo_Update : ∀ {C : Type},
    RoomCode → Updater C → prog exception (C * R) UpdateRoomResult.t;
  repo_Remove : RoomCode → prog exception R RemoveRoomResult.t;
  repo_RemoveIfEmpty : RoomCode → prog exception R RemoveEmptyRoomResult.t;
  repo_Exists : RoomCode → prog exception R bool;
  repo_ParticipantInRoom : ParticipantId → RoomCode → prog exception R bool;
  repo_GetRoomCodes : prog exception R (list RoomCode)
}.

(** ** The abstract repository *)

Section spec.
Implicit Types (rooms : gmap RoomCode Room) (code : RoomCode).

Definition spec_Add (room : Room) : prog exception (gmap RoomCode Room) AddRoomResult.t :=
  λ rooms,
    match rooms !! GetCode room with
    | Some _ => (Ret AddRoomResult.AlreadyExists, rooms)
    | None => (Ret AddRoomResult.Added, <[GetCode room := room]> rooms)
    end.

Definition spec_FindByCode code : prog exception (gmap RoomCode Room) (option Room) :=
  λ rooms, (Ret (rooms !! code), rooms).

(** A transaction: the updater works on a copy, which replaces the stored room
    only on [Commit]. *)
Definition spec_Update {C} code (updater : Updater C)
    : prog exception (C * gmap RoomCode Room) UpdateRoomResult.t :=
  λ '(c, rooms),
    match rooms !! code with
    | None => (Ret UpdateRoomResult.NotFound, (c, rooms))
    | Some room =>
        match updater (c, room) with
        | (Ret TransactionResult.Commit, (c', room')) =>
            (Ret UpdateRoomResult.Updated, (c', <[code := room']> rooms))
        | (Ret TransactionResult.Abort, (c', _)) =>
            (Ret UpdateRoomResult.Aborted, (c', rooms))
        | (Throw e, (c', _)) => (Throw e, (c', rooms))
        end
    end.

Definition spec_Remove code : prog exception (gmap RoomCode Room) RemoveRoomResult.t :=
  λ rooms,
    (Ret (if decide (is_Some (rooms !! code)) then RemoveRoomResult.Removed
          else RemoveRoomResult.NotFound), delete code rooms).

Definition spec_RemoveIfEmpty code
    : prog exception (gmap RoomCode Room) RemoveEmptyRoomResult.t :=
  λ rooms,
    match rooms !! code with
    | None => (Ret RemoveEmptyRoomResult.NotFound, rooms)
    | Some room =>
        if IsEmpty room then (Ret RemoveEmptyRoomResult.Removed, delete code rooms)
        else (Ret RemoveEmptyRoomResult.NotEmpty, rooms)
    end.

Definition spec_Exists code : prog exception (gmap RoomCode Room) bool :=
  λ rooms, (Ret (bool_decide (is_Some (rooms !! code))), rooms).

Definition in_room rooms code (pid : ParticipantId) : bool :=
  match rooms !! code with
  | Some room => HasParticipant room pid
  | None => false
  end.

Definition spec_ParticipantInRoom (pid : ParticipantId) code
    : prog exception (gmap RoomCode Room) bool :=
  λ rooms, (Ret (in_room rooms code pid), rooms).

Definition room_codes rooms : list RoomCode := (map_to_list rooms).*1.

Definition spec_GetRoomCodes : prog exception (gmap RoomCode Room) (list RoomCode) :=
  λ rooms, (Ret (room_codes rooms), rooms).
End spec.

#[export] Instance rooms_repository : RoomRepository (gmap RoomCode Room) := {|
  repo_Add := spec_Add;
  repo_FindByCode := spec_FindByCode;
  repo_Update := @spec_Update;
  repo_Remove := spec_Remove;
  repo_RemoveIfEmpty := spec_RemoveIfEmpty;
  repo_Exists := spec_Exists;
  repo_ParticipantInRoom := spec_ParticipantInRoom;
  repo_GetRoomCodes := spec_GetRoomCodes
|}.

(** ** The contract *)

Class LawfulRepository (R : Type) `{!RoomRepository R} : Type := {
  (** The representation invariant and the rooms a state stores. *)
  repo_wf : R → Prop;
  rooms_of : R → gmap RoomCode Room;
  repo_rel : R → gmap RoomCode Room → Prop := λ r rooms, repo_wf r ∧ rooms_of r = rooms;
  law_Add room : sim repo_rel (repo_Add room) (repo_Add room);
  law_FindByCode code : sim repo_rel (repo_FindByCode code) (repo_FindByCode code);
  law_Update {C} code (updater : Updater C) :
    sim (with_left repo_rel) (repo_Update code updater) (repo_Update code updater);
  law_Remove code : sim repo_rel (repo_Remove code) (repo_Remove code);
  law_RemoveIfEmpty code :
    sim repo_rel (repo_RemoveIfEmpty code) (repo_RemoveIfEmpty code);
  law_Exists code : sim repo_rel (repo_Exists code) (repo_Exists code);
  law_ParticipantInRoom pid code :
    sim repo_rel (repo_ParticipantInRoom pid code) (repo_ParticipantInRoom pid code);
  law_GetRoomCodes r :
    repo_wf r → ∃ codes,
      repo_GetRoomCodes r = (Ret codes, r) ∧ codes ≡ₚ room_codes (rooms_of r)
}.

#[export] Hint Resolve law_Add law_FindByCode law_Update law_Remove law_RemoveIfEmpty
  law_Exists law_ParticipantInRoom : sim.

(** ** Lemmas on the abstract repository *)

Lemma room_codes_elem (rooms : gmap RoomCode Room) code :
  code ∈ room_codes rooms ↔ is_Some (rooms !! code).
Proof.
  unfold room_codes. rewrite list_elem_of_fmap. split.
  - intros ([k r] & -> & Hin%elem_of_map_to_list). by exists r.
  - intros [r Hr]. exists (code, r). by rewrite elem_of_map_to_list.
Qed.

Lemma room_codes_NoDup (rooms : gmap RoomCode Room) : NoDup (room_codes rooms).
Proof. apply NoDup_fst_map_to_list. Qed.

Lemma in_room_true (rooms : gmap RoomCode Room) code pid :
  in_room rooms code pid = true ↔
  ∃ room, rooms !! code = Some room ∧ pid ∈ ids room.
Proof.
  unfold in_room. destruct (rooms !! code) as [room|].
  - rewrite HasParticipant_true. naive_solver.
  - naive_solver.
Qed.
