(* ===== verification/InMemoryRoomRepository.v ===== *)
(** * InMemoryRoomRepository: the repository the server runs with

    Models src/domain/InMemoryRoomRepository.cpp: a [std::unordered_map] from
    codes to rooms behind one mutex.  Every member function holds the mutex from
    its first to its last statement, so each is one atomic step on the table.
    The file ends with the proof that the table meets the repository contract. *)

From S2P Require Import Prelude UnorderedMap Room RoomRepository.

Abbreviation Rooms := (umap Room).

Section InMemoryRoomRepository.
Context {BO : BucketOrder}.
Implicit Types (room_code : RoomCode).

Definition NewRepository : Rooms := um_empty.

Definition Add (room : Room) : prog exception Rooms AddRoomResult.t :=
  λ rooms_,
    let room_code := GetCode room in
    let '(inserted, rooms_) := um_emplace room_code room rooms_ in
    if negb inserted then (Ret AddRoomResult.AlreadyExists, rooms_)
    else (Ret AddRoomResult.Added, rooms_).

Definition FindByCode room_code : prog exception Rooms (option Room) :=
  λ rooms_,
    match um_find room_code rooms_ with
    | None => (Ret None, rooms_)
    | Some room => (Ret (Some room), rooms_)
    end.

Definition Update {C} room_code (updater : Updater C)
    : prog exception (C * Rooms) UpdateRoomResult.t :=
  λ '(locals, rooms_),
    match um_find room_code rooms_ with
    | None => (Ret UpdateRoomResult.NotFound, (locals, rooms_))
    | Some room =>
        let '(result, (locals, updated_room)) := updater (locals, room) in
        match result with
        | Throw e => (Throw e, (locals, rooms_))
        | Ret TransactionResult.Abort =>
            (Ret UpdateRoomResult.Aborted, (locals, rooms_))
        | Ret TransactionResult.Commit =>
            (Ret UpdateRoomResult.Updated,
             (locals, um_assign room_code updated_room rooms_))
        end
    end.

Definition Remove room_code : prog exception Rooms RemoveRoomResult.t :=
  λ rooms_,
    let '(erased, rooms_) := um_erase room_code rooms_ in
    if decide (erased = 0) then (Ret RemoveRoomResult.NotFound, rooms_)
    else (Ret RemoveRoomResult.Removed, rooms_).

Definition RemoveIfEmpty room_code : prog exception Rooms RemoveEmptyRoomResult.t :=
  λ rooms_,
    match um_find room_code rooms_ with
    | None => (Ret RemoveEmptyRoomResult.NotFound, rooms_)
    | Some room =>
        if IsEmpty room then
          (Ret RemoveEmptyRoomResult.Removed, (um_erase room_code rooms_).2)
        else (Ret RemoveEmptyRoomResult.NotEmpty, rooms_)
    end.

Definition Exists room_code : prog exception Rooms bool :=
  λ rooms_, (Ret (um_contains room_code rooms_), rooms_).

Definition ParticipantInRoom (participant_id : ParticipantId) room_code
    : prog exception Rooms bool :=
  λ rooms_,
    (Ret (match um_find room_code rooms_ with
          | None => false
          | Some room => HasParticipant room participant_id
          end), rooms_).

Definition GetRoomCodes : prog exception Rooms (list RoomCode) :=
  λ rooms_, (Ret (um_keys rooms_), rooms_).

#[export] Instance in_memory_repository : RoomRepository Rooms := {|
  repo_Add := Add;
  repo_FindByCode := FindByCode;
  repo_Update := @Update;
  repo_Remove := Remove;
  repo_RemoveIfEmpty := RemoveIfEmpty;
  repo_Exists := Exists;
  repo_ParticipantInRoom := ParticipantInRoom;
  repo_GetRoomCodes := GetRoomCodes
|}.

(** ** The table meets the contract *)

Definition table_rel (rooms_ : Rooms) (rooms : gmap RoomCode Room) : Prop :=
  um_wf rooms_ ∧ to_gmap rooms_ = rooms.

Lemma Add_sim room : sim table_rel (Add room) (spec_Add room).
Proof.
  intros t ? [Hwf <-]. unfold Add, spec_Add, um_emplace. rewrite um_contains_spec.
  case_bool_decide as Hk; simpl.
  - destruct Hk as [r Hr]. rewrite Hr. by eexists _, _, _.
  - apply eq_None_not_Some in Hk. rewrite Hk. eexists _, _, _. split_and!; [done..|].
    split; [by apply um_wf_insert_new|by apply to_gmap_insert_new].
Qed.

Lemma FindByCode_sim code : sim table_rel (FindByCode code) (spec_FindByCode code).
Proof.
  intros t ? [Hwf <-]. unfold FindByCode, spec_FindByCode. rewrite um_find_spec.
  destruct (to_gmap t !! code); by eexists _, _, _.
Qed.

Lemma Update_sim {C} code (u : Updater C) :
  sim (with_left table_rel) (Update code u) (spec_Update code u).
Proof.
  intros [c t] [? ?] [Hc [Hwf Ht]]. simpl in *. subst.
  rewrite um_find_spec. destruct (to_gmap t !! code) as [room|] eqn:Hroom.
  - destruct (u _) as [[[]|e] [c' room']]; eexists _, _, _; split_and!;
      try done.
    split; [done|]. split; [by apply um_wf_assign|]. by apply to_gmap_assign.
  - by eexists _, _, _.
Qed.

Lemma Remove_sim code : sim table_rel (Remove code) (spec_Remove code).
Proof.
  intros t ? [Hwf <-]. unfold Remove, spec_Remove.
  destruct (um_erase code t) as [n t'] eqn:He.
  pose proof (um_erase_count code t) as Hn. pose proof (to_gmap_erase code t) as Hd.
  pose proof (um_wf_erase code t Hwf) as Hwf'. rewrite He in *. simpl in *. subst n.
  do 2 case_decide; simplify_eq; by eexists _, _, _.
Qed.

Lemma RemoveIfEmpty_sim code :
  sim table_rel (RemoveIfEmpty code) (spec_RemoveIfEmpty code).
Proof.
  intros t ? [Hwf <-]. unfold RemoveIfEmpty, spec_RemoveIfEmpty.
  rewrite um_find_spec.
  destruct (to_gmap t !! code) as [room|]; [|by eexists _, _, _].
  destruct (IsEmpty room); [|by eexists _, _, _].
  eexists _, _, _. split_and!; [done..|].
  split; [by apply um_wf_erase|apply to_gmap_erase].
Qed.

Lemma Exists_sim code : sim table_rel (Exists code) (spec_Exists code).
Proof.
  intros t ? [Hwf <-]. unfold Exists, spec_Exists. rewrite um_contains_spec.
  by eexists _, _, _.
Qed.

Lemma ParticipantInRoom_sim pid code :
  sim table_rel (ParticipantInRoom pid code) (spec_ParticipantInRoom pid code).
Proof.
  intros t ? [Hwf <-]. unfold ParticipantInRoom, spec_ParticipantInRoom, in_room.
  rewrite um_find_spec. by eexists _, _, _.
Qed.

#[export, refine] Instance in_memory_lawful : LawfulRepository Rooms := {|
  repo_wf := um_wf;
  rooms_of := to_gmap;
  law_Add := Add_sim;
  law_FindByCode := FindByCode_sim;
  law_Update := @Update_sim;
  law_Remove := Remove_sim;
  law_RemoveIfEmpty := RemoveIfEmpty_sim;
  law_Exists := Exists_sim;
  law_ParticipantInRoom := ParticipantInRoom_sim
|}.
Proof.
  intros t Hwf. exists (um_keys t). split; [done|]. by apply um_keys_perm.
Defined.

Lemma NewRepository_rel : repo_rel NewRepository ∅.
Proof. split; [exact (um_wf_empty (V := Room))|done]. Qed.
End InMemoryRoomRepository.
