(* ===== verification/RoomService.v ===== *)
(** * RoomService: the use cases on rooms

    Models [Result] (include/buzzweb/app/Result.hpp) and [RoomService]
    (include/buzzweb/app/RoomService.hpp, src/app/RoomService.cpp) over any
    implementation of the repository interface.  The locals a lambda captures
    by reference ([join_result], [room_participants], ...) are the [C] component
    of the updater, so what an updater wrote before the repository threw is
    still there in the catch block. *)

From S2P Require Import Prelude Text Room RoomRepository.

(** ** Result *)

Inductive Result (SuccessType ErrorType : Type) : Type :=
| Ok (value : SuccessType)
| Err (error : ErrorType).
Arguments Ok {SuccessType ErrorType}.
Arguments Err {SuccessType ErrorType}.

#[export] Instance Result_eq_dec `{EqDecision A, EqDecision B} : EqDecision (Result A B).
Proof. solve_decision. Defined.

Definition IsOk {A B} (r : Result A B) : bool :=
  match r with Ok _ => true | Err _ => false end.

(** [std::get] on the variant throws when the other alternative is held. *)
Definition Value {A B} (r : Result A B) : outcome exception A :=
  match r with Ok v => Ret v | Err _ => Throw bad_variant_access end.

Definition Error {A B} (r : Result A B) : outcome exception B :=
  match r with Ok _ => Throw bad_variant_access | Err e => Ret e end.

(** ** Errors and results *)

Module RoomServiceError.
Inductive Kind : Type :=
| WrongPassword | RoomNotFound | RoomCodeGenerationFailed | ParticipantUnavailable
| NotInRoom | AlreadyJoined | RoomAlreadyExists | PasswordNotProvided | InternalError.
#[global] Instance Kind_eq_dec : EqDecision Kind.
Proof. solve_decision. Defined.

Record t : Type := Make { type : Kind; msg : string }.
#[global] Instance eq_dec : EqDecision t.
Proof. solve_decision. Defined.
End RoomServiceError.

Definition BuildRoomAlreadyExistsError : RoomServiceError.t :=
  RoomServiceError.Make RoomServiceError.RoomAlreadyExists "Room already exists".
Definition BuildRoomNotFoundError : RoomServiceError.t :=
  RoomServiceError.Make RoomServiceError.RoomNotFound "Room not found".
Definition BuildAlreadyJoinedError : RoomServiceError.t :=
  RoomServiceError.Make RoomServiceError.AlreadyJoined "Participant already in room".
Definition BuildNotInRoomError : RoomServiceError.t :=
  RoomServiceError.Make RoomServiceError.NotInRoom "Participant not in the room".
Definition BuildRoomCodeGenerationFailedError : RoomServiceError.t :=
  RoomServiceError.Make RoomServiceError.RoomCodeGenerationFailed
    "Room code generation failed".
Definition BuildWrongPasswordError : RoomServiceError.t :=
  RoomServiceError.Make RoomServiceError.WrongPassword "Wrong password".
Definition BuildPasswordNotProvidedError : RoomServiceError.t :=
  RoomServiceError.Make RoomServiceError.PasswordNotProvided "Password not provided".
Definition BuildInternalError : RoomServiceError.t :=
  RoomServiceError.Make RoomServiceError.InternalError "Internal error".

Record ParticipantJoinedRoom : Type := MkJoined {
  joined_room_code : RoomCode;
  joined_participant : Participant;
  room_participants : list Participant
}.

Record ParticipantLeftRoom : Type := MkLeft {
  left_room_code : RoomCode;
  left_participant_id : ParticipantId;
  remaining_participants : list Participant
}.

#[export] Instance ParticipantJoinedRoom_eq_dec : EqDecision ParticipantJoinedRoom.
Proof. solve_decision. Defined.
#[export] Instance ParticipantLeftRoom_eq_dec : EqDecision ParticipantLeftRoom.
Proof. solve_decision. Defined.

Abbreviation ParticipantJoinedRoomResult := (Result ParticipantJoinedRoom RoomServiceError.t).
Abbreviation ParticipantLeftRoomResult := (Result ParticipantLeftRoom RoomServiceError.t).
Abbreviation CreateRoomResult := (Result Room RoomServiceError.t).
Abbreviation GetParticipantsResult := (Result (list Participant) RoomServiceError.t).

(** ** Room codes

    The thread-local generator with [uniform_int_distribution<int>(0, 999999)]
    is a stream of draws in that range; the state of the generator is the number
    of draws taken. *)

Class CodeDraws : Type := {
  code_draw : nat → N;
  code_draw_range n : (code_draw n ≤ 999999)%N
}.

Definition format_room_code (n : N) : RoomCode :=
  text_of (setw_fill0 6 (digits 10 n)).

Definition GenerateRoomCode `{CodeDraws} : prog exception nat RoomCode :=
  λ generator, (Ret (format_room_code (code_draw generator)), S generator).

Definition max_attempts : nat := 100.

Section RoomService.
Context `{CodeDraws} {R : Type} `{!RoomRepository R}.
Implicit Types (code : RoomCode) (password : option RoomSecret).
Local Open Scope prog_scope.

(** The constructor refuses a null repository. *)
Definition NewRoomService (repository : option R) : outcome exception R :=
  match repository with
  | None => Throw (invalid_argument "repository_required")
  | Some repository => Ret repository
  end.

(** The loop of [CreateRoom], with [n] attempts left. *)
Fixpoint create_attempts (n : nat) password : prog exception (R * nat) CreateRoomResult :=
  match n with
  | O => pret (Err BuildRoomCodeGenerationFailedError)
  | S n =>
      code <- on_snd GenerateRoomCode;;
      let room := NewRoom code password in
      returned <- ptry
        (repository_result <- on_fst (repo_Add room);;
         if decide (repository_result = AddRoomResult.Added)
         then pret (Some (Ok room)) else pret None)
        (λ _, pret (Some (Err BuildInternalError)));;
      match returned with
      | Some result => pret result
      | None => create_attempts n password
      end
  end.

Definition CreateRoom password : prog exception (R * nat) CreateRoomResult :=
  create_attempts max_attempts password.

Definition join_updater (participant : Participant) (password_hash : option RoomSecret)
    : Updater (option JoinRoomResult.t * list Participant) :=
  λ '((_, room_participants), room),
    let '(join_result, room) := TryAddParticipant room participant password_hash in
    if decide (join_result ≠ JoinRoomResult.Joined) then
      (Ret TransactionResult.Abort, ((Some join_result, room_participants), room))
    else
      (Ret TransactionResult.Commit, ((Some join_result, GetParticipants room), room)).

Definition JoinRoom (room_code : RoomCode) (participant : Participant)
    (password_hash : option RoomSecret) : prog exception R ParticipantJoinedRoomResult :=
  with_locals (None, [])
    (returned <- ptry
       (repository_result <-
          repo_Update room_code (join_updater participant password_hash);;
        if decide (repository_result = UpdateRoomResult.NotFound)
        then pret (Some (Err BuildRoomNotFoundError)) else pret None)
       (λ _, pret (Some (Err BuildInternalError)));;
     match returned with
     | Some result => pret result
     | None =>
         locals <- pgets fst;;
         pret match locals.1 with
              | None => Err BuildInternalError
              | Some JoinRoomResult.AlreadyInRoom => Err BuildAlreadyJoinedError
              | Some JoinRoomResult.InvalidSecret => Err BuildWrongPasswordError
              | Some JoinRoomResult.SecretNotProvided =>
                  Err BuildPasswordNotProvidedError
              | Some JoinRoomResult.Joined =>
                  Ok (MkJoined room_code participant locals.2)
              end
     end).

Definition leave_updater (participant_id : ParticipantId)
    : Updater (option LeaveRoomResult.t * list Participant) :=
  λ '((_, remaining_participants), room),
    let '(leave_result, room) := RemoveParticipant room participant_id in
    if decide (leave_result ≠ LeaveRoomResult.Left) then
      (Ret TransactionResult.Abort, ((Some leave_result, remaining_participants), room))
    else
      (Ret TransactionResult.Commit, ((Some leave_result, GetParticipants room), room)).

(** The first catch block only logs: control goes on to the test of
    [leave_result]. *)
Definition LeaveRoom (room_code : RoomCode) (participant_id : ParticipantId)
    : prog exception R ParticipantLeftRoomResult :=
  with_locals (None, [])
    (returned <- ptry
       (repository_result <- repo_Update room_code (leave_updater participant_id);;
        if decide (repository_result = UpdateRoomResult.NotFound)
        then pret (Some (Err BuildRoomNotFoundError)) else pret None)
       (λ _, pret None);;
     match returned with
     | Some result => pret result
     | None =>
         locals <- pgets fst;;
         match locals.1 with
         | None => pret (Err BuildInternalError)
         | Some LeaveRoomResult.NotInRoom => pret (Err BuildNotInRoomError)
         | Some LeaveRoomResult.Left =>
             ptry
               (_ <- on_snd (repo_RemoveIfEmpty room_code);;
                pret (Ok (MkLeft room_code participant_id locals.2)))
               (λ _, pret (Err BuildInternalError))
         end
     end).

(** Which results [LeaveAllRooms] keeps. *)
Definition keep_left_result (r : ParticipantLeftRoomResult) : bool :=
  match r with
  | Ok _ => true
  | Err e => bool_decide (RoomServiceError.type e = RoomServiceError.InternalError)
  end.

Fixpoint leave_each (codes : list RoomCode) (participant_id : ParticipantId)
    (left_room_results : list ParticipantLeftRoomResult)
    : prog exception R (list ParticipantLeftRoomResult) :=
  match codes with
  | [] => pret left_room_results
  | room_code :: codes =>
      left_room_result <- LeaveRoom room_code participant_id;;
      leave_each codes participant_id
        (if keep_left_result left_room_result
         then left_room_results ++ [left_room_result] else left_room_results)
  end.

Definition LeaveAllRooms (participant_id : ParticipantId)
    : prog exception R (list ParticipantLeftRoomResult) :=
  room_codes <- repo_GetRoomCodes;;
  leave_each room_codes participant_id [].

Definition GetRoomParticipants code : prog exception R GetParticipantsResult :=
  room <- repo_FindByCode code;;
  match room with
  | None => pret (Err BuildRoomNotFoundError)
  | Some room => pret (Ok (GetParticipants room))
  end.

Definition ServiceParticipantInRoom (participant_id : ParticipantId) (room_code : RoomCode)
    : prog exception R bool :=
  repo_ParticipantInRoom participant_id room_code.
End RoomService.
