(* ===== verification/RoomServiceSpec.v ===== *)
(** * RoomServiceSpec: what the use cases promise

    The abstract specification of [RoomService] on a finite map of rooms, one
    pure function per use case, and the refinement lemmas: over every lawful
    repository the operations of RoomService.v compute exactly these functions.
    The invariants of the stored rooms follow. *)

From S2P Require Import Prelude Text Room RoomRepository RoomService.

Section specification.
Implicit Types (rooms : gmap RoomCode Room) (code : RoomCode) (pid : ParticipantId).

Definition join_error (o : JoinRoomResult.t) : RoomServiceError.t :=
  match o with
  | JoinRoomResult.AlreadyInRoom => BuildAlreadyJoinedError
  | JoinRoomResult.InvalidSecret => BuildWrongPasswordError
  | JoinRoomResult.SecretNotProvided => BuildPasswordNotProvidedError
  | JoinRoomResult.Joined => BuildInternalError
  end.

Definition join_spec code (p : Participant) (given : option RoomSecret) rooms
    : ParticipantJoinedRoomResult * gmap RoomCode Room :=
  match rooms !! code with
  | None => (Err BuildRoomNotFoundError, rooms)
  | Some room =>
      match join_outcome room p given with
      | JoinRoomResult.Joined =>
          (Ok (MkJoined code p (participants_ room ++ [p])),
           <[code := add_participant room p]> rooms)
      | o => (Err (join_error o), rooms)
      end
  end.

(** What is left of a room when [pid] goes: nothing if [pid] was the last. *)
Definition drop_participant pid (room : Room) : option Room :=
  if HasParticipant room pid then
    if IsEmpty (without room pid) then None else Some (without room pid)
  else Some room.

Definition left_room pid code (room : Room) : ParticipantLeftRoom :=
  MkLeft code pid (participants_ (without room pid)).

Definition leave_spec code pid rooms
    : ParticipantLeftRoomResult * gmap RoomCode Room :=
  match rooms !! code with
  | None => (Err BuildRoomNotFoundError, rooms)
  | Some room =>
      if HasParticipant room pid then
        (Ok (left_room pid code room), partial_alter (λ _, drop_participant pid room) code rooms)
      else (Err BuildNotInRoomError, rooms)
  end.

Definition leave_all pid rooms : gmap RoomCode Room :=
  omap (drop_participant pid) rooms.

Definition left_result pid rooms code : option ParticipantLeftRoomResult :=
  room ← rooms !! code;
  if HasParticipant room pid then Some (Ok (left_room pid code room)) else None.

(** The rooms after leaving those listed in [codes]. *)
Definition leave_codes (codes : list RoomCode) pid rooms : gmap RoomCode Room :=
  map_imap (λ c room, if decide (c ∈ codes) then drop_participant pid room else Some room)
    rooms.
End specification.

(** ** The operations over the abstract repository *)

Section over_rooms.
Context `{CodeDraws}.
Implicit Types (rooms : gmap RoomCode Room) (code : RoomCode) (pid : ParticipantId).

Lemma JoinRoom_rooms code p given rooms :
  JoinRoom code p given rooms =
  (Ret (join_spec code p given rooms).1, (join_spec code p given rooms).2).
Proof.
  unfold JoinRoom, join_spec. prun.
  destruct (rooms !! code) as [room|] eqn:Hroom; [|done].
  unfold join_updater. rewrite TryAddParticipant_eq.
  by destruct (join_outcome room p given).
Qed.

Lemma LeaveRoom_rooms code pid rooms :
  LeaveRoom code pid rooms =
  (Ret (leave_spec code pid rooms).1, (leave_spec code pid rooms).2).
Proof.
  unfold LeaveRoom, leave_spec. prun.
  destruct (rooms !! code) as [room|] eqn:Hroom; [|done].
  unfold leave_updater. rewrite RemoveParticipant_eq.
  destruct (HasParticipant room pid) eqn:Hp; [|done]. simpl.
  unfold spec_RemoveIfEmpty. rewrite lookup_insert_eq.
  unfold drop_participant. rewrite Hp.
  destruct (IsEmpty (without room pid)); simpl.
  - by rewrite delete_insert_eq.
  - done.
Qed.

Lemma leave_spec_lookup_ne code code' pid rooms :
  code ≠ code' → (leave_spec code pid rooms).2 !! code' = rooms !! code'.
Proof.
  intros Hne. unfold leave_spec. destruct (rooms !! code) as [room|]; [|done].
  destruct (HasParticipant room pid); [|done]. cbn [snd]. by rewrite lookup_partial_alter_ne.
Qed.

Lemma leave_spec_lookup code pid rooms :
  (leave_spec code pid rooms).2 !! code = rooms !! code ≫= drop_participant pid.
Proof.
  unfold leave_spec. destruct (rooms !! code) as [room|] eqn:Hroom; [|done].
  unfold drop_participant. simpl.
  destruct (HasParticipant room pid) eqn:Hp; simpl; [|done].
  by rewrite lookup_partial_alter_eq.
Qed.

Lemma leave_codes_cons code codes pid rooms :
  code ∉ codes →
  leave_codes codes pid (leave_spec code pid rooms).2 = leave_codes (code :: codes) pid rooms.
Proof.
  intros Hnot. apply map_eq. intros c. unfold leave_codes. rewrite !map_lookup_imap.
  destruct (decide (c = code)) as [->|Hne].
  - rewrite leave_spec_lookup. destruct (rooms !! code) as [room|]; simpl; [|done].
    rewrite (decide_True (P := code ∈ code :: codes)) by left.
    destruct (drop_participant pid room); simpl; [|done]. by rewrite decide_False.
  - rewrite leave_spec_lookup_ne by done. destruct (rooms !! c); simpl; [|done].
    by rewrite (decide_ext (c ∈ code :: codes) (c ∈ codes)) by set_solver.
Qed.

Lemma leave_spec_kept code pid rooms :
  (if keep_left_result (leave_spec code pid rooms).1
   then [(leave_spec code pid rooms).1] else []) =
  option_list (left_result pid rooms code).
Proof.
  unfold leave_spec, left_result. destruct (rooms !! code) as [room|]; [|done].
  simpl. by destruct (HasParticipant room pid).
Qed.

Lemma left_result_ne code code' pid rooms :
  code ≠ code' →
  left_result pid (leave_spec code pid rooms).2 code' = left_result pid rooms code'.
Proof. intros Hne. unfold left_result. by rewrite leave_spec_lookup_ne. Qed.

Lemma leave_each_rooms codes pid acc rooms :
  NoDup codes →
  leave_each codes pid acc rooms =
  (Ret (acc ++ omap (left_result pid rooms) codes), leave_codes codes pid rooms).
Proof.
  intros Hnd. revert acc rooms. induction Hnd as [|code codes Hnot Hnd IH]; intros acc rooms.
  { simpl. rewrite app_nil_r. unfold pret. f_equal.
    apply map_eq. intros c. unfold leave_codes. rewrite map_lookup_imap.
    by destruct (rooms !! c). }
  simpl. erewrite pbind_ret by apply LeaveRoom_rooms.
  rewrite IH, leave_codes_cons by done. do 2 f_equal.
  assert (omap (left_result pid (leave_spec code pid rooms).2) codes =
          omap (left_result pid rooms) codes) as ->.
  { clear IH Hnd acc. induction codes as [|c codes IHc]; [done|].
    apply not_elem_of_cons in Hnot as [Hne Hnot]. cbn.
    rewrite left_result_ne by done. by rewrite IHc. }
  pose proof (leave_spec_kept code pid rooms) as Hkept.
  destruct (left_result pid rooms code) eqn:Hres;
    destruct (keep_left_result _); simplify_eq/=; by rewrite <- ?app_assoc.
Qed.

Lemma leave_codes_all codes pid rooms :
  (∀ code, is_Some (rooms !! code) → code ∈ codes) →
  leave_codes codes pid rooms = leave_all pid rooms.
Proof.
  intros Hall. apply map_eq. intros c. unfold leave_codes, leave_all.
  rewrite map_lookup_imap, lookup_omap.
  destruct (rooms !! c) as [room|] eqn:Hc; simpl; [|done].
  by rewrite decide_True by eauto.
Qed.

(** The first of the next [n] draws that is not a stored code. *)
Fixpoint first_free (n generator : nat) rooms : option nat :=
  match n with
  | O => None
  | S n =>
      match rooms !! format_room_code (code_draw generator) with
      | None => Some 0
      | Some _ => S <$> first_free n (S generator) rooms
      end
  end.

Definition create_spec (n : nat) password rooms (generator : nat)
    : CreateRoomResult * (gmap RoomCode Room * nat) :=
  match first_free n generator rooms with
  | Some i =>
      let code := format_room_code (code_draw (generator + i)) in
      let room := NewRoom code password in
      (Ok room, (<[code := room]> rooms, S (generator + i)))
  | None => (Err BuildRoomCodeGenerationFailedError, (rooms, generator + n))
  end.

Lemma create_attempts_rooms n password rooms g :
  create_attempts n password (rooms, g) =
  (Ret (create_spec n password rooms g).1, (create_spec n password rooms g).2).
Proof.
  revert g. induction n as [|n IH]; intros g.
  { unfold create_spec. simpl. by rewrite Nat.add_0_r. }
  unfold create_spec in *. simpl. prun. unfold spec_Add. simpl.
  destruct (rooms !! format_room_code (code_draw g)) as [room|] eqn:Hroom; simpl.
  - rewrite IH. destruct (first_free n (S g) rooms) as [i|]; simpl.
    + by rewrite Nat.add_succ_r.
    + by rewrite Nat.add_succ_r.
  - by rewrite Nat.add_0_r.
Qed.

Lemma first_free_Some n g rooms i :
  first_free n g rooms = Some i ↔
  i < n ∧ rooms !! format_room_code (code_draw (g + i)) = None ∧
  ∀ j, j < i → is_Some (rooms !! format_room_code (code_draw (g + j))).
Proof.
  revert g i. induction n as [|n IH]; intros g i; simpl; [naive_solver lia|].
  destruct (rooms !! format_room_code (code_draw g)) as [room|] eqn:Hroom.
  - rewrite fmap_Some. setoid_rewrite IH. split.
    + intros (k & (Hk & Hfree & Htaken) & ->). split; [lia|].
      rewrite Nat.add_succ_r. split; [done|]. intros [|j] Hj.
      * rewrite Nat.add_0_r, Hroom. eauto.
      * rewrite Nat.add_succ_r. apply Htaken. lia.
    + intros (Hi & Hfree & Htaken). destruct i as [|i].
      { rewrite Nat.add_0_r in Hfree. congruence. }
      exists i. rewrite Nat.add_succ_r in Hfree. split_and!; [lia|done| |done].
      intros j Hj. specialize (Htaken (S j)). rewrite Nat.add_succ_r in Htaken.
      apply Htaken. lia.
  - split.
    + intros [= <-]. rewrite Nat.add_0_r. split_and!; [lia|done|]. lia.
    + intros (Hi & Hfree & Htaken). destruct i as [|i]; [done|].
      specialize (Htaken 0 ltac:(lia)). rewrite Nat.add_0_r, Hroom in Htaken.
      by destruct Htaken.
Qed.

Lemma first_free_None n g rooms :
  first_free n g rooms = None ↔
  ∀ j, j < n → is_Some (rooms !! format_room_code (code_draw (g + j))).
Proof.
  revert g. induction n as [|n IH]; intros g; simpl; [split; [lia|done]|].
  destruct (rooms !! format_room_code (code_draw g)) as [room|] eqn:Hroom.
  - rewrite fmap_None, IH. split.
    + intros Htaken [|j] Hj; [rewrite Nat.add_0_r, Hroom; eauto|].
      rewrite Nat.add_succ_r. apply Htaken. lia.
    + intros Htaken j Hj. specialize (Htaken (S j)).
      rewrite Nat.add_succ_r in Htaken. apply Htaken. lia.
  - split; [done|]. intros Htaken. specialize (Htaken 0 ltac:(lia)).
    rewrite Nat.add_0_r, Hroom in Htaken. by destruct Htaken.
Qed.
End over_rooms.

(** ** Refinement: any lawful repository *)

Section over_lawful.
Context `{CodeDraws} {R : Type} `{LawfulRepository R}.
Implicit Types (rooms : gmap RoomCode Room) (code : RoomCode) (pid : ParticipantId).

Ltac sim_step :=
  first
    [ apply sim_bind; [|intros ?]
    | apply sim_try; [|intros ?]
    | apply sim_with_locals
    | solve [eauto with sim]
    | case_match ].

Lemma JoinRoom_sim code p given :
  sim repo_rel (JoinRoom code p given) (JoinRoom code p given).
Proof. unfold JoinRoom. repeat sim_step. Qed.

Lemma LeaveRoom_sim code pid : sim repo_rel (LeaveRoom code pid) (LeaveRoom code pid).
Proof. unfold LeaveRoom. repeat sim_step. Qed.

Lemma leave_each_sim codes pid acc :
  sim repo_rel (leave_each codes pid acc) (leave_each codes pid acc).
Proof.
  revert acc. induction codes as [|code codes IH]; intros acc; simpl; [apply sim_ret|].
  apply sim_bind; [apply LeaveRoom_sim|]. intros r. apply IH.
Qed.

Lemma create_attempts_sim n password :
  sim (with_right repo_rel) (create_attempts n password) (create_attempts n password).
Proof.
  induction n as [|n IH]; simpl; [apply sim_ret|]. repeat sim_step.
Qed.

Lemma sim_rooms {A} (m : prog exception R A) m' r rooms a rooms' :
  sim repo_rel m m' → repo_rel r rooms → m' rooms = (Ret a, rooms') →
  ∃ r', m r = (Ret a, r') ∧ repo_rel r' rooms'.
Proof.
  intros Hsim Hrel Hm'. destruct (Hsim r rooms Hrel) as (o & r' & t & Hm & Ht & Hrel').
  rewrite Hm' in Ht. simplify_eq. eauto.
Qed.

Lemma JoinRoom_lawful code p given r rooms :
  repo_rel r rooms →
  ∃ r', JoinRoom code p given r = (Ret (join_spec code p given rooms).1, r') ∧
        repo_rel r' (join_spec code p given rooms).2.
Proof. intros Hr. eapply sim_rooms; [apply JoinRoom_sim|done|apply JoinRoom_rooms]. Qed.

Lemma LeaveRoom_lawful code pid r rooms :
  repo_rel r rooms →
  ∃ r', LeaveRoom code pid r = (Ret (leave_spec code pid rooms).1, r') ∧
        repo_rel r' (leave_spec code pid rooms).2.
Proof. intros Hr. eapply sim_rooms; [apply LeaveRoom_sim|done|apply LeaveRoom_rooms]. Qed.

Lemma CreateRoom_lawful password r rooms g :
  repo_rel r rooms →
  let '(result, (rooms', g')) := create_spec max_attempts password rooms g in
  ∃ r', CreateRoom password (r, g) = (Ret result, (r', g')) ∧ repo_rel r' rooms'.
Proof.
  intros Hr.
  destruct (create_attempts_sim max_attempts password (r, g) (rooms, g))
    as (o & [r' g'] & [t g2] & Hm & Ht & [Hrel Hg]); [by split|].
  rewrite create_attempts_rooms in Ht. simpl in Hrel, Hg.
  destruct (create_spec max_attempts password rooms g) as [result [rooms' g3]].
  simplify_eq/=. eauto.
Qed.

Lemma LeaveAllRooms_lawful pid r rooms :
  repo_rel r rooms →
  ∃ codes r', codes ≡ₚ room_codes rooms ∧
    LeaveAllRooms pid r = (Ret (omap (left_result pid rooms) codes), r') ∧
    repo_rel r' (leave_all pid rooms).
Proof.
  intros [Hwf Hr]. destruct (law_GetRoomCodes r Hwf) as (codes & Hcodes & Hperm).
  rewrite Hr in Hperm. exists codes.
  destruct (sim_rooms (leave_each codes pid []) (leave_each codes pid []) r rooms
    (omap (left_result pid rooms) codes) (leave_all pid rooms)) as (r' & Hr' & Hrel).
  - apply leave_each_sim.
  - by split.
  - rewrite leave_each_rooms by (rewrite Hperm; apply room_codes_NoDup).
    rewrite leave_codes_all; [done|]. intros code Hcode.
    by rewrite Hperm, room_codes_elem.
  - exists r'. split_and!; [done| |done]. unfold LeaveAllRooms.
    by rewrite (pbind_ret _ _ _ _ _ Hcodes).
Qed.

Lemma GetRoomParticipants_lawful code r rooms :
  repo_rel r rooms →
  ∃ r', GetRoomParticipants code r =
          (Ret (match rooms !! code with
                | None => Err BuildRoomNotFoundError
                | Some room => Ok (participants_ room)
                end), r') ∧ repo_rel r' rooms.
Proof.
  intros Hr. eapply (sim_rooms _ (GetRoomParticipants code)); [|done|].
  - unfold GetRoomParticipants. apply sim_bind; [apply law_FindByCode|].
    intros [room|]; apply sim_ret.
  - unfold GetRoomParticipants. prun. by destruct (rooms !! code).
Qed.

Lemma ParticipantInRoom_lawful pid code r rooms :
  repo_rel r rooms →
  ∃ r', ServiceParticipantInRoom pid code r = (Ret (in_room rooms code pid), r') ∧
        repo_rel r' rooms.
Proof. intros Hr. eapply sim_rooms; [apply law_ParticipantInRoom|done|done]. Qed.
End over_lawful.

(** ** Invariants of the stored rooms *)

Section invariants.
Context `{CodeDraws}.
Implicit Types (rooms : gmap RoomCode Room) (code : RoomCode) (pid : ParticipantId).

(** Every room is stored under its own code and lists nobody twice. *)
Definition rooms_wf rooms : Prop :=
  map_Forall (λ code room, GetCode room = code ∧ room_wf room) rooms.

(** No stored room is empty. *)
Definition no_empty_room rooms : Prop :=
  map_Forall (λ _ room, IsEmpty room = false) rooms.

(** The participants of all rooms. *)
Definition member rooms pid : Prop :=
  ∃ code room, rooms !! code = Some room ∧ pid ∈ ids room.

Lemma join_outcome_Joined room p given :
  join_outcome room p given = JoinRoomResult.Joined →
  (GetId p ∉ ids room) ∧ secret_ok (room_secret_ room) given = true.
Proof.
  unfold join_outcome. destruct (HasParticipant room (GetId p)) eqn:Hp; [done|].
  apply HasParticipant_false in Hp.
  destruct (secret_ok _ _); [done|]. by destruct given.
Qed.

Lemma join_spec_wf code p given rooms :
  rooms_wf rooms → rooms_wf (join_spec code p given rooms).2.
Proof.
  intros Hwf. unfold join_spec. destruct (rooms !! code) as [room|] eqn:Hroom; [|done].
  destruct (join_outcome room p given) eqn:Hj; [|done..].
  apply join_outcome_Joined in Hj as [Hp _]. destruct (Hwf _ _ Hroom) as [Hc Hr].
  apply map_Forall_insert_2; [|done]. split; [done|by apply room_wf_add].
Qed.

Lemma join_spec_no_empty code p given rooms :
  no_empty_room rooms → no_empty_room (join_spec code p given rooms).2.
Proof.
  intros Hne. unfold join_spec. destruct (rooms !! code) as [room|] eqn:Hroom; [|done].
  destruct (join_outcome room p given); [|done..].
  apply map_Forall_insert_2; [|done]. apply IsEmpty_false. simpl.
  by destruct (participants_ room).
Qed.

Lemma drop_participant_Some pid room room' :
  drop_participant pid room = Some room' →
  room' = without room pid ∧ (IsEmpty room = false → IsEmpty room' = false).
Proof.
  unfold drop_participant. destruct (HasParticipant room pid) eqn:Hp.
  - destruct (IsEmpty (without room pid)) eqn:He; [done|]. intros [= <-]. done.
  - intros [= <-]. apply HasParticipant_false in Hp. by rewrite without_fresh.
Qed.

Lemma leave_all_wf pid rooms : rooms_wf rooms → rooms_wf (leave_all pid rooms).
Proof.
  intros Hwf code room' Hroom'. unfold leave_all in Hroom'. rewrite lookup_omap in Hroom'.
  apply bind_Some in Hroom' as (room & Hroom & [-> _]%drop_participant_Some).
  destruct (Hwf _ _ Hroom) as [Hc Hr]. split; [done|by apply room_wf_without].
Qed.

Lemma leave_all_no_empty pid rooms :
  no_empty_room rooms → no_empty_room (leave_all pid rooms).
Proof.
  intros Hne code room' Hroom'. unfold leave_all in Hroom'. rewrite lookup_omap in Hroom'.
  apply bind_Some in Hroom' as (room & Hroom & [_ He]%drop_participant_Some).
  by apply He, (Hne _ _ Hroom).
Qed.

(** Leaving one room is leaving the rooms listed in a one-element vector. *)
Lemma leave_spec_codes code pid rooms :
  (leave_spec code pid rooms).2 = leave_codes [code] pid rooms.
Proof.
  rewrite <- leave_codes_cons by set_solver.
  apply map_eq. intros c. unfold leave_codes. rewrite map_lookup_imap.
  by destruct (_ !! c).
Qed.

Lemma leave_codes_sub codes pid rooms code room' :
  leave_codes codes pid rooms !! code = Some room' →
  ∃ room, rooms !! code = Some room ∧
    (room' = room ∨ drop_participant pid room = Some room').
Proof.
  unfold leave_codes. rewrite map_lookup_imap.
  destruct (rooms !! code) as [room|]; simpl; [|done].
  case_decide; intros Hd; exists room; naive_solver.
Qed.

Lemma leave_spec_wf code pid rooms :
  rooms_wf rooms → rooms_wf (leave_spec code pid rooms).2.
Proof.
  intros Hwf c room'. rewrite leave_spec_codes.
  intros (room & Hroom & Hor)%leave_codes_sub. destruct (Hwf _ _ Hroom) as [Hc Hr].
  destruct Hor as [->|[-> _]%drop_participant_Some]; [done|].
  split; [done|by apply room_wf_without].
Qed.

Lemma leave_spec_no_empty code pid rooms :
  no_empty_room rooms → no_empty_room (leave_spec code pid rooms).2.
Proof.
  intros Hne c room'. rewrite leave_spec_codes.
  intros (room & Hroom & Hor)%leave_codes_sub. pose proof (Hne _ _ Hroom) as He.
  destruct Hor as [->|[_ Himp]%drop_participant_Some]; [done|]. by apply Himp.
Qed.

Lemma create_spec_wf n password rooms g :
  rooms_wf rooms → rooms_wf (create_spec n password rooms g).2.1.
Proof.
  intros Hwf. unfold create_spec. destruct (first_free n g rooms); simpl; [|done].
  apply map_Forall_insert_2; [|done]. split; [done|apply room_wf_new].
Qed.

Lemma leave_all_not_member pid rooms : ¬ member (leave_all pid rooms) pid.
Proof.
  intros (code & room' & Hroom' & Hin). unfold leave_all in Hroom'.
  rewrite lookup_omap in Hroom'.
  apply bind_Some in Hroom' as (room & Hroom & [-> _]%drop_participant_Some).
  by apply without_not_in in Hin.
Qed.
End invariants.
