(* ===== verification/Json.v ===== *)
(** * Json: the interface of the JSON library

    The protocol code is written against nlohmann::json, which is not part of
    the repository.  [Json] names the operations the code uses, as parameters;
    an operation that can throw returns an [option].  [JsonLaws] states the
    documented behaviour the theorems rely on: lookup in objects, construction
    from initializer lists, the text of strings, and that [parse] reads what
    [dump] wrote, up to the representation of numbers ([≡]).  The values of [json] are those the
    program can build: results of [parse], texts, booleans, arrays and objects of
    them; no NaN and no binary values.  [json_ok] marks the values all of whose
    strings are valid
    UTF-8: [dump] refuses the others, and [parse] only yields such values.
    JsonTree.v has an instance with both classes. *)

From S2P Require Import Prelude.

(** What [json::parse] throws: [parse_error] for text that is not JSON, and
    another of the library's exceptions for a number out of range. *)
Inductive parse_failure : Type :=
| parse_error
| number_out_of_range.

Class Json : Type := {
  json : Type;
  parse : string → outcome parse_failure json;
  (** [j.dump()]; [None]: [type_error] is thrown. *)
  dump : json → option string;
  is_object : json → bool;
  is_string : json → bool;
  is_null : json → bool;
  contains : json → string → bool;
  (** [j.at(key)]; [None]: [type_error] or [out_of_range] is thrown. *)
  at_key : json → string → option json;
  (** [j.get<std::string>()]; [None]: [type_error] is thrown. *)
  get_string : json → option string;
  (** Values made from C++ values and from initializer lists. *)
  of_string : string → json;
  of_bool : bool → json;
  of_array : list json → json;
  of_object : list (string * json) → json;
  (** [j.push_back(v)]; [None]: [type_error] is thrown. *)
  push_back : json → json → option json;
  (** [j[key] = v]; [None]: [type_error] is thrown. *)
  set_key : json → string → json → option json
}.

(** The value of the first entry for a key. *)
Fixpoint assoc {A} (key : string) (kvs : list (string * A)) : option A :=
  match kvs with
  | [] => None
  | (k, v) :: kvs => if decide (k = key) then Some v else assoc key kvs
  end.

(** Plain ASCII text, which is valid UTF-8. *)
Definition ascii_text (s : string) : bool :=
  forallb (λ c, bool_decide (Ascii.nat_of_ascii c < 128)) (String.list_ascii_of_string s).

Class JsonLaws `{Json} : Type := {
  (** Lookup. *)
  contains_at j key : contains j key = true ↔ is_Some (at_key j key);
  contains_object j key : contains j key = true → is_object j = true;
  string_get j : is_string j = true ↔ is_Some (get_string j);
  null_not_string j : is_null j = true → is_string j = false;
  (** Construction. *)
  object_is_object kvs : is_object (of_object kvs) = true;
  object_at kvs key : NoDup kvs.*1 → at_key (of_object kvs) key = assoc key kvs;
  get_of_string s : get_string (of_string s) = Some s;
  push_back_array l v : push_back (of_array l) v = Some (of_array (l ++ [v]));
  set_key_object j key v :
    is_object j = true →
    ∃ j', set_key j key v = Some j' ∧ is_object j' = true ∧
      ∀ key', at_key j' key' = if decide (key' = key) then Some v else at_key j key';
  (** Two values that differ at most in how a number is held (a parsed [-0] is
      a signed zero, its dump reads back as an unsigned one). *)
  json_equiv :: Equiv json;
  json_equivalence :: Equivalence (≡@{json});
  is_object_proper :: Proper ((≡) ==> eq) is_object;
  is_string_proper :: Proper ((≡) ==> eq) is_string;
  is_null_proper :: Proper ((≡) ==> eq) is_null;
  contains_proper :: Proper ((≡) ==> eq ==> eq) contains;
  get_string_proper :: Proper ((≡) ==> eq) get_string;
  at_key_proper :: Proper ((≡) ==> eq ==> (≡)) at_key;
  (** Text. *)
  text_ok : string → bool;
  json_ok : json → bool;
  ascii_text_ok s : ascii_text s = true → text_ok s = true;
  dump_ok j : is_Some (dump j) ↔ json_ok j = true;
  parse_ok s j : parse s = Ret j → json_ok j = true;
  parse_dump j s : dump j = Some s → ∃ j', parse s = Ret j' ∧ j' ≡ j;
  at_ok j key v : json_ok j = true → at_key j key = Some v → json_ok v = true;
  get_string_ok j s : json_ok j = true → get_string j = Some s → text_ok s = true;
  of_string_ok s : json_ok (of_string s) = text_ok s;
  of_bool_ok b : json_ok (of_bool b) = true;
  of_array_ok l : Forall (λ j, json_ok j = true) l → json_ok (of_array l) = true;
  of_object_ok kvs :
    Forall (λ kv, text_ok kv.1 = true ∧ json_ok kv.2 = true) kvs →
    json_ok (of_object kvs) = true;
  set_key_ok j key v j' :
    json_ok j = true → text_ok key = true → json_ok v = true →
    set_key j key v = Some j' → json_ok j' = true
}.

Section json_lemmas.
Context `{JsonLaws}.

Lemma get_string_is_string j s : get_string j = Some s → is_string j = true.
Proof. intros Hs. apply string_get. eauto. Qed.

Lemma is_string_of_string s : is_string (of_string s) = true.
Proof. apply string_get. rewrite get_of_string. eauto. Qed.

Lemma is_null_of_string s : is_null (of_string s) = false.
Proof.
  apply not_true_iff_false. intros Hn%null_not_string.
  by rewrite is_string_of_string in Hn.
Qed.

Lemma contains_false j key : contains j key = false ↔ at_key j key = None.
Proof. by rewrite <- not_true_iff_false, contains_at, <- eq_None_not_Some. Qed.

Lemma contains_Some j key v : at_key j key = Some v → contains j key = true.
Proof. intros Hv. apply contains_at. eauto. Qed.

Lemma is_string_false j : is_string j = false ↔ get_string j = None.
Proof. by rewrite <- not_true_iff_false, string_get, <- eq_None_not_Some. Qed.
End json_lemmas.
