(* ===== verification/JsonTree.v ===== *)
(** * JsonTree: JSON values as trees

    An instance of the JSON interface, which shows that its laws can hold and
    lets the theorems about the protocol be evaluated on message texts.  It reads
    and writes compact JSON without numbers: no white space, strings in ASCII,
    of whose characters the quote and the backslash are escaped by a backslash. *)

From S2P Require Import Prelude Json.
From Stdlib Require Import Ascii.

#[warnings="-register-all"]
Inductive tree : Type :=
| TNull
| TBool (b : bool)
| TString (s : string)
| TArray (l : list tree)
| TObject (kvs : list (string * tree)).

Section tree_ind.
Variable P : tree → Prop.
Hypothesis P_null : P TNull.
Hypothesis P_bool : ∀ b, P (TBool b).
Hypothesis P_string : ∀ s, P (TString s).
Hypothesis P_array : ∀ l, Forall P l → P (TArray l).
Hypothesis P_object : ∀ kvs, Forall (λ kv, P kv.2) kvs → P (TObject kvs).

Fixpoint tree_nested_ind (j : tree) : P j :=
  match j with
  | TNull => P_null
  | TBool b => P_bool b
  | TString s => P_string s
  | TArray l =>
      P_array l ((fix go l : Forall P l :=
        match l with
        | [] => Forall_nil_2 _
        | j :: l => Forall_cons_2 _ _ _ (tree_nested_ind j) (go l)
        end) l)
  | TObject kvs =>
      P_object kvs ((fix go kvs : Forall (λ kv, P kv.2) kvs :=
        match kvs with
        | [] => Forall_nil_2 _
        | kv :: kvs => Forall_cons_2 _ _ _ (tree_nested_ind kv.2) (go kvs)
        end) kvs)
  end.
End tree_ind.

(** ** Printing *)

Definition quote : ascii := "034".
Definition backslash : ascii := "\".

Abbreviation text := (list ascii).

Definition escape_char (c : ascii) : text :=
  if decide (c = quote ∨ c = backslash) then [backslash; c] else [c].

Definition print_string (s : string) : text :=
  quote :: (String.list_ascii_of_string s ≫= escape_char) ++ [quote].

(** The printed elements after an opening bracket, and the closing one. *)
Fixpoint join (close : ascii) (t : text) (ts : list text) : text :=
  t ++ match ts with
       | [] => [close]
       | t' :: ts => ","%char :: join close t' ts
       end.

Definition print_seq (open close : ascii) (ts : list text) : text :=
  open :: match ts with [] => [close] | t :: ts => join close t ts end.

Fixpoint print_tree (j : tree) : text :=
  match j with
  | TNull => String.list_ascii_of_string "null"
  | TBool true => String.list_ascii_of_string "true"
  | TBool false => String.list_ascii_of_string "false"
  | TString s => print_string s
  | TArray l => print_seq "[" "]" (map print_tree l)
  | TObject kvs =>
      print_seq "{" "}"
        (map (λ kv, let '(k, v) := kv in print_string k ++ ":"%char :: print_tree v) kvs)
  end.

(** ** Parsing *)

(** The characters up to the closing quote. *)
Fixpoint read_chars (s : text) : option (text * text) :=
  match s with
  | [] => None
  | c :: s =>
      if decide (c = quote) then Some ([], s)
      else if decide (c = backslash) then
        match s with
        | [] => None
        | d :: s => '(k, r) ← read_chars s; Some (d :: k, r)
        end
      else '(k, r) ← read_chars s; Some (c :: k, r)
  end.

Definition read_string (s : text) : option (string * text) :=
  match s with
  | c :: s =>
      if decide (c = quote) then
        '(k, r) ← read_chars s; Some (String.string_of_list_ascii k, r)
      else None
  | [] => None
  end.

Fixpoint strip (prefix s : text) : option text :=
  match prefix, s with
  | [], s => Some s
  | c :: prefix, d :: s => if decide (c = d) then strip prefix s else None
  | _ :: _, [] => None
  end.

(** The elements after an opening bracket, read by [item]. *)
Fixpoint read_items {A} (item : text → option (A * text)) (close : ascii) (fuel : nat) (s : text)
    : option (list A * text) :=
  match fuel with
  | 0 => None
  | S fuel =>
      '(x, s) ← item s;
      match s with
      | c :: s =>
          if decide (c = close) then Some ([x], s)
          else if decide (c = ","%char) then
            '(l, s) ← read_items item close fuel s; Some (x :: l, s)
          else None
      | [] => None
      end
  end.

Definition read_seq {A} (item : text → option (A * text)) (close : ascii) (fuel : nat) (s : text)
    : option (list A * text) :=
  match s with
  | c :: s' => if decide (c = close) then Some ([], s') else read_items item close fuel s
  | [] => None
  end.

Definition read_member (value : text → option (tree * text)) (s : text)
    : option ((string * tree) * text) :=
  '(k, s) ← read_string s;
  s ← strip [":"%char] s;
  '(v, s) ← value s;
  Some ((k, v), s).

(** [fuel] bounds the nesting and the number of elements of a sequence. *)
Fixpoint read_tree (fuel : nat) (s : text) : option (tree * text) :=
  match fuel, s with
  | S fuel, c :: s' =>
      if decide (c = quote) then '(k, r) ← read_string s; Some (TString k, r)
      else if decide (c = "["%char) then
        '(l, r) ← read_seq (read_tree fuel) "]" fuel s'; Some (TArray l, r)
      else if decide (c = "{"%char) then
        '(l, r) ← read_seq (read_member (read_tree fuel)) "}" fuel s'; Some (TObject l, r)
      else
        match strip (String.list_ascii_of_string "null") s with
        | Some r => Some (TNull, r)
        | None =>
            match strip (String.list_ascii_of_string "true") s with
            | Some r => Some (TBool true, r)
            | None =>
                r ← strip (String.list_ascii_of_string "false") s; Some (TBool false, r)
            end
        end
  | _, _ => None
  end.

(** ** Reading what was printed *)

Lemma read_chars_escape c s :
  read_chars (escape_char c ++ s) = '(k, r) ← read_chars s; Some (c :: k, r).
Proof.
  unfold escape_char. case_decide as Hc; [done|]. cbn [app read_chars].
  by rewrite !decide_False by naive_solver.
Qed.

Lemma read_chars_print s rest :
  read_chars ((s ≫= escape_char) ++ quote :: rest) = Some (s, rest).
Proof.
  induction s as [|c s IH]; [done|].
  by rewrite bind_cons, <- app_assoc, read_chars_escape, IH.
Qed.

Lemma read_string_print s rest : read_string (print_string s ++ rest) = Some (s, rest).
Proof.
  unfold print_string, read_string. simpl. rewrite <- app_assoc. simpl.
  rewrite read_chars_print. simpl. by rewrite String.string_of_list_ascii_of_string.
Qed.

(** A printed value does not begin like the end of a sequence. *)
Definition opens (close : ascii) (s : text) : Prop := ∃ c s', s = c :: s' ∧ c ≠ close.

Section items.
Context {A : Type} (print : A → text) (item : text → option (A * text)).
Variables (open close : ascii).
Hypothesis close_comma : close ≠ ","%char.

Definition reads (x : A) : Prop :=
  opens close (print x) ∧ ∀ rest, item (print x ++ rest) = Some (x, rest).

Lemma read_items_print l x fuel rest :
  Forall reads (x :: l) → length l < fuel →
  read_items item close fuel (join close (print x) (map print l) ++ rest) = Some (x :: l, rest).
Proof using close_comma.
  revert x fuel. induction l as [|y l IH]; intros x fuel Hl Hfuel;
    (destruct fuel as [|fuel]; [simpl in *; lia|]);
    apply Forall_cons in Hl as [[_ Hx] Hl]; simpl;
    rewrite <- app_assoc, Hx; simpl.
  - by rewrite decide_True.
  - rewrite decide_False by done. rewrite IH; [done|done|]. simpl in *. lia.
Qed.

Lemma read_seq_print l fuel rest :
  Forall reads l → length l ≤ fuel →
  read_seq item close fuel
    (tail (print_seq open close (map print l)) ++ rest) = Some (l, rest).
Proof using close_comma.
  intros Hl Hfuel. destruct l as [|x l]; simpl; [by rewrite decide_True|].
  pose proof (read_items_print l x fuel rest Hl) as Hrun. specialize (Hrun Hfuel).
  apply Forall_cons in Hl as [[(c & s' & Hc & Hne) _] _].
  destruct l as [|y l]; simpl in Hrun |- *; rewrite Hc in Hrun |- *; simpl in Hrun |- *;
    by rewrite decide_False.
Qed.

End items.

Lemma join_length close t ts : length ts < length (join close t ts).
Proof.
  revert t. induction ts as [|t' ts IH]; intros t; simpl; rewrite length_app; simpl; [lia|].
  specialize (IH t'). lia.
Qed.

Lemma join_elem close u t ts : u ∈ t :: ts → length u < length (join close t ts).
Proof.
  revert t. induction ts as [|t' ts IH]; intros t; simpl; rewrite length_app; simpl.
  - intros ->%list_elem_of_singleton. lia.
  - intros [->|Hu]%elem_of_cons; [lia|]. specialize (IH t' Hu). lia.
Qed.

Lemma print_seq_length open close ts : length ts < length (print_seq open close ts).
Proof.
  destruct ts as [|t ts]; simpl; [lia|]. pose proof (join_length close t ts). lia.
Qed.

Lemma print_seq_elem open close t ts :
  t ∈ ts → length t < length (print_seq open close ts).
Proof.
  destruct ts as [|t' ts]; simpl; [by intros ?%not_elem_of_nil|].
  intros Ht. pose proof (join_elem close t t' ts Ht). lia.
Qed.

Lemma print_tree_opens j close : close ∈ ["]"%char; "}"%char] → opens close (print_tree j).
Proof.
  intros Hc. apply elem_of_cons in Hc as [->|Hc%list_elem_of_singleton]; [|subst close];
    destruct j as [|[]|s|l|kvs]; simpl; by do 2 eexists.
Qed.

Lemma read_tree_print j fuel rest :
  length (print_tree j) ≤ fuel → read_tree fuel (print_tree j ++ rest) = Some (j, rest).
Proof.
  revert fuel rest. induction j as [|b|s|l IH|kvs IH] using tree_nested_ind;
    intros fuel rest Hfuel.
  - destruct fuel as [|fuel]; [simpl in Hfuel; lia|done].
  - destruct b; (destruct fuel as [|fuel]; [simpl in Hfuel; lia|done]).
  - destruct fuel as [|fuel]; [simpl in Hfuel; lia|].
    pose proof (read_string_print s rest) as Hrun. simpl in *. by rewrite Hrun.
  - pose proof (print_seq_length "[" "]" (map print_tree l)) as Hlen. rewrite length_map in Hlen.
    destruct fuel as [|fuel]; [simpl in Hfuel; lia|].
    assert (Hreads : Forall (reads print_tree (read_tree fuel) "]") l).
    { apply Forall_forall. intros j Hj. rewrite Forall_forall in IH. split.
      - apply print_tree_opens. by left.
      - intros rest'. apply (IH j Hj).
        pose proof (print_seq_elem "[" "]" (print_tree j) (map print_tree l)) as He.
        specialize (He (list_elem_of_fmap_2 _ _ _ Hj)). simpl in *. lia. }
    pose proof (read_seq_print print_tree (read_tree fuel) "[" "]" ltac:(done) l fuel rest Hreads)
      as Hrun.
    simpl in Hfuel, Hlen, Hrun |- *. rewrite Hrun by lia. done.
  - set (print_kv := λ kv : string * tree,
      let '(k, v) := kv in print_string k ++ ":"%char :: print_tree v).
    pose proof (print_seq_length "{" "}" (map print_kv kvs)) as Hlen. rewrite length_map in Hlen.
    destruct fuel as [|fuel]; [simpl in Hfuel; lia|].
    assert (Hreads : Forall (reads print_kv (read_member (read_tree fuel)) "}") kvs).
    { apply Forall_forall. intros [k v] Hkv. rewrite Forall_forall in IH. split.
      - by do 2 eexists.
      - intros rest'. unfold read_member, print_kv. rewrite <- app_assoc, read_string_print.
        simpl. specialize (IH _ Hkv). simpl in IH. rewrite IH; [done|].
        pose proof (print_seq_elem "{" "}" (print_kv (k, v)) (map print_kv kvs)) as He.
        specialize (He (list_elem_of_fmap_2 _ _ _ Hkv)). simpl in *.
        rewrite !length_app in He. simpl in He. fold print_kv in Hfuel. lia. }
    pose proof (read_seq_print print_kv _ "{" "}" ltac:(done) kvs fuel rest Hreads) as Hrun.
    change (print_tree (TObject kvs)) with (print_seq "{" "}" (map print_kv kvs)) in *.
    unfold print_seq in *. cbn [length tail app] in Hfuel, Hlen, Hrun |- *.
    cbn -[print_kv map join read_seq read_member]. rewrite Hrun by lia. done.
Qed.

(** ** The instance *)

(** All strings, keys included, are ASCII. *)
Fixpoint tree_ok (j : tree) : bool :=
  match j with
  | TNull | TBool _ => true
  | TString s => ascii_text s
  | TArray l => forallb tree_ok l
  | TObject kvs => forallb (λ kv, let '(k, v) := kv in ascii_text k && tree_ok v) kvs
  end.

Definition parse_tree (s : string) : outcome parse_failure tree :=
  match read_tree (String.length s) (String.list_ascii_of_string s) with
  | Some (j, []) => if tree_ok j then Ret j else Throw parse_error
  | _ => Throw parse_error
  end.

Definition dump_tree (j : tree) : option string :=
  if tree_ok j then Some (String.string_of_list_ascii (print_tree j)) else None.

Definition tree_at (j : tree) (key : string) : option tree :=
  match j with TObject kvs => assoc key kvs | _ => None end.

Fixpoint assoc_set {A} (key : string) (v : A) (kvs : list (string * A)) : list (string * A) :=
  match kvs with
  | [] => [(key, v)]
  | (k, w) :: kvs => if decide (k = key) then (k, v) :: kvs else (k, w) :: assoc_set key v kvs
  end.

#[export] Instance json_tree : Json := {
  json := tree;
  parse := parse_tree;
  dump := dump_tree;
  is_object j := match j with TObject _ => true | _ => false end;
  is_string j := match j with TString _ => true | _ => false end;
  is_null j := match j with TNull => true | _ => false end;
  contains j key := bool_decide (is_Some (tree_at j key));
  at_key := tree_at;
  get_string j := match j with TString s => Some s | _ => None end;
  of_string := TString;
  of_bool := TBool;
  of_array := TArray;
  of_object := TObject;
  push_back j v := match j with TArray l => Some (TArray (l ++ [v])) | _ => None end;
  set_key j key v :=
    match j with TObject kvs => Some (TObject (assoc_set key v kvs)) | _ => None end
}.

Lemma assoc_set_lookup {A} key (v : A) kvs key' :
  assoc key' (assoc_set key v kvs) = if decide (key' = key) then Some v else assoc key' kvs.
Proof.
  induction kvs as [|[k w] kvs IH]; simpl.
  - repeat case_decide; congruence.
  - destruct (decide (k = key)) as [->|Hne]; simpl; [|rewrite IH]; repeat case_decide; congruence.
Qed.

Lemma assoc_elem {A} key (kvs : list (string * A)) v :
  assoc key kvs = Some v → (key, v) ∈ kvs.
Proof.
  induction kvs as [|[k w] kvs IH]; simpl; [done|].
  case_decide as Hk; [intros [= ->]; subst; by left|]. intros Hv. right. auto.
Qed.

Lemma tree_ok_object kvs :
  tree_ok (TObject kvs) = true ↔ Forall (λ kv, ascii_text kv.1 = true ∧ tree_ok kv.2 = true) kvs.
Proof.
  cbn [tree_ok]. rewrite forallb_forall, Forall_forall. split.
  - intros Hall [k v] Hkv. apply andb_true_iff, (Hall (k, v)). by apply list_elem_of_In.
  - intros Hall [k v] Hkv. apply andb_true_iff, (Hall (k, v)). by apply list_elem_of_In.
Qed.

Lemma tree_ok_array l : tree_ok (TArray l) = true ↔ Forall (λ j, tree_ok j = true) l.
Proof.
  cbn [tree_ok]. rewrite forallb_forall, Forall_forall. by setoid_rewrite list_elem_of_In.
Qed.

Lemma assoc_set_Forall {A} (P : string * A → Prop) key v kvs :
  Forall P kvs → (∀ k, k = key → P (k, v)) → Forall P (assoc_set key v kvs).
Proof.
  intros Hkvs Hv. induction Hkvs as [|[k w] kvs Hk Hkvs IH]; simpl.
  - apply Forall_singleton. auto.
  - case_decide; apply Forall_cons; auto.
Qed.

Lemma parse_dump_tree j s : dump_tree j = Some s → parse_tree s = Ret j.
Proof.
  unfold dump_tree, parse_tree. destruct (tree_ok j) eqn:Hok; [|done]. intros [= <-].
  rewrite String.list_ascii_of_string_of_list_ascii.
  assert (Hlen : String.length (String.string_of_list_ascii (print_tree j)) =
    length (print_tree j)).
  { induction (print_tree j) as [|c t IH]; simpl; [done|]. by rewrite IH. }
  rewrite Hlen. pose proof (read_tree_print j (length (print_tree j)) []) as Hrun.
  rewrite app_nil_r in Hrun. rewrite Hrun by lia. by rewrite Hok.
Qed.

#[local] Obligation Tactic := idtac.

#[export] Program Instance json_tree_laws : JsonLaws := {|
  json_equiv := (=);
  text_ok := ascii_text;
  json_ok := tree_ok
|}.
Next Obligation. intros j key. simpl. apply bool_decide_eq_true. Qed.
Next Obligation. intros j key. simpl. rewrite bool_decide_eq_true. by destruct j; intros []. Qed.
Next Obligation. intros j. simpl. destruct j; split; try done; try (by intros []); eauto. Qed.
Next Obligation. by intros []. Qed.
Next Obligation. done. Qed.
Next Obligation. done. Qed.
Next Obligation. done. Qed.
Next Obligation. done. Qed.
Next Obligation.
  intros j key v Hobj. destruct j as [| | | |kvs]; try done. simpl. eexists. split_and!; [done..|].
  intros key'. apply assoc_set_lookup.
Qed.
Next Obligation.
  intros j j' Hj key key' Hkey. cbv in Hj. subst. simpl.
  destruct (tree_at j' key'); by constructor.
Qed.
Next Obligation. done. Qed.
Next Obligation.
  intros j. simpl. unfold dump_tree. destruct (tree_ok j); split; try done; by intros [].
Qed.
Next Obligation.
  intros s j. simpl. unfold parse_tree. destruct (read_tree _ _) as [[j' [|]]|]; [|done..].
  destruct (tree_ok j') eqn:Hok; [|done]. by intros [= <-].
Qed.
Next Obligation. intros j s Hs. exists j. split; [by apply parse_dump_tree|done]. Qed.
Next Obligation.
  intros j key v Hok Hv. destruct j as [| | | |kvs]; try done. simpl in Hv.
  apply tree_ok_object in Hok. rewrite Forall_forall in Hok.
  by apply assoc_elem, Hok in Hv as [_ ?].
Qed.
Next Obligation. intros j s. destruct j; simpl; try done. by intros ? [= <-]. Qed.
Next Obligation. done. Qed.
Next Obligation. done. Qed.
Next Obligation. intros l. apply tree_ok_array. Qed.
Next Obligation. intros kvs. apply tree_ok_object. Qed.
Next Obligation.
  intros j key v j' Hok Hk Hv Hset. destruct j as [| | | |kvs]; try done. simpl in Hset.
  injection Hset as <-. apply tree_ok_object. apply assoc_set_Forall.
  - by apply tree_ok_object.
  - by intros k ->.
Qed.

(** Message texts are written with the apostrophe for the quote. *)
Definition msg (s : string) : string :=
  String.string_of_list_ascii
    ((λ c, if decide (c = "'"%char) then quote else c) <$> String.list_ascii_of_string s).
