(* ===== verification/ControlDispatcher.v ===== *)
(** * ControlDispatcher: typed commands, responses and events

    Models include/buzzweb/app/ControlDispatcher.hpp and
    src/app/ControlDispatcher.cpp.  [std::variant] is an inductive type and
    [std::get] throws on the wrong alternative.  The response handler is an
    arbitrary computation on the whole state (the service's and the caller's),
    which may throw. *)

From S2P Require Import Prelude Room RoomRepository RoomService Json.

Module ControlMessageType.
Inductive t : Type := CreateRoom | JoinRoom | LeaveRoom | Signaling.
#[global] Instance eq_dec : EqDecision t.
Proof. solve_decision. Defined.
End ControlMessageType.

Module SignalingType.
Inductive t : Type := Offer | Answer | IceCandidate.
#[global] Instance eq_dec : EqDecision t.
Proof. solve_decision. Defined.
End SignalingType.

Record RequestMeta : Type := MkMeta {
  meta_type : ControlMessageType.t;
  request_id : option string;
  signaling_type : option SignalingType.t
}.

#[export] Instance RequestMeta_eq_dec : EqDecision RequestMeta.
Proof. solve_decision. Defined.

Abbreviation ResponseMeta := RequestMeta.

(** ** Commands *)

Record CreateRoomCommand : Type := MkCreateRoomCommand {
  create_participant : Participant;
  create_password_hash : option RoomSecret
}.

Record JoinRoomCommand : Type := MkJoinRoomCommand {
  join_room_code : RoomCode;
  join_participant : Participant;
  join_password_hash : option RoomSecret
}.

Record LeaveRoomCommand : Type := MkLeaveRoomCommand {
  leave_room_code : RoomCode;
  leave_participant_id : ParticipantId
}.

Section messages.
Context `{Json}.

Record SignalingCommand : Type := MkSignalingCommand {
  command_type : SignalingType.t;
  command_room_code : RoomCode;
  command_from : ParticipantId;
  command_target : ParticipantId;
  command_data : json
}.

Inductive CommandType : Type :=
| CreateRoomAlt (c : CreateRoomCommand)
| JoinRoomAlt (c : JoinRoomCommand)
| LeaveRoomAlt (c : LeaveRoomCommand)
| SignalingAlt (c : SignalingCommand).

Record ControlDispatcherRequest : Type := MkRequest {
  meta : RequestMeta;
  command : CommandType
}.

(** ** Responses *)

Record RoomResponse : Type := MkRoomResponse {
  response_room_code : RoomCode;
  response_participant : Participant;
  response_participants : list Participant
}.

Record SignalingResponse : Type := MkSignalingResponse {
  signal_type : SignalingType.t;
  signal_room_code : RoomCode;
  from_participant_id : ParticipantId;
  target_participant_id : ParticipantId;
  data : json
}.

(** [CreateRoomResponse] and [JoinRoomResponse] have the same members;
    [LeaveRoomResponse] has the room code only. *)
Inductive SuccessResponsePayload : Type :=
| CreateRoomResponse (r : RoomResponse)
| JoinRoomResponse (r : RoomResponse)
| LeaveRoomResponse (room_code : RoomCode)
| SignalingResponseAlt (r : SignalingResponse).

Inductive ErrorResponsePayload : Type :=
| RoomAlreadyExistsResponse
| RoomCodeGenerationFailedResponse
| NotInRoomResponse
| AlreadyInRoomResponse
| WrongPasswordResponse
| PasswordNotProvidedResponse
| RoomNotFoundResponse
| ParticipantUnavailableResponse
| InternalErrorResponse
| UnexpectedErrorResponse.

Inductive ControlDispatcherResponse : Type :=
| SuccessResponse (meta : ResponseMeta) (payload : SuccessResponsePayload)
| ErrorResponse (meta : ResponseMeta) (payload : ErrorResponsePayload).

(** ** Events *)

Inductive ControlDispatcherEvent : Type :=
| JoinedRoomEvent (room_code : RoomCode) (joined_participant : Participant)
    (event_receivers : list Participant)
| LeftRoomEvent (room_code : RoomCode) (left_participant_id : ParticipantId)
    (event_receivers : list Participant).

Record ControlDispatcherResult : Type := MkResult {
  response : ControlDispatcherResponse;
  events : list ControlDispatcherEvent
}.
End messages.

Definition MapServiceError (error : RoomServiceError.t) : ErrorResponsePayload :=
  match RoomServiceError.type error with
  | RoomServiceError.WrongPassword => WrongPasswordResponse
  | RoomServiceError.RoomNotFound => RoomNotFoundResponse
  | RoomServiceError.RoomCodeGenerationFailed => RoomCodeGenerationFailedResponse
  | RoomServiceError.ParticipantUnavailable => ParticipantUnavailableResponse
  | RoomServiceError.NotInRoom => NotInRoomResponse
  | RoomServiceError.AlreadyJoined => AlreadyInRoomResponse
  | RoomServiceError.RoomAlreadyExists => RoomAlreadyExistsResponse
  | RoomServiceError.PasswordNotProvided => PasswordNotProvidedResponse
  | RoomServiceError.InternalError => InternalErrorResponse
  end.

(** ** Dispatch *)

Section ControlDispatcher.
Context `{Json, CodeDraws} {R : Type} `{!RoomRepository R} {Host : Type}.
Local Open Scope prog_scope.

(** The state a request is handled in: the service's (repository and code
    generator) and the rest, which only the handler touches. *)
Abbreviation St := ((R * nat) * Host)%type.

Definition Handler : Type := ControlDispatcherResult → prog exception St unit.

(** [std::get<...>(request.command)] *)
Definition get_create (c : CommandType) : outcome exception CreateRoomCommand :=
  match c with CreateRoomAlt c => Ret c | _ => Throw bad_variant_access end.
Definition get_join (c : CommandType) : outcome exception JoinRoomCommand :=
  match c with JoinRoomAlt c => Ret c | _ => Throw bad_variant_access end.
Definition get_leave (c : CommandType) : outcome exception LeaveRoomCommand :=
  match c with LeaveRoomAlt c => Ret c | _ => Throw bad_variant_access end.
Definition get_signaling (c : CommandType) : outcome exception SignalingCommand :=
  match c with SignalingAlt c => Ret c | _ => Throw bad_variant_access end.

Definition send_error (request : ControlDispatcherRequest) (handler : Handler)
    (payload : ErrorResponsePayload) : prog exception St unit :=
  handler (MkResult (ErrorResponse (meta request) payload) []).

Definition dispatch_create (request : ControlDispatcherRequest) (handler : Handler)
    : prog exception St unit :=
  command <- plift (get_create (command request));;
  create_result <- on_fst (CreateRoom (create_password_hash command));;
  match create_result with
  | Err e => send_error request handler (MapServiceError e)
  | Ok room =>
      join_result <- on_fst (on_fst
        (JoinRoom (GetCode room) (create_participant command)
           (create_password_hash command)));;
      match join_result with
      | Err e => send_error request handler (MapServiceError e)
      | Ok joined =>
          handler (MkResult
            (SuccessResponse (meta request)
               (CreateRoomResponse
                  (MkRoomResponse (joined_room_code joined) (joined_participant joined)
                     (room_participants joined)))) [])
      end
  end.

Definition dispatch_join (request : ControlDispatcherRequest) (handler : Handler)
    : prog exception St unit :=
  command <- plift (get_join (command request));;
  result <- on_fst (on_fst
    (JoinRoom (join_room_code command) (join_participant command)
       (join_password_hash command)));;
  match result with
  | Err e => send_error request handler (MapServiceError e)
  | Ok joined =>
      handler (MkResult
        (SuccessResponse (meta request)
           (JoinRoomResponse
              (MkRoomResponse (joined_room_code joined) (joined_participant joined)
                 (room_participants joined))))
        [JoinedRoomEvent (joined_room_code joined) (joined_participant joined)
           (room_participants joined)])
  end.

Definition dispatch_leave (request : ControlDispatcherRequest) (handler : Handler)
    : prog exception St unit :=
  command <- plift (get_leave (command request));;
  result <- on_fst (on_fst
    (LeaveRoom (leave_room_code command) (leave_participant_id command)));;
  match result with
  | Err e => send_error request handler (MapServiceError e)
  | Ok gone =>
      handler (MkResult
        (SuccessResponse (meta request) (LeaveRoomResponse (left_room_code gone)))
        [LeftRoomEvent (left_room_code gone) (left_participant_id gone)
           (remaining_participants gone)])
  end.

(** The membership test short-circuits: the target is looked up only when the
    sender is in the room. *)
Definition dispatch_signaling (request : ControlDispatcherRequest) (handler : Handler)
    : prog exception St unit :=
  command <- plift (get_signaling (command request));;
  from_in <- on_fst (on_fst
    (ServiceParticipantInRoom (command_from command) (command_room_code command)));;
  both_in <-
    (if negb from_in then pret false
     else on_fst (on_fst
       (ServiceParticipantInRoom (command_target command) (command_room_code command))));;
  if negb both_in then send_error request handler NotInRoomResponse
  else
    handler (MkResult
      (SuccessResponse (meta request)
         (SignalingResponseAlt
            (MkSignalingResponse (command_type command) (command_room_code command)
               (command_from command) (command_target command) (command_data command))))
      []).

Definition Dispatch (request : ControlDispatcherRequest) (handler : option Handler)
    : prog exception St unit :=
  match handler with
  | None => pret tt
  | Some handler =>
      ptry
        (match meta_type (meta request) with
         | ControlMessageType.CreateRoom => dispatch_create request handler
         | ControlMessageType.JoinRoom => dispatch_join request handler
         | ControlMessageType.LeaveRoom => dispatch_leave request handler
         | ControlMessageType.Signaling => dispatch_signaling request handler
         end)
        (λ _, send_error request handler InternalErrorResponse)
  end.

(** The event of one element of the result of [LeaveAllRooms]. *)
Definition left_event (r : ParticipantLeftRoomResult) : option ControlDispatcherEvent :=
  match r with
  | Err _ => None
  | Ok gone =>
      Some (LeftRoomEvent (left_room_code gone) (left_participant_id gone)
              (remaining_participants gone))
  end.

Definition HandleParticipantDisconnected (participant_id : ParticipantId)
    : prog exception R (list ControlDispatcherEvent) :=
  results <- LeaveAllRooms participant_id;;
  pret (omap left_event results).
End ControlDispatcher.
