(* ===== verification/ControlDispatcherSpec.v ===== *)
(** * ControlDispatcherSpec: what the dispatcher answers

    [dispatch_spec] gives, for a request and the stored rooms, the one result
    the handler is called with and the rooms afterwards.  [Dispatch_lawful]
    shows that the dispatcher of ControlDispatcher.v computes it over any lawful
    repository, for any handler. *)

From S2P Require Import Prelude Text Room RoomRepository RoomService RoomServiceSpec.
From S2P Require Import Json ControlDispatcher.

Section specification.
Context `{Json, CodeDraws}.
Implicit Types (rooms : gmap RoomCode Room) (m : RequestMeta).

Abbreviation Answer := (ControlDispatcherResult * (gmap RoomCode Room * nat))%type.

Definition error_result m (e : ErrorResponsePayload) : ControlDispatcherResult :=
  MkResult (ErrorResponse m e) [].

Definition answer_create m (c : CreateRoomCommand) rooms g : Answer :=
  let p := create_participant c in
  match first_free max_attempts g rooms with
  | None => (error_result m RoomCodeGenerationFailedResponse, (rooms, g + max_attempts))
  | Some i =>
      let code := format_room_code (code_draw (g + i)) in
      (MkResult (SuccessResponse m (CreateRoomResponse (MkRoomResponse code p [p]))) [],
       (<[code := MkRoom code (create_password_hash c) [p]]> rooms, S (g + i)))
  end.

Definition answer_join m (c : JoinRoomCommand) rooms g : Answer :=
  let code := join_room_code c in
  let p := join_participant c in
  match join_spec code p (join_password_hash c) rooms with
  | (Err e, rooms') => (error_result m (MapServiceError e), (rooms', g))
  | (Ok joined, rooms') =>
      let all := room_participants joined in
      (MkResult (SuccessResponse m (JoinRoomResponse (MkRoomResponse code p all)))
         [JoinedRoomEvent code p all], (rooms', g))
  end.

Definition answer_leave m (c : LeaveRoomCommand) rooms g : Answer :=
  let code := leave_room_code c in
  let pid := leave_participant_id c in
  match leave_spec code pid rooms with
  | (Err e, rooms') => (error_result m (MapServiceError e), (rooms', g))
  | (Ok gone, rooms') =>
      (MkResult (SuccessResponse m (LeaveRoomResponse code))
         [LeftRoomEvent code pid (remaining_participants gone)], (rooms', g))
  end.

Definition relay_response (c : SignalingCommand) : SignalingResponse :=
  MkSignalingResponse (command_type c) (command_room_code c) (command_from c)
    (command_target c) (command_data c).

Definition answer_signaling m (c : SignalingCommand) rooms g : Answer :=
  let code := command_room_code c in
  (if in_room rooms code (command_from c) && in_room rooms code (command_target c)
   then MkResult (SuccessResponse m (SignalingResponseAlt (relay_response c))) []
   else error_result m NotInRoomResponse, (rooms, g)).

Definition dispatch_spec (request : ControlDispatcherRequest) rooms g : Answer :=
  let m := meta request in
  match meta_type m, command request with
  | ControlMessageType.CreateRoom, CreateRoomAlt c => answer_create m c rooms g
  | ControlMessageType.JoinRoom, JoinRoomAlt c => answer_join m c rooms g
  | ControlMessageType.LeaveRoom, LeaveRoomAlt c => answer_leave m c rooms g
  | ControlMessageType.Signaling, SignalingAlt c => answer_signaling m c rooms g
  | _, _ => (error_result m InternalErrorResponse, (rooms, g))
  end.

(** The alternative the meta data of a request has to announce. *)
Definition alternative (c : CommandType) : ControlMessageType.t :=
  match c with
  | CreateRoomAlt _ => ControlMessageType.CreateRoom
  | JoinRoomAlt _ => ControlMessageType.JoinRoom
  | LeaveRoomAlt _ => ControlMessageType.LeaveRoom
  | SignalingAlt _ => ControlMessageType.Signaling
  end.

Definition request_ok (request : ControlDispatcherRequest) : Prop :=
  meta_type (meta request) = alternative (command request).

Definition answer_result (a : Answer) : ControlDispatcherResult := a.1.
Definition answer_rooms (a : Answer) : gmap RoomCode Room := a.2.1.

(** Who the command of a request speaks for. *)
Definition speaker (c : CommandType) : ParticipantId :=
  match c with
  | CreateRoomAlt c => GetId (create_participant c)
  | JoinRoomAlt c => GetId (join_participant c)
  | LeaveRoomAlt c => leave_participant_id c
  | SignalingAlt c => command_from c
  end.

(** The events of a disconnection. *)
Definition disconnect_event (pid : ParticipantId) rooms (code : RoomCode)
    : option ControlDispatcherEvent :=
  room ← rooms !! code;
  if HasParticipant room pid
  then Some (LeftRoomEvent code pid (participants_ (without room pid))) else None.
End specification.

Section over_lawful.
Context `{Json, CodeDraws} {R : Type} `{LawfulRepository R} {Host : Type}.
Implicit Types (rooms : gmap RoomCode Room) (r : R) (g : nat) (x : Host).
Implicit Types (handler : Handler (R := R) (Host := Host)).

(** The handler is called with [result]; if it throws, the dispatcher calls it
    again with an internal error, in the state the throw left. *)
Definition answer_with request handler (result : ControlDispatcherResult)
    : prog exception ((R * nat) * Host) unit :=
  ptry (handler result) (λ _, send_error request handler InternalErrorResponse).

Lemma on_fst_eq {E S T A} (m : prog E S A) s (t : T) o s' :
  m s = (o, s') → on_fst m (s, t) = (o, (s', t)).
Proof. unfold on_fst. by intros ->. Qed.

Lemma ptry_bind_ret {E S A B} (m : prog E S A) (f : A → prog E S B) h s a s' :
  m s = (Ret a, s') → ptry (pbind m f) h s = ptry (f a) h s'.
Proof. intros Hm. unfold ptry. by rewrite (pbind_ret _ _ _ _ _ Hm). Qed.

Lemma join_fresh code p given rooms :
  join_spec code p given (<[code := NewRoom code given]> rooms) =
  (Ok (MkJoined code p [p]), <[code := MkRoom code given [p]]> rooms).
Proof.
  unfold join_spec. rewrite lookup_insert_eq. unfold join_outcome. simpl.
  assert (secret_ok given given = true) as ->.
  { destruct given; [|done]. by apply bool_decide_eq_true_2. }
  unfold add_participant, set_participants. simpl. by rewrite insert_insert_eq.
Qed.

Lemma MapServiceError_create :
  MapServiceError BuildRoomCodeGenerationFailedError = RoomCodeGenerationFailedResponse.
Proof. done. Qed.

(** From a state for [rooms], [m] ends like [answer] says: by calling the
    handler in a state for the answer's rooms. *)
Definition answers request handler (m : prog exception ((R * nat) * Host) unit)
    r g x (a : ControlDispatcherResult * (gmap RoomCode Room * nat)) : Prop :=
  ∃ r', repo_rel r' a.2.1 ∧
    ptry m (λ _, send_error request handler InternalErrorResponse) ((r, g), x) =
    answer_with request handler a.1 ((r', a.2.2), x).

Lemma dispatch_create_lawful request handler c r rooms g x :
  repo_rel r rooms → command request = CreateRoomAlt c →
  answers request handler (dispatch_create request handler) r g x
    (answer_create (meta request) c rooms g).
Proof.
  intros Hr Hc. unfold answers, dispatch_create, answer_create. rewrite Hc.
  set (p := create_participant c). set (pw := create_password_hash c).
  pose proof (CreateRoom_lawful pw r rooms g Hr) as Hcreate. unfold create_spec in Hcreate.
  erewrite ptry_bind_ret by done.
  destruct (first_free max_attempts g rooms) as [i|].
  - destruct Hcreate as (r1 & Hrun & Hr1). set (code := format_room_code _) in *.
    destruct (JoinRoom_lawful code p pw r1 _ Hr1) as (r2 & Hjoin & Hr2).
    rewrite join_fresh in Hjoin, Hr2. exists r2. split; [done|].
    erewrite ptry_bind_ret by (by apply on_fst_eq). cbn [GetCode NewRoom code_].
    erewrite ptry_bind_ret by (do 2 apply on_fst_eq; exact Hjoin). done.
  - destruct Hcreate as (r1 & Hrun & Hr1). exists r1. split; [done|].
    by erewrite ptry_bind_ret by (by apply on_fst_eq).
Qed.

Lemma dispatch_join_lawful request handler c r rooms g x :
  repo_rel r rooms → command request = JoinRoomAlt c →
  answers request handler (dispatch_join request handler) r g x
    (answer_join (meta request) c rooms g).
Proof.
  intros Hr Hc. unfold answers, dispatch_join, answer_join. rewrite Hc.
  erewrite ptry_bind_ret by done.
  set (code := join_room_code c). set (p := join_participant c).
  destruct (JoinRoom_lawful code p (join_password_hash c) r rooms Hr) as (r' & Hrun & Hr').
  erewrite ptry_bind_ret by (do 2 apply on_fst_eq; exact Hrun).
  unfold join_spec in *. destruct (rooms !! code) as [room|]; [|by exists r'].
  destruct (join_outcome room p _); by exists r'.
Qed.

Lemma dispatch_leave_lawful request handler c r rooms g x :
  repo_rel r rooms → command request = LeaveRoomAlt c →
  answers request handler (dispatch_leave request handler) r g x
    (answer_leave (meta request) c rooms g).
Proof.
  intros Hr Hc. unfold answers, dispatch_leave, answer_leave. rewrite Hc.
  erewrite ptry_bind_ret by done.
  set (code := leave_room_code c). set (pid := leave_participant_id c).
  destruct (LeaveRoom_lawful code pid r rooms Hr) as (r' & Hrun & Hr').
  erewrite ptry_bind_ret by (do 2 apply on_fst_eq; exact Hrun).
  unfold leave_spec in *. destruct (rooms !! code) as [room|]; [|by exists r'].
  destruct (HasParticipant room pid); by exists r'.
Qed.

Lemma dispatch_signaling_lawful request handler c r rooms g x :
  repo_rel r rooms → command request = SignalingAlt c →
  answers request handler (dispatch_signaling request handler) r g x
    (answer_signaling (meta request) c rooms g).
Proof.
  intros Hr Hc. unfold answers, dispatch_signaling, answer_signaling. rewrite Hc.
  erewrite ptry_bind_ret by done. set (code := command_room_code c).
  destruct (ParticipantInRoom_lawful (command_from c) code r rooms Hr) as (r1 & Hrun & Hr1).
  erewrite ptry_bind_ret by (do 2 apply on_fst_eq; exact Hrun).
  destruct (in_room rooms code (command_from c)); simpl; [|by exists r1].
  destruct (ParticipantInRoom_lawful (command_target c) code r1 rooms Hr1) as (r2 & Hrun2 & Hr2).
  exists r2. split; [done|].
  erewrite ptry_bind_ret by (do 2 apply on_fst_eq; exact Hrun2).
  by destruct (in_room rooms code (command_target c)).
Qed.

Lemma Dispatch_lawful request handler r rooms g x :
  request_ok request → repo_rel r rooms →
  answers request handler
    (λ s, match meta_type (meta request) with
          | ControlMessageType.CreateRoom => dispatch_create request handler s
          | ControlMessageType.JoinRoom => dispatch_join request handler s
          | ControlMessageType.LeaveRoom => dispatch_leave request handler s
          | ControlMessageType.Signaling => dispatch_signaling request handler s
          end) r g x (dispatch_spec request rooms g).
Proof.
  unfold request_ok, dispatch_spec. intros -> Hr.
  destruct (command request) as [c|c|c|c] eqn:Hc; simpl;
    eauto using dispatch_create_lawful, dispatch_join_lawful,
      dispatch_leave_lawful, dispatch_signaling_lawful.
Qed.

Lemma Dispatch_eq request handler s :
  Dispatch request (Some handler) s =
  ptry (λ s, match meta_type (meta request) with
             | ControlMessageType.CreateRoom => dispatch_create request handler s
             | ControlMessageType.JoinRoom => dispatch_join request handler s
             | ControlMessageType.LeaveRoom => dispatch_leave request handler s
             | ControlMessageType.Signaling => dispatch_signaling request handler s
             end) (λ _, send_error request handler InternalErrorResponse) s.
Proof. unfold Dispatch, ptry. by destruct (meta_type (meta request)). Qed.

(** The dispatcher on a request whose command is the one its meta announces. *)
Lemma Dispatch_answers request handler r rooms g x :
  request_ok request → repo_rel r rooms →
  ∃ r', repo_rel r' (dispatch_spec request rooms g).2.1 ∧
    Dispatch request (Some handler) ((r, g), x) =
    answer_with request handler (dispatch_spec request rooms g).1
      ((r', (dispatch_spec request rooms g).2.2), x).
Proof. intros Hok Hr. rewrite Dispatch_eq. by apply Dispatch_lawful. Qed.

(** On any other request [std::get] throws before a service is called. *)
Lemma Dispatch_mismatch request handler r g x :
  ¬ request_ok request →
  Dispatch request (Some handler) ((r, g), x) =
  send_error request handler InternalErrorResponse ((r, g), x).
Proof.
  unfold request_ok, Dispatch, dispatch_create, dispatch_join, dispatch_leave,
    dispatch_signaling. intros Hne.
  destruct (meta_type (meta request)), (command request); simpl in Hne; done.
Qed.

Lemma HandleParticipantDisconnected_lawful pid r rooms :
  repo_rel r rooms →
  ∃ codes r', codes ≡ₚ room_codes rooms ∧
    HandleParticipantDisconnected pid r =
      (Ret (omap (disconnect_event pid rooms) codes), r') ∧
    repo_rel r' (leave_all pid rooms).
Proof.
  intros Hr. destruct (LeaveAllRooms_lawful pid r rooms Hr) as (codes & r' & Hp & Hrun & Hr').
  exists codes, r'. split_and!; [done| |done]. unfold HandleParticipantDisconnected.
  rewrite (pbind_ret _ _ _ _ _ Hrun). unfold pret. do 2 f_equal.
  clear. induction codes as [|code codes IH]; [done|]. cbn. rewrite <- IH.
  unfold left_result, disconnect_event at 1. destruct (rooms !! code) as [room|]; [|done].
  simpl. by destruct (HasParticipant room pid).
Qed.
End over_lawful.
