(* ===== verification/ProtocolCodec.v ===== *)
(** * ProtocolCodec: the JSON boundary

    Models include/buzzweb/app/ProtocolCodec.hpp and src/app/ProtocolCodec.cpp
    over the JSON interface: decoding of requests with the exceptions it throws,
    and the encoders of responses, events, relayed signals and protocol errors.
    An encoder throws when [dump] does. *)

From S2P Require Import Prelude Room Json ControlDispatcher.

(** What leaves [DecodeRequest]: the JSON library's exceptions, a
    [ProtocolDecodeError] with its members, or a plain [std::invalid_argument]. *)
Inductive decode_exception : Type :=
| JsonFailure (e : parse_failure)
| JsonAccess
| ProtocolDecodeError (meta : option RequestMeta) (what : string)
    (error_request_id : option string)
| InvalidArgument (what : string).

#[export] Instance parse_failure_eq_dec : EqDecision parse_failure.
Proof. solve_decision. Defined.
#[export] Instance decode_exception_eq_dec : EqDecision decode_exception.
Proof. solve_decision. Defined.

(** The constructor: the request id of the meta data wins. *)
Definition NewProtocolDecodeError (meta : option RequestMeta) (code : string)
    (rid : option string) : decode_exception :=
  ProtocolDecodeError meta code
    (match meta with
     | Some m => match request_id m with Some r => Some r | None => rid end
     | None => rid
     end).

Section ProtocolCodec.
Context `{Json}.
Local Open Scope outcome_scope.

(** ** Reading fields *)

Definition json_at (j : json) (key : string) : outcome decode_exception json :=
  match at_key j key with Some v => Ret v | None => Throw JsonAccess end.

Definition json_string (j : json) : outcome decode_exception string :=
  match get_string j with Some s => Ret s | None => Throw JsonAccess end.

Definition RequiredString (payload : json) (field : string)
    : outcome decode_exception string :=
  if negb (contains payload field) then Throw (InvalidArgument "missing_field")
  else
    v <- json_at payload field;;
    if negb (is_string v) then Throw (InvalidArgument "invalid_field")
    else json_string v.

Definition OptionalString (payload : json) (field : string)
    : outcome decode_exception (option string) :=
  if negb (contains payload field) then Ret None
  else
    v <- json_at payload field;;
    if is_null v then Ret None
    else if negb (is_string v) then Throw (InvalidArgument "invalid_field")
    else obind (json_string v) (λ s, Ret (Some s)).

(** ** Requests *)

(** The chain of comparisons on the type. *)
Definition type_meta (type : string) : option RequestMeta :=
  if decide (type = "create_room") then
    Some (MkMeta ControlMessageType.CreateRoom None None)
  else if decide (type = "join_room") then
    Some (MkMeta ControlMessageType.JoinRoom None None)
  else if decide (type = "leave_room") then
    Some (MkMeta ControlMessageType.LeaveRoom None None)
  else if decide (type = "offer") then
    Some (MkMeta ControlMessageType.Signaling None (Some SignalingType.Offer))
  else if decide (type = "answer") then
    Some (MkMeta ControlMessageType.Signaling None (Some SignalingType.Answer))
  else if decide (type = "ice_candidate") then
    Some (MkMeta ControlMessageType.Signaling None (Some SignalingType.IceCandidate))
  else None.

Definition set_request_id (m : RequestMeta) (rid : option string) : RequestMeta :=
  MkMeta (meta_type m) rid (signaling_type m).

(** [json.contains(key) && p(json.at(key))]: [at] runs only if the key is there. *)
Definition contains_and (j : json) (key : string) (p : json → bool)
    : outcome decode_exception bool :=
  if contains j key then obind (json_at j key) (λ v, Ret (p v)) else Ret false.

(** The body of the [try] block: the command of a payload. *)
Definition decode_command (participant_id : ParticipantId) (type : string)
    (m : RequestMeta) (payload : json) : outcome decode_exception CommandType :=
  if decide (type = "create_room") then
    display_name <- RequiredString payload "display_name";;
    password <- OptionalString payload "password";;
    Ret (CreateRoomAlt
      (MkCreateRoomCommand (MkParticipant participant_id display_name) password))
  else if decide (type = "join_room") then
    room_code <- RequiredString payload "room_code";;
    display_name <- RequiredString payload "display_name";;
    password <- OptionalString payload "password";;
    Ret (JoinRoomAlt
      (MkJoinRoomCommand room_code (MkParticipant participant_id display_name) password))
  else if decide (type = "leave_room") then
    room_code <- RequiredString payload "room_code";;
    Ret (LeaveRoomAlt (MkLeaveRoomCommand room_code participant_id))
  else
    signaling <- (match signaling_type m with
                  | Some t => Ret t
                  | None => Throw JsonAccess (* reading an empty optional; never reached *)
                  end);;
    room_code <- RequiredString payload "room_code";;
    target <- RequiredString payload "target_participant_id";;
    Ret (SignalingAlt
      (MkSignalingCommand signaling room_code participant_id target payload)).

(** [catch (const std::invalid_argument& ex)], which [ProtocolDecodeError]
    derives from. *)
Definition rethrow_with (m : RequestMeta) (e : decode_exception) : decode_exception :=
  match e with
  | InvalidArgument what => NewProtocolDecodeError (Some m) what None
  | ProtocolDecodeError _ what _ => NewProtocolDecodeError (Some m) what None
  | e => e
  end.

Definition decode_json (participant_id : ParticipantId) (j : json)
    : outcome decode_exception ControlDispatcherRequest :=
  has_type <- (if is_object j then contains_and j "type" is_string else Ret false);;
  if negb has_type then Throw (NewProtocolDecodeError None "invalid_message" None) else
  type <- obind (json_at j "type") json_string;;
  has_string_id <- contains_and j "request_id" is_string;;
  rid <- (if has_string_id
          then obind (obind (json_at j "request_id") json_string) (λ s, Ret (Some s))
          else Ret None);;
  match type_meta type with
  | None => Throw (NewProtocolDecodeError None "invalid_message" rid)
  | Some m =>
      bad_id <- contains_and j "request_id" (λ v, negb (is_null v) && negb (is_string v));;
      if bad_id then Throw (NewProtocolDecodeError (Some m) "invalid_message" None) else
      let m := if has_string_id then set_request_id m rid else m in
      has_payload <- contains_and j "payload" is_object;;
      if negb has_payload
      then Throw (NewProtocolDecodeError (Some m) "invalid_message" None) else
      payload <- json_at j "payload";;
      command <- ocatch (decode_command participant_id type m payload)
                   (λ e, Throw (rethrow_with m e));;
      Ret (MkRequest m command)
  end.

Definition DecodeRequest (participant_id : ParticipantId) (message : string)
    : outcome decode_exception ControlDispatcherRequest :=
  j <- ocatch (parse message) (λ e, Throw (JsonFailure e));;
  decode_json participant_id j.

(** ** Responses and events *)

Definition json_type_error : exception := foreign_exception "nlohmann::json::type_error".

Definition json_dump (j : json) : outcome exception string :=
  match dump j with Some s => Ret s | None => Throw json_type_error end.

Definition json_set (j : json) (key : string) (v : json) : outcome exception json :=
  match set_key j key v with Some j => Ret j | None => Throw json_type_error end.

Definition json_push_back (j v : json) : outcome exception json :=
  match push_back j v with Some j => Ret j | None => Throw json_type_error end.

Definition ParticipantToJson (p : Participant) : json :=
  of_object [("participant_id", of_string (GetId p));
             ("display_name", of_string (GetName p))].

Fixpoint push_participants (j : json) (ps : list Participant) : outcome exception json :=
  match ps with
  | [] => Ret j
  | p :: ps => j <- json_push_back j (ParticipantToJson p);; push_participants j ps
  end.

Definition ParticipantsToJson (ps : list Participant) : outcome exception json :=
  push_participants (of_array []) ps.

Definition SignalingTypeToString (t : SignalingType.t) : string :=
  match t with
  | SignalingType.Offer => "offer"
  | SignalingType.Answer => "answer"
  | SignalingType.IceCandidate => "ice_candidate"
  end.

Definition ResultType (m : ResponseMeta) : string :=
  match meta_type m with
  | ControlMessageType.CreateRoom => "create_room_result"
  | ControlMessageType.JoinRoom => "join_room_result"
  | ControlMessageType.LeaveRoom => "leave_room_result"
  | ControlMessageType.Signaling =>
      match signaling_type m with
      | Some t => SignalingTypeToString t +:+ "_result"
      | None => "error"
      end
  end.

Definition ErrorMessage (code : string) : string :=
  if decide (code = "invalid_json") then "Message must be valid JSON."
  else if decide (code = "invalid_message") then "Message type or payload is invalid."
  else if decide (code = "missing_field") then "Required field is missing."
  else if decide (code = "invalid_field") then "Field has an invalid value."
  else if decide (code = "room_not_found") then "Room was not found."
  else if decide (code = "wrong_password") then "Room password is incorrect."
  else if decide (code = "already_joined") then "Participant is already in the room."
  else if decide (code = "not_in_room") then "Participant is not in the room."
  else if decide (code = "participant_unavailable") then "Participant is not connected."
  else if decide (code = "password_not_provided") then "Room password is required."
  else if decide (code = "room_code_generation_failed")
    then "Room code could not be generated."
  else if decide (code = "room_already_exists") then "Room already exists."
  else "Internal server error.".

Definition ErrorCode (payload : ErrorResponsePayload) : string :=
  match payload with
  | RoomAlreadyExistsResponse => "room_already_exists"
  | RoomCodeGenerationFailedResponse => "room_code_generation_failed"
  | NotInRoomResponse => "not_in_room"
  | AlreadyInRoomResponse => "already_joined"
  | WrongPasswordResponse => "wrong_password"
  | PasswordNotProvidedResponse => "password_not_provided"
  | RoomNotFoundResponse => "room_not_found"
  | ParticipantUnavailableResponse => "participant_unavailable"
  | InternalErrorResponse | UnexpectedErrorResponse => "internal_error"
  end.

Definition error_json (code : string) : json :=
  of_object [("code", of_string code); ("message", of_string (ErrorMessage code))].

(** The visitor of the success payload. *)
Definition payload_json (payload : SuccessResponsePayload) : outcome exception json :=
  match payload with
  | CreateRoomResponse r | JoinRoomResponse r =>
      participants <- ParticipantsToJson (response_participants r);;
      Ret (of_object [("room_code", of_string (response_room_code r));
                      ("participant", ParticipantToJson (response_participant r));
                      ("participants", participants)])
  | LeaveRoomResponse code => Ret (of_object [("room_code", of_string code)])
  | SignalingResponseAlt r => Ret (of_object [("room_code", of_string (signal_room_code r))])
  end.

Definition response_meta (r : ControlDispatcherResponse) : ResponseMeta :=
  match r with SuccessResponse m _ | ErrorResponse m _ => m end.

Definition is_success (r : ControlDispatcherResponse) : bool :=
  match r with SuccessResponse _ _ => true | ErrorResponse _ _ => false end.

Definition set_id (j : json) (rid : option string) : outcome exception json :=
  match rid with
  | Some r => json_set j "request_id" (of_string r)
  | None => Ret j
  end.

Definition response_json (r : ControlDispatcherResponse) : outcome exception json :=
  j <- set_id (of_object [("type", of_string (ResultType (response_meta r)));
                          ("ok", of_bool (is_success r))])
         (request_id (response_meta r));;
  match r with
  | ErrorResponse _ payload => json_set j "error" (error_json (ErrorCode payload))
  | SuccessResponse _ payload =>
      p <- payload_json payload;;
      json_set j "payload" p
  end.

Definition EncodeResponse (r : ControlDispatcherResponse) : outcome exception string :=
  obind (response_json r) json_dump.

Definition event_room_code (e : ControlDispatcherEvent) : RoomCode :=
  match e with JoinedRoomEvent c _ _ | LeftRoomEvent c _ _ => c end.

Definition event_receivers (e : ControlDispatcherEvent) : list Participant :=
  match e with JoinedRoomEvent _ _ l | LeftRoomEvent _ _ l => l end.

Definition event_json (e : ControlDispatcherEvent) : outcome exception json :=
  participants <- ParticipantsToJson (event_receivers e);;
  let payload := of_object [("room_code", of_string (event_room_code e));
                            ("participants", participants)] in
  match e with
  | JoinedRoomEvent _ joined_participant _ =>
      payload <- json_set payload "participant" (ParticipantToJson joined_participant);;
      Ret (of_object [("type", of_string "participant_joined"); ("payload", payload)])
  | LeftRoomEvent _ left_participant_id _ =>
      payload <- json_set payload "participant_id" (of_string left_participant_id);;
      Ret (of_object [("type", of_string "participant_left"); ("payload", payload)])
  end.

Definition EncodeEvent (e : ControlDispatcherEvent) : outcome exception string :=
  obind (event_json e) json_dump.

Definition signal_json (r : SignalingResponse) : outcome exception json :=
  payload <- json_set (data r) "room_code" (of_string (signal_room_code r));;
  payload <- json_set payload "target_participant_id" (of_string (target_participant_id r));;
  payload <- json_set payload "from_participant_id" (of_string (from_participant_id r));;
  Ret (of_object [("type", of_string (SignalingTypeToString (signal_type r)));
                  ("payload", payload)]).

Definition EncodeSignalingEvent (r : SignalingResponse) : outcome exception string :=
  obind (signal_json r) json_dump.

Definition protocol_error_json (m : option RequestMeta) (code : string)
    (rid : option string) : outcome exception json :=
  let type := match m with Some m => ResultType m | None => "error" end in
  let j := of_object [("type", of_string type);
                      ("ok", of_bool false); ("error", error_json code)] in
  set_id j (match m with
            | Some m => match request_id m with Some r => Some r | None => rid end
            | None => rid
            end).

Definition EncodeProtocolError (m : option RequestMeta) (code : string)
    (rid : option string) : outcome exception string :=
  obind (protocol_error_json m code rid) json_dump.
End ProtocolCodec.
