(* ===== verification/ProtocolCodecSpec.v ===== *)
(** * ProtocolCodecSpec: the protocol, declaratively

    [encodes] says which JSON value is a request, field by field; the decoder
    accepts exactly these.  The encoders' exceptions are reduced to the validity
    of the strings they are given. *)

From S2P Require Import Prelude Room Json ControlDispatcher ControlDispatcherSpec ProtocolCodec.

Section decoding.
Context `{JsonLaws}.
Implicit Types (j payload : json) (pid : ParticipantId).

(** The text of a string member. *)
Definition member_text j (key : string) : option string := at_key j key ≫= get_string.

Definition field_is j (key : string) (s : string) : Prop := member_text j key = Some s.

(** An optional member: a string, or absent or null. *)
Definition optional_is j (key : string) (o : option string) : Prop :=
  match o with
  | Some s => field_is j key s
  | None => from_option (λ v, is_null v = true) True (at_key j key)
  end.

Lemma RequiredString_eq payload field :
  RequiredString payload field =
  match at_key payload field with
  | None => Throw (InvalidArgument "missing_field")
  | Some v => match get_string v with
              | Some s => Ret s
              | None => Throw (InvalidArgument "invalid_field")
              end
  end.
Proof.
  unfold RequiredString, json_at, json_string.
  destruct (at_key payload field) as [v|] eqn:Hv.
  - rewrite (contains_Some _ _ _ Hv). simpl.
    destruct (get_string v) as [s|] eqn:Hs.
    + by rewrite (get_string_is_string _ _ Hs).
    + by apply is_string_false in Hs as ->.
  - by apply contains_false in Hv as ->.
Qed.

Lemma OptionalString_eq payload field :
  OptionalString payload field =
  match at_key payload field with
  | None => Ret None
  | Some v => if is_null v then Ret None else
              match get_string v with
              | Some s => Ret (Some s)
              | None => Throw (InvalidArgument "invalid_field")
              end
  end.
Proof.
  unfold OptionalString, json_at, json_string.
  destruct (at_key payload field) as [v|] eqn:Hv.
  - rewrite (contains_Some _ _ _ Hv). simpl. destruct (is_null v); [done|].
    destruct (get_string v) as [s|] eqn:Hs.
    + by rewrite (get_string_is_string _ _ Hs).
    + by apply is_string_false in Hs as ->.
  - by apply contains_false in Hv as ->.
Qed.

Lemma contains_and_eq j key p :
  contains_and j key p = Ret (from_option p false (at_key j key)).
Proof.
  unfold contains_and, json_at. destruct (at_key j key) as [v|] eqn:Hv.
  - by rewrite (contains_Some _ _ _ Hv).
  - by apply contains_false in Hv as ->.
Qed.

Lemma RequiredString_Ret payload field s :
  RequiredString payload field = Ret s ↔ field_is payload field s.
Proof.
  rewrite RequiredString_eq. unfold field_is, member_text.
  destruct (at_key payload field) as [v|]; simpl; [|done].
  destruct (get_string v); naive_solver.
Qed.

Lemma get_string_not_null v s : get_string v = Some s → is_null v = false.
Proof.
  intros Hs%get_string_is_string. apply not_true_iff_false. intros Hn%null_not_string.
  congruence.
Qed.

Lemma OptionalString_Ret payload field o :
  OptionalString payload field = Ret o ↔ optional_is payload field o.
Proof.
  rewrite OptionalString_eq. unfold optional_is, field_is, member_text.
  destruct (at_key payload field) as [v|]; simpl; [|destruct o; naive_solver].
  destruct (get_string v) as [s|] eqn:Hs.
  - rewrite (get_string_not_null _ _ Hs). destruct o; naive_solver.
  - destruct (is_null v) eqn:Hn; destruct o; naive_solver.
Qed.

(** What the field readers throw. *)
Definition field_error (e : decode_exception) : Prop :=
  e = InvalidArgument "missing_field" ∨ e = InvalidArgument "invalid_field".

Lemma RequiredString_Throw payload field e :
  RequiredString payload field = Throw e → field_error e.
Proof.
  rewrite RequiredString_eq. unfold field_error. repeat case_match; naive_solver.
Qed.

Lemma OptionalString_Throw payload field e :
  OptionalString payload field = Throw e → field_error e.
Proof.
  rewrite OptionalString_eq. unfold field_error. repeat case_match; naive_solver.
Qed.

(** ** Types *)

Definition signaling_meta (t : SignalingType.t) : RequestMeta :=
  MkMeta ControlMessageType.Signaling None (Some t).

Lemma type_meta_signaling t :
  type_meta (SignalingTypeToString t) = Some (signaling_meta t).
Proof. by destruct t. Qed.

Lemma type_meta_cases type m :
  type_meta type = Some m →
  (type = "create_room" ∧ m = MkMeta ControlMessageType.CreateRoom None None) ∨
  (type = "join_room" ∧ m = MkMeta ControlMessageType.JoinRoom None None) ∨
  (type = "leave_room" ∧ m = MkMeta ControlMessageType.LeaveRoom None None) ∨
  (∃ t, type = SignalingTypeToString t ∧ m = signaling_meta t).
Proof.
  unfold type_meta. intros Hm. repeat case_decide; simplify_eq; eauto 6.
  - right; right; right. by exists SignalingType.Offer.
  - right; right; right. by exists SignalingType.Answer.
  - right; right; right. by exists SignalingType.IceCandidate.
Qed.

Lemma decode_command_signaling pid t m payload :
  decode_command pid (SignalingTypeToString t) m payload =
  obind (match signaling_type m with Some t => Ret t | None => Throw JsonAccess end)
    (λ t, obind (RequiredString payload "room_code")
    (λ code, obind (RequiredString payload "target_participant_id")
    (λ target, Ret (SignalingAlt (MkSignalingCommand t code pid target payload))))).
Proof. by destruct t. Qed.

(** ** The decoder on a parsed value *)

Definition request_error (m : option RequestMeta) (rid : option string)
    : decode_exception := NewProtocolDecodeError m "invalid_message" rid.

Definition bad_id j : bool :=
  from_option (λ v, negb (is_null v) && negb (is_string v)) false (at_key j "request_id").

Lemma decode_json_eq pid j :
  decode_json pid j =
  match (if is_object j then member_text j "type" else None) with
  | None => Throw (request_error None None)
  | Some type =>
      match type_meta type with
      | None => Throw (request_error None (member_text j "request_id"))
      | Some m =>
          if bad_id j then Throw (request_error (Some m) None) else
          let m := set_request_id m (member_text j "request_id") in
          match at_key j "payload" with
          | Some payload =>
              if is_object payload then
                obind (ocatch (decode_command pid type m payload)
                         (λ e, Throw (rethrow_with m e)))
                  (λ c, Ret (MkRequest m c))
              else Throw (request_error (Some m) None)
          | None => Throw (request_error (Some m) None)
          end
      end
  end.
Proof.
  unfold decode_json, json_at, json_string, member_text, bad_id.
  rewrite !contains_and_eq. destruct (is_object j); simpl; [|done].
  destruct (at_key j "type") as [ty|]; simpl; [|done].
  destruct (get_string ty) as [type|] eqn:Hty;
    [|by apply is_string_false in Hty as ->].
  rewrite (get_string_is_string _ _ Hty). simpl.
  destruct (at_key j "request_id") as [rv|]; simpl.
  - destruct (get_string rv) as [r|] eqn:Hr.
    + rewrite (get_string_is_string _ _ Hr). simpl.
      destruct (type_meta type) as [m|]; [|done]. rewrite andb_false_r.
      destruct (at_key j "payload") as [pl|]; simpl; [|done].
      by destruct (is_object pl).
    + apply is_string_false in Hr as ->. simpl.
      destruct (type_meta type) as [m|] eqn:Hm; [|done].
      assert (set_request_id m None = m) as ->.
      { by apply type_meta_cases in Hm as [[_ ->]|[[_ ->]|[[_ ->]|(t & _ & ->)]]]. }
      destruct (is_null rv); simpl; [|done].
      destruct (at_key j "payload") as [pl|]; simpl; [|done].
      by destruct (is_object pl).
  - destruct (type_meta type) as [m|] eqn:Hm; [|done].
    assert (set_request_id m None = m) as ->.
    { by apply type_meta_cases in Hm as [[_ ->]|[[_ ->]|[[_ ->]|(t & _ & ->)]]]. }
    destruct (at_key j "payload") as [pl|]; simpl; [|done].
    by destruct (is_object pl).
Qed.

(** ** The protocol *)

Definition command_encodes pid (type : string) (m : RequestMeta) payload
    (c : CommandType) : Prop :=
  match c with
  | CreateRoomAlt c =>
      type = "create_room" ∧ m = MkMeta ControlMessageType.CreateRoom (request_id m) None ∧
      GetId (create_participant c) = pid ∧
      field_is payload "display_name" (GetName (create_participant c)) ∧
      optional_is payload "password" (create_password_hash c)
  | JoinRoomAlt c =>
      type = "join_room" ∧ m = MkMeta ControlMessageType.JoinRoom (request_id m) None ∧
      GetId (join_participant c) = pid ∧
      field_is payload "room_code" (join_room_code c) ∧
      field_is payload "display_name" (GetName (join_participant c)) ∧
      optional_is payload "password" (join_password_hash c)
  | LeaveRoomAlt c =>
      type = "leave_room" ∧ m = MkMeta ControlMessageType.LeaveRoom (request_id m) None ∧
      leave_participant_id c = pid ∧
      field_is payload "room_code" (leave_room_code c)
  | SignalingAlt c =>
      type = SignalingTypeToString (command_type c) ∧
      m = MkMeta ControlMessageType.Signaling (request_id m) (Some (command_type c)) ∧
      command_from c = pid ∧ command_data c = payload ∧
      field_is payload "room_code" (command_room_code c) ∧
      field_is payload "target_participant_id" (command_target c)
  end.

Definition encodes pid j (request : ControlDispatcherRequest) : Prop :=
  is_object j = true ∧ ∃ type payload,
    field_is j "type" type ∧
    optional_is j "request_id" (request_id (meta request)) ∧
    at_key j "payload" = Some payload ∧ is_object payload = true ∧
    command_encodes pid type (meta request) payload (command request).

Lemma obind_Ret_inv {E A B} (o : outcome E A) (f : A → outcome E B) b :
  obind o f = Ret b → ∃ a, o = Ret a ∧ f a = Ret b.
Proof. destruct o; naive_solver. Qed.

Lemma obind_Throw_inv {E A B} (o : outcome E A) (f : A → outcome E B) e :
  obind o f = Throw e → o = Throw e ∨ ∃ a, o = Ret a ∧ f a = Throw e.
Proof. destruct o; naive_solver. Qed.

Ltac obind_inv :=
  repeat match goal with
  | H : obind _ _ = Ret _ |- _ => apply obind_Ret_inv in H as (? & ? & ?)
  | H : RequiredString _ _ = Ret _ |- _ => apply RequiredString_Ret in H
  | H : OptionalString _ _ = Ret _ |- _ => apply OptionalString_Ret in H
  | H : Ret _ = Ret _ |- _ => injection H as H
  end.

Lemma decode_command_iff pid type m0 rid payload c :
  type_meta type = Some m0 →
  let m := set_request_id m0 rid in
  decode_command pid type m payload = Ret c ↔ command_encodes pid type m payload c.
Proof.
  intros Hm m. subst m. split.
  - intros Hc.
    apply type_meta_cases in Hm as [[-> ->]|[[-> ->]|[[-> ->]|(t & -> & ->)]]];
      rewrite ?decode_command_signaling in Hc; unfold decode_command in Hc; simpl in Hc;
      obind_inv; subst c; simplify_eq/=; by split_and!.
  - destruct c as [[[i n] pw]|[code [i n] pw]|[code i]|[t code from target pl]]; simpl.
    + intros (-> & Hm' & <- & Hn & Hp). unfold decode_command. simpl.
      apply RequiredString_Ret in Hn as ->. by apply OptionalString_Ret in Hp as ->.
    + intros (-> & Hm' & <- & Hc & Hn & Hp). unfold decode_command. simpl.
      apply RequiredString_Ret in Hc as ->. apply RequiredString_Ret in Hn as ->. simpl.
      by apply OptionalString_Ret in Hp as ->.
    + intros (-> & Hm' & <- & Hc). unfold decode_command. simpl.
      by apply RequiredString_Ret in Hc as ->.
    + intros (-> & Hm' & <- & <- & Hc & Ht). rewrite decode_command_signaling, Hm'. simpl.
      apply RequiredString_Ret in Hc as ->. simpl.
      by apply RequiredString_Ret in Ht as ->.
Qed.

Lemma command_encodes_meta pid type m payload c :
  command_encodes pid type m payload c →
  ∃ m0, type_meta type = Some m0 ∧ m = set_request_id m0 (request_id m).
Proof.
  destruct c as [c|c|c|c]; simpl; intros (-> & Hm & _).
  4: { exists (signaling_meta (command_type c)). by rewrite type_meta_signaling. }
  all: eexists; split; [reflexivity|done].
Qed.

Lemma optional_request_id j o :
  optional_is j "request_id" o ↔ o = member_text j "request_id" ∧ bad_id j = false.
Proof.
  unfold optional_is, bad_id, field_is, member_text.
  destruct (at_key j "request_id") as [v|]; simpl; [|destruct o; naive_solver].
  destruct (get_string v) as [s|] eqn:Hs.
  - rewrite (get_string_not_null _ _ Hs), (get_string_is_string _ _ Hs). simpl.
    destruct o; naive_solver.
  - apply is_string_false in Hs as ->. destruct (is_null v), o; naive_solver.
Qed.

Lemma decode_json_iff pid j request :
  decode_json pid j = Ret request ↔ encodes pid j request.
Proof.
  rewrite decode_json_eq. unfold encodes. split.
  - destruct (is_object j) eqn:Hobj; [|done].
    destruct (member_text j "type") as [type|] eqn:Htype; [|done].
    destruct (type_meta type) as [m|] eqn:Hm; [|done].
    destruct (bad_id j) eqn:Hbad; [done|].
    destruct (at_key j "payload") as [payload|] eqn:Hpay; [|done].
    destruct (is_object payload) eqn:Hpobj; [|done]. intros Hdec. split; [done|].
    apply obind_Ret_inv in Hdec as (c & Hc & [= <-]).
    destruct (decode_command _ _ _ _) as [c'|] eqn:Hcmd; [|done].
    injection Hc as ->. exists type, payload. simpl. split_and!; try done.
    + by apply optional_request_id.
    + by apply (decode_command_iff pid type m _ payload c Hm).
  - intros (Hobj & type & payload & Htype & Hid & Hpay & Hpobj & Hcmd).
    rewrite Hobj, Htype, Hpay, Hpobj.
    apply optional_request_id in Hid as [Hid Hbad]. rewrite Hbad, <- Hid.
    destruct (command_encodes_meta _ _ _ _ _ Hcmd) as (m0 & Hm0 & Hset). rewrite Hm0.
    rewrite <- Hset. rewrite Hset in Hcmd.
    apply (decode_command_iff _ _ _ _ _ _ Hm0) in Hcmd. rewrite <- Hset in Hcmd.
    rewrite Hcmd. by destruct request.
Qed.

(** ** Exceptions *)

(** The request id of an error: that of the meta data wins. *)
Definition error_id (m : option RequestMeta) (rid : option string) : option string :=
  match m with
  | Some m => match request_id m with Some r => Some r | None => rid end
  | None => rid
  end.

Definition error_codes : list string :=
  ["invalid_message"; "missing_field"; "invalid_field"].

Lemma decode_command_Throw pid type m0 rid payload e :
  type_meta type = Some m0 →
  decode_command pid type (set_request_id m0 rid) payload = Throw e → field_error e.
Proof.
  intros Hm Hc.
  apply type_meta_cases in Hm as [[-> ->]|[[-> ->]|[[-> ->]|(t & -> & ->)]]];
    rewrite ?decode_command_signaling in Hc; unfold decode_command in Hc; simpl in Hc;
    repeat match goal with
    | H : obind _ _ = Throw _ |- _ => apply obind_Throw_inv in H as [?|(? & ? & ?)]
    end; eauto using RequiredString_Throw, OptionalString_Throw; done.
Qed.

(** Every exception on a parsed value is a [ProtocolDecodeError] with one of
    three codes, and it carries the text of a string [request_id]. *)
Lemma decode_json_Throw pid j e :
  decode_json pid j = Throw e →
  ∃ m code rid, e = ProtocolDecodeError m code rid ∧ code ∈ error_codes ∧
    error_id m rid = rid ∧ (rid = None ∨ rid = member_text j "request_id") ∧
    (is_object j = true → is_Some (member_text j "type") →
     rid = member_text j "request_id").
Proof.
  rewrite decode_json_eq. intros Hdec.
  assert (Hinv : "invalid_message" ∈ error_codes) by (by left).
  destruct (is_object j) eqn:Hobj;
    [|simplify_eq/=; eexists _, _, _; split_and!; eauto; done].
  destruct (member_text j "type") as [type|] eqn:Htype;
    [|simplify_eq/=; eexists _, _, _; split_and!; eauto; by intros _ []].
  destruct (type_meta type) as [m|] eqn:Hm;
    [|simplify_eq/=; eexists _, _, _; split_and!; eauto; done].
  assert (Hrid : bad_id j = true → member_text j "request_id" = None).
  { unfold bad_id, member_text. destruct (at_key j "request_id") as [v|]; [simpl|done].
    intros [_ Hs%negb_true_iff]%andb_true_iff. by apply is_string_false. }
  destruct (bad_id j) eqn:Hbad.
  { injection Hdec as <-. apply type_meta_cases in Hm. rewrite Hrid by done.
    destruct Hm as [[-> ->]|[[-> ->]|[[-> ->]|(t & -> & ->)]]];
      eexists _, _, _; split_and!; eauto; done. }
  assert (Herr : ∀ code, code ∈ error_codes → ∃ m' rid,
    NewProtocolDecodeError (Some (set_request_id m (member_text j "request_id"))) code None =
      ProtocolDecodeError m' code rid ∧ error_id m' rid = rid ∧
    rid = member_text j "request_id").
  { intros code _.
    exists (Some (set_request_id m (member_text j "request_id"))),
      (member_text j "request_id").
    by destruct (member_text j "request_id"). }
  assert (Hgoal : ∀ code, code ∈ error_codes →
    e = NewProtocolDecodeError (Some (set_request_id m (member_text j "request_id"))) code None →
    ∃ m code rid, e = ProtocolDecodeError m code rid ∧ code ∈ error_codes ∧
      error_id m rid = rid ∧ (rid = None ∨ rid = member_text j "request_id") ∧
      (true = true → is_Some (Some type) → rid = member_text j "request_id")).
  { intros code Hcode ->. destruct (Herr code Hcode) as (m' & rid & -> & Hid & ->).
    eexists _, _, _. split_and!; eauto. }
  destruct (at_key j "payload") as [payload|];
    [|injection Hdec as <-; by apply (Hgoal "invalid_message")].
  destruct (is_object payload); [|injection Hdec as <-; by apply (Hgoal "invalid_message")].
  apply obind_Throw_inv in Hdec as [Hdec|(c & _ & Hdec)]; [|done].
  destruct (decode_command _ _ _ _) as [c|e'] eqn:Hcmd; [done|].
  apply (decode_command_Throw _ _ _ _ _ _ Hm) in Hcmd. simpl in Hdec.
  injection Hdec as <-.
  destruct Hcmd as [->| ->]; (eapply Hgoal; [|done]); set_solver.
Qed.
End decoding.

(** ** Encoding *)

Section encoding.
Context `{JsonLaws}.
Implicit Types (j : json).

Lemma push_participants_eq l ps :
  push_participants (of_array l) ps = Ret (of_array (l ++ (ParticipantToJson <$> ps))).
Proof.
  revert l. induction ps as [|p ps IH]; intros l; simpl; [by rewrite app_nil_r|].
  unfold json_push_back. rewrite push_back_array. simpl. rewrite IH.
  by rewrite <- app_assoc.
Qed.

Lemma ParticipantsToJson_eq ps :
  ParticipantsToJson ps = Ret (of_array (ParticipantToJson <$> ps)).
Proof. apply push_participants_eq. Qed.

Lemma json_set_object j key v :
  is_object j = true →
  ∃ j', json_set j key v = Ret j' ∧ is_object j' = true ∧
    (∀ key', at_key j' key' = if decide (key' = key) then Some v else at_key j key') ∧
    (json_ok j = true → text_ok key = true → json_ok v = true → json_ok j' = true).
Proof.
  intros Hobj. destruct (set_key_object j key v Hobj) as (j' & Hset & Hobj' & Hat).
  exists j'. unfold json_set. rewrite Hset. split_and!; [done..|].
  intros Hj Hk Hv. exact (set_key_ok _ _ _ _ Hj Hk Hv Hset).
Qed.

Lemma member_text_proper j j' key : j ≡ j' → member_text j key = member_text j' key.
Proof.
  intros Hj. unfold member_text.
  pose proof (at_key_proper j j' Hj key key eq_refl) as Hat.
  destruct Hat as [v v' Hv|]; simpl; [exact (get_string_proper _ _ Hv)|done].
Qed.

(** *** Which values have valid text *)

Definition participant_ok (p : Participant) : Prop :=
  text_ok (GetId p) = true ∧ text_ok (GetName p) = true.

Definition meta_ok (m : RequestMeta) : Prop :=
  from_option (λ r, text_ok r = true) True (request_id m).

Definition room_response_ok (r : RoomResponse) : Prop :=
  text_ok (response_room_code r) = true ∧ participant_ok (response_participant r) ∧
  Forall participant_ok (response_participants r).

Definition signal_ok (r : SignalingResponse) : Prop :=
  text_ok (signal_room_code r) = true ∧ text_ok (from_participant_id r) = true ∧
  text_ok (target_participant_id r) = true ∧ json_ok (data r) = true ∧
  is_object (data r) = true.

Definition success_ok (payload : SuccessResponsePayload) : Prop :=
  match payload with
  | CreateRoomResponse r | JoinRoomResponse r => room_response_ok r
  | LeaveRoomResponse code => text_ok code = true
  | SignalingResponseAlt r => signal_ok r
  end.

Definition response_ok (r : ControlDispatcherResponse) : Prop :=
  meta_ok (response_meta r) ∧
  match r with SuccessResponse _ payload => success_ok payload | ErrorResponse _ _ => True end.

Definition event_ok (e : ControlDispatcherEvent) : Prop :=
  text_ok (event_room_code e) = true ∧ Forall participant_ok (event_receivers e) ∧
  match e with
  | JoinedRoomEvent _ p _ => participant_ok p
  | LeftRoomEvent _ pid _ => text_ok pid = true
  end.

(** Literal text. *)
Lemma literal_ok s : ascii_text s = true → json_ok (of_string s) = true.
Proof. intros Hs. rewrite of_string_ok. by apply ascii_text_ok. Qed.

Lemma text_json_ok s : text_ok s = true → json_ok (of_string s) = true.
Proof. by rewrite of_string_ok. Qed.

Ltac object_ok :=
  apply of_object_ok; repeat first [apply Forall_nil_2 | apply Forall_cons_2];
  (split; [by apply ascii_text_ok|cbn [snd]]).

Lemma participant_json_ok p : participant_ok p → json_ok (ParticipantToJson p) = true.
Proof. intros [Hi Hn]. object_ok; by apply text_json_ok. Qed.

Lemma participants_json_ok ps :
  Forall participant_ok ps → json_ok (of_array (ParticipantToJson <$> ps)) = true.
Proof.
  intros Hps. apply of_array_ok, Forall_fmap. eapply Forall_impl; [done|].
  apply participant_json_ok.
Qed.

Lemma ascii_ErrorMessage code : ascii_text (ErrorMessage code) = true.
Proof. unfold ErrorMessage. by repeat case_decide. Qed.

Lemma ascii_ErrorCode payload : ascii_text (ErrorCode payload) = true.
Proof. by destruct payload. Qed.

Lemma ascii_ResultType m : ascii_text (ResultType m) = true.
Proof. by destruct m as [[] rid [[]|]]. Qed.

Lemma error_json_ok code : ascii_text code = true → json_ok (error_json code) = true.
Proof. intros Hc. object_ok; apply literal_ok; [done|apply ascii_ErrorMessage]. Qed.

Lemma payload_json_Ret payload :
  ∃ j, payload_json payload = Ret j ∧ (success_ok payload → json_ok j = true).
Proof.
  destruct payload as [r|r|code|r]; simpl; rewrite ?ParticipantsToJson_eq; simpl;
    eexists; (split; [done|]).
  1,2: intros (Hc & Hp & Hps); object_ok; auto using text_json_ok, participant_json_ok,
    participants_json_ok.
  - intros Hc. object_ok. by apply text_json_ok.
  - intros (Hc & _). object_ok. by apply text_json_ok.
Qed.

(** *** Responses *)

Lemma set_id_object j rid :
  is_object j = true →
  ∃ j', set_id j rid = Ret j' ∧ is_object j' = true ∧
    (∀ key, at_key j' key =
      if decide (key = "request_id")
      then match rid with Some r => Some (of_string r) | None => at_key j key end
      else at_key j key) ∧
    (json_ok j = true → from_option (λ r, text_ok r = true) True rid → json_ok j' = true).
Proof.
  intros Hobj. destruct rid as [r|]; simpl.
  - destruct (json_set_object j "request_id" (of_string r) Hobj) as (j' & Hs & Ho & Hat & Hok).
    exists j'. split_and!; [done..|]. intros Hj Hr.
    apply Hok; [done|by apply ascii_text_ok|by apply text_json_ok].
  - exists j. split_and!; try done. intros key. by case_decide.
Qed.

(** The members of an encoded response. *)
Record response_members (r : ControlDispatcherResponse) j : Prop := {
  member_object : is_object j = true;
  member_type : at_key j "type" = Some (of_string (ResultType (response_meta r)));
  member_ok : at_key j "ok" = Some (of_bool (is_success r));
  member_id : at_key j "request_id" = of_string <$> request_id (response_meta r);
  member_error :
    at_key j "error" =
    match r with
    | ErrorResponse _ e => Some (error_json (ErrorCode e))
    | SuccessResponse _ _ => None
    end;
  member_payload :
    match r with
    | ErrorResponse _ _ => at_key j "payload" = None
    | SuccessResponse _ p => ∃ pl, payload_json p = Ret pl ∧ at_key j "payload" = Some pl
    end
}.

Lemma response_json_Ret r :
  ∃ j, response_json r = Ret j ∧ response_members r j ∧ (response_ok r → json_ok j = true).
Proof.
  set (j0 := of_object [("type", of_string (ResultType (response_meta r)));
                        ("ok", of_bool (is_success r))]).
  assert (Hobj0 : is_object j0 = true) by apply object_is_object.
  assert (Hat0 : ∀ key, at_key j0 key = assoc key [("type", of_string (ResultType
    (response_meta r))); ("ok", of_bool (is_success r))]).
  { intros key. apply object_at. repeat constructor; set_solver. }
  assert (Hok0 : json_ok j0 = true).
  { object_ok; [apply literal_ok, ascii_ResultType|apply of_bool_ok]. }
  destruct (set_id_object j0 (request_id (response_meta r)) Hobj0)
    as (j1 & Hset & Hobj1 & Hat1 & Hok1).
  unfold response_json. fold j0. rewrite Hset. simpl.
  destruct r as [m payload|m e]; simpl in *.
  - destruct (payload_json_Ret payload) as (pl & Hpl & Hplok). rewrite Hpl. simpl.
    destruct (json_set_object j1 "payload" pl Hobj1) as (j2 & Hset2 & Hobj2 & Hat2 & Hok2).
    exists j2. split; [done|]. split.
    + constructor; simpl; rewrite ?Hat2, ?Hat1; simpl; rewrite ?Hat0; try done.
      eauto.
    + intros [Hm Hp]. apply Hok2; auto. by apply ascii_text_ok.
  - destruct (json_set_object j1 "error" (error_json (ErrorCode e)) Hobj1)
      as (j2 & Hset2 & Hobj2 & Hat2 & Hok2).
    exists j2. split; [done|]. split.
    + constructor; simpl; rewrite ?Hat2, ?Hat1; simpl; rewrite ?Hat0; done.
    + intros [Hm _]. apply Hok2; auto; [by apply ascii_text_ok|].
      apply error_json_ok, ascii_ErrorCode.
Qed.

Lemma json_dump_Ret j : json_ok j = true → ∃ s, json_dump j = Ret s ∧ dump j = Some s.
Proof.
  intros Hok. destruct (proj2 (dump_ok j) Hok) as [s Hs]. exists s. unfold json_dump.
  by rewrite Hs.
Qed.

Lemma EncodeResponse_Ret r : response_ok r → ∃ s, EncodeResponse r = Ret s.
Proof.
  intros Hok. destruct (response_json_Ret r) as (j & Hj & _ & Hjok).
  destruct (json_dump_Ret j (Hjok Hok)) as (s & Hs & _). exists s.
  unfold EncodeResponse. by rewrite Hj.
Qed.

(** *** Events, relayed signals and protocol errors *)

Definition event_member (e : ControlDispatcherEvent) : string * json :=
  match e with
  | JoinedRoomEvent _ p _ => ("participant", ParticipantToJson p)
  | LeftRoomEvent _ pid _ => ("participant_id", of_string pid)
  end.

Definition event_type (e : ControlDispatcherEvent) : string :=
  match e with
  | JoinedRoomEvent _ _ _ => "participant_joined"
  | LeftRoomEvent _ _ _ => "participant_left"
  end.

Lemma event_json_Ret e :
  ∃ payload, event_json e =
      Ret (of_object [("type", of_string (event_type e)); ("payload", payload)]) ∧
    is_object payload = true ∧
    (∀ key, at_key payload key =
      if decide (key = (event_member e).1) then Some (event_member e).2
      else assoc key [("room_code", of_string (event_room_code e));
                      ("participants", of_array (ParticipantToJson <$> event_receivers e))]) ∧
    (event_ok e → json_ok payload = true).
Proof.
  unfold event_json. rewrite ParticipantsToJson_eq. simpl.
  set (j0 := of_object _).
  assert (Hobj0 : is_object j0 = true) by apply object_is_object.
  assert (Hat0 : ∀ key, at_key j0 key = assoc key
    [("room_code", of_string (event_room_code e));
     ("participants", of_array (ParticipantToJson <$> event_receivers e))]).
  { intros key. apply object_at. repeat constructor; set_solver. }
  assert (Hok0 : event_ok e → json_ok j0 = true).
  { intros (Hc & Hps & _). object_ok; [by apply text_json_ok|by apply participants_json_ok]. }
  destruct (json_set_object j0 (event_member e).1 (event_member e).2 Hobj0)
    as (j1 & Hset & Hobj1 & Hat1 & Hok1).
  exists j1. split_and!; [|done| |].
  - destruct e; simpl in *; by rewrite Hset.
  - intros key. rewrite Hat1. by rewrite Hat0.
  - intros Hok. apply Hok1; [by apply Hok0|by destruct e; apply ascii_text_ok|].
    destruct Hok as (_ & _ & Hm).
    destruct e; simpl in *; [by apply participant_json_ok|by apply text_json_ok].
Qed.

Lemma EncodeEvent_Ret e : event_ok e → ∃ s, EncodeEvent e = Ret s.
Proof.
  intros Hok. destruct (event_json_Ret e) as (pl & Hj & _ & _ & Hplok).
  unfold EncodeEvent. rewrite Hj. simpl.
  edestruct json_dump_Ret as (s & Hs & _); [|by exists s].
  object_ok; [apply literal_ok; by destruct e|by apply Hplok].
Qed.

(** The relayed payload: the sender's, with the three routing members set. *)
Lemma signal_json_Ret r :
  is_object (data r) = true →
  ∃ payload, signal_json r =
      Ret (of_object [("type", of_string (SignalingTypeToString (signal_type r)));
                      ("payload", payload)]) ∧
    (∀ key, at_key payload key =
      if decide (key = "from_participant_id") then Some (of_string (from_participant_id r))
      else if decide (key = "target_participant_id")
      then Some (of_string (target_participant_id r))
      else if decide (key = "room_code") then Some (of_string (signal_room_code r))
      else at_key (data r) key) ∧
    (signal_ok r → json_ok payload = true).
Proof.
  intros Hobj. unfold signal_json.
  destruct (json_set_object (data r) "room_code" (of_string (signal_room_code r)) Hobj)
    as (j1 & -> & Hobj1 & Hat1 & Hok1). simpl.
  destruct (json_set_object j1 "target_participant_id"
    (of_string (target_participant_id r)) Hobj1) as (j2 & -> & Hobj2 & Hat2 & Hok2). simpl.
  destruct (json_set_object j2 "from_participant_id"
    (of_string (from_participant_id r)) Hobj2) as (j3 & -> & Hobj3 & Hat3 & Hok3). simpl.
  exists j3. split_and!; [done| |].
  - intros key. by rewrite Hat3, Hat2, Hat1.
  - intros (Hc & Hf & Ht & Hd & _).
    apply Hok3; [|by apply ascii_text_ok|by apply text_json_ok].
    apply Hok2; [|by apply ascii_text_ok|by apply text_json_ok].
    apply Hok1; [done|by apply ascii_text_ok|by apply text_json_ok].
Qed.

Lemma EncodeSignalingEvent_Ret r : signal_ok r → ∃ s, EncodeSignalingEvent r = Ret s.
Proof.
  intros Hok. pose proof Hok as (_ & _ & _ & _ & Hobj).
  destruct (signal_json_Ret r Hobj) as (pl & Hj & _ & Hplok).
  unfold EncodeSignalingEvent. rewrite Hj. simpl.
  edestruct json_dump_Ret as (s & Hs & _); [|by exists s].
  object_ok; [apply literal_ok; by destruct (signal_type r)|by apply Hplok].
Qed.

Lemma protocol_error_json_Ret m code rid :
  ∃ j, protocol_error_json m code rid = Ret j ∧ is_object j = true ∧
    (∀ key, at_key j key =
      if decide (key = "request_id") then of_string <$> error_id m rid
      else assoc key
        [("type", of_string (match m with Some m => ResultType m | None => "error" end));
         ("ok", of_bool false); ("error", error_json code)]) ∧
    (ascii_text code = true →
     from_option (λ r, text_ok r = true) True (error_id m rid) → json_ok j = true).
Proof.
  unfold protocol_error_json. set (j0 := of_object _).
  assert (Hobj0 : is_object j0 = true) by apply object_is_object.
  destruct (set_id_object j0 (error_id m rid) Hobj0) as (j1 & Hset & Hobj1 & Hat1 & Hok1).
  exists j1. split_and!; [done|done| |].
  - intros key. rewrite Hat1. unfold j0. rewrite object_at.
    2: { repeat constructor; set_solver. }
    case_decide as Hk; [|done]. subst key. by destruct (error_id m rid).
  - intros Hc Hid. apply Hok1; [|done]. object_ok.
    + apply literal_ok. destruct m; [apply ascii_ResultType|done].
    + apply of_bool_ok.
    + by apply error_json_ok.
Qed.

Lemma EncodeProtocolError_Ret m code rid :
  ascii_text code = true →
  from_option (λ r, text_ok r = true) True (error_id m rid) →
  ∃ s, EncodeProtocolError m code rid = Ret s.
Proof.
  intros Hc Hid. destruct (protocol_error_json_Ret m code rid) as (j & Hj & _ & _ & Hok).
  destruct (json_dump_Ret j (Hok Hc Hid)) as (s & Hs & _). exists s.
  unfold EncodeProtocolError. by rewrite Hj.
Qed.
End encoding.
