(* ===== verification/SessionRegistry.v ===== *)
(** * SessionRegistry: the table of active sessions

    Models include/buzzweb/net/SessionRegistry.hpp and
    src/net/SessionRegistry.cpp.  A [SessionPtr] is the address of a session
    object (a null pointer is [None]); like the repository, every member
    function is one atomic step under the registry's mutex. *)

From S2P Require Import Prelude UnorderedMap Room.

Abbreviation SessionPtr := nat.
Abbreviation Registry := (umap SessionPtr).

Section SessionRegistry.
Context `{BucketOrder}.
Implicit Types (participant_id : ParticipantId).

Definition NewRegistry : Registry := um_empty.

(** [id_of] reads the participant id of a session object. *)
Definition RegistryAdd (id_of : SessionPtr → ParticipantId) (session : option SessionPtr)
    (sessions_ : Registry) : Registry :=
  match session with
  | None => sessions_
  | Some session => um_set (id_of session) session sessions_
  end.

Definition RegistryRemove participant_id (sessions_ : Registry) : Registry :=
  (um_erase participant_id sessions_).2.

Definition RegistryFind participant_id (sessions_ : Registry) : option SessionPtr :=
  match um_find participant_id sessions_ with
  | None => None
  | Some session => Some session
  end.

Definition GetParticipantIds (sessions_ : Registry) : list ParticipantId :=
  um_keys sessions_.

(** ** The registry as a finite map *)

Lemma RegistryFind_eq participant_id (reg : Registry) :
  RegistryFind participant_id reg = to_gmap reg !! participant_id.
Proof. unfold RegistryFind. rewrite um_find_spec. by destruct (_ !! _). Qed.

Lemma RegistryAdd_wf id_of session (reg : Registry) :
  um_wf reg → um_wf (RegistryAdd id_of session reg).
Proof. destruct session; [apply um_wf_set|done]. Qed.

Lemma RegistryAdd_eq id_of session (reg : Registry) :
  um_wf reg →
  to_gmap (RegistryAdd id_of (Some session) reg) = <[id_of session := session]> (to_gmap reg).
Proof. apply to_gmap_set. Qed.

Lemma RegistryRemove_wf participant_id (reg : Registry) :
  um_wf reg → um_wf (RegistryRemove participant_id reg).
Proof. apply um_wf_erase. Qed.

Lemma RegistryRemove_eq participant_id (reg : Registry) :
  to_gmap (RegistryRemove participant_id reg) = delete participant_id (to_gmap reg).
Proof. apply to_gmap_erase. Qed.
End SessionRegistry.
