(* ===== verification/Session.v ===== *)
(** * Session: one client connection

    Models include/buzzweb/net/Session.hpp and src/net/Session.cpp.  The state
    is that of the whole network layer: the registry, the session objects by
    address, and the completion handlers waiting in the [io_context] ([pending]):
    an initiated asynchronous operation or a posted lambda is one element, which
    runs when the executor picks it.  Boost's streams are not modelled beyond
    that: the outcome of an operation (error, message) is an argument of its
    completion handler. *)

From S2P Require Import Prelude Text UnorderedMap Room RoomRepository RoomService Json.
From S2P Require Import ControlDispatcher ProtocolCodec SessionRegistry.

(** [uniform_int_distribution<std::uint64_t>] on the thread-local generator. *)
Class IdDraws : Type := {
  id_draw : nat → N;
  id_draw_range n : (id_draw n < 2 ^ 64)%N
}.

Definition format_participant_id (n : N) : ParticipantId :=
  "p_" +:+ text_of (setw_fill0 16 (digits 16 n)).

(** A session object.  [tls_] tells [SslSession] from [PlainSession],
    [lowest_closed_] is set by [CloseLowestLayer].  [pushed_] and [written_] are
    history: the messages ever pushed on the write queue and the messages whose
    write has completed. *)
Record Session : Type := MkSession {
  participant_id_ : ParticipantId;
  tls_ : bool;
  registered_ : bool;
  closing_ : bool;
  write_queue_ : list string;
  lowest_closed_ : bool;
  pushed_ : list string;
  written_ : list string
}.

Definition GetParticipantId (x : Session) : ParticipantId := participant_id_ x.

Definition blank_session : Session := MkSession "" false false false [] false [] [].

(** A completion handler or posted function object waiting to run. *)
Inductive completion : Type :=
| TcpAccept
| TlsHandshake (s : SessionPtr)
| WebSocketAccept (s : SessionPtr)
| WebSocketRead (s : SessionPtr)
| WebSocketWrite (s : SessionPtr) (message : string)
| WebSocketClose (s : SessionPtr)
| PostedSend (s : SessionPtr) (message : string)
| PostedClose (s : SessionPtr).

#[export] Instance completion_eq_dec : EqDecision completion.
Proof. solve_decision. Defined.

Record Net : Type := MkNet {
  registry : Registry;
  sessions : gmap SessionPtr Session;
  next_session : SessionPtr;
  id_generator : nat;
  pending : list completion;
  acceptor_open : bool
}.

Definition session_at (n : Net) (s : SessionPtr) : Session :=
  default blank_session (sessions n !! s).

Definition set_registry (f : Registry → Registry) (n : Net) : Net :=
  MkNet (f (registry n)) (sessions n) (next_session n) (id_generator n) (pending n)
    (acceptor_open n).
Definition set_session (s : SessionPtr) (f : Session → Session) (n : Net) : Net :=
  MkNet (registry n) (alter f s (sessions n)) (next_session n) (id_generator n) (pending n)
    (acceptor_open n).
Definition enqueue (c : completion) (n : Net) : Net :=
  MkNet (registry n) (sessions n) (next_session n) (id_generator n) (pending n ++ [c])
    (acceptor_open n).

Definition set_registered (b : bool) (x : Session) : Session :=
  MkSession (participant_id_ x) (tls_ x) b (closing_ x) (write_queue_ x) (lowest_closed_ x)
    (pushed_ x) (written_ x).
Definition set_closing (x : Session) : Session :=
  MkSession (participant_id_ x) (tls_ x) (registered_ x) true (write_queue_ x)
    (lowest_closed_ x) (pushed_ x) (written_ x).
Definition set_lowest_closed (x : Session) : Session :=
  MkSession (participant_id_ x) (tls_ x) (registered_ x) (closing_ x) (write_queue_ x) true
    (pushed_ x) (written_ x).
Definition queue_push (m : string) (x : Session) : Session :=
  MkSession (participant_id_ x) (tls_ x) (registered_ x) (closing_ x) (write_queue_ x ++ [m])
    (lowest_closed_ x) (pushed_ x ++ [m]) (written_ x).
Definition queue_pop (m : string) (x : Session) : Session :=
  MkSession (participant_id_ x) (tls_ x) (registered_ x) (closing_ x) (tail (write_queue_ x))
    (lowest_closed_ x) (pushed_ x) (written_ x ++ [m]).

Section Session.
Context `{BucketOrder, Json, CodeDraws, IdDraws} {R : Type} `{!RoomRepository R}.
Local Open Scope prog_scope.
Implicit Types (s : SessionPtr) (message : string).

Definition GenerateParticipantId : prog exception nat ParticipantId :=
  λ generator, (Ret (format_participant_id (id_draw generator)), S generator).

(** The whole server state: the service's, then the network's. *)
Abbreviation St := ((R * nat) * Net)%type.

Definition on_net (f : Net → Net) : prog exception St unit := on_snd (pmodify f).

Definition get_session s : prog exception St Session := on_snd (pgets (λ n, session_at n s)).

Definition find_session (participant_id : ParticipantId)
    : prog exception St (option SessionPtr) :=
  on_snd (pgets (λ n, RegistryFind participant_id (registry n))).

(** ** SessionBase *)

(** [Send] posts the lambda below to the executor; it never runs inline. *)
Definition Send s message : prog exception St unit := on_net (enqueue (PostedSend s message)).

Definition CloseSession s : prog exception St unit := on_net (enqueue (PostedClose s)).

(** Whether the inner loop of [DeliverEvents] skips a participant. *)
Definition skips_receiver (event : ControlDispatcherEvent) (p : Participant) : bool :=
  match event with
  | JoinedRoomEvent _ joined_participant _ =>
      bool_decide (GetId p = GetId joined_participant)
  | LeftRoomEvent _ _ _ => false
  end.

Definition deliver_to (event : ControlDispatcherEvent) (encoded : string) (p : Participant)
    : prog exception St unit :=
  if skips_receiver event p then pret tt
  else
    session <- find_session (GetId p);;
    match session with
    | Some session => Send session encoded
    | None => pret tt
    end.

Definition DeliverEvents (events : list ControlDispatcherEvent) : prog exception St unit :=
  pfor events (λ event,
    encoded <- plift (EncodeEvent event);;
    pfor (event_receivers event) (deliver_to event encoded)).

Definition InvalidMessageError : outcome exception string :=
  EncodeProtocolError None "invalid_message" None.

(** The end of the lambda passed to [Dispatch]. *)
Definition respond s (result : ControlDispatcherResult) : prog exception St unit :=
  encoded <- plift (EncodeResponse (response result));;
  Send s encoded;;
  DeliverEvents (events result).

(** The lambda passed to [Dispatch]. *)
Definition session_handler s (result : ControlDispatcherResult) : prog exception St unit :=
  match response result with
  | SuccessResponse m (SignalingResponseAlt signaling) =>
      target <- find_session (target_participant_id signaling);;
      match target with
      | None =>
          encoded <- plift (EncodeResponse (ErrorResponse m ParticipantUnavailableResponse));;
          Send s encoded
      | Some target =>
          encoded <- plift (EncodeSignalingEvent signaling);;
          Send target encoded;;
          respond s result
      end
  | _ => respond s result
  end.

Definition send_protocol_error s (m : option RequestMeta) (code : string)
    (rid : option string) : prog exception St unit :=
  encoded <- plift (EncodeProtocolError m code rid);;
  Send s encoded.

Definition HandleMessage s message : prog exception St unit :=
  self <- get_session s;;
  match DecodeRequest (participant_id_ self) message with
  | Throw (JsonFailure parse_error) => send_protocol_error s None "invalid_json" None
  | Throw (ProtocolDecodeError m what rid) => send_protocol_error s m what rid
  | Throw (InvalidArgument what) => send_protocol_error s None what None
  | Throw (JsonFailure number_out_of_range) | Throw JsonAccess =>
      send_protocol_error s None "invalid_message" None
  | Ret request => Dispatch request (Some (session_handler s))
  end.

Definition RemoveFromRegistry s : prog exception St unit :=
  self <- get_session s;;
  if negb (registered_ self) then pret tt
  else
    on_net (set_session s (set_registered false));;
    on_net (set_registry (RegistryRemove (participant_id_ self)));;
    ptry
      (events <- on_fst (on_fst (HandleParticipantDisconnected (participant_id_ self)));;
       DeliverEvents events)
      (λ _, pret tt).

(** ** Session<WebSocketStream> *)

(** [PlainSession] closes the socket below the stream, [SslSession] the one
    below the TLS stream. *)
Definition CloseLowestLayer s : prog exception St unit :=
  on_net (set_session s set_lowest_closed).

Definition Fail s : prog exception St unit :=
  on_net (set_session s set_closing);;
  RemoveFromRegistry s;;
  CloseLowestLayer s.

Definition DoWrite s : prog exception St unit :=
  self <- get_session s;;
  match write_queue_ self with
  | [] => pret tt
  | front :: _ =>
      if closing_ self then pret tt else on_net (enqueue (WebSocketWrite s front))
  end.

(** The lambda posted by [Send]. *)
Definition OnPostedSend s message : prog exception St unit :=
  self <- get_session s;;
  let writing := match write_queue_ self with [] => false | _ :: _ => true end in
  on_net (set_session s (queue_push message));;
  if negb writing then DoWrite s else pret tt.

(** The completion handler of [async_write]. *)
Definition OnWrite s message (error : bool) : prog exception St unit :=
  if error then Fail s
  else
    on_net (set_session s (queue_pop message));;
    self <- get_session s;;
    match write_queue_ self with
    | [] => pret tt
    | _ :: _ => DoWrite s
    end.

(** The lambda posted by [Close]; [is_open] is what the stream reports. *)
Definition OnPostedClose s (is_open : bool) : prog exception St unit :=
  self <- get_session s;;
  if closing_ self then pret tt
  else
    on_net (set_session s set_closing);;
    RemoveFromRegistry s;;
    if is_open then on_net (enqueue (WebSocketClose s)) else CloseLowestLayer s.

Definition AcceptWebSocket s : prog exception St unit := on_net (enqueue (WebSocketAccept s)).

Definition ReadNext s : prog exception St unit := on_net (enqueue (WebSocketRead s)).

Definition OnWebSocketAccept s (error : bool) : prog exception St unit :=
  if error then Fail s
  else
    on_net (λ n, set_registry
      (RegistryAdd (λ p, GetParticipantId (session_at n p)) (Some s)) n);;
    on_net (set_session s (set_registered true));;
    ReadNext s.

(** How an [async_read] ends: the peer's close, another error, or a message
    with its text flag. *)
Inductive read_result : Type :=
| ReadClosed
| ReadError
| ReadMessage (message : string) (got_text : bool).

Definition OnRead s (result : read_result) : prog exception St unit :=
  match result with
  | ReadClosed => RemoveFromRegistry s
  | ReadError => Fail s
  | ReadMessage message got_text =>
      if negb got_text then
        encoded <- plift InvalidMessageError;;
        Send s encoded;;
        ReadNext s
      else
        HandleMessage s message;;
        ReadNext s
  end.

(** ** PlainSession and SslSession *)

Definition Start s : prog exception St unit :=
  self <- get_session s;;
  if tls_ self then on_net (enqueue (TlsHandshake s)) else AcceptWebSocket s.

Definition OnTlsHandshake s (error : bool) : prog exception St unit :=
  if error then Fail s else AcceptWebSocket s.

(** [std::make_shared<...Session>]: a fresh address, a fresh participant id. *)
Definition new_session (tls : bool) : prog exception St SessionPtr :=
  on_snd (λ n,
    let '(o, generator) := GenerateParticipantId (id_generator n) in
    match o with
    | Throw e => (Throw e, n)
    | Ret pid =>
        (Ret (next_session n),
         MkNet (registry n)
           (<[next_session n := MkSession pid tls false false [] false [] []]> (sessions n))
           (S (next_session n)) generator (pending n) (acceptor_open n))
    end).
End Session.
