(* ===== verification/SessionSpec.v ===== *)
(** * SessionSpec: what a session sends, and to whom

    Every handler of Session.v that serves a client posts a list of messages,
    its outbox.  This file gives the outboxes as pure functions of the registry
    and the dispatcher's answer, and shows that the handlers return normally and
    post exactly these messages when all the text involved is valid UTF-8; the
    validity is itself preserved ([texts_ok]). *)

From S2P Require Import Prelude Text UnorderedMap Room RoomRepository RoomService.
From S2P Require Import RoomServiceSpec Json ControlDispatcher ControlDispatcherSpec.
From S2P Require Import ProtocolCodec ProtocolCodecSpec SessionRegistry Session.

(** ** Valid text *)

Section texts.
Context `{JsonLaws, CodeDraws, IdDraws}.
Implicit Types (rooms : gmap RoomCode Room).

(** The codes, ids and names in the stored rooms. *)
Definition texts_ok rooms : Prop :=
  map_Forall (λ code room, text_ok code = true ∧ Forall participant_ok (participants_ room))
    rooms.

Definition command_ok (c : CommandType) : Prop :=
  match c with
  | CreateRoomAlt c => participant_ok (create_participant c)
  | JoinRoomAlt c =>
      text_ok (join_room_code c) = true ∧ participant_ok (join_participant c)
  | LeaveRoomAlt c =>
      text_ok (leave_room_code c) = true ∧ text_ok (leave_participant_id c) = true
  | SignalingAlt c => signal_ok (relay_response c)
  end.

Definition result_ok (r : ControlDispatcherResult) : Prop :=
  response_ok (response r) ∧ Forall event_ok (events r).

Lemma ascii_text_of ds : Forall (λ d, (d < 16)%N) ds → ascii_text (text_of ds) = true.
Proof.
  intros Hds. unfold ascii_text. apply forallb_forall. intros c Hc.
  apply bool_decide_eq_true_2. apply list_elem_of_In in Hc.
  apply (text_of_chars ds c 16 ltac:(done) Hds) in Hc.
  revert c Hc. apply Forall_forall. unfold digit_chars. simpl.
  repeat (apply Forall_cons_2; [apply Nat.ltb_lt; vm_compute; reflexivity|]).
  apply Forall_nil_2.
Qed.

Lemma digits16 b w n :
  (1 < b)%N → (b ≤ 16)%N → Forall (λ d, (d < 16)%N) (setw_fill0 w (digits b n)).
Proof.
  intros Hb Hb16. eapply Forall_impl; [apply setw_fill0_bound, digits_bound; lia|].
  simpl. lia.
Qed.

Lemma room_code_text_ok n : text_ok (format_room_code n) = true.
Proof. apply ascii_text_ok, ascii_text_of. by apply digits16. Qed.

Lemma participant_id_text_ok n : text_ok (format_participant_id n) = true.
Proof.
  apply ascii_text_ok. unfold format_participant_id.
  change (ascii_text (text_of (setw_fill0 16 (digits 16 n))) = true).
  apply ascii_text_of. by apply digits16.
Qed.

Lemma member_text_ok j key s :
  json_ok j = true → member_text j key = Some s → text_ok s = true.
Proof.
  intros Hj (v & Hv & Hs)%bind_Some. eapply get_string_ok; [|done].
  by eapply at_ok.
Qed.

Lemma decode_ok pid message request :
  text_ok pid = true → DecodeRequest pid message = Ret request →
  request_ok request ∧ meta_ok (meta request) ∧ command_ok (command request).
Proof.
  intros Hpid Hdec. unfold DecodeRequest in Hdec.
  destruct (parse message) as [j|e] eqn:Hparse; [|done]. simpl in Hdec.
  apply parse_ok in Hparse as Hj. apply decode_json_iff in Hdec.
  destruct Hdec as (_ & type & pl & _ & Hid & Hpay & Hobj & Hcmd).
  assert (Hpl : json_ok pl = true) by eauto using at_ok.
  split_and!.
  - unfold request_ok. destruct (command request); simpl in *;
      destruct Hcmd as (_ & Hm & _); by rewrite Hm.
  - unfold meta_ok. destruct (request_id (meta request)); simpl in *; [|done].
    exact (member_text_ok _ _ _ Hj Hid).
  - destruct (command request) as [c|c|c|c]; simpl in *; destruct_and!; subst;
      unfold participant_ok, signal_ok; simpl; split_and?; eauto using member_text_ok.
    all: match goal with
         | H : GetId _ = _ |- _ => by rewrite H
         end.
Qed.

Lemma participants_app_ok l p :
  Forall participant_ok l → participant_ok p → Forall participant_ok (l ++ [p]).
Proof. intros. apply Forall_app. split; [done|]. by apply Forall_singleton. Qed.

Lemma without_ok room pid :
  Forall participant_ok (participants_ room) →
  Forall participant_ok (participants_ (without room pid)).
Proof.
  rewrite !Forall_forall. simpl. intros Hps p [_ Hp]%list_elem_of_filter. by apply Hps.
Qed.

Lemma texts_ok_leave_codes codes pid rooms :
  texts_ok rooms → texts_ok (leave_codes codes pid rooms).
Proof.
  intros Hok c room' (room & Hroom & Hor)%leave_codes_sub.
  destruct (Hok _ _ Hroom) as [Hc Hps]. split; [done|].
  destruct Hor as [->|[-> _]%drop_participant_Some]; [done|by apply without_ok].
Qed.

Lemma texts_ok_leave_all pid rooms : texts_ok rooms → texts_ok (leave_all pid rooms).
Proof.
  intros Hok. rewrite <- (leave_codes_all (room_codes rooms)).
  - by apply texts_ok_leave_codes.
  - intros code. by rewrite room_codes_elem.
Qed.

(** The dispatcher's answers to valid text are valid text. *)
Lemma dispatch_ok request rooms g :
  texts_ok rooms → meta_ok (meta request) → command_ok (command request) →
  result_ok (dispatch_spec request rooms g).1 ∧
  texts_ok (dispatch_spec request rooms g).2.1.
Proof.
  intros Hok Hm Hc. unfold dispatch_spec.
  assert (Herr : ∀ e, result_ok (error_result (meta request) e)).
  { intros e. by split_and!. }
  destruct (meta_type (meta request)), (command request) as [c|c|c|c];
    try solve [split; [apply Herr|done]]; simpl in Hc.
  - unfold answer_create. destruct (first_free _ _ _) as [i|]; [|split; [apply Herr|done]].
    simpl. pose proof (room_code_text_ok (code_draw (g + i))) as Hcode.
    split; [|apply map_Forall_insert_2; [|done]].
    + split; [|done]. split; [done|]. simpl. split_and!; [done..|by apply Forall_singleton].
    + split; [done|by apply Forall_singleton].
  - destruct Hc as [Hcode Hp]. unfold answer_join, join_spec.
    destruct (rooms !! join_room_code c) as [room|] eqn:Hroom; [|split; [apply Herr|done]].
    destruct (Hok _ _ Hroom) as [_ Hps].
    pose proof (participants_app_ok _ _ Hps Hp) as Hall.
    destruct (join_outcome _ _ _); try solve [split; [apply Herr|done]]. simpl.
    split; [|apply map_Forall_insert_2; [by split|done]].
    split; [by split_and!|]. by apply Forall_singleton.
  - destruct Hc as [Hcode Hpid]. unfold answer_leave.
    pose proof (leave_spec_codes (leave_room_code c) (leave_participant_id c) rooms) as Hcodes.
    unfold leave_spec in *.
    destruct (rooms !! leave_room_code c) as [room|] eqn:Hroom; [|split; [apply Herr|done]].
    destruct (HasParticipant _ _); [|split; [apply Herr|done]]. simpl in *.
    destruct (Hok _ _ Hroom) as [_ Hps]. rewrite Hcodes.
    split; [|by apply texts_ok_leave_codes].
    split; [by split_and!|]. apply Forall_singleton.
    split_and!; [done|by apply without_ok|done].
  - unfold answer_signaling. split; [|done]. simpl.
    destruct (_ && _); [|apply Herr]. split; [by split|done].
Qed.

Lemma disconnect_events_ok pid rooms codes :
  texts_ok rooms → text_ok pid = true →
  Forall event_ok (omap (disconnect_event pid rooms) codes).
Proof.
  intros Hok Hpid. apply Forall_forall. intros e.
  rewrite list_elem_of_omap. intros (code & _ & He). unfold disconnect_event in He.
  apply bind_Some in He as (room & Hroom & He). destruct (Hok _ _ Hroom) as [Hc Hps].
  destruct (HasParticipant room pid); simplify_eq. split_and!; [done| |done].
  by apply without_ok.
Qed.
End texts.

(** ** Outboxes *)

Section outboxes.
Context `{BucketOrder, JsonLaws}.
Implicit Types (reg : Registry) (n : Net) (s : SessionPtr).

Abbreviation Outbox := (list (SessionPtr * string)).

Definition enqueue_all (cs : list completion) n : Net :=
  MkNet (registry n) (sessions n) (next_session n) (id_generator n) (pending n ++ cs)
    (acceptor_open n).

Definition posted (l : Outbox) : list completion := (λ sm, PostedSend sm.1 sm.2) <$> l.

Definition send_all (l : Outbox) n : Net := enqueue_all (posted l) n.

Definition text_or_empty (o : outcome exception string) : string :=
  match o with Ret t => t | Throw _ => "" end.

(** The sessions an event goes to: those registered for the receivers, but
    not the participant who joined. *)
Definition event_targets reg (e : ControlDispatcherEvent) : list SessionPtr :=
  omap (λ p, if skips_receiver e p then None else RegistryFind (GetId p) reg)
    (event_receivers e).

Definition event_outbox reg (e : ControlDispatcherEvent) : Outbox :=
  (λ t, (t, text_or_empty (EncodeEvent e))) <$> event_targets reg e.

Definition events_outbox reg (es : list ControlDispatcherEvent) : Outbox :=
  es ≫= event_outbox reg.

Definition response_text (r : ControlDispatcherResponse) : string :=
  text_or_empty (EncodeResponse r).

Definition respond_outbox reg s (result : ControlDispatcherResult) : Outbox :=
  (s, response_text (response result)) :: events_outbox reg (events result).

Definition handler_outbox reg s (result : ControlDispatcherResult) : Outbox :=
  match response result with
  | SuccessResponse m (SignalingResponseAlt sig) =>
      match RegistryFind (target_participant_id sig) reg with
      | None => [(s, response_text (ErrorResponse m ParticipantUnavailableResponse))]
      | Some t =>
          (t, text_or_empty (EncodeSignalingEvent sig)) :: respond_outbox reg s result
      end
  | _ => respond_outbox reg s result
  end.

(** The arguments of the error message for a decoding exception. *)
Definition error_args (e : decode_exception) : option RequestMeta * string * option string :=
  match e with
  | JsonFailure parse_error => (None, "invalid_json", None)
  | ProtocolDecodeError m what rid => (m, what, rid)
  | InvalidArgument what => (None, what, None)
  | JsonFailure number_out_of_range | JsonAccess => (None, "invalid_message", None)
  end.

Definition encode_error (args : option RequestMeta * string * option string)
    : outcome exception string :=
  EncodeProtocolError args.1.1 args.1.2 args.2.

Definition protocol_error_text (e : decode_exception) : string :=
  text_or_empty (encode_error (error_args e)).

Lemma enqueue_all_nil n : enqueue_all [] n = n.
Proof. destruct n. unfold enqueue_all. simpl. by rewrite app_nil_r. Qed.

Lemma enqueue_all_app cs cs' n : enqueue_all cs' (enqueue_all cs n) = enqueue_all (cs ++ cs') n.
Proof. unfold enqueue_all. simpl. by rewrite app_assoc. Qed.

Lemma send_all_nil n : send_all [] n = n.
Proof. apply enqueue_all_nil. Qed.

Lemma send_all_app l l' n : send_all l' (send_all l n) = send_all (l ++ l') n.
Proof. unfold send_all. rewrite enqueue_all_app. unfold posted. by rewrite fmap_app. Qed.

Lemma enqueue_send s t l n : send_all l (enqueue (PostedSend s t) n) = send_all ((s, t) :: l) n.
Proof. unfold send_all, enqueue_all. simpl. by rewrite <- app_assoc. Qed.
End outboxes.

(** ** The handlers return and post their outbox *)

Section runs.
Context `{BucketOrder, JsonLaws, CodeDraws, IdDraws} {R : Type} `{LawfulRepository R}.
Implicit Types (reg : Registry) (n : Net) (s : SessionPtr) (v : R * nat).
Implicit Types (rooms : gmap RoomCode Room).

Lemma Send_run s t v n : Send s t (v, n) = (Ret tt, (v, send_all [(s, t)] n)).
Proof. done. Qed.

Lemma plift_run {A} (o : outcome exception A) a v n :
  o = Ret a → plift (E := exception) (S := (R * nat) * Net) o (v, n) = (Ret a, (v, n)).
Proof. by intros ->. Qed.

Lemma deliver_to_run e t p v n :
  deliver_to e t p (v, n) =
  (Ret tt, (v, send_all
     ((λ s, (s, t)) <$> option_list
        (if skips_receiver e p then None else RegistryFind (GetId p) (registry n))) n)).
Proof.
  unfold deliver_to. destruct (skips_receiver e p); simpl.
  { by rewrite send_all_nil. }
  unfold find_session. prun. destruct (RegistryFind _ _); simpl; [done|].
  by rewrite send_all_nil.
Qed.

Lemma deliver_all_run e t ps v n :
  pfor ps (deliver_to e t) (v, n) =
  (Ret tt, (v, send_all
     ((λ s, (s, t)) <$> omap (λ p, if skips_receiver e p then None
                                   else RegistryFind (GetId p) (registry n)) ps) n)).
Proof.
  revert n. induction ps as [|p ps IH]; intros n; simpl; [by rewrite send_all_nil|].
  rewrite (pbind_ret _ _ _ _ _ (deliver_to_run e t p v n)), IH, send_all_app.
  simpl. repeat f_equal.
  by destruct (if skips_receiver e p then None else _).
Qed.

Lemma DeliverEvents_run es v n :
  Forall event_ok es →
  DeliverEvents es (v, n) = (Ret tt, (v, send_all (events_outbox (registry n) es) n)).
Proof.
  intros Hes. unfold DeliverEvents. revert n.
  induction Hes as [|e es He Hes IH]; intros n; simpl; [by rewrite send_all_nil|].
  destruct (EncodeEvent_Ret e He) as [t Ht].
  unfold pbind at 1 2. simpl. rewrite Ht, deliver_all_run, IH, send_all_app.
  unfold events_outbox. simpl. unfold event_outbox at 2, event_targets. by rewrite Ht.
Qed.

Lemma respond_run s result v n :
  result_ok result →
  respond s result (v, n) = (Ret tt, (v, send_all (respond_outbox (registry n) s result) n)).
Proof.
  intros [Hr He]. unfold respond. destruct (EncodeResponse_Ret _ Hr) as [t Ht].
  rewrite (pbind_ret _ _ _ _ _ (plift_run _ _ v n Ht)).
  rewrite (pbind_ret _ _ _ _ _ (Send_run s t v n)).
  rewrite DeliverEvents_run, send_all_app by done.
  unfold respond_outbox, response_text. by rewrite Ht.
Qed.

Lemma session_handler_run s result v n :
  result_ok result →
  session_handler s result (v, n) =
  (Ret tt, (v, send_all (handler_outbox (registry n) s result) n)).
Proof.
  intros Hok. unfold session_handler, handler_outbox.
  destruct (response result) as [m payload|m e] eqn:Hresp; [|by apply respond_run].
  destruct payload as [r|r|code|sig]; [by apply respond_run..|].
  unfold find_session. unfold pbind at 1. simpl.
  destruct Hok as [[Hm Hsig] He]; rewrite Hresp in *; simpl in Hm, Hsig.
  destruct (RegistryFind (target_participant_id sig) (registry n)) as [t|].
  - destruct (EncodeSignalingEvent_Ret _ Hsig) as [x Hx].
    rewrite (pbind_ret _ _ _ _ _ (plift_run _ _ v n Hx)).
    rewrite (pbind_ret _ _ _ _ _ (Send_run t x v n)).
    rewrite respond_run by (split; [by rewrite Hresp|done]).
    rewrite send_all_app, Hx. done.
  - destruct (EncodeResponse_Ret (ErrorResponse m ParticipantUnavailableResponse))
      as [x Hx]; [by split|].
    rewrite (pbind_ret _ _ _ _ _ (plift_run _ _ v n Hx)).
    unfold response_text. by rewrite Hx.
Qed.

Lemma send_protocol_error_run s m code rid v n :
  ascii_text code = true →
  from_option (λ r, text_ok r = true) True (error_id m rid) →
  send_protocol_error s m code rid (v, n) =
  (Ret tt, (v, send_all [(s, text_or_empty (EncodeProtocolError m code rid))] n)).
Proof.
  intros Hc Hid. unfold send_protocol_error.
  destruct (EncodeProtocolError_Ret m code rid Hc Hid) as [t Ht].
  rewrite (pbind_ret _ _ _ _ _ (plift_run _ _ v n Ht)). by rewrite Ht.
Qed.

Lemma error_codes_ascii code : code ∈ error_codes → ascii_text code = true.
Proof. revert code. apply Forall_forall. by repeat constructor. Qed.

(** A decoding error is reported to the sender and changes nothing else. *)
Lemma HandleMessage_error_run s message e v n :
  DecodeRequest (participant_id_ (session_at n s)) message = Throw e →
  HandleMessage s message (v, n) =
  (Ret tt, (v, send_all [(s, protocol_error_text e)] n)).
Proof.
  intros Hdec. unfold HandleMessage. unfold pbind at 1. simpl. rewrite Hdec.
  unfold DecodeRequest in Hdec.
  destruct (parse message) as [j|f] eqn:Hparse; simpl in Hdec.
  - apply decode_json_Throw in Hdec as (m & code & rid & -> & Hcode & Hid & Hor & _).
    apply send_protocol_error_run; [by apply error_codes_ascii|]. rewrite Hid.
    destruct Hor as [->| ->]; [done|].
    destruct (member_text j "request_id") as [t|] eqn:Ht; [|done].
    exact (member_text_ok _ _ _ (parse_ok _ _ Hparse) Ht).
  - injection Hdec as <-. destruct f; by apply send_protocol_error_run.
Qed.

Lemma HandleMessage_request_eq s message request v n :
  DecodeRequest (participant_id_ (session_at n s)) message = Ret request →
  HandleMessage s message (v, n) = Dispatch request (Some (session_handler s)) (v, n).
Proof. intros Hdec. unfold HandleMessage, pbind at 1. cbn. by rewrite Hdec. Qed.

(** A request is answered by the dispatcher's result. *)
Lemma HandleMessage_run s message request r rooms g n :
  text_ok (participant_id_ (session_at n s)) = true →
  DecodeRequest (participant_id_ (session_at n s)) message = Ret request →
  repo_rel r rooms → texts_ok rooms →
  ∃ r', repo_rel r' (dispatch_spec request rooms g).2.1 ∧
    HandleMessage s message ((r, g), n) =
    (Ret tt, ((r', (dispatch_spec request rooms g).2.2),
      send_all (handler_outbox (registry n) s (dispatch_spec request rooms g).1) n)).
Proof.
  intros Hpid Hdec Hr Hok. destruct (decode_ok _ _ _ Hpid Hdec) as (Hreq & Hm & Hc).
  destruct (Dispatch_answers (Host := Net) request (session_handler s) r rooms g n Hreq Hr)
    as (r' & Hr' & Hrun).
  exists r'. split; [done|]. rewrite (HandleMessage_request_eq _ _ request) by done.
  etrans; [exact Hrun|]. unfold answer_with. apply ptry_ret, session_handler_run.
  by apply dispatch_ok.
Qed.

(** The network state after a registered session is taken out, before the
    events are delivered. *)
Definition unregister s n : Net :=
  set_registry (RegistryRemove (participant_id_ (session_at n s)))
    (set_session s (set_registered false) n).

Lemma RemoveFromRegistry_idle s v n :
  registered_ (session_at n s) = false → RemoveFromRegistry s (v, n) = (Ret tt, (v, n)).
Proof. intros Hreg. unfold RemoveFromRegistry. prun. by rewrite Hreg. Qed.

Lemma RemoveFromRegistry_run s r rooms g n :
  registered_ (session_at n s) = true →
  text_ok (participant_id_ (session_at n s)) = true →
  repo_rel r rooms → texts_ok rooms →
  let pid := participant_id_ (session_at n s) in
  ∃ codes r', codes ≡ₚ room_codes rooms ∧ repo_rel r' (leave_all pid rooms) ∧
    RemoveFromRegistry s ((r, g), n) =
    (Ret tt, ((r', g),
      send_all (events_outbox (registry (unregister s n))
                  (omap (disconnect_event pid rooms) codes)) (unregister s n))).
Proof.
  intros Hreg Hpid Hr Hok pid. subst pid.
  destruct (HandleParticipantDisconnected_lawful (participant_id_ (session_at n s)) r rooms Hr)
    as (codes & r' & Hcodes & Hrun & Hr').
  exists codes, r'. split_and!; [done..|].
  unfold RemoveFromRegistry. unfold pbind at 1. simpl. rewrite Hreg. simpl.
  unfold pbind at 1. simpl. unfold pbind at 1. simpl. fold (unregister s n).
  apply ptry_ret. erewrite pbind_ret by (do 2 apply on_fst_eq; exact Hrun).
  apply DeliverEvents_run. by apply disconnect_events_ok.
Qed.
End runs.
