(* ===== verification/Config.v ===== *)
(** * Config: the environment and the configuration

    Models src/util/Env.cpp, src/util/Config.hpp, src/util/Config.cpp and the
    structure [ServerConfig] of include/buzzweb/net/Server.hpp.  The process
    environment is a function; [std::stoi] and the conversion to
    [unsigned short] are written out. *)

From S2P Require Import Prelude.
From Stdlib Require Import Ascii.
From stdpp Require Import list numbers.

Local Open Scope Z_scope.

(** ** [std::stoi] in base 10 *)

(** [isspace] in the C locale: space and the characters 9 to 13. *)
Definition isspace (c : ascii) : bool :=
  let n := nat_of_ascii c in
  bool_decide (n = 32%nat) || bool_decide (9 ≤ n ≤ 13)%nat.

Definition digit_value (c : ascii) : option Z :=
  let n := nat_of_ascii c in
  if decide (48 ≤ n ≤ 57)%nat then Some (Z.of_nat n - 48) else None.

Fixpoint skip_spaces (l : list ascii) : list ascii :=
  match l with
  | c :: l' => if isspace c then skip_spaces l' else l
  | [] => []
  end.

(** The longest prefix of digits: its value, or [None] if it is empty. *)
Fixpoint read_digits (acc : option Z) (l : list ascii) : option Z :=
  match l with
  | [] => acc
  | c :: l =>
      match digit_value c with
      | Some d => read_digits (Some (default 0 acc * 10 + d)) l
      | None => acc
      end
  end.

Definition read_sign (l : list ascii) : Z * list ascii :=
  match l with
  | c :: l' =>
      if decide (c = "-"%char) then (-1, l')
      else if decide (c = "+"%char) then (1, l') else (1, l)
  | [] => (1, [])
  end.

Definition int_min : Z := - 2 ^ 31.
Definition int_max : Z := 2 ^ 31 - 1.

Definition stoi (s : string) : outcome exception Z :=
  let '(sign, l) := read_sign (skip_spaces (String.list_ascii_of_string s)) in
  match read_digits None l with
  | None => Throw (invalid_argument "stoi")
  | Some n =>
      if decide (int_min ≤ sign * n ≤ int_max) then Ret (sign * n)
      else Throw (out_of_range "stoi")
  end.

(** [static_cast<unsigned short>]: modulo 2^16. *)
Definition to_unsigned_short (z : Z) : Z := z mod 2 ^ 16.

(** ** Env and Config *)

Record ServerConfig : Type := MkServerConfig {
  port : Z;
  certificate_file : string;
  private_key_file : string;
  tls_enabled : bool
}.

#[export] Instance ServerConfig_eq_dec : EqDecision ServerConfig.
Proof. solve_decision. Defined.

Definition DEFAULT_PORT : Z := 9291.

Section Config.
(** [std::getenv] *)
Context (getenv : string → option string).
Local Open Scope outcome_scope.

Definition GetEnv (env : string) : outcome exception string :=
  match getenv env with
  | Some val => Ret val
  | None => Throw (runtime_error "getenv_error")
  end.

Definition GetEnvOptional (env : string) : option string :=
  match getenv env with
  | Some val => Some val
  | None => None
  end.

Definition tls_required : bool :=
  match GetEnvOptional "BUZZWEB_TLS_ENABLED" with
  | Some v => negb (bool_decide (v = "0") || bool_decide (v = "FALSE") ||
                    bool_decide (v = "false"))
  | None => true
  end.

Definition LoadConfig : outcome exception ServerConfig :=
  port <- (match GetEnvOptional "BUZZWEB_SERVER_PORT" with
           | Some port_str => obind (stoi port_str) (λ z, Ret (to_unsigned_short z))
           | None => Ret DEFAULT_PORT
           end);;
  if tls_required then
    cert_path <- GetEnv "BUZZWEB_CERTIFICATE_FILE_PATH";;
    private_key <- GetEnv "BUZZWEB_PRIVATE_KEY_PATH";;
    Ret (MkServerConfig port cert_path private_key true)
  else Ret (MkServerConfig port "" "" false).
End Config.
