(* ===== verification/Server.v ===== *)
(** * Server: the listener, the server and the entry point

    Models include/buzzweb/net/Listener.hpp, src/net/Listener.cpp,
    include/buzzweb/net/Server.hpp, src/net/Server.cpp and src/main.cpp.  The
    results of the socket and TLS calls of Boost.Asio are a parameter
    ([os_results]); what is modelled is which calls are made, in which order,
    and what happens when one fails. *)

From S2P Require Import Prelude UnorderedMap Room RoomRepository InMemoryRoomRepository.
From S2P Require Import RoomService Json ControlDispatcher ProtocolCodec SessionRegistry.
From S2P Require Import Session Config.

(** An error code, or the exception an Asio call throws; [None] is success. *)
Record os_results : Type := MkOsResults {
  set_tls_options : option exception;
  use_certificate_chain_file : string → option exception;
  use_private_key_file : string → option exception;
  acceptor_open_error : option string;
  reuse_address_error : option string;
  bind_error : Z → option string;
  listen_error : option string
}.

Definition check_call (e : option exception) : outcome exception unit :=
  match e with Some e => Throw e | None => Ret tt end.

(** [if (error) throw boost::system::system_error(error);] *)
Definition check_error (e : option string) : outcome exception unit :=
  match e with Some what => Throw (foreign_exception what) | None => Ret tt end.

Section Server.
Context `{BucketOrder, Json, CodeDraws, IdDraws} {R : Type} `{!RoomRepository R}.
Abbreviation St := ((R * nat) * Net)%type.

(** ** Listener *)

Definition NewListener (os : os_results) (endpoint_port : Z) : outcome exception unit :=
  (_ <- check_error (acceptor_open_error os);;
   _ <- check_error (reuse_address_error os);;
   _ <- check_error (bind_error os endpoint_port);;
   check_error (listen_error os))%outcome.

Definition AcceptNext : prog exception St unit := on_net (enqueue TcpAccept).

Definition StartListener : prog exception St unit := AcceptNext.

Definition set_acceptor_open (b : bool) (n : Net) : Net :=
  MkNet (registry n) (sessions n) (next_session n) (id_generator n) (pending n) b.

Definition StopListener : prog exception St unit := on_net (set_acceptor_open false).

Definition OnAccept (tls_enabled_ : bool) (error : bool) : prog exception St unit :=
  (is_open <- on_snd (pgets acceptor_open);;
   if negb is_open then pret tt
   else if error then AcceptNext
   else
     session <- new_session tls_enabled_;;
     Start session;;
     AcceptNext)%prog.

(** ** Server *)

Definition ConfigureTls (os : os_results) (config : ServerConfig) : outcome exception unit :=
  (_ <- check_call (set_tls_options os);;
   _ <- check_call (use_certificate_chain_file os (certificate_file config));;
   check_call (use_private_key_file os (private_key_file config)))%outcome.

Definition empty_net : Net := MkNet NewRegistry ∅ 0 0 [] true.

(** The constructor: the network state it leaves, or the exception. *)
Definition NewServer (os : os_results) (config : ServerConfig) : outcome exception Net :=
  (_ <- (if tls_enabled config then ConfigureTls os config else Ret tt);;
   _ <- NewListener os (port config);;
   Ret empty_net)%outcome.

(** The part of [Run] before [io_context_.run()]. *)
Definition RunServer : prog exception St unit := StartListener.

(** Whether the [io_context] goes on picking handlers is the second component
    of the result of [StopServer]. *)
Definition StopServer (listener : bool) : prog exception St bool :=
  (_ <- (if listener then StopListener else pret tt);;
   pret false)%prog.
End Server.

(** ** main *)

Inductive process : Type :=
| ExitFailure
| Terminated (uncaught : exception)
| Serving (config : ServerConfig) (rooms : Rooms) (net : Net).

Definition main `{BucketOrder, Json, CodeDraws, IdDraws}
    (getenv : string → option string) (os : os_results) : process :=
  match LoadConfig getenv with
  | Throw _ => ExitFailure
  | Ret config =>
      match NewRoomService (Some NewRepository) with
      | Throw e => Terminated e
      | Ret repository =>
          match NewServer os config with
          | Throw e => Terminated e
          | Ret net =>
              match RunServer (R := Rooms) ((repository, 0), net) with
              | (Ret _, (_, net)) => Serving config repository net
              | (Throw e, _) => Terminated e
              end
          end
      end
  end.
