(* ===== verification/System.v ===== *)
(** * System: the running server as a transition system

    [io_context_.run()] on the single server thread picks waiting completion
    handlers one at a time and runs each to its end.  A step takes one handler
    out of [pending] - any of them, no order is assumed - and runs it with the
    outcome the environment reports.  An exception that leaves a handler leaves
    [run()] and, as [main] does not catch it, ends the process: the world is
    then [Crashed]. *)

From S2P Require Import Prelude UnorderedMap Room RoomRepository RoomService Json.
From S2P Require Import ControlDispatcher ProtocolCodec SessionRegistry Session Server.

(** What the environment makes happen: a completion with its outcome, or a call
    of the public [Close] of a session or [Stop] of the listener. *)
Inductive io_event : Type :=
| EvTcpAccept (error : bool)
| EvTlsHandshake (s : SessionPtr) (error : bool)
| EvWebSocketAccept (s : SessionPtr) (error : bool)
| EvWebSocketRead (s : SessionPtr) (result : read_result)
| EvWebSocketWrite (s : SessionPtr) (message : string) (error : bool)
| EvWebSocketClose (s : SessionPtr)
| EvPostedSend (s : SessionPtr) (message : string)
| EvPostedClose (s : SessionPtr) (is_open : bool)
| EvCloseCall (s : SessionPtr)
| EvListenerStop.

(** The waiting handler an event completes. *)
Definition completion_of (ev : io_event) : option completion :=
  match ev with
  | EvTcpAccept _ => Some TcpAccept
  | EvTlsHandshake s _ => Some (TlsHandshake s)
  | EvWebSocketAccept s _ => Some (WebSocketAccept s)
  | EvWebSocketRead s _ => Some (WebSocketRead s)
  | EvWebSocketWrite s m _ => Some (WebSocketWrite s m)
  | EvWebSocketClose s => Some (WebSocketClose s)
  | EvPostedSend s m => Some (PostedSend s m)
  | EvPostedClose s _ => Some (PostedClose s)
  | EvCloseCall _ | EvListenerStop => None
  end.

(** Takes one occurrence out. *)
Fixpoint take_out (c : completion) (l : list completion) : option (list completion) :=
  match l with
  | [] => None
  | c' :: l => if decide (c' = c) then Some l else cons c' <$> take_out c l
  end.

Definition set_pending (l : list completion) (n : Net) : Net :=
  MkNet (registry n) (sessions n) (next_session n) (id_generator n) l (acceptor_open n).

(** The network state in which the handler of an event starts. *)
Definition start_event (ev : io_event) (n : Net) : option Net :=
  match completion_of ev with
  | Some c => (λ l, set_pending l n) <$> take_out c (pending n)
  | None =>
      match ev with
      | EvCloseCall s => if decide (is_Some (sessions n !! s)) then Some n else None
      | _ => Some n
      end
  end.

Section System.
Context `{BucketOrder, Json, CodeDraws, IdDraws} {R : Type} `{!RoomRepository R}.
Context (tls : bool).

Definition handle (ev : io_event) : prog exception ((R * nat) * Net) unit :=
  match ev with
  | EvTcpAccept error => OnAccept tls error
  | EvTlsHandshake s error => OnTlsHandshake s error
  | EvWebSocketAccept s error => OnWebSocketAccept s error
  | EvWebSocketRead s result => OnRead s result
  | EvWebSocketWrite s message error => OnWrite s message error
  | EvWebSocketClose _ => pret tt
  | EvPostedSend s message => OnPostedSend s message
  | EvPostedClose s is_open => OnPostedClose s is_open
  | EvCloseCall s => CloseSession s
  | EvListenerStop => StopListener
  end.

Inductive world : Type :=
| Running (v : R * nat) (n : Net)
| Crashed (e : exception).

Definition run_event (ev : io_event) (w : world) : option world :=
  match w with
  | Crashed _ => None
  | Running v n =>
      n ← start_event ev n;
      Some (match handle ev (v, n) with
            | (Ret _, (v, n)) => Running v n
            | (Throw e, _) => Crashed e
            end)
  end.

Fixpoint run_events (evs : list io_event) (w : world) : option world :=
  match evs with
  | [] => Some w
  | ev :: evs => w ← run_event ev w; run_events evs w
  end.

Lemma run_events_cons ev evs w :
  run_events (ev :: evs) w = run_event ev w ≫= run_events evs.
Proof. done. Qed.

Lemma run_events_app evs evs' w :
  run_events (evs ++ evs') w = run_events evs w ≫= run_events evs'.
Proof.
  revert w. induction evs as [|ev evs IH]; intros w; [done|].
  change ((ev :: evs) ++ evs') with (ev :: (evs ++ evs')). rewrite !run_events_cons.
  destruct (run_event ev w); [apply IH|done].
Qed.

Lemma run_events_next ev evs w w1 :
  run_event ev w = Some w1 → run_events (ev :: evs) w = run_events evs w1.
Proof. intros Hrun. by rewrite run_events_cons, Hrun. Qed.

Lemma run_events_then evs evs' w w1 :
  run_events evs w = Some w1 → run_events (evs ++ evs') w = run_events evs' w1.
Proof. intros Hrun. by rewrite run_events_app, Hrun. Qed.

(** The world when [io_context_.run()] is entered, on an empty repository. *)
Definition start_world (repository : R) : world :=
  Running (repository, 0) (enqueue TcpAccept empty_net).

(** A message delivered to a session that is no longer registered: its read
    had completed before the session failed or was closed. *)
Definition late_read (ev : io_event) (w : world) : Prop :=
  match ev, w with
  | EvWebSocketRead s (ReadMessage _ true), Running _ n =>
      registered_ (session_at n s) = false
  | _, _ => False
  end.

Inductive step (w : world) (ev : io_event) (w' : world) : Prop :=
| step_intro : run_event ev w = Some w' → step w ev w'.

(** Reachable worlds; [strict] excludes late reads on the way. *)
Inductive reachable (strict : bool) (repository : R) : world → Prop :=
| reachable_start : reachable strict repository (start_world repository)
| reachable_step w ev w' :
    reachable strict repository w → step w ev w' →
    (strict = true → ¬ late_read ev w) → reachable strict repository w'.
End System.
