(* ===== verification/SystemInv.v ===== *)
(** * SystemInv: invariants of the running server

    The parts of the invariant of the reachable worlds: the stored rooms
    ([service_inv]), the session objects and the registry ([net_ok],
    [registry_complete]) and the outstanding reads and writes of each session
    ([io_ok]); with the lemmas on how updates of the network state and the start
    of an event affect them. *)

From S2P Require Import Prelude Text UnorderedMap Room RoomRepository RoomService.
From S2P Require Import RoomServiceSpec Json ControlDispatcher ControlDispatcherSpec.
From S2P Require Import ProtocolCodec ProtocolCodecSpec SessionRegistry Session SessionSpec.
From S2P Require Import Server System.

(** ** The stored rooms *)

Section service.
Context `{JsonLaws, CodeDraws, IdDraws}.
Implicit Types (rooms : gmap RoomCode Room).

(** Every stored code is one that [GenerateRoomCode] can produce. *)
Definition codes_ok rooms : Prop :=
  map_Forall (λ code _, ∃ d, (d ≤ 999999)%N ∧ code = format_room_code d) rooms.

Record service_inv rooms : Prop := {
  inv_wf : rooms_wf rooms;
  inv_no_empty : no_empty_room rooms;
  inv_codes : codes_ok rooms;
  inv_texts : texts_ok rooms
}.

Lemma service_inv_empty : service_inv ∅.
Proof. split; apply map_Forall_empty. Qed.

Lemma codes_ok_sub rooms rooms' :
  (∀ code, is_Some (rooms' !! code) → is_Some (rooms !! code)) →
  codes_ok rooms → codes_ok rooms'.
Proof.
  intros Hsub Hok code room Hroom. destruct (Hsub code) as [room' Hroom']; [by eexists|].
  exact (Hok _ _ Hroom').
Qed.

Lemma leave_codes_dom codes pid rooms code :
  is_Some (leave_codes codes pid rooms !! code) → is_Some (rooms !! code).
Proof. intros [room' (room & Hroom & _)%leave_codes_sub]. eauto. Qed.

Lemma service_inv_leave code pid rooms :
  service_inv rooms → service_inv (leave_spec code pid rooms).2.
Proof.
  intros [Hwf Hne Hc Ht]. split; [by apply leave_spec_wf|by apply leave_spec_no_empty|..].
  - rewrite leave_spec_codes. eapply codes_ok_sub; [apply leave_codes_dom|done].
  - rewrite leave_spec_codes. by apply texts_ok_leave_codes.
Qed.

Lemma service_inv_leave_all pid rooms :
  service_inv rooms → service_inv (leave_all pid rooms).
Proof.
  intros [Hwf Hne Hc Ht].
  split; [by apply leave_all_wf|by apply leave_all_no_empty| |by apply texts_ok_leave_all].
  eapply codes_ok_sub; [|exact Hc]. intros code. unfold leave_all. rewrite lookup_omap.
  destruct (rooms !! code); simpl; [by eexists|by intros []].
Qed.

Lemma join_spec_dom code p given rooms code' :
  is_Some ((join_spec code p given rooms).2 !! code') → is_Some (rooms !! code').
Proof.
  unfold join_spec. destruct (rooms !! code) as [room|] eqn:Hroom; [|done].
  destruct (join_outcome room p given); [|done..]. simpl.
  destruct (decide (code = code')) as [->|Hne]; [by eexists|by rewrite lookup_insert_ne].
Qed.

Lemma dispatch_rooms_join c g m rooms :
  (answer_join m c rooms g).2.1 =
  (join_spec (join_room_code c) (join_participant c) (join_password_hash c) rooms).2.
Proof. unfold answer_join. by destruct (join_spec _ _ _ _) as [[?|?] ?]. Qed.

Lemma dispatch_rooms_leave c g m rooms :
  (answer_leave m c rooms g).2.1 =
  (leave_spec (leave_room_code c) (leave_participant_id c) rooms).2.
Proof. unfold answer_leave. by destruct (leave_spec _ _ _) as [[?|?] ?]. Qed.

Lemma service_inv_dispatch request rooms g :
  service_inv rooms → meta_ok (meta request) → command_ok (command request) →
  service_inv (dispatch_spec request rooms g).2.1.
Proof.
  intros Hinv Hm Hc. pose proof Hinv as [Hwf Hne Hcodes Ht].
  pose proof (dispatch_ok request rooms g Ht Hm Hc) as [_ Ht'].
  revert Ht'. unfold dispatch_spec.
  destruct (meta_type (meta request)), (command request) as [c|c|c|c];
    try (intros; exact Hinv).
  - unfold answer_create. destruct (first_free _ _ _) as [i|]; [|done]. simpl.
    intros Ht'. split; [..|done].
    + apply map_Forall_insert_2; [|done]. split; [done|]. apply NoDup_singleton.
    + by apply map_Forall_insert_2.
    + apply map_Forall_insert_2; [|done]. eexists. split; [apply code_draw_range|done].
  - rewrite dispatch_rooms_join. intros Ht'.
    split; [by apply join_spec_wf|by apply join_spec_no_empty| |done].
    eapply codes_ok_sub; [apply join_spec_dom|done].
  - rewrite dispatch_rooms_leave. intros _. by apply service_inv_leave.
Qed.

(** ** Members *)

Lemma member_insert rooms code room pid :
  member (<[code := room]> rooms) pid → member rooms pid ∨ pid ∈ ids room.
Proof.
  intros (code' & room' & Hroom' & Hin). apply lookup_insert_Some in Hroom'.
  destruct Hroom' as [[-> ->]|[_ Hroom']]; [by right|]. left. by exists code', room'.
Qed.

Lemma member_leave_codes codes pid rooms pid' :
  member (leave_codes codes pid rooms) pid' → member rooms pid'.
Proof.
  intros (code & room' & Hroom' & Hin). apply leave_codes_sub in Hroom'.
  destruct Hroom' as (room & Hroom & Hor). exists code, room. split; [done|].
  destruct Hor as [->|[-> _]%drop_participant_Some]; [done|].
  rewrite ids_without, list_elem_of_filter in Hin. by destruct Hin.
Qed.

Lemma member_leave_all pid rooms pid' :
  member (leave_all pid rooms) pid' → member rooms pid' ∧ pid' ≠ pid.
Proof.
  intros Hmem. split.
  - rewrite <- (leave_codes_all (room_codes rooms)) in Hmem.
    + by apply member_leave_codes in Hmem.
    + intros code. by rewrite room_codes_elem.
  - intros ->. by apply leave_all_not_member in Hmem.
Qed.

(** A request makes nobody but its speaker a member. *)
Lemma member_dispatch request rooms g pid :
  member (dispatch_spec request rooms g).2.1 pid →
  member rooms pid ∨ pid = speaker (command request).
Proof.
  unfold dispatch_spec.
  destruct (meta_type (meta request)), (command request) as [c|c|c|c];
    try (intros Hmem; left; exact Hmem).
  - unfold answer_create. destruct (first_free _ _ _) as [i|]; [|by left]. simpl.
    intros [Hmem|Hin]%member_insert; [by left|].
    by right; apply list_elem_of_singleton in Hin.
  - rewrite dispatch_rooms_join. unfold join_spec.
    destruct (rooms !! _) as [room|] eqn:Hroom; [|by left].
    destruct (join_outcome _ _ _); [|by left..]. simpl.
    intros [Hmem|Hin]%member_insert; [by left|].
    rewrite ids_add in Hin. apply elem_of_app in Hin as [Hin|Hin].
    + left. by exists (join_room_code c), room.
    + by right; apply list_elem_of_singleton in Hin.
  - rewrite dispatch_rooms_leave, leave_spec_codes. intros Hmem. left.
    by apply member_leave_codes in Hmem.
Qed.

Lemma decode_speaker pid message request :
  DecodeRequest pid message = Ret request → speaker (command request) = pid.
Proof.
  unfold DecodeRequest. destruct (parse message) as [j|]; [|done]. simpl.
  intros (_ & type & pl & _ & _ & _ & _ & Hcmd)%decode_json_iff.
  by destruct (command request); simpl in *; destruct_and!.
Qed.
End service.

(** ** The network state *)

Section network.
Context `{BucketOrder, JsonLaws, CodeDraws, IdDraws}.
Implicit Types (n : Net) (s : SessionPtr).

(** The messages of the outstanding writes of a session, and its outstanding
    handshake, accept or read. *)
Definition inflight s (l : list completion) : list string :=
  omap (λ c, match c with
             | WebSocketWrite s' m => if decide (s' = s) then Some m else None
             | _ => None
             end) l.

Definition stage s (l : list completion) : list completion :=
  omap (λ c, match c with
             | TlsHandshake s' | WebSocketAccept s' | WebSocketRead s' =>
                 if decide (s' = s) then Some c else None
             | _ => None
             end) l.

(** At most one write is outstanding and it is that of the queue's front; an
    open session with queued messages has one. *)
Record write_ok s n : Prop := {
  wr_history : pushed_ (session_at n s) =
               written_ (session_at n s) ++ write_queue_ (session_at n s);
  wr_inflight : inflight s (pending n) = [] ∨
                ∃ m q, inflight s (pending n) = [m] ∧ write_queue_ (session_at n s) = m :: q;
  wr_progress : write_queue_ (session_at n s) ≠ [] → closing_ (session_at n s) = false →
                inflight s (pending n) ≠ []
}.

(** At most one of handshake, accept and read is outstanding; a registered
    session has a read outstanding. *)
Record stage_ok s n : Prop := {
  st_one : length (stage s (pending n)) ≤ 1;
  st_reading : registered_ (session_at n s) = true → stage s (pending n) = [WebSocketRead s]
}.

(** Nothing refers to addresses not yet allocated. *)
Definition fresh_ok n : Prop :=
  ∀ s, next_session n ≤ s →
    sessions n !! s = None ∧ stage s (pending n) = [] ∧ inflight s (pending n) = [].

(** Session [s] has the [s]-th participant id, and the registry maps ids to
    registered sessions that carry them. *)
Record net_ok n : Prop := {
  net_wf : um_wf (registry n);
  net_known s : is_Some (sessions n !! s) ↔ s < next_session n;
  net_ids s : s < next_session n →
              participant_id_ (session_at n s) = format_participant_id (id_draw s);
  net_draws : id_generator n = next_session n;
  net_registry pid s :
    to_gmap (registry n) !! pid = Some s →
    registered_ (session_at n s) = true ∧ participant_id_ (session_at n s) = pid
}.

(** No two of the ids drawn so far are equal. *)
Definition unique_ids n : Prop := NoDup (id_draw <$> seq 0 (next_session n)).

(** Every registered session is found under its id. *)
Definition registry_complete n : Prop :=
  ∀ s, registered_ (session_at n s) = true →
    to_gmap (registry n) !! participant_id_ (session_at n s) = Some s.

Lemma session_at_unknown n s : sessions n !! s = None → session_at n s = blank_session.
Proof. unfold session_at. by intros ->. Qed.

Lemma session_at_id n s : net_ok n → text_ok (participant_id_ (session_at n s)) = true.
Proof.
  intros Hn. destruct (decide (s < next_session n)) as [Hlt|Hge].
  - rewrite (net_ids _ Hn _ Hlt). apply participant_id_text_ok.
  - rewrite session_at_unknown; [by apply ascii_text_ok|].
    rewrite <- (net_known _ Hn) in Hge. by apply eq_None_not_Some.
Qed.

Lemma registered_exists n s :
  registered_ (session_at n s) = true → is_Some (sessions n !! s).
Proof. unfold session_at. destruct (sessions n !! s); [by eexists|done]. Qed.

(** *** Reading after an update *)

Lemma session_at_set n s s' f :
  session_at (set_session s f n) s' =
  if decide (s = s') then
    match sessions n !! s with Some x => f x | None => blank_session end
  else session_at n s'.
Proof.
  unfold session_at, set_session. simpl. case_decide as Hs.
  - subst s'. rewrite lookup_alter_eq. by destruct (sessions n !! s).
  - by rewrite lookup_alter_ne.
Qed.

Lemma session_at_set_ne n s s' f :
  s ≠ s' → session_at (set_session s f n) s' = session_at n s'.
Proof. intros. by rewrite session_at_set, decide_False. Qed.

Lemma set_session_proj {A} (proj : Session → A) n s s' f :
  (∀ x, proj (f x) = proj x) →
  proj (session_at (set_session s f n) s') = proj (session_at n s').
Proof.
  intros Hf. rewrite session_at_set. case_decide as Hs; [|done]. subst s'.
  unfold session_at. destruct (sessions n !! s); [apply Hf|done].
Qed.

(** *** Taking a handler out *)

Lemma take_out_perm c l l' : take_out c l = Some l' → l ≡ₚ c :: l'.
Proof.
  revert l'. induction l as [|c' l IH]; intros l'; simpl; [done|].
  case_decide as Hc; [naive_solver|].
  intros (k & Hk & ->)%fmap_Some. rewrite (IH k Hk). apply Permutation_swap.
Qed.

Lemma inflight_perm s l l' : l ≡ₚ l' → inflight s l ≡ₚ inflight s l'.
Proof. unfold inflight. by intros ->. Qed.

Lemma stage_perm s l l' : l ≡ₚ l' → stage s l ≡ₚ stage s l'.
Proof. unfold stage. by intros ->. Qed.

Lemma inflight_app s l l' : inflight s (l ++ l') = inflight s l ++ inflight s l'.
Proof. apply omap_app. Qed.

Lemma stage_app s l l' : stage s (l ++ l') = stage s l ++ stage s l'.
Proof. apply omap_app. Qed.
End network.

(** ** Updates that leave outstanding operations alone *)

Section quiet.
Context `{BucketOrder, JsonLaws, CodeDraws, IdDraws}.
Implicit Types (n : Net) (s : SessionPtr).

Definition core (x : Session) : list string * list string * list string :=
  (pushed_ x, written_ x, write_queue_ x).

(** [n'] has the queues and the outstanding reads and writes of [n]; flags may
    only move towards closed and unregistered. *)
Record quiet n n' : Prop := {
  qu_core s : core (session_at n' s) = core (session_at n s);
  qu_closing s : closing_ (session_at n s) = true → closing_ (session_at n' s) = true;
  qu_registered s : registered_ (session_at n' s) = true → registered_ (session_at n s) = true;
  qu_inflight s : inflight s (pending n') = inflight s (pending n);
  qu_stage s : stage s (pending n') = stage s (pending n);
  qu_next : next_session n' = next_session n;
  qu_none s : sessions n !! s = None → sessions n' !! s = None
}.

#[export] Instance quiet_preorder : PreOrder quiet.
Proof.
  split; [by split|]. intros n1 n2 n3 [] []. split; intros; try congruence; eauto.
Qed.

Lemma write_ok_quiet n n' s : quiet n n' → write_ok s n → write_ok s n'.
Proof.
  intros Hq [Hh Hi Hp]. pose proof (qu_core _ _ Hq s) as Hcore. injection Hcore as H1' H2' H3'.
  split; rewrite ?(qu_inflight _ _ Hq), ?H1', ?H2', ?H3'; [done..|].
  intros Hne Hc. apply Hp; [done|]. apply not_true_iff_false. intros Ht.
  apply (qu_closing _ _ Hq) in Ht. congruence.
Qed.

Lemma stage_ok_quiet n n' s : quiet n n' → stage_ok s n → stage_ok s n'.
Proof.
  intros Hq [H1' Hr]. split; rewrite (qu_stage _ _ Hq); [done|].
  intros Hreg%(qu_registered _ _ Hq). auto.
Qed.

Lemma fresh_ok_quiet n n' : quiet n n' → fresh_ok n → fresh_ok n'.
Proof.
  intros Hq Hf s Hs. rewrite (qu_next _ _ Hq) in Hs.
  destruct (Hf s Hs) as (Hnone & Hst & Hin).
  rewrite (qu_stage _ _ Hq), (qu_inflight _ _ Hq).
  split_and!; [by apply (qu_none _ _ Hq)|done..].
Qed.

(** Handlers that are neither a read, an accept, a handshake nor a write. *)
Definition inert (c : completion) : bool :=
  match c with
  | TcpAccept | WebSocketClose _ | PostedSend _ _ | PostedClose _ => true
  | _ => false
  end.

Lemma inert_nothing cs s :
  Forall (λ c, inert c = true) cs → inflight s cs = [] ∧ stage s cs = [].
Proof.
  induction 1 as [|c cs Hc _ [IH1 IH2]]; [done|].
  unfold inflight, stage in *. simpl. destruct c; simpl; try done.
Qed.

Lemma quiet_enqueue_all cs n : Forall (λ c, inert c = true) cs → quiet n (enqueue_all cs n).
Proof.
  intros Hcs. split; try done; intros s; simpl.
  - by rewrite inflight_app, (proj1 (inert_nothing cs s Hcs)), app_nil_r.
  - by rewrite stage_app, (proj2 (inert_nothing cs s Hcs)), app_nil_r.
Qed.

Lemma posted_inert l : Forall (λ c, inert c = true) (posted l).
Proof. unfold posted. apply Forall_fmap, Forall_forall. done. Qed.

Lemma quiet_send_all l n : quiet n (send_all l n).
Proof. apply quiet_enqueue_all, posted_inert. Qed.

(** Functions that move flags only. *)
Record flags_only (f : Session → Session) : Prop := {
  fl_core x : core (f x) = core x;
  fl_id x : participant_id_ (f x) = participant_id_ x;
  fl_closing x : closing_ x = true → closing_ (f x) = true;
  fl_registered x : registered_ (f x) = true → registered_ x = true
}.

Lemma flags_unregistered : flags_only (set_registered false).
Proof. by split. Qed.
Lemma flags_closing : flags_only set_closing.
Proof. by split. Qed.
Lemma flags_lowest_closed : flags_only set_lowest_closed.
Proof. by split. Qed.

Lemma quiet_set_session f n s : flags_only f → quiet n (set_session s f n).
Proof.
  intros [Hc Hid Hcl Hr]. split; try done.
  - intros s'. by apply set_session_proj.
  - intros s'. rewrite session_at_set. case_decide as Hs; [|done]. subst s'.
    unfold session_at. destruct (sessions n !! s); [apply Hcl|done].
  - intros s'. rewrite session_at_set. case_decide as Hs; [|done]. subst s'.
    unfold session_at. destruct (sessions n !! s); [apply Hr|done].
  - intros s' Hnone. simpl. destruct (decide (s = s')) as [->|Hne].
    + by rewrite lookup_alter_eq, Hnone.
    + by rewrite lookup_alter_ne.
Qed.

Lemma quiet_set_registry f n : quiet n (set_registry f n).
Proof. by split. Qed.

(** [RemoveFromRegistry], without the events. *)
Definition drop_session s n : Net :=
  if registered_ (session_at n s) then unregister s n else n.

Lemma quiet_drop s n : quiet n (drop_session s n).
Proof.
  unfold drop_session, unregister. destruct (registered_ _); [|done].
  etrans; [|apply quiet_set_registry]. apply quiet_set_session, flags_unregistered.
Qed.

Lemma drop_unregistered s n : registered_ (session_at (drop_session s n) s) = false.
Proof.
  unfold drop_session, unregister. destruct (registered_ (session_at n s)) eqn:Hreg; [|done].
  change (registered_ (session_at (set_session s (set_registered false) n) s) = false).
  rewrite session_at_set, decide_True by done. by destruct (sessions n !! s).
Qed.

(** [Fail], without the events. *)
Definition failed_net s l n : Net :=
  set_session s set_lowest_closed (send_all l (drop_session s (set_session s set_closing n))).

Lemma quiet_failed s l n : quiet n (failed_net s l n).
Proof.
  unfold failed_net. etrans; [apply (quiet_set_session set_closing), flags_closing|].
  etrans; [apply quiet_drop|]. etrans; [apply quiet_send_all|].
  apply quiet_set_session, flags_lowest_closed.
Qed.

Lemma failed_closing s l n :
  is_Some (sessions n !! s) → closing_ (session_at (failed_net s l n) s) = true.
Proof.
  intros [x Hx]. unfold failed_net.
  apply (qu_closing _ _ (quiet_set_session _ _ s flags_lowest_closed)).
  apply (qu_closing _ _ (quiet_send_all l _)). apply (qu_closing _ _ (quiet_drop s _)).
  by rewrite session_at_set, decide_True, Hx by done.
Qed.

Lemma failed_unregistered s l n : registered_ (session_at (failed_net s l n) s) = false.
Proof.
  apply not_true_iff_false. intros Hreg. unfold failed_net in Hreg.
  apply (qu_registered _ _ (quiet_set_session _ _ s flags_lowest_closed)) in Hreg.
  apply (qu_registered _ _ (quiet_send_all l _)) in Hreg.
  by rewrite drop_unregistered in Hreg.
Qed.
End quiet.

(** ** Outstanding operations *)

Section io.
Context `{BucketOrder, JsonLaws, CodeDraws, IdDraws}.
Implicit Types (n : Net) (s : SessionPtr).

Record io_ok n : Prop := {
  io_write s : write_ok s n;
  io_stage s : stage_ok s n;
  io_fresh : fresh_ok n
}.

(** The state in which the handler of a handshake, accept or read of [s]
    runs: nothing of the kind is outstanding. *)
Record stage_taken s n : Prop := {
  sk_write s' : write_ok s' n;
  sk_stage s' : s' ≠ s → stage_ok s' n;
  sk_none : stage s (pending n) = [];
  sk_fresh : fresh_ok n;
  sk_known : s < next_session n
}.

(** The state in which the handler of a write of [s] runs. *)
Record write_taken s (m : string) n : Prop := {
  wk_write s' : s' ≠ s → write_ok s' n;
  wk_stage s' : stage_ok s' n;
  wk_none : inflight s (pending n) = [];
  wk_front : ∃ q, write_queue_ (session_at n s) = m :: q;
  wk_history : pushed_ (session_at n s) =
               written_ (session_at n s) ++ write_queue_ (session_at n s);
  wk_fresh : fresh_ok n
}.

Lemma io_ok_quiet n n' : quiet n n' → io_ok n → io_ok n'.
Proof.
  intros Hq [Hw Hs Hf]. split; eauto using write_ok_quiet, stage_ok_quiet, fresh_ok_quiet.
Qed.

Lemma stage_taken_quiet s n n' : quiet n n' → stage_taken s n → stage_taken s n'.
Proof.
  intros Hq [Hw Hs Hn Hf Hk].
  split; eauto using write_ok_quiet, stage_ok_quiet, fresh_ok_quiet.
  - by rewrite (qu_stage _ _ Hq).
  - by rewrite (qu_next _ _ Hq).
Qed.

Lemma stage_taken_idle s n :
  stage_taken s n → registered_ (session_at n s) = false → io_ok n.
Proof.
  intros [Hw Hs Hn Hf _] Hreg. split; [done| |done].
  intros s'. destruct (decide (s' = s)) as [->|Hne]; [|by apply Hs].
  split; rewrite Hn; [simpl; lia|by rewrite Hreg].
Qed.

(** A handshake, accept or read of session [s]. *)
Definition stage_of s (c : completion) : bool :=
  match c with
  | TlsHandshake s' | WebSocketAccept s' | WebSocketRead s' => bool_decide (s' = s)
  | _ => false
  end.

Lemma stage_of_inflight s c s' : stage_of s c = true → inflight s' [c] = [].
Proof. by destruct c. Qed.

Lemma stage_of_stage s c s' :
  stage_of s c = true → stage s' [c] = if decide (s = s') then [c] else [].
Proof.
  unfold stage. destruct c; simpl; try done; intros ->%bool_decide_eq_true; by case_decide.
Qed.

Lemma stage_taken_next s c n :
  stage_taken s n → stage_of s c = true →
  (registered_ (session_at n s) = true → c = WebSocketRead s) →
  io_ok (enqueue c n).
Proof.
  intros [Hw Hs Hn Hf Hk] Hc Hreg.
  assert (Hin : ∀ s', inflight s' (pending (enqueue c n)) = inflight s' (pending n)).
  { intros s'. simpl. by rewrite inflight_app, (stage_of_inflight s), app_nil_r. }
  assert (Hst : ∀ s', stage s' (pending (enqueue c n)) =
    stage s' (pending n) ++ if decide (s = s') then [c] else []).
  { intros s'. simpl. by rewrite stage_app, (stage_of_stage s). }
  split.
  - intros s'. destruct (Hw s') as [Hh Hi Hp]. by split; rewrite ?Hin.
  - intros s'. destruct (decide (s = s')) as [<-|Hne].
    + split; rewrite Hst, Hn, decide_True by done; simpl; [lia|].
      intros Hr. f_equal. by apply Hreg.
    + destruct (Hs s' ltac:(done)) as [H1' Hr].
      by split; rewrite Hst, decide_False, app_nil_r by done.
  - intros s' Hs'. destruct (Hf s' Hs') as (Hnone & Hst' & Hin'). split_and!; [done| |].
    + rewrite Hst, Hst', decide_False; [done|]. intros ->. simpl in Hs'. lia.
    + by rewrite Hin.
Qed.

(** *** Starting an event *)

Lemma start_event_same ev n n0 :
  start_event ev n = Some n0 →
  registry n0 = registry n ∧ sessions n0 = sessions n ∧
  next_session n0 = next_session n ∧ id_generator n0 = id_generator n.
Proof.
  unfold start_event. destruct (completion_of ev) as [c|].
  - by intros (l & _ & ->)%fmap_Some.
  - destruct ev; try (by intros [= <-]). case_decide; [by intros [= <-]|done].
Qed.

Lemma start_perm c n l s :
  take_out c (pending n) = Some l →
  inflight s (pending n) ≡ₚ inflight s [c] ++ inflight s l ∧
  stage s (pending n) ≡ₚ stage s [c] ++ stage s l.
Proof.
  intros Hl%take_out_perm. rewrite (inflight_perm _ _ _ Hl), (stage_perm _ _ _ Hl).
  by rewrite <- inflight_app, <- stage_app.
Qed.

Lemma fresh_ok_start c n l :
  fresh_ok n → take_out c (pending n) = Some l → fresh_ok (set_pending l n).
Proof.
  intros Hf Hl s Hs. destruct (Hf s Hs) as (Hnone & Hst & Hin).
  destruct (start_perm c n l s Hl) as [Hpi Hps]. rewrite Hst in Hps. rewrite Hin in Hpi.
  apply Permutation_nil_l, eq_sym, app_eq_nil in Hps as [_ Hps].
  apply Permutation_nil_l, eq_sym, app_eq_nil in Hpi as [_ Hpi]. done.
Qed.

Lemma write_ok_start c n l s :
  write_ok s n → take_out c (pending n) = Some l → inflight s [c] = [] →
  write_ok s (set_pending l n).
Proof.
  intros [Hh Hi Hp] Hl Hc. destruct (start_perm c n l s Hl) as [Hpi _].
  rewrite Hc in Hpi. simpl in Hpi. split; [done|..].
  - destruct Hi as [Hi|(m & q & Hi & Hq)]; rewrite Hi in Hpi.
    + left. by apply eq_sym, Permutation_nil_l.
    + right. exists m, q. split; [|done]. by apply eq_sym, Permutation_singleton_l.
  - intros Hne Hcl Hnil. specialize (Hp Hne Hcl). simpl in Hnil. rewrite Hnil in Hpi.
    by apply Permutation_nil_r in Hpi.
Qed.

Lemma stage_ok_start c n l s :
  stage_ok s n → take_out c (pending n) = Some l → stage s [c] = [] →
  stage_ok s (set_pending l n).
Proof.
  intros [H1' Hr] Hl Hc. destruct (start_perm c n l s Hl) as [_ Hps].
  rewrite Hc in Hps. simpl in Hps. split.
  - apply Permutation_length in Hps. simpl. lia.
  - intros Hreg. simpl in *. rewrite (Hr Hreg) in Hps.
    by apply eq_sym, Permutation_singleton_l.
Qed.

Lemma start_inert c n l :
  io_ok n → take_out c (pending n) = Some l → inert c = true → io_ok (set_pending l n).
Proof.
  intros [Hw Hs Hf] Hl Hc.
  assert (Hno : ∀ s, inflight s [c] = [] ∧ stage s [c] = []).
  { intros s. apply inert_nothing. by apply Forall_singleton. }
  split.
  - intros s. eapply write_ok_start; [done..|apply Hno].
  - intros s. eapply stage_ok_start; [done..|apply Hno].
  - by eapply fresh_ok_start.
Qed.

Lemma start_stage s c n l :
  io_ok n → take_out c (pending n) = Some l → stage_of s c = true →
  stage_taken s (set_pending l n) ∧
  (registered_ (session_at n s) = true → c = WebSocketRead s).
Proof.
  intros [Hw Hs Hf] Hl Hc. destruct (start_perm c n l s Hl) as [_ Hps].
  rewrite (stage_of_stage s c s Hc), decide_True in Hps by done.
  destruct (Hs s) as [H1' Hr].
  assert (Hnil : stage s l = []).
  { apply Permutation_length in Hps. simpl in Hps. apply length_zero_iff_nil. lia. }
  rewrite Hnil in Hps. split; [split|].
  - intros s'. eapply write_ok_start; [done..|by eapply stage_of_inflight].
  - intros s' Hne. eapply stage_ok_start; [done..|].
    rewrite (stage_of_stage s) by done. by rewrite decide_False.
  - done.
  - by eapply fresh_ok_start.
  - simpl. destruct (decide (s < next_session n)) as [|Hge]; [done|].
    destruct (Hf s ltac:(lia)) as (_ & Hst & _). rewrite Hst in Hps.
    by apply Permutation_nil_l in Hps.
  - intros Hreg. rewrite (Hr Hreg) in Hps. apply Permutation_singleton_l in Hps.
    by injection Hps.
Qed.

Lemma start_write s m n l :
  io_ok n → take_out (WebSocketWrite s m) (pending n) = Some l →
  write_taken s m (set_pending l n).
Proof.
  intros [Hw Hs Hf] Hl. destruct (start_perm _ n l s Hl) as [Hpi _].
  assert (Hone : inflight s [WebSocketWrite s m] = [m]).
  { unfold inflight. simpl. by rewrite decide_True. }
  rewrite Hone in Hpi. destruct (Hw s) as [Hh Hi Hp].
  destruct Hi as [Hi|(m' & q & Hi & Hq)]; rewrite Hi in Hpi;
    [by apply Permutation_nil_l in Hpi|].
  apply Permutation_singleton_l in Hpi. injection Hpi as <- Hnil.
  split.
  - intros s' Hne. eapply write_ok_start; [done..|]. unfold inflight. simpl.
    by rewrite decide_False.
  - intros s'. by eapply stage_ok_start.
  - done.
  - by exists q.
  - done.
  - by eapply fresh_ok_start.
Qed.
End io.
