(* ===== verification/SystemRun.v ===== *)
(** * SystemRun: every event preserves the invariants

    The handlers of Session.v and Server.v, run from a state that satisfies the
    invariants of SystemInv.v: each returns normally and reaches a state that
    satisfies them again.  The invariant on who is connected ([directory_ok])
    and that on outstanding operations ([io_ok]) are kept apart. *)

From S2P Require Import Prelude Text UnorderedMap Room RoomRepository RoomService.
From S2P Require Import RoomServiceSpec Json ControlDispatcher ControlDispatcherSpec.
From S2P Require Import ProtocolCodec ProtocolCodecSpec SessionRegistry Session SessionSpec.
From S2P Require Import Server System SystemInv.

(** ** Who is connected *)

Section directory.
Context `{BucketOrder, JsonLaws, CodeDraws, IdDraws}.
Implicit Types (n : Net) (s : SessionPtr) (rooms : gmap RoomCode Room).

(** The members of the stored rooms are connected. *)
Definition members_inv rooms n : Prop :=
  ∀ pid, member rooms pid →
    ∃ s, registered_ (session_at n s) = true ∧ participant_id_ (session_at n s) = pid.

Record directory_ok (strict : bool) rooms n : Prop := {
  dir_service : service_inv rooms;
  dir_net : net_ok n;
  dir_complete : unique_ids n → registry_complete n;
  dir_members : strict = true → members_inv rooms n
}.

(** [n'] shows the same sessions as [n] under the same ids. *)
Record same_directory n n' : Prop := {
  sd_registry : registry n' = registry n;
  sd_next : next_session n' = next_session n;
  sd_draws : id_generator n' = id_generator n;
  sd_registered s : registered_ (session_at n' s) = registered_ (session_at n s);
  sd_id s : participant_id_ (session_at n' s) = participant_id_ (session_at n s);
  sd_known s : is_Some (sessions n' !! s) ↔ is_Some (sessions n !! s)
}.

#[export] Instance same_directory_preorder : PreOrder same_directory.
Proof.
  split; [by split|]. intros n1 n2 n3 [] []. split; intros; try congruence; naive_solver.
Qed.

Lemma net_ok_same n n' : same_directory n n' → net_ok n → net_ok n'.
Proof.
  intros [Hr Hn Hg Hreg Hid Hk] [Hwf Hkn Hids Hdr Hent].
  split; rewrite ?Hr, ?Hn, ?Hg; [done|..].
  - intros s. by rewrite Hk.
  - intros s Hs. by rewrite Hid, Hids.
  - done.
  - intros pid s Hps. rewrite Hreg, Hid. by apply Hent.
Qed.

Lemma directory_same strict rooms n n' :
  same_directory n n' → directory_ok strict rooms n → directory_ok strict rooms n'.
Proof.
  intros Hsame [Hs Hn Hc Hm]. pose proof Hsame as [Hr Hne Hg Hreg Hid Hk]. split.
  - done.
  - by eapply net_ok_same.
  - unfold unique_ids, registry_complete. rewrite Hne, Hr. intros Hu s.
    rewrite Hreg, Hid. by apply Hc.
  - intros Hst pid Hpid. destruct (Hm Hst pid Hpid) as (s & Hs1 & Hs2). exists s.
    by rewrite Hreg, Hid.
Qed.

Lemma same_enqueue_all cs n : same_directory n (enqueue_all cs n).
Proof. by split. Qed.

Lemma same_enqueue c n : same_directory n (enqueue c n).
Proof. by split. Qed.

Lemma same_send_all l n : same_directory n (send_all l n).
Proof. by split. Qed.

Lemma same_set_pending l n : same_directory n (set_pending l n).
Proof. by split. Qed.

Lemma known_set_session s f n s' :
  is_Some (sessions (set_session s f n) !! s') ↔ is_Some (sessions n !! s').
Proof. simpl. by rewrite lookup_alter_is_Some. Qed.

Lemma same_set_session s f n :
  (∀ x, registered_ (f x) = registered_ x) →
  (∀ x, participant_id_ (f x) = participant_id_ x) →
  same_directory n (set_session s f n).
Proof.
  intros Hr Hi. split; try done; intros s'.
  - by apply set_session_proj.
  - by apply set_session_proj.
  - apply known_set_session.
Qed.

Lemma same_closing s n : same_directory n (set_session s set_closing n).
Proof. by apply same_set_session. Qed.
Lemma same_lowest_closed s n : same_directory n (set_session s set_lowest_closed n).
Proof. by apply same_set_session. Qed.
Lemma same_push s m n : same_directory n (set_session s (queue_push m) n).
Proof. by apply same_set_session. Qed.
Lemma same_pop s m n : same_directory n (set_session s (queue_pop m) n).
Proof. by apply same_set_session. Qed.

(** *** Leaving the registry *)

(** What [RemoveFromRegistry] posts: for each room of the participant the event
    that he left it, to those registered afterwards. *)
Definition farewell s n rooms (l : list (SessionPtr * string)) : Prop :=
  if registered_ (session_at n s) then
    ∃ codes, codes ≡ₚ room_codes rooms ∧
      l = events_outbox (registry (unregister s n))
            (omap (disconnect_event (participant_id_ (session_at n s)) rooms) codes)
  else l = [].

Lemma farewell_closing s n rooms l :
  farewell s (set_session s set_closing n) rooms l ↔ farewell s n rooms l.
Proof.
  unfold farewell, unregister. rewrite !(set_session_proj registered_) by done.
  by rewrite !(set_session_proj participant_id_).
Qed.

(** The stored rooms after [RemoveFromRegistry]. *)
Definition drop_rooms s n rooms : gmap RoomCode Room :=
  if registered_ (session_at n s) then
    leave_all (participant_id_ (session_at n s)) rooms
  else rooms.

Lemma unregister_session s n s' :
  registered_ (session_at (unregister s n) s') =
    bool_decide (s ≠ s') && registered_ (session_at n s') ∧
  participant_id_ (session_at (unregister s n) s') = participant_id_ (session_at n s').
Proof.
  unfold unregister.
  change (registered_ (session_at (set_session s (set_registered false) n) s') =
    bool_decide (s ≠ s') && registered_ (session_at n s') ∧
    participant_id_ (session_at (set_session s (set_registered false) n) s') =
    participant_id_ (session_at n s')).
  split; [|by apply set_session_proj]. rewrite session_at_set.
  case_decide as Hs; [|by rewrite bool_decide_eq_true_2].
  rewrite bool_decide_eq_false_2 by naive_solver. by destruct (sessions n !! s).
Qed.

Lemma unregister_registered s n s' :
  registered_ (session_at (unregister s n) s') = true ↔
  s ≠ s' ∧ registered_ (session_at n s') = true.
Proof.
  destruct (unregister_session s n s') as [-> _].
  by rewrite andb_true_iff, bool_decide_eq_true.
Qed.

Lemma net_ok_unregister s n : net_ok n → net_ok (unregister s n).
Proof.
  intros [Hwf Hkn Hids Hdr Hent]. split; [by apply RegistryRemove_wf|..].
  - intros s'. rewrite <- Hkn. apply known_set_session.
  - intros s' Hs'. destruct (unregister_session s n s') as [_ ->]. by apply Hids.
  - done.
  - intros pid s' Hps. simpl in Hps. rewrite RegistryRemove_eq in Hps.
    apply lookup_delete_Some in Hps as [Hne Hps].
    destruct (Hent _ _ Hps) as [Hreg Hid].
    destruct (unregister_session s n s') as [_ ->].
    rewrite unregister_registered. split_and!; [|done..]. intros ->. congruence.
Qed.

Lemma directory_unregister strict s rooms n :
  registered_ (session_at n s) = true →
  directory_ok strict rooms n →
  directory_ok strict (leave_all (participant_id_ (session_at n s)) rooms) (unregister s n).
Proof.
  intros Hreg [Hs Hn Hc Hm]. split.
  - by apply service_inv_leave_all.
  - by apply net_ok_unregister.
  - intros Hu s'. rewrite unregister_registered. intros [Hne Hreg'].
    destruct (unregister_session s n s') as [_ ->]. simpl.
    rewrite RegistryRemove_eq, lookup_delete_ne; [by apply Hc|].
    pose proof (Hc Hu s Hreg) as Hs1. pose proof (Hc Hu s' Hreg') as Hs2. congruence.
  - intros Hst pid [Hpid Hne]%member_leave_all.
    destruct (Hm Hst pid Hpid) as (s' & Hreg' & Hid). exists s'.
    destruct (unregister_session s n s') as [_ ->].
    rewrite unregister_registered. split_and!; [congruence|done..].
Qed.

Lemma directory_drop strict s rooms n :
  directory_ok strict rooms n → directory_ok strict (drop_rooms s n rooms) (drop_session s n).
Proof.
  unfold drop_rooms, drop_session. destruct (registered_ _) eqn:Hreg; [|done].
  by apply directory_unregister.
Qed.

Lemma drop_same_registered s n n' :
  same_directory n n' → ∀ rooms, drop_rooms s n' rooms = drop_rooms s n rooms.
Proof. intros [] rooms. unfold drop_rooms. by rewrite sd_registered0, sd_id0. Qed.

Lemma directory_failed strict s l rooms n :
  directory_ok strict rooms n → directory_ok strict (drop_rooms s n rooms) (failed_net s l n).
Proof.
  intros Hd. unfold failed_net. eapply directory_same; [apply same_lowest_closed|].
  eapply directory_same; [apply same_send_all|].
  rewrite <- (drop_same_registered s n (set_session s set_closing n)) by apply same_closing.
  apply directory_drop. eapply directory_same; [apply same_closing|done].
Qed.

(** *** Entering the registry *)

(** What [OnWebSocketAccept] does before it reads. *)
Definition register s n : Net :=
  set_session s (set_registered true)
    (set_registry (RegistryAdd (λ p, participant_id_ (session_at n p)) (Some s)) n).

Lemma register_session s n s' :
  s < next_session n → net_ok n →
  registered_ (session_at (register s n) s') =
    bool_decide (s = s') || registered_ (session_at n s') ∧
  participant_id_ (session_at (register s n) s') = participant_id_ (session_at n s').
Proof.
  intros Hlt Hn. split.
  2: { unfold register.
       by rewrite (set_session_proj participant_id_ _ _ _ (set_registered true)). }
  unfold register. rewrite session_at_set. simpl.
  case_decide as Hs; [|by rewrite bool_decide_eq_false_2].
  rewrite bool_decide_eq_true_2 by done. apply (net_known _ Hn) in Hlt as [x ->]. done.
Qed.

Lemma format_participant_id_inj m m' :
  format_participant_id m = format_participant_id m' → m = m'.
Proof.
  intros Heq. apply (padded_inj 16 16); [done..|].
  unfold format_participant_id in Heq. by injection Heq.
Qed.

Lemma unique_ids_inj n s s' :
  unique_ids n → s < next_session n → s' < next_session n → id_draw s = id_draw s' → s = s'.
Proof.
  intros Hu Hs Hs' Heq. unfold unique_ids in Hu. rewrite NoDup_alt in Hu.
  apply (Hu s s' (id_draw s)); rewrite list_lookup_fmap, lookup_seq_lt by done; simpl; congruence.
Qed.

Lemma registered_known n s : net_ok n → registered_ (session_at n s) = true → s < next_session n.
Proof. intros Hn Hreg. by apply (net_known _ Hn), registered_exists. Qed.

Lemma net_ok_register s n : s < next_session n → net_ok n → net_ok (register s n).
Proof.
  intros Hlt Hn. pose proof Hn as [Hwf Hkn Hids Hdr Hent].
  split; [by apply RegistryAdd_wf|..].
  - intros s'. rewrite <- Hkn. unfold register. by rewrite known_set_session.
  - intros s' Hs'. destruct (register_session s n s' Hlt Hn) as [_ ->]. by apply Hids.
  - done.
  - intros pid s' Hps. destruct (register_session s n s' Hlt Hn) as [-> ->].
    unfold register, set_registry, set_session in Hps. cbn [registry] in Hps.
    rewrite RegistryAdd_eq in Hps by done.
    apply lookup_insert_Some in Hps as [[<- ->]|[Hne Hps]].
    + by rewrite bool_decide_eq_true_2.
    + destruct (Hent _ _ Hps) as [-> Hid]. by rewrite orb_true_r.
Qed.

Lemma directory_register strict s rooms n :
  s < next_session n → directory_ok strict rooms n → directory_ok strict rooms (register s n).
Proof.
  intros Hlt [Hs Hn Hc Hm]. split; [done|by apply net_ok_register|..].
  - intros Hu s'. destruct (register_session s n s' Hlt Hn) as [-> ->]. intros Hreg.
    unfold register, set_registry, set_session. cbn [registry].
    rewrite RegistryAdd_eq by apply Hn.
    destruct (decide (s = s')) as [->|Hne]; [by rewrite lookup_insert_eq|].
    rewrite bool_decide_eq_false_2 in Hreg by done. simpl in Hreg.
    rewrite lookup_insert_ne; [by apply Hc|].
    pose proof (registered_known _ _ Hn Hreg) as Hlt'.
    rewrite !(net_ids _ Hn) by done. intros Heq%format_participant_id_inj.
    apply Hne. exact (unique_ids_inj n s s' Hu Hlt Hlt' Heq).
  - intros Hst pid Hpid. destruct (Hm Hst pid Hpid) as (s' & Hreg & Hid). exists s'.
    destruct (register_session s n s' Hlt Hn) as [-> ->]. by rewrite Hreg, orb_true_r.
Qed.

(** *** A new session object *)

Definition allocated (tls : bool) n : Net :=
  MkNet (registry n)
    (<[next_session n := MkSession (format_participant_id (id_draw (id_generator n))) tls
                           false false [] false [] []]> (sessions n))
    (S (next_session n)) (S (id_generator n)) (pending n) (acceptor_open n).

Lemma allocated_session tls n s :
  s ≠ next_session n → session_at (allocated tls n) s = session_at n s.
Proof. intros Hne. unfold session_at. simpl. by rewrite lookup_insert_ne. Qed.

Lemma allocated_registered tls n s :
  registered_ (session_at (allocated tls n) s) = true → registered_ (session_at n s) = true.
Proof.
  destruct (decide (s = next_session n)) as [->|Hne]; [|by rewrite allocated_session].
  unfold session_at. simpl. by rewrite lookup_insert_eq.
Qed.

Lemma registered_allocated tls n s :
  net_ok n → registered_ (session_at n s) = true →
  session_at (allocated tls n) s = session_at n s.
Proof.
  intros Hn Hreg. pose proof (registered_known _ _ Hn Hreg). apply allocated_session. lia.
Qed.

Lemma directory_allocated strict tls rooms n :
  directory_ok strict rooms n → directory_ok strict rooms (allocated tls n).
Proof.
  intros [Hs Hn Hc Hm]. pose proof Hn as [Hwf Hkn Hids Hdr Hent]. split; [done|split|..].
  - done.
  - intros s. simpl. rewrite lookup_insert_is_Some, Hkn. lia.
  - intros s Hlt. simpl in Hlt. destruct (decide (s = next_session n)) as [->|Hne].
    + unfold session_at. simpl. rewrite lookup_insert_eq. simpl. by rewrite Hdr.
    + rewrite allocated_session by done. apply Hids. lia.
  - simpl. lia.
  - intros pid s [Hreg Hid]%Hent. by rewrite registered_allocated.
  - intros Hu s Hreg%allocated_registered. rewrite registered_allocated by done.
    apply Hc; [|done].
    unfold unique_ids in Hu. simpl next_session in Hu.
    rewrite seq_S, fmap_app in Hu. by apply NoDup_app in Hu as [Hu _].
  - intros Hst pid Hpid. destruct (Hm Hst pid Hpid) as (s & Hreg & Hid). exists s.
    by rewrite registered_allocated.
Qed.
End directory.

(** ** Runs that return *)

Section settles.
Context {R : Type} `{LawfulRepository R}.
Implicit Types (P Q : gmap RoomCode Room → Net → Prop).

(** The run returned normally, in a state whose rooms and network satisfy [P]. *)
Definition settles (result : outcome exception unit * ((R * nat) * Net)) P : Prop :=
  ∃ r g n rooms, result = (Ret tt, ((r, g), n)) ∧ repo_rel r rooms ∧ P rooms n.

Lemma settles_ret r g n rooms P :
  repo_rel r rooms → P rooms n → settles (Ret tt, ((r, g), n)) P.
Proof. intros. by exists r, g, n, rooms. Qed.

Lemma settles_bind (m : prog exception ((R * nat) * Net) unit) k st P Q :
  settles (m st) P →
  (∀ r g n rooms, repo_rel r rooms → P rooms n → settles (k tt ((r, g), n)) Q) →
  settles (pbind m k st) Q.
Proof.
  intros (r & g & n & rooms & Hm & Hr & HP) Hk. unfold pbind. rewrite Hm. eauto.
Qed.

Lemma settles_impl result P Q :
  settles result P → (∀ rooms n, P rooms n → Q rooms n) → settles result Q.
Proof. intros (r & g & n & rooms & -> & Hr & HP) HPQ. apply settles_ret with rooms; auto. Qed.
End settles.

(** ** The handlers *)

Section handlers.
Context `{BucketOrder, JsonLaws, CodeDraws, IdDraws} {R : Type} `{LawfulRepository R}.
Context (strict : bool).
Implicit Types (n : Net) (s : SessionPtr) (rooms : gmap RoomCode Room).

Lemma RemoveFromRegistry_settles s r g rooms n :
  repo_rel r rooms → service_inv rooms → net_ok n →
  settles (RemoveFromRegistry s ((r, g), n)) (λ rooms' n', ∃ l, farewell s n rooms l ∧
    rooms' = drop_rooms s n rooms ∧ n' = send_all l (drop_session s n)).
Proof.
  intros Hr Hs Hn. unfold drop_rooms, drop_session, farewell.
  destruct (registered_ (session_at n s)) eqn:Hreg.
  - destruct (RemoveFromRegistry_run s r rooms g n Hreg (session_at_id n s Hn) Hr
      (inv_texts _ Hs)) as (codes & r' & Hcodes & Hr' & ->).
    apply settles_ret with (leave_all (participant_id_ (session_at n s)) rooms); [done|].
    eexists. split_and!; [|done..]. by exists codes.
  - rewrite RemoveFromRegistry_idle by done. apply settles_ret with rooms; [done|].
    exists []. by rewrite send_all_nil.
Qed.

Lemma Fail_settles s r g rooms n :
  repo_rel r rooms → service_inv rooms → net_ok n →
  settles (Fail s ((r, g), n)) (λ rooms' n', ∃ l, farewell s n rooms l ∧
    rooms' = drop_rooms s n rooms ∧ n' = failed_net s l n).
Proof.
  intros Hr Hs Hn. unfold Fail. unfold pbind at 1. simpl.
  eapply settles_bind.
  { apply RemoveFromRegistry_settles; [done..|].
    exact (net_ok_same n _ (same_closing s n) Hn). }
  intros r' g' n' rooms' Hr' (l & Hl & -> & ->).
  apply settles_ret with (drop_rooms s (set_session s set_closing n) rooms); [done|].
  exists l. split_and!; [exact (proj1 (farewell_closing _ _ _ _) Hl)| |done].
  apply drop_same_registered, same_closing.
Qed.

Lemma HandleMessage_settles s message r g rooms n :
  repo_rel r rooms → service_inv rooms → net_ok n →
  settles (HandleMessage s message ((r, g), n)) (λ rooms' n',
    (∃ l, n' = send_all l n) ∧ service_inv rooms' ∧
    ∀ pid, member rooms' pid → member rooms pid ∨ pid = participant_id_ (session_at n s)).
Proof.
  intros Hr Hs Hn. pose proof (session_at_id n s Hn) as Hpid.
  destruct (DecodeRequest (participant_id_ (session_at n s)) message) as [req|e] eqn:Hdec.
  - destruct (HandleMessage_run s message req r rooms g n Hpid Hdec Hr (inv_texts _ Hs))
      as (r' & Hr' & ->).
    eapply settles_ret; [exact Hr'|]. destruct (decode_ok _ _ _ Hpid Hdec) as (_ & Hm & Hc).
    split_and!; [by eexists|by apply service_inv_dispatch|].
    intros pid Hmem%member_dispatch. by rewrite (decode_speaker _ _ _ Hdec) in Hmem.
  - rewrite (HandleMessage_error_run s message e) by done.
    apply settles_ret with rooms; [done|]. split_and!; [by eexists|done|by left].
Qed.

(** Handling a message of a registered session keeps the members connected. *)
Lemma directory_message s rooms rooms' l n :
  directory_ok strict rooms n → service_inv rooms' →
  (∀ pid, member rooms' pid → member rooms pid ∨ pid = participant_id_ (session_at n s)) →
  (strict = true → registered_ (session_at n s) = true) →
  directory_ok strict rooms' (send_all l n).
Proof.
  intros [Hs Hn Hc Hm] Hs' Hmem Hreg.
  apply directory_same with n; [apply same_send_all|]. split; [done..|].
  intros Hst pid [Hpid| ->]%Hmem; [by apply Hm|]. exists s. auto.
Qed.
End handlers.
