(* ===== verification/SystemSafety.v ===== *)
(** * SystemSafety: the invariant of the reachable worlds

    Each handler, started in a reachable state by the completion of its
    operation, settles in a state that satisfies the invariant again. *)

From S2P Require Import Prelude Text UnorderedMap Room RoomRepository RoomService.
From S2P Require Import RoomServiceSpec Json ControlDispatcher ControlDispatcherSpec.
From S2P Require Import ProtocolCodec ProtocolCodecSpec SessionRegistry Session SessionSpec.
From S2P Require Import Server System SystemInv SystemRun.

(** ** The queue of a session *)

Section queue.
Context `{BucketOrder, JsonLaws, CodeDraws, IdDraws}.
Implicit Types (n : Net) (s : SessionPtr).

Lemma set_session_unknown s f n : sessions n !! s = None → set_session s f n = n.
Proof.
  intros Hs. destruct n. unfold set_session. simpl in *. f_equal. apply map_eq. intros s'.
  destruct (decide (s = s')) as [->|Hne]; [|by rewrite lookup_alter_ne].
  by rewrite lookup_alter_eq, Hs.
Qed.

Lemma set_session_known s f n :
  is_Some (sessions n !! s) → session_at (set_session s f n) s = f (session_at n s).
Proof.
  intros [x Hx]. rewrite session_at_set, decide_True by done. unfold session_at. by rewrite Hx.
Qed.

(** Changes of one session's queue: the others keep their invariant. *)
Lemma write_ok_other s s' f n :
  s ≠ s' → write_ok s' n → write_ok s' (set_session s f n).
Proof. intros Hne [Hh Hi Hp]. by split; rewrite session_at_set_ne. Qed.

Lemma stage_ok_set s s' f n :
  (∀ x, registered_ (f x) = registered_ x) → stage_ok s' n → stage_ok s' (set_session s f n).
Proof.
  intros Hf [H1' Hr]. split; [done|]. by rewrite (set_session_proj registered_).
Qed.

Lemma fresh_ok_set s f n : fresh_ok n → fresh_ok (set_session s f n).
Proof.
  intros Hf s' Hs'. destruct (Hf s' Hs') as (Hnone & Hst & Hin). split_and!; [|done..].
  simpl. destruct (decide (s = s')) as [->|Hne].
  - by rewrite lookup_alter_eq, Hnone.
  - by rewrite lookup_alter_ne.
Qed.

(** The state after the queue of [s] changed and before [DoWrite]: all
    invariants hold but the progress of [s]. *)
Record queue_changed s n : Prop := {
  qc_write s' : s ≠ s' → write_ok s' n;
  qc_stage s' : stage_ok s' n;
  qc_history : pushed_ (session_at n s) =
               written_ (session_at n s) ++ write_queue_ (session_at n s);
  qc_fresh : fresh_ok n;
  qc_known : s < next_session n
}.

Lemma io_ok_writing s m n :
  queue_changed s n → inflight s (pending n) = [] →
  (∃ q, write_queue_ (session_at n s) = m :: q) →
  io_ok (enqueue (WebSocketWrite s m) n).
Proof.
  intros [Hw Hs Hh Hf Hk] Hnone [q Hq].
  assert (Hin : ∀ s', inflight s' (pending (enqueue (WebSocketWrite s m) n)) =
    inflight s' (pending n) ++ if decide (s = s') then [m] else []).
  { intros s'. simpl. rewrite inflight_app. f_equal. unfold inflight. simpl.
    by case_decide. }
  assert (Hst : ∀ s', stage s' (pending (enqueue (WebSocketWrite s m) n)) =
    stage s' (pending n)).
  { intros s'. simpl. rewrite stage_app. apply app_nil_r. }
  split.
  - intros s'. destruct (decide (s = s')) as [<-|Hne].
    + split; [done|..]; rewrite Hin, Hnone, decide_True by done; [|done].
      right. by exists m, q.
    + destruct (Hw s' Hne) as [Hh' Hi' Hp'].
      by split; rewrite ?Hin, ?decide_False, ?app_nil_r by done.
  - intros s'. destruct (Hs s') as [H1' Hr]. by split; rewrite Hst.
  - intros s' Hs'. destruct (Hf s' Hs') as (Hnone' & Hst' & Hin').
    rewrite Hin, Hst, decide_False, app_nil_r; [done|]. intros ->. simpl in Hs'. lia.
Qed.

(** [DoWrite] on a changed queue that has no write outstanding. *)
Definition do_write s n : Net :=
  match write_queue_ (session_at n s) with
  | [] => n
  | front :: _ => if closing_ (session_at n s) then n else enqueue (WebSocketWrite s front) n
  end.

Lemma io_ok_do_write s n :
  queue_changed s n → inflight s (pending n) = [] → io_ok (do_write s n).
Proof.
  intros Hc Hnone. unfold do_write.
  destruct (write_queue_ (session_at n s)) as [|front q] eqn:Hq;
    [|destruct (closing_ (session_at n s)) eqn:Hcl; [|apply io_ok_writing; eauto]];
    destruct Hc as [Hw Hs Hh Hf Hk];
    (split; [|done..]); intros s'; (destruct (decide (s = s')) as [<-|Hne]; [|by apply Hw]);
    (split; [done|by left|]); congruence.
Qed.

(** The queue is pushed. *)
Definition pushed s m n : Net :=
  let n' := set_session s (queue_push m) n in
  match write_queue_ (session_at n s) with [] => do_write s n' | _ :: _ => n' end.

Lemma queue_changed_push s m n :
  io_ok n → is_Some (sessions n !! s) → queue_changed s (set_session s (queue_push m) n).
Proof.
  intros [Hw Hs Hf] Hk. split.
  - intros s' Hne. by apply write_ok_other.
  - intros s'. by apply stage_ok_set.
  - rewrite set_session_known by done. simpl. by rewrite (wr_history _ _ (Hw s)), app_assoc.
  - by apply fresh_ok_set.
  - simpl. destruct (decide (s < next_session n)) as [|Hge]; [done|].
    destruct (Hf s ltac:(lia)) as [Hnone _]. destruct Hk as [? ?]. congruence.
Qed.

Lemma io_ok_push s m n : io_ok n → io_ok (pushed s m n).
Proof.
  intros Hio. unfold pushed. destruct (sessions n !! s) as [x|] eqn:Hx.
  2: { rewrite set_session_unknown by done. unfold do_write.
       by rewrite session_at_unknown by done. }
  assert (Hk : is_Some (sessions n !! s)) by by eexists.
  pose proof (queue_changed_push s m n Hio Hk) as Hc.
  destruct (io_write _ Hio s) as [Hh Hi Hp].
  destruct (write_queue_ (session_at n s)) as [|front q] eqn:Hq.
  - apply io_ok_do_write; [done|]. destruct Hi as [|(? & ? & _ & [=])]; done.
  - destruct Hc as [Hw Hs Hh' Hf _]. split; [|done..]. intros s'.
    destruct (decide (s = s')) as [<-|Hne]; [|by apply Hw]. split; [done|..].
    + destruct Hi as [|(m' & q' & Hi & [= <- <-])]; [by left|].
      right. exists front, (q ++ [m]). split; [done|]. rewrite set_session_known by done.
      simpl. by rewrite Hq.
    + intros _. rewrite set_session_known by done. intros Hcl. by apply Hp.
Qed.

(** The front of the queue is popped. *)
Definition popped s m n : Net := do_write s (set_session s (queue_pop m) n).

Lemma io_ok_pop s m n : write_taken s m n → io_ok (popped s m n).
Proof.
  intros [Hw Hs Hn (q & Hq) Hh Hf].
  assert (Hk : is_Some (sessions n !! s)).
  { destruct (sessions n !! s) eqn:Hx; [by eexists|].
    by rewrite (session_at_unknown n s Hx) in Hq. }
  apply io_ok_do_write; [|done]. split.
  - intros s' Hne. by apply write_ok_other; auto.
  - intros s'. by apply stage_ok_set.
  - rewrite set_session_known by done. simpl. rewrite Hh, Hq. simpl. by rewrite <- app_assoc.
  - by apply fresh_ok_set.
  - simpl. destruct (decide (s < next_session n)) as [|Hge]; [done|].
    destruct (Hf s ltac:(lia)) as [Hnone _]. destruct Hk as [? ?]. congruence.
Qed.

(** A failed write closes the session. *)
Lemma io_ok_write_failed s m l n : write_taken s m n → io_ok (failed_net s l n).
Proof.
  intros [Hw Hs Hn (q & Hq) Hh Hf]. pose proof (quiet_failed s l n) as Hqu.
  assert (Hk : is_Some (sessions n !! s)).
  { destruct (sessions n !! s) eqn:Hx; [by eexists|].
    by rewrite (session_at_unknown n s Hx) in Hq. }
  split; [|intros s'; by eapply stage_ok_quiet|by eapply fresh_ok_quiet].
  intros s'. destruct (decide (s' = s)) as [->|Hne]; [|by eapply write_ok_quiet; eauto].
  pose proof (qu_core _ _ Hqu s) as Hcore. injection Hcore as H1' H2' H3'.
  split.
  - by rewrite H1', H2', H3'.
  - left. by rewrite (qu_inflight _ _ Hqu).
  - by rewrite failed_closing.
Qed.

Lemma same_do_write s n : same_directory n (do_write s n).
Proof.
  unfold do_write. destruct (write_queue_ _); [done|].
  destruct (closing_ _); [done|apply same_enqueue].
Qed.

Lemma same_pushed s m n : same_directory n (pushed s m n).
Proof.
  unfold pushed. destruct (write_queue_ _); [|apply same_push].
  etrans; [apply (same_push s m)|apply same_do_write].
Qed.

Lemma same_popped s m n : same_directory n (popped s m n).
Proof. unfold popped. etrans; [apply (same_pop s m)|apply same_do_write]. Qed.
End queue.

(** ** Accepting connections *)

Section accepting.
Context `{BucketOrder, JsonLaws, CodeDraws, IdDraws}.
Implicit Types (n : Net) (s : SessionPtr).

Lemma stage_taken_register s n : stage_taken s n → stage_taken s (register s n).
Proof.
  intros [Hw Hs Hn Hf Hk]. unfold register. split; [|..|done|by apply fresh_ok_set|done].
  - intros s'. destruct (Hw s') as [Hh Hi Hp].
    split; rewrite ?(set_session_proj pushed_), ?(set_session_proj written_),
      ?(set_session_proj write_queue_), ?(set_session_proj closing_) by done; done.
  - intros s' Hne. destruct (Hs s' Hne) as [H1' Hr].
    split; [done|]. by rewrite session_at_set_ne.
Qed.

Lemma io_ok_allocated tls n : io_ok n → stage_taken (next_session n) (allocated tls n).
Proof.
  intros [Hw Hs Hf]. destruct (Hf (next_session n) ltac:(lia)) as (Hnone & Hst & Hin).
  split.
  - intros s'. destruct (decide (s' = next_session n)) as [->|Hne].
    + unfold allocated. split; unfold session_at; simpl; rewrite ?lookup_insert_eq; simpl;
        [done|by left|done].
    + destruct (Hw s') as [Hh Hi Hp]. split; by rewrite allocated_session.
  - intros s' Hne. destruct (Hs s') as [H1' Hr]. split; [done|]. by rewrite allocated_session.
  - done.
  - intros s' Hs'. simpl in Hs'. destruct (Hf s' ltac:(lia)) as (Hnone' & Hst' & Hin').
    split_and!; [|done..]. simpl. rewrite lookup_insert_ne by lia. done.
  - simpl. lia.
Qed.

Lemma quiet_enqueue c n : inert c = true → quiet n (enqueue c n).
Proof. intros Hc. apply (quiet_enqueue_all [c]). by apply Forall_singleton. Qed.
End accepting.

(** ** Every event *)

Section events.
Context `{BucketOrder, JsonLaws, CodeDraws, IdDraws} {R : Type} `{LawfulRepository R}.
Context (tls strict : bool).
Implicit Types (n : Net) (s : SessionPtr) (rooms : gmap RoomCode Room).

(** What holds of the stored rooms and the network between two events. *)
Record world_inv rooms n : Prop := {
  wi_directory : directory_ok strict rooms n;
  wi_io : io_ok n
}.

Lemma failed_settles s r g rooms n :
  repo_rel r rooms → directory_ok strict rooms n →
  (∀ l, io_ok (failed_net s l n)) →
  settles (Fail s ((r, g), n)) world_inv.
Proof.
  intros Hr Hd Hio. eapply settles_impl; [apply Fail_settles; [done|apply Hd..]|].
  intros rooms' n' (l & _ & -> & ->). split; [by apply directory_failed|apply Hio].
Qed.

Lemma stage_failed_settles s r g rooms n :
  repo_rel r rooms → directory_ok strict rooms n → stage_taken s n →
  settles (Fail s ((r, g), n)) world_inv.
Proof.
  intros Hr Hd Hst. eapply failed_settles; [done..|]. intros l.
  apply stage_taken_idle with s; [|apply failed_unregistered].
  eapply stage_taken_quiet; [apply quiet_failed|done].
Qed.

Lemma next_stage s c rooms n :
  directory_ok strict rooms n → stage_taken s n → stage_of s c = true →
  (registered_ (session_at n s) = true → c = WebSocketRead s) →
  world_inv rooms (enqueue c n).
Proof.
  intros Hd Hst Hc Hreg. split; [|by eapply stage_taken_next].
  eapply directory_same; [apply same_enqueue|done].
Qed.

Lemma ReadNext_settles s r g rooms n :
  repo_rel r rooms → directory_ok strict rooms n → stage_taken s n →
  settles (ReadNext s ((r, g), n)) world_inv.
Proof.
  intros. apply settles_ret with rooms; [done|]. apply next_stage with s; try done.
  by apply bool_decide_eq_true.
Qed.

Lemma AcceptWebSocket_settles s r g rooms n :
  repo_rel r rooms → directory_ok strict rooms n → stage_taken s n →
  registered_ (session_at n s) = false →
  settles (AcceptWebSocket s ((r, g), n)) world_inv.
Proof.
  intros Hr Hd Hst Hreg. apply settles_ret with rooms; [done|]. apply next_stage with s.
  - done.
  - done.
  - by apply bool_decide_eq_true.
  - by rewrite Hreg.
Qed.

Lemma OnTlsHandshake_settles s error r g rooms n :
  repo_rel r rooms → directory_ok strict rooms n → stage_taken s n →
  registered_ (session_at n s) = false →
  settles (OnTlsHandshake s error ((r, g), n)) world_inv.
Proof.
  intros. destruct error; [by eapply stage_failed_settles|by eapply AcceptWebSocket_settles].
Qed.

Lemma OnWebSocketAccept_settles s error r g rooms n :
  repo_rel r rooms → directory_ok strict rooms n → stage_taken s n →
  settles (OnWebSocketAccept s error ((r, g), n)) world_inv.
Proof.
  intros Hr Hd Hst. destruct error; [by eapply stage_failed_settles|].
  unfold OnWebSocketAccept. do 2 (unfold pbind at 1; simpl). fold (register s n).
  apply ReadNext_settles with rooms; [done|..].
  - apply directory_register; [apply Hst|done].
  - by apply stage_taken_register.
Qed.

Lemma OnRead_settles s result r g rooms n :
  repo_rel r rooms → directory_ok strict rooms n → stage_taken s n →
  (strict = true → ∀ m, result = ReadMessage m true → registered_ (session_at n s) = true) →
  settles (OnRead s result ((r, g), n)) world_inv.
Proof.
  intros Hr Hd Hst Hlate. pose proof Hd as [Hs Hn Hc Hm].
  destruct result as [| |message got_text].
  - eapply settles_impl; [by apply RemoveFromRegistry_settles|].
    intros rooms' n' (l & _ & -> & ->).
    assert (Hq : quiet n (send_all l (drop_session s n))).
    { etrans; [apply (quiet_drop s)|apply quiet_send_all]. }
    split.
    + eapply directory_same; [apply same_send_all|]. by apply directory_drop.
    + apply stage_taken_idle with s; [by eapply stage_taken_quiet|].
      apply (drop_unregistered s n).
  - by eapply stage_failed_settles.
  - destruct got_text; simpl.
    + eapply settles_bind; [by apply HandleMessage_settles|].
      intros r' g' n' rooms' Hr' ([l ->] & Hs' & Hmem).
      apply ReadNext_settles with rooms'; [done|..].
      * eapply directory_message; [done..|]. intros Hst'. exact (Hlate Hst' message eq_refl).
      * eapply stage_taken_quiet; [apply quiet_send_all|done].
    + destruct (EncodeProtocolError_Ret None "invalid_message" None) as [t Ht]; [done..|].
      unfold pbind at 1. unfold plift, InvalidMessageError. rewrite Ht.
      unfold pbind at 1. rewrite Send_run. apply ReadNext_settles with rooms; [done|..].
      * eapply directory_same; [apply same_send_all|done].
      * eapply stage_taken_quiet; [apply quiet_send_all|done].
Qed.

Lemma OnWrite_run s m (v : R * nat) n :
  OnWrite s m false (v, n) = (Ret tt, (v, popped s m n)).
Proof.
  unfold OnWrite, popped, do_write, DoWrite. prun.
  destruct (write_queue_ _) eqn:Hq; prun; [done|]. rewrite Hq. by destruct (closing_ _).
Qed.

Lemma OnPostedSend_run s m (v : R * nat) n :
  OnPostedSend s m (v, n) = (Ret tt, (v, pushed s m n)).
Proof.
  unfold OnPostedSend, pushed, do_write, DoWrite. prun.
  destruct (write_queue_ (session_at n s)); prun; [|done].
  destruct (write_queue_ _); prun; [done|]. by destruct (closing_ _).
Qed.

Lemma OnWrite_settles s m error r g rooms n :
  repo_rel r rooms → directory_ok strict rooms n → write_taken s m n →
  settles (OnWrite s m error ((r, g), n)) world_inv.
Proof.
  intros Hr Hd Hw. destruct error; simpl.
  { eapply failed_settles; [done..|]. intros l. by eapply io_ok_write_failed. }
  pose proof (OnWrite_run s m (r, g) n) as Hrun. simpl in Hrun. rewrite Hrun.
  apply settles_ret with rooms; [done|].
  split; [|by apply io_ok_pop]. eapply directory_same; [apply same_popped|done].
Qed.

Lemma OnPostedSend_settles s m r g rooms n :
  repo_rel r rooms → directory_ok strict rooms n → io_ok n →
  settles (OnPostedSend s m ((r, g), n)) world_inv.
Proof.
  intros Hr Hd Hio.
  rewrite OnPostedSend_run. apply settles_ret with rooms; [done|].
  split; [|by apply io_ok_push]. eapply directory_same; [apply same_pushed|done].
Qed.

Lemma OnPostedClose_settles s is_open r g rooms n :
  repo_rel r rooms → directory_ok strict rooms n → io_ok n →
  settles (OnPostedClose s is_open ((r, g), n)) world_inv.
Proof.
  intros Hr Hd Hio. unfold OnPostedClose. unfold pbind at 1. simpl.
  destruct (closing_ _); [by apply settles_ret with rooms|].
  unfold pbind at 1. simpl. set (n1 := set_session s set_closing n).
  assert (Hd1 : directory_ok strict rooms n1).
  { eapply directory_same; [apply same_closing|done]. }
  eapply settles_bind; [apply RemoveFromRegistry_settles; [done|apply Hd1..]|].
  intros r' g' n' rooms' Hr' (l & _ & -> & ->).
  assert (Hd2 : directory_ok strict (drop_rooms s n1 rooms) (send_all l (drop_session s n1))).
  { eapply directory_same; [apply same_send_all|]. by apply directory_drop. }
  assert (Hq : quiet n (send_all l (drop_session s n1))).
  { etrans; [apply (quiet_set_session set_closing _ s), flags_closing|].
    etrans; [apply (quiet_drop s)|apply quiet_send_all]. }
  destruct is_open; (eapply settles_ret; [done|]); split.
  - eapply directory_same; [apply same_enqueue|done].
  - eapply io_ok_quiet; [|done]. etrans; [done|by apply quiet_enqueue].
  - eapply directory_same; [apply same_lowest_closed|done].
  - eapply io_ok_quiet; [|done]. etrans; [done|]. apply quiet_set_session, flags_lowest_closed.
Qed.

Lemma OnAccept_settles error r g rooms n :
  repo_rel r rooms → directory_ok strict rooms n → io_ok n →
  settles (OnAccept tls error ((r, g), n)) world_inv.
Proof.
  intros Hr Hd Hio.
  assert (Hq : ∀ n', io_ok n' → io_ok (enqueue TcpAccept n')).
  { intros n'. by apply io_ok_quiet, quiet_enqueue. }
  unfold OnAccept. unfold pbind at 1. simpl. destruct (acceptor_open n); simpl.
  2: by apply settles_ret with rooms.
  destruct error.
  { apply settles_ret with rooms; [done|]. split; [|auto].
    eapply directory_same; [apply same_enqueue|done]. }
  unfold pbind at 1. simpl. fold (allocated tls n).
  eapply (settles_bind _ _ _ world_inv).
  2: { intros r' g' n' rooms' Hr' [Hd' Hio']. apply settles_ret with rooms'; [done|].
       split; [|auto]. eapply directory_same; [apply same_enqueue|done]. }
  assert (Hreg : registered_ (session_at (allocated tls n) (next_session n)) = false).
  { unfold session_at. simpl. by rewrite lookup_insert_eq. }
  assert (Hd' : directory_ok strict rooms (allocated tls n)) by by apply directory_allocated.
  pose proof (io_ok_allocated tls n Hio) as Hst.
  unfold Start. unfold pbind at 1. simpl.
  destruct (tls_ _); [|by apply AcceptWebSocket_settles with rooms].
  apply settles_ret with rooms; [done|]. apply next_stage with (next_session n); try done.
  - by apply bool_decide_eq_true.
  - by rewrite Hreg.
Qed.

Lemma same_start ev n n0 : start_event ev n = Some n0 → same_directory n n0.
Proof.
  intros (Hr & Hs & Hn & Hg)%start_event_same.
  assert (Hat : ∀ s, session_at n0 s = session_at n s).
  { intros s. unfold session_at. by rewrite Hs. }
  by split; intros; rewrite ?Hat, ?Hs.
Qed.

Lemma directory_start ev n n0 rooms :
  start_event ev n = Some n0 → directory_ok strict rooms n → directory_ok strict rooms n0.
Proof. intros Hst. apply directory_same. by eapply same_start. Qed.

Lemma handle_settles ev r g rooms n n0 :
  repo_rel r rooms → world_inv rooms n → start_event ev n = Some n0 →
  (strict = true → ¬ late_read ev (Running (r, g) n)) →
  settles (handle tls ev ((r, g), n0)) world_inv.
Proof.
  intros Hr [Hd Hio] Hst Hlate. pose proof (directory_start _ _ _ _ Hst Hd) as Hd0.
  assert (Hstage : ∀ s c, completion_of ev = Some c → stage_of s c = true →
    stage_taken s n0 ∧ (registered_ (session_at n0 s) = true → c = WebSocketRead s)).
  { intros s c Hc Hof. unfold start_event in Hst. rewrite Hc in Hst.
    apply fmap_Some in Hst as (l & Hl & ->). exact (start_stage s c n l Hio Hl Hof). }
  assert (Hinert : ∀ c, completion_of ev = Some c → inert c = true → io_ok n0).
  { intros c Hc Hin. unfold start_event in Hst. rewrite Hc in Hst.
    apply fmap_Some in Hst as (l & Hl & ->). by eapply start_inert. }
  destruct ev as [error|s error|s error|s result|s m error|s|s m|s is_open|s|]; simpl handle.
  - apply OnAccept_settles with rooms; eauto.
  - destruct (Hstage s _ eq_refl) as [Htk Hreg]; [by apply bool_decide_eq_true|].
    apply OnTlsHandshake_settles with rooms; [done..|].
    apply not_true_iff_false. by intros ?%Hreg.
  - destruct (Hstage s _ eq_refl) as [Htk Hreg]; [by apply bool_decide_eq_true|].
    by apply OnWebSocketAccept_settles with rooms.
  - destruct (Hstage s _ eq_refl) as [Htk Hreg]; [by apply bool_decide_eq_true|].
    apply OnRead_settles with rooms; [done..|]. intros Hstr m ->.
    specialize (Hlate Hstr). simpl in Hlate. apply not_false_iff_true in Hlate.
    apply start_event_same in Hst as (_ & Hs & _). unfold session_at in *. by rewrite Hs.
  - apply OnWrite_settles with rooms; [done..|]. unfold start_event in Hst. simpl in Hst.
    apply fmap_Some in Hst as (l & Hl & ->). by apply start_write.
  - apply settles_ret with rooms; [done|]. split; eauto.
  - apply OnPostedSend_settles with rooms; eauto.
  - apply OnPostedClose_settles with rooms; eauto.
  - unfold start_event in Hst. simpl in Hst. case_decide; [|done]. injection Hst as <-.
    apply settles_ret with rooms; [done|]. split.
    + eapply directory_same; [apply same_enqueue|done].
    + eapply io_ok_quiet; [by apply quiet_enqueue|done].
  - unfold start_event in Hst. simpl in Hst. injection Hst as <-.
    apply settles_ret with rooms; [done|]. split.
    + by apply directory_same with n.
    + by apply io_ok_quiet with n.
Qed.

Lemma start_world_inv : world_inv ∅ (enqueue TcpAccept empty_net).
Proof.
  assert (Hnone : ∀ s, session_at (enqueue TcpAccept empty_net) s = blank_session).
  { intros s. apply session_at_unknown. apply lookup_empty. }
  split; split.
  - apply service_inv_empty.
  - split; [apply um_wf_empty|..].
    + intros s. simpl. rewrite lookup_empty. split; [by intros []|lia].
    + intros s Hs. simpl in Hs. lia.
    + done.
    + intros pid s Hps. simpl in Hps. unfold NewRegistry in Hps.
      by rewrite to_gmap_empty, lookup_empty in Hps.
  - intros _ s. by rewrite Hnone.
  - intros _ pid (code & room & Hroom & _). by rewrite lookup_empty in Hroom.
  - intros s. split; rewrite ?Hnone; [done|by left|done].
  - intros s. split; rewrite ?Hnone; simpl; [lia|done].
  - intros s _. done.
Qed.

(** A world that runs and satisfies the invariant. *)
Definition world_ok (w : world) : Prop :=
  match w with
  | Running (r, _) n => ∃ rooms, repo_rel r rooms ∧ world_inv rooms n
  | Crashed _ => False
  end.

Lemma step_ok w ev w' :
  step tls w ev w' → (strict = true → ¬ late_read ev w) → world_ok w → world_ok w'.
Proof.
  intros [Hrun] Hlate Hok. destruct w as [[r g] n|e]; [|done].
  destruct Hok as (rooms & Hr & Hinv). simpl in Hrun.
  apply bind_Some in Hrun as (n0 & Hst & [= <-]).
  destruct (handle_settles ev r g rooms n n0 Hr Hinv Hst Hlate)
    as (r' & g' & n' & rooms' & -> & Hr' & Hinv').
  simpl. eauto.
Qed.

Lemma reachable_ok r w :
  repo_rel r ∅ → reachable tls strict r w → world_ok w.
Proof.
  intros Hr. induction 1 as [|w ev w' _ IH Hstep Hlate].
  - exists ∅. split; [done|apply start_world_inv].
  - by eapply step_ok.
Qed.

(** *** Draining a queue *)

Lemma session_at_do_write s n s' : session_at (do_write s n) s' = session_at n s'.
Proof.
  unfold do_write. destruct (write_queue_ (session_at n s)); [done|].
  by destruct (closing_ (session_at n s)).
Qed.

Lemma inflight_elem s m l : m ∈ inflight s l → WebSocketWrite s m ∈ l.
Proof.
  unfold inflight. rewrite list_elem_of_omap. intros (c & Hc & Hm).
  destruct c; try done. case_decide; [|done]. by simplify_eq.
Qed.

Lemma take_out_Some c l : c ∈ l → is_Some (take_out c l).
Proof.
  induction l as [|c' l IH]; simpl; [by intros ?%not_elem_of_nil|].
  intros [->|Hc]%elem_of_cons; [by rewrite decide_True|].
  case_decide; [done|]. apply fmap_is_Some. by apply IH.
Qed.

Lemma queue_drains s q (v : R * nat) n :
  io_ok n → closing_ (session_at n s) = false → write_queue_ (session_at n s) = q →
  ∃ n', run_events tls ((λ m, EvWebSocketWrite s m false) <$> q) (Running v n) =
      Some (Running v n') ∧
    write_queue_ (session_at n' s) = [] ∧
    written_ (session_at n' s) = pushed_ (session_at n s).
Proof.
  revert n. induction q as [|m q IH]; intros n Hio Hcl Hq.
  { exists n. split_and!; [done..|]. destruct (io_write _ Hio s) as [Hh _ _].
    by rewrite Hq, app_nil_r in Hh. }
  assert (Hin : inflight s (pending n) = [m]).
  { destruct (io_write _ Hio s) as [_ [Hi|(? & ? & Hi & ?)] Hp]; [|congruence].
    destruct (Hp ltac:(by rewrite Hq) Hcl). exact Hi. }
  assert (Hk : is_Some (sessions n !! s)).
  { destruct (sessions n !! s) eqn:Hx; [by eexists|].
    by rewrite (session_at_unknown n s Hx) in Hq. }
  destruct (take_out_Some (WebSocketWrite s m) (pending n)) as [l Hl].
  { apply inflight_elem. rewrite Hin. by left. }
  pose proof (io_ok_pop _ _ _ (start_write s m n l Hio Hl)) as Hio'.
  assert (Hat : session_at (popped s m (set_pending l n)) s = queue_pop m (session_at n s)).
  { unfold popped. rewrite session_at_do_write.
    exact (set_session_known s (queue_pop m) (set_pending l n) Hk). }
  destruct (IH _ Hio') as (n' & Hrun & Hnil & Hw);
    [by rewrite Hat|by rewrite Hat; simpl; rewrite Hq|].
  exists n'. split_and!; [|done|by rewrite Hw, Hat].
  rewrite fmap_cons. cbn [run_events run_event]. unfold start_event.
  cbn [completion_of]. rewrite Hl. cbn [fmap option_fmap option_map mbind option_bind].
  unfold handle. rewrite OnWrite_run. exact Hrun.
Qed.
End events.
