(* ===== verification/MessageTypes.v ===== *)
(** * MessageTypes: the messages a server writes

    [server_message t] says that [t] is the text of a JSON object with a member
    "type" that names one of the message types of the protocol.  Everything the
    encoders return has this form, and so has every outbox of SessionSpec.v.
    An outbox that a client's message causes has one answer to it, with its
    request id, and otherwise notifications, which have no request id. *)

From S2P Require Import Prelude Text UnorderedMap Room RoomRepository RoomService.
From S2P Require Import RoomServiceSpec Json ControlDispatcher ControlDispatcherSpec.
From S2P Require Import ProtocolCodec ProtocolCodecSpec SessionRegistry Session SessionSpec.

(** What answers a client's message, and what tells it of others' actions. *)
Definition answer_types : list string :=
  ["create_room_result"; "join_room_result"; "leave_room_result"; "offer_result";
   "answer_result"; "ice_candidate_result"; "error"].

Definition notification_types : list string :=
  ["participant_joined"; "participant_left"; "offer"; "answer"; "ice_candidate"].

Definition message_types : list string := answer_types ++ notification_types.

Section types.
Context `{BucketOrder, JsonLaws, CodeDraws, IdDraws}.
Implicit Types (j : json) (reg : Registry) (s : SessionPtr) (type : string).
Implicit Types (n : Net) (rooms : gmap RoomCode Room).

(** The text of an object of one of these types, with this request id. *)
Definition message_of (types : list string) (rid : option string) (t : string) : Prop :=
  ∃ j type, parse t = Ret j ∧ is_object j = true ∧
    member_text j "type" = Some type ∧ type ∈ types ∧ member_text j "request_id" = rid.

Definition answer_message : option string → string → Prop := message_of answer_types.

Definition notification : string → Prop := message_of notification_types None.

Definition server_message (t : string) : Prop :=
  ∃ j type, parse t = Ret j ∧ is_object j = true ∧
    member_text j "type" = Some type ∧ type ∈ message_types.

Definition typed_outbox (l : list (SessionPtr * string)) : Prop :=
  Forall (λ sm, server_message sm.2) l.

Lemma answer_server rid t : answer_message rid t → server_message t.
Proof.
  intros (j & type & Hp & Hobj & Ht & Hin & _). exists j, type. split_and!; [done..|].
  apply elem_of_app. by left.
Qed.

Lemma notification_server t : notification t → server_message t.
Proof.
  intros (j & type & Hp & Hobj & Ht & Hin & _). exists j, type. split_and!; [done..|].
  apply elem_of_app. by right.
Qed.

Lemma dumped_message types rid j type :
  json_ok j = true → is_object j = true → at_key j "type" = Some (of_string type) →
  type ∈ types → at_key j "request_id" = of_string <$> rid →
  ∃ t, json_dump j = Ret t ∧ message_of types rid t.
Proof.
  intros Hok Hobj Htype Hin Hrid. destruct (json_dump_Ret j Hok) as (t & Ht & Hd).
  apply parse_dump in Hd as (j' & Hp & Hj). exists t. split; [done|]. exists j', type.
  split_and!; [done|by rewrite Hj| |done|]; rewrite (member_text_proper _ _ _ Hj);
    unfold member_text.
  - rewrite Htype. apply get_of_string.
  - rewrite Hrid. destruct rid; [apply get_of_string|done].
Qed.

Lemma ResultType_elem m : ResultType m ∈ answer_types.
Proof.
  apply (bool_decide_unpack _).
  destruct m as [[] rid [[]|]]; vm_compute; exact I.
Qed.

Lemma EncodeResponse_message r :
  response_ok r →
  ∃ t, EncodeResponse r = Ret t ∧ answer_message (request_id (response_meta r)) t.
Proof.
  intros Hok. destruct (response_json_Ret r) as (j & Hrun & [Hobj Htype _ Hid _ _] & Hjok).
  unfold EncodeResponse. rewrite Hrun.
  apply (dumped_message _ _ j (ResultType (response_meta r))); [by apply Hjok|done..| |done].
  apply ResultType_elem.
Qed.

(** Events and relayed signals have a type and a payload. *)
Lemma envelope_message type payload :
  ascii_text type = true → type ∈ notification_types → json_ok payload = true →
  ∃ t, json_dump (of_object [("type", of_string type); ("payload", payload)]) = Ret t ∧
    notification t.
Proof.
  intros Htype Hin Hpl.
  assert (Hat : ∀ key, at_key (of_object [("type", of_string type); ("payload", payload)]) key =
    assoc key [("type", of_string type); ("payload", payload)]).
  { intros key. apply object_at. repeat constructor; set_solver. }
  apply dumped_message with type; [|apply object_is_object|by rewrite Hat|done|by rewrite Hat].
  apply of_object_ok. repeat apply Forall_cons_2; [..|apply Forall_nil_2];
    (split; [by apply ascii_text_ok|]); simpl; [by apply literal_ok|done].
Qed.

Lemma EncodeEvent_message e : event_ok e → ∃ t, EncodeEvent e = Ret t ∧ notification t.
Proof.
  intros Hok. destruct (event_json_Ret e) as (pl & Hrun & _ & _ & Hpl).
  unfold EncodeEvent. rewrite Hrun. apply envelope_message; [by destruct e| |by apply Hpl].
  apply (bool_decide_unpack _). destruct e; vm_compute; exact I.
Qed.

Lemma EncodeSignalingEvent_message r :
  signal_ok r → ∃ t, EncodeSignalingEvent r = Ret t ∧ notification t.
Proof.
  intros Hok. pose proof Hok as (_ & _ & _ & _ & Hobj).
  destruct (signal_json_Ret r Hobj) as (pl & Hrun & _ & Hpl).
  unfold EncodeSignalingEvent. rewrite Hrun.
  apply envelope_message; [by destruct (signal_type r)| |by apply Hpl].
  apply (bool_decide_unpack _). destruct (signal_type r); vm_compute; exact I.
Qed.

Lemma EncodeProtocolError_message m code rid :
  ascii_text code = true → from_option (λ r, text_ok r = true) True (error_id m rid) →
  ∃ t, EncodeProtocolError m code rid = Ret t ∧ answer_message (error_id m rid) t.
Proof.
  intros Hc Hid. destruct (protocol_error_json_Ret m code rid) as (j & Hrun & Hobj & Hat & Hok).
  unfold EncodeProtocolError. rewrite Hrun.
  apply dumped_message with (match m with Some m => ResultType m | None => "error" end);
    [by apply Hok|done|by rewrite Hat| |by rewrite Hat].
  destruct m; [apply ResultType_elem|].
  apply (bool_decide_unpack _). vm_compute. exact I.
Qed.

(** ** Outboxes *)

Abbreviation told := (Forall (λ sm : SessionPtr * string, notification sm.2)).

Lemma told_typed l : told l → typed_outbox l.
Proof. intros Hl. eapply Forall_impl; [exact Hl|]. intros sm. apply notification_server. Qed.

Lemma events_outbox_told reg es : Forall event_ok es → told (events_outbox reg es).
Proof.
  intros Hes. unfold events_outbox. apply Forall_bind.
  eapply Forall_impl; [exact Hes|]. intros e He.
  destruct (EncodeEvent_message e He) as (t & Ht & Hm).
  apply Forall_fmap, Forall_forall. intros s _. simpl. by rewrite Ht.
Qed.

Lemma events_outbox_typed reg es : Forall event_ok es → typed_outbox (events_outbox reg es).
Proof. intros Hes. by apply told_typed, events_outbox_told. Qed.

Lemma response_text_answer r :
  response_ok r → answer_message (request_id (response_meta r)) (response_text r).
Proof.
  intros Hr. destruct (EncodeResponse_message r Hr) as (t & Ht & Hm). unfold response_text.
  by rewrite Ht.
Qed.

(** The outbox of a request: one answer to its sender, with the request's id,
    among messages that tell others. *)
Definition one_answer s (rid : option string) (l : list (SessionPtr * string)) : Prop :=
  ∃ before answer after, l = before ++ (s, answer) :: after ∧
    answer_message rid answer ∧ told (before ++ after).

Lemma one_answer_first s rid answer l :
  answer_message rid answer → told l → one_answer s rid ((s, answer) :: l).
Proof. intros Ha Hl. by exists [], answer, l. Qed.

Lemma one_answer_typed s rid l : one_answer s rid l → typed_outbox l.
Proof.
  intros (before & answer & after & -> & Ha & [Hb Hl]%Forall_app).
  apply Forall_app. split; [by apply told_typed|].
  apply Forall_cons_2; [by eapply answer_server|by apply told_typed].
Qed.

Lemma handler_outbox_answer reg s result :
  result_ok result →
  one_answer s (request_id (response_meta (response result))) (handler_outbox reg s result).
Proof.
  intros [Hr He]. pose proof (response_text_answer _ Hr) as Ha.
  pose proof (events_outbox_told reg _ He) as Ht.
  unfold handler_outbox, respond_outbox.
  destruct (response result) as [m payload|m e] eqn:Hresp; [|by apply one_answer_first].
  destruct payload as [r|r|code|sig]; [by apply one_answer_first..|].
  destruct Hr as [Hm Hsig]. simpl in Hm, Hsig.
  destruct (RegistryFind _ _) as [t|].
  - destruct (EncodeSignalingEvent_message sig Hsig) as (x & Hx & Hxm).
    eexists [_], _, _. split; [done|]. split; [done|].
    apply Forall_cons_2; [simpl; by rewrite Hx|done].
  - apply one_answer_first; [|by apply Forall_nil_2].
    by apply (response_text_answer (ErrorResponse m ParticipantUnavailableResponse)).
Qed.

Lemma dispatch_spec_meta request rooms g :
  response_meta (response (dispatch_spec request rooms g).1) = meta request.
Proof.
  unfold dispatch_spec, answer_create, answer_join, answer_leave, answer_signaling.
  destruct (meta_type _), (command request) as [c|c|c|c]; try done; cbn zeta.
  - by destruct (first_free _ _ _).
  - destruct (join_spec _ _ _ _) as [[]]; done.
  - destruct (leave_spec _ _ _) as [[]]; done.
  - by destruct (_ && _).
Qed.

Lemma decoded_id pid message request j :
  DecodeRequest pid message = Ret request → parse message = Ret j →
  request_id (meta request) = member_text j "request_id".
Proof.
  unfold DecodeRequest. intros Hdec Hp. rewrite Hp in Hdec. simpl in Hdec.
  apply decode_json_iff in Hdec as (_ & type & pl & _ & Hid & _).
  by apply optional_request_id in Hid as [-> _].
Qed.

(** The request id of a text message that is an object with a type. *)
Definition echoes (got_text : bool) (message : string) (rid : option string) : Prop :=
  ∀ j, got_text = true → parse message = Ret j → is_object j = true →
    is_Some (member_text j "type") → rid = member_text j "request_id".

Lemma protocol_error_answer pid message e :
  DecodeRequest pid message = Throw e →
  ∃ rid, answer_message rid (protocol_error_text e) ∧ echoes true message rid ∧
    encode_error (error_args e) = Ret (protocol_error_text e).
Proof.
  intros Hdec. unfold DecodeRequest in Hdec. unfold protocol_error_text, echoes.
  assert (Hall : ∀ m code rid, ascii_text code = true →
    from_option (λ r, text_ok r = true) True (error_id m rid) →
    let t := text_or_empty (encode_error (m, code, rid)) in
    answer_message (error_id m rid) t ∧ encode_error (m, code, rid) = Ret t).
  { intros m code rid Hc Hid. unfold encode_error. cbn [fst snd].
    destruct (EncodeProtocolError_message m code rid Hc Hid) as (t & Ht & Hm). by rewrite Ht. }
  destruct (parse message) as [j|f] eqn:Hparse; simpl in Hdec.
  - apply decode_json_Throw in Hdec as (m & code & rid & -> & Hcode & Hid & Hor & Hobj).
    exists rid. destruct (Hall m code rid) as [Ha Href]; [by apply error_codes_ascii|..].
    + rewrite Hid. destruct Hor as [->| ->]; [done|].
      destruct (member_text j "request_id") as [t|] eqn:Ht; [|done].
      exact (member_text_ok _ _ _ (parse_ok _ _ Hparse) Ht).
    + rewrite Hid in Ha. split_and!; [done|by intros j' _ [= <-]|done].
  - injection Hdec as <-. exists None.
    destruct f; [destruct (Hall None "invalid_json" None) as [Ha Href]; [done..|]
      |destruct (Hall None "invalid_message" None) as [Ha Href]; [done..|]]; by split_and!.
Qed.

Lemma invalid_message_answer :
  ∃ t, InvalidMessageError = Ret t ∧ answer_message None t.
Proof. by apply EncodeProtocolError_message. Qed.

(** What the decoder makes of a message of a participant: a request, or the
    arguments of the error that refuses it. *)
Definition understood (pid : ParticipantId) (message : string) (got_text : bool)
    : ControlDispatcherRequest + (option RequestMeta * string * option string) :=
  if got_text then
    match DecodeRequest pid message with
    | Ret request => inl request
    | Throw e => inr (error_args e)
    end
  else inr (None, "invalid_message", None).

Lemma understood_request pid message got_text request :
  understood pid message got_text = inl request →
  got_text = true ∧ DecodeRequest pid message = Ret request.
Proof.
  unfold understood. destruct got_text; [|done].
  destruct (DecodeRequest pid message); [|done]. by intros [= ->].
Qed.

(** What a message that was read does to the rooms and posts: a request has the
    specified answer, anything else is refused. *)
Inductive handled s n message (got_text : bool) rooms
    : gmap RoomCode Room → list (SessionPtr * string) → Prop :=
| handled_request request g :
    understood (participant_id_ (session_at n s)) message got_text = inl request →
    handled s n message got_text rooms (dispatch_spec request rooms g).2.1
      (handler_outbox (registry n) s (dispatch_spec request rooms g).1)
| handled_refusal args t :
    understood (participant_id_ (session_at n s)) message got_text = inr args →
    encode_error args = Ret t → handled s n message got_text rooms rooms [(s, t)].
End types.

(** ** Every message has one answer *)

Section reads.
Context `{BucketOrder, JsonLaws, CodeDraws, IdDraws} {R : Type} `{LawfulRepository R}.

Lemma OnRead_answers s message got_text (r : R) rooms g n :
  text_ok (participant_id_ (session_at n s)) = true → repo_rel r rooms → texts_ok rooms →
  ∃ v l rid rooms', OnRead s (ReadMessage message got_text) ((r, g), n) =
      (Ret tt, (v, enqueue (WebSocketRead s) (send_all l n))) ∧ repo_rel v.1 rooms' ∧
    one_answer s rid l ∧ echoes got_text message rid ∧
    handled s n message got_text rooms rooms' l.
Proof.
  intros Hpid Hr Hok. destruct got_text; simpl.
  - destruct (DecodeRequest (participant_id_ (session_at n s)) message) as [req|e] eqn:Hdec.
    + destruct (HandleMessage_run s message req r rooms g n Hpid Hdec Hr Hok) as (r' & Hr' & Hrun).
      destruct (decode_ok _ _ _ Hpid Hdec) as (_ & Hm & Hc).
      destruct (dispatch_ok req _ g Hok Hm Hc) as [Hres _].
      rewrite (pbind_ret _ _ _ _ _ Hrun). eexists _, _, (request_id (meta req)), _.
      split_and!; [reflexivity|exact Hr'|..|apply handled_request; cbn; by rewrite Hdec].
      * rewrite <- (dispatch_spec_meta req rooms g). by apply handler_outbox_answer.
      * intros j _ Hp _ _. by eapply decoded_id.
    + rewrite (pbind_ret _ _ _ _ _ (HandleMessage_error_run _ _ _ _ _ Hdec)).
      destruct (protocol_error_answer _ _ _ Hdec) as (rid & Ha & Hid & Href).
      eexists _, _, rid, rooms. split_and!; [reflexivity|exact Hr| |done|].
      2: { eapply handled_refusal; [cbn; by rewrite Hdec|done]. }
      by apply one_answer_first; [|apply Forall_nil_2].
  - destruct invalid_message_answer as (t & Ht & Ha). unfold pbind, plift. rewrite Ht.
    eexists _, [(s, t)], None, rooms.
    split_and!; [reflexivity|exact Hr| |done|by eapply handled_refusal].
    by apply one_answer_first; [|apply Forall_nil_2].
Qed.
End reads.
