(* ===== verification/Rosters.v ===== *)
(** * Rosters: what the messages say about the rooms

    A client learns who is in a room from four types of messages: the results of
    its requests to create or join it, and the events that somebody joined or
    left it.  This file reads them from their texts, as a client does, and shows
    of the outboxes of SessionSpec.v that they speak of a room to its members
    only, list exactly its participants, and reach all whom a change concerns. *)

From S2P Require Import Prelude Text UnorderedMap Room RoomRepository RoomService.
From S2P Require Import RoomServiceSpec Json ControlDispatcher ControlDispatcherSpec.
From S2P Require Import ProtocolCodec ProtocolCodecSpec SessionRegistry Session SessionSpec.
From S2P Require Import System SystemInv SystemRun MessageTypes.

(** ** Reading a message *)

Definition roster_types : list string :=
  ["create_room_result"; "join_room_result"; "participant_joined"; "participant_left"].

Section reading.
Context `{JsonLaws}.
Implicit Types (j : json) (t type : string) (code : RoomCode) (ps : list Participant).

Definition type_of t : option string :=
  match parse t with Ret j => member_text j "type" | Throw _ => None end.

Definition payload_of t : option json :=
  match parse t with Ret j => at_key j "payload" | Throw _ => None end.

(** The room a message speaks of. *)
Definition subject t : option RoomCode := pl ← payload_of t; member_text pl "room_code".

(** The room whose participants a message lists. *)
Definition topic t : option RoomCode :=
  type ← type_of t; if decide (type ∈ roster_types) then subject t else None.

(** The message lists these participants. *)
Definition lists t ps : Prop :=
  ∃ pl l, payload_of t = Some pl ∧ at_key pl "participants" = Some l ∧
    l ≡ of_array (ParticipantToJson <$> ps).

(** The last of the messages that lists the participants of a room. *)
Definition latest code (ts : list string) : option string :=
  last (filter (λ t, topic t = Some code) ts).

Lemma latest_app code ts ts' :
  latest code (ts ++ ts') =
  match latest code ts' with Some t => Some t | None => latest code ts end.
Proof. unfold latest. rewrite filter_app. apply last_app. Qed.

Lemma latest_Some code ts t : latest code ts = Some t → t ∈ ts ∧ topic t = Some code.
Proof.
  unfold latest. intros Hl%last_Some_elem_of. by apply list_elem_of_filter in Hl as [? ?].
Qed.

Lemma latest_is_Some code ts t : t ∈ ts → topic t = Some code → is_Some (latest code ts).
Proof.
  intros Hin Ht. unfold latest. apply last_is_Some. intros Hnil.
  eapply elem_of_nil. rewrite <- Hnil. by apply list_elem_of_filter.
Qed.

(** *** Of an encoded message *)

(** What a client reads from the text of an object. *)
Lemma dumped_reads j t :
  json_dump j = Ret t →
  type_of t = member_text j "type" ∧
  subject t = (at_key j "payload" ≫= λ pl, member_text pl "room_code") ∧
  ∀ pl ps, at_key j "payload" = Some pl →
    at_key pl "participants" = Some (of_array (ParticipantToJson <$> ps)) → lists t ps.
Proof.
  intros Hd. assert (Hdump : dump j = Some t).
  { unfold json_dump in Hd. destruct (dump j); [by injection Hd as ->|done]. }
  apply parse_dump in Hdump as (j' & Hp & Hj). unfold type_of, subject, lists, payload_of.
  rewrite Hp. pose proof (at_key_proper _ _ Hj "payload" "payload" eq_refl) as Hpl.
  split_and!; [by apply member_text_proper| |].
  - destruct Hpl as [pl pl' Hpl|]; [|done]. by apply member_text_proper.
  - intros pl ps Hk Hps. rewrite Hk in Hpl. inversion Hpl as [pl' ? Heq|]; subst.
    pose proof (at_key_proper _ _ Heq "participants" "participants" eq_refl) as Hl.
    rewrite Hps in Hl. inversion Hl as [l' ? Hll|]; subst. by exists pl', l'.
Qed.

Lemma EncodeEvent_reads e t :
  EncodeEvent e = Ret t →
  topic t = Some (event_room_code e) ∧ subject t = Some (event_room_code e) ∧
  lists t (event_receivers e).
Proof.
  destruct (event_json_Ret e) as (pl & Hrun & _ & Hat & _). unfold EncodeEvent. rewrite Hrun.
  intros (Htype & Hsub & Hlists)%dumped_reads.
  set (j := of_object _) in *.
  assert (Hpl : at_key j "payload" = Some pl).
  { unfold j. rewrite object_at; [done|]. repeat constructor; set_solver. }
  assert (Hty : member_text j "type" = Some (event_type e)).
  { unfold member_text, j. rewrite object_at; [apply get_of_string|].
    repeat constructor; set_solver. }
  rewrite Hpl in Hsub. simpl in Hsub. unfold member_text in Hsub. rewrite Hat in Hsub.
  assert (Hcode : subject t = Some (event_room_code e)).
  { rewrite Hsub. destruct e; apply get_of_string. }
  split_and!; [|done|].
  - unfold topic. rewrite Htype, Hty, Hcode. by destruct e.
  - apply (Hlists pl); [done|]. rewrite Hat. by destruct e.
Qed.

Lemma EncodeSignalingEvent_reads r t :
  is_object (data r) = true → EncodeSignalingEvent r = Ret t →
  topic t = None ∧ subject t = Some (signal_room_code r).
Proof.
  intros Hobj. destruct (signal_json_Ret r Hobj) as (pl & Hrun & Hat & _).
  unfold EncodeSignalingEvent. rewrite Hrun. intros (Htype & Hsub & _)%dumped_reads.
  set (j := of_object _) in *.
  assert (Hj : ∀ key, at_key j key =
    assoc key [("type", of_string (SignalingTypeToString (signal_type r))); ("payload", pl)]).
  { intros key. apply object_at. repeat constructor; set_solver. }
  unfold member_text in Htype. rewrite Hj in Htype, Hsub. simpl in Htype, Hsub.
  rewrite get_of_string in Htype. unfold member_text in Hsub. rewrite Hat in Hsub.
  simpl in Hsub. rewrite get_of_string in Hsub. split; [|done].
  unfold topic. rewrite Htype. by destruct (signal_type r).
Qed.

(** The participants a response lists. *)
Definition response_roster (p : SuccessResponsePayload) : option RoomResponse :=
  match p with
  | CreateRoomResponse x | JoinRoomResponse x => Some x
  | LeaveRoomResponse _ | SignalingResponseAlt _ => None
  end.

Definition response_subject (r : ControlDispatcherResponse) : option RoomCode :=
  match r with
  | SuccessResponse _ (CreateRoomResponse x) | SuccessResponse _ (JoinRoomResponse x) =>
      Some (response_room_code x)
  | SuccessResponse _ (LeaveRoomResponse code) => Some code
  | SuccessResponse _ (SignalingResponseAlt x) => Some (signal_room_code x)
  | ErrorResponse _ _ => None
  end.

Lemma EncodeResponse_reads r t :
  EncodeResponse r = Ret t →
  type_of t = Some (ResultType (response_meta r)) ∧ subject t = response_subject r ∧
  ∀ m p x, r = SuccessResponse m p → response_roster p = Some x →
    lists t (response_participants x).
Proof.
  destruct (response_json_Ret r) as (j & Hrun & [_ Htype _ _ _ Hpl] & _).
  unfold EncodeResponse. rewrite Hrun. intros (Hty & Hsub & Hlists)%dumped_reads.
  unfold member_text in Hty. rewrite Htype in Hty. simpl in Hty. rewrite get_of_string in Hty.
  split; [done|]. rewrite Hsub. destruct r as [m p|m e]; [|by rewrite Hpl].
  destruct Hpl as (pl & Hp & Hat). rewrite Hat. simpl.
  split.
  - destruct p as [x|x|code|x]; simpl in Hp; rewrite ?ParticipantsToJson_eq in Hp; simpl in Hp;
      injection Hp as <-; unfold member_text;
      (rewrite object_at; [apply get_of_string|repeat constructor; set_solver]).
  - intros m' p' x [= <- <-] Hx. apply (Hlists pl); [done|].
    destruct p as [y|y|code|y]; try done; injection Hx as ->; simpl in Hp;
      rewrite ParticipantsToJson_eq in Hp; simpl in Hp; injection Hp as <-;
      (rewrite object_at; [done|repeat constructor; set_solver]).
Qed.

Lemma refusal_reads args t : encode_error args = Ret t → topic t = None ∧ subject t = None.
Proof.
  destruct args as [[m code] rid]. unfold encode_error. cbn [fst snd]. intros Ht.
  destruct (protocol_error_json_Ret m code rid) as (j & Hrun & _ & Hat & _).
  unfold EncodeProtocolError in Ht. rewrite Hrun in Ht. apply dumped_reads in Ht as (_ & Hsub & _).
  rewrite Hat in Hsub. simpl in Hsub. split; [|done]. unfold topic. rewrite Hsub.
  destruct (type_of t); [simpl; by case_decide|done].
Qed.
End reading.

(** ** Outboxes *)

Section outboxes.
Context `{BucketOrder, JsonLaws, CodeDraws, IdDraws}.
Implicit Types (reg : Registry) (s : SessionPtr) (t : string) (code : RoomCode).
Implicit Types (rooms old : gmap RoomCode Room) (l : list (SessionPtr * string)).
Implicit Types (who : SessionPtr → ParticipantId).

(** A message that lists participants of a room speaks of it, and is not the
    confirmation that its receiver has left. *)
Lemma topic_subject t code :
  topic t = Some code → subject t = Some code ∧ type_of t ≠ Some "leave_room_result".
Proof.
  unfold topic. destruct (type_of t) as [type|]; [simpl|done].
  case_decide as Hin; [|done]. intros Hsub. split; [done|]. intros [= ->].
  revert Hin. apply (bool_decide_unpack ("leave_room_result" ∉ roster_types)). by vm_compute.
Qed.

(** What a message to a participant may say of rooms: it speaks of a room that he
    is in, and lists its participants, or it confirms that he has left the room in
    which he was before. *)
Definition proper pid old rooms t : Prop :=
  ∀ code, subject t = Some code →
    (∃ room, rooms !! code = Some room ∧ pid ∈ ids room ∧
       (topic t = Some code → lists t (GetParticipants room))) ∨
    (type_of t = Some "leave_room_result" ∧
     ∃ room, old !! code = Some room ∧ pid ∈ ids room).

(** Sessions [s] of the participants [who s] are sent proper messages only. *)
Definition faithful who old rooms l : Prop := ∀ s t, (s, t) ∈ l → proper (who s) old rooms t.

(** Every connected member of a room that has changed is told so. *)
Definition reaches who reg rooms rooms' l : Prop :=
  ∀ code room s, rooms' !! code = Some room → who s ∈ ids room →
    RegistryFind (who s) reg = Some s →
    rooms !! code = Some room ∨ ∃ t, (s, t) ∈ l ∧ topic t = Some code.

Lemma faithful_nil who old rooms : faithful who old rooms [].
Proof. by intros s t ?%elem_of_nil. Qed.

Lemma faithful_app who old rooms l l' :
  faithful who old rooms l → faithful who old rooms l' → faithful who old rooms (l ++ l').
Proof. intros Hl Hl' s t [Hin|Hin]%elem_of_app; eauto. Qed.

Lemma faithful_cons who old rooms s t l :
  faithful who old rooms [(s, t)] → faithful who old rooms l →
  faithful who old rooms ((s, t) :: l).
Proof. apply (faithful_app who old rooms [(s, t)]). Qed.

Lemma faithful_silent who old rooms s t : subject t = None → faithful who old rooms [(s, t)].
Proof. intros Ht s' t' [= -> ->]%list_elem_of_singleton code. by rewrite Ht. Qed.

Lemma faithful_one who old rooms s t code room :
  subject t = Some code → rooms !! code = Some room → who s ∈ ids room →
  (topic t = Some code → lists t (GetParticipants room)) → faithful who old rooms [(s, t)].
Proof.
  intros Ht Hroom Hin Hl s' t' [= -> ->]%list_elem_of_singleton code' Hc.
  rewrite Ht in Hc. injection Hc as <-. left. by exists room.
Qed.

Lemma reaches_same who reg rooms l : reaches who reg rooms rooms l.
Proof. intros code room s Hroom _ _. by left. Qed.

Section events.
Context (who : SessionPtr → ParticipantId) (reg : Registry).
Hypothesis (Hwho : ∀ pid s, RegistryFind pid reg = Some s → who s = pid).

Lemma event_outbox_faithful e old rooms room :
  event_ok e → rooms !! event_room_code e = Some room →
  event_receivers e = GetParticipants room → faithful who old rooms (event_outbox reg e).
Proof.
  intros Hok Hroom Hps s t Hin code Ht. destruct (EncodeEvent_Ret e Hok) as [t0 Ht0].
  apply EncodeEvent_reads in Ht0 as Hread. destruct Hread as (Htopic & Hsub & Hlists).
  unfold event_outbox in Hin. rewrite Ht0 in Hin. simpl in Hin.
  apply list_elem_of_fmap in Hin as (s' & [= -> ->] & Hs).
  rewrite Hsub in Ht. injection Ht as <-. left. exists room. split_and!; [done| |by rewrite <- Hps].
  unfold event_targets in Hs. apply list_elem_of_omap in Hs as (p & Hp & Hs).
  destruct (skips_receiver e p); [done|]. apply Hwho in Hs as ->.
  rewrite Hps in Hp. by apply list_elem_of_fmap_2.
Qed.

Lemma event_outbox_reaches e s :
  event_ok e → who s ∈ GetId <$> event_receivers e → RegistryFind (who s) reg = Some s →
  (∀ p, skips_receiver e p = true → GetId p ≠ who s) →
  ∃ t, (s, t) ∈ event_outbox reg e ∧ topic t = Some (event_room_code e).
Proof.
  intros Hok Hin Hreg Hskip. destruct (EncodeEvent_Ret e Hok) as [t Ht]. exists t.
  split; [|by apply EncodeEvent_reads in Ht as [? _]].
  unfold event_outbox. rewrite Ht. simpl. apply (list_elem_of_fmap_2 (λ s, (s, t))).
  apply list_elem_of_fmap in Hin as (p & Hp & Hin). apply list_elem_of_omap. exists p.
  split; [done|]. destruct (skips_receiver e p) eqn:Hs; [by apply Hskip in Hs|].
  by rewrite <- Hp.
Qed.

(** *** Requests *)

Lemma response_faithful s r old rooms room :
  response_ok r → (∀ code, response_subject r = Some code → rooms !! code = Some room) →
  who s ∈ ids room →
  (∀ m p x, r = SuccessResponse m p → response_roster p = Some x →
     response_participants x = GetParticipants room) →
  (∀ m p, r = SuccessResponse m p → response_roster p = None →
     ResultType m ∉ roster_types) →
  faithful who old rooms [(s, response_text r)].
Proof.
  intros Hok Hroom Hin Hps Hno. destruct (EncodeResponse_Ret r Hok) as [t Ht].
  unfold response_text. rewrite Ht. simpl.
  apply EncodeResponse_reads in Ht as (Htype & Hsub & Hlists).
  destruct (response_subject r) as [code|] eqn:Hcode.
  - eapply faithful_one; [done|by apply Hroom|done|]. intros Htop.
    destruct r as [m p|m e]; [|done]. destruct (response_roster p) as [x|] eqn:Hx.
    + rewrite <- (Hps m p x) by done. by eapply Hlists.
    + unfold topic in Htop. rewrite Htype in Htop. simpl in Htop.
      rewrite decide_False in Htop; [done|]. by eapply Hno.
  - by apply faithful_silent.
Qed.

Lemma confirmation_faithful s m code old rooms room :
  response_ok (SuccessResponse m (LeaveRoomResponse code)) →
  meta_type m = ControlMessageType.LeaveRoom → old !! code = Some room → who s ∈ ids room →
  faithful who old rooms [(s, response_text (SuccessResponse m (LeaveRoomResponse code)))].
Proof.
  intros Hok Hm Hroom Hin. destruct (EncodeResponse_Ret _ Hok) as [t Ht].
  unfold response_text. rewrite Ht. apply EncodeResponse_reads in Ht as (Htype & Hsub & _).
  intros s' t' [= -> ->]%list_elem_of_singleton code' Hc. simpl in *. rewrite Hsub in Hc.
  injection Hc as <-. right. split; [|by exists room]. rewrite Htype. unfold ResultType.
  by rewrite Hm.
Qed.

Lemma response_topic s m p x l :
  response_ok (SuccessResponse m p) → response_roster p = Some x →
  ResultType m ∈ roster_types →
  ∃ t, (s, t) ∈ (s, response_text (SuccessResponse m p)) :: l ∧
    topic t = Some (response_room_code x).
Proof.
  intros Hok Hx Hm. destruct (EncodeResponse_Ret _ Hok) as [t Ht]. exists t.
  unfold response_text. rewrite Ht. split; [by left|].
  apply EncodeResponse_reads in Ht as (Htype & Hsub & _). unfold topic. rewrite Htype. simpl in *.
  rewrite decide_True by done. rewrite Hsub. by destruct p; simplify_eq/=.
Qed.

Context (s : SessionPtr) (request : ControlDispatcherRequest) (rooms : gmap RoomCode Room).
Hypothesis (Hspeaker : who s = speaker (command request)).

Definition conveys (result : ControlDispatcherResult) (rooms' : gmap RoomCode Room) : Prop :=
  faithful who rooms rooms' (handler_outbox reg s result) ∧
  (RegistryFind (who s) reg = Some s → reaches who reg rooms rooms' (handler_outbox reg s result)).

Lemma error_conveys m e : meta_ok m → conveys (error_result m e) rooms.
Proof.
  intros Hm. split; [|intros _; apply reaches_same]. unfold handler_outbox, respond_outbox. simpl.
  apply faithful_cons; [|apply faithful_nil].
  destruct (EncodeResponse_Ret (ErrorResponse m e)) as [t Ht]; [done|].
  unfold response_text. rewrite Ht. apply EncodeResponse_reads in Ht as (_ & Hsub & _).
  by apply faithful_silent.
Qed.

Lemma create_conveys m c g :
  meta_type m = ControlMessageType.CreateRoom → command request = CreateRoomAlt c →
  result_ok (answer_create m c rooms g).1 →
  conveys (answer_create m c rooms g).1 (answer_create m c rooms g).2.1.
Proof.
  intros Hm Hc. rewrite Hc in Hspeaker. simpl in Hspeaker. unfold answer_create.
  destruct (first_free _ _ _) as [i|]; [|intros [[Hok _] _]; by apply error_conveys].
  cbn [fst snd]. set (code := format_room_code _). set (p := create_participant c) in *.
  set (room := MkRoom code (create_password_hash c) [p]). intros [Hok _].
  assert (Hid : ids room = [GetId p]) by done.
  assert (Hrt : ResultType m ∈ roster_types) by (unfold ResultType; rewrite Hm; by left).
  unfold conveys, handler_outbox, respond_outbox. cbn [response events]. split.
  - apply (response_faithful s _ _ _ room); [done| |by rewrite Hid, Hspeaker; left| |].
    + intros code' [= <-]. apply lookup_insert_eq.
    + by intros m' p' x [= <- <-] [= <-].
    + by intros m' p' [= <- <-].
  - intros Hs code' room' s' Hroom' Hin Hreg'.
    apply lookup_insert_Some in Hroom' as [[<- <-]|[_ Hroom']]; [right|by left].
    rewrite Hid, list_elem_of_singleton, <- Hspeaker in Hin.
    assert (s' = s) as -> by congruence. simpl in Hok.
    by apply (response_topic s m _ (MkRoomResponse code p [p])).
Qed.

Lemma join_conveys m c g :
  meta_type m = ControlMessageType.JoinRoom → command request = JoinRoomAlt c →
  result_ok (answer_join m c rooms g).1 →
  conveys (answer_join m c rooms g).1 (answer_join m c rooms g).2.1.
Proof.
  intros Hm Hc. rewrite Hc in Hspeaker. simpl in Hspeaker. unfold answer_join, join_spec.
  destruct (rooms !! _) as [room|] eqn:Hroom; [|intros [[Hok _] _]; by apply error_conveys].
  destruct (join_outcome _ _ _) eqn:Hj; try (intros [[Hok _] _]; by apply error_conveys).
  cbn [fst snd room_participants]. apply join_outcome_Joined in Hj as [Hnew _].
  set (code := join_room_code c) in *. set (p := join_participant c) in *.
  intros [Hok [He _]%Forall_cons]. cbn [response events] in Hok, He.
  assert (Hrt : ResultType m ∈ roster_types).
  { unfold ResultType. rewrite Hm. right. by left. }
  set (e := JoinedRoomEvent code p (participants_ room ++ [p])) in *.
  unfold conveys, handler_outbox, respond_outbox. cbn [response events].
  unfold events_outbox. cbn [mbind list_bind]. rewrite app_nil_r. split.
  - apply faithful_cons.
    + apply (response_faithful s _ _ _ (add_participant room p)); [done| | | |].
      * intros code' [= <-]. apply lookup_insert_eq.
      * rewrite ids_add, Hspeaker. apply elem_of_app. right. by left.
      * by intros m' p' x [= <- <-] [= <-].
      * by intros m' p' [= <- <-].
    + eapply (event_outbox_faithful e); [done|apply lookup_insert_eq|done].
  - intros Hs code' room' s' Hroom' Hin Hreg'.
    apply lookup_insert_Some in Hroom' as [[<- <-]|[_ Hroom']]; [right|by left].
    rewrite ids_add, elem_of_app, list_elem_of_singleton in Hin. destruct Hin as [Hin|Hin].
    + destruct (event_outbox_reaches e s') as (t & Ht & Htop); [done| |done| |].
      * unfold e. simpl. rewrite fmap_app. apply elem_of_app. by left.
      * intros q Hq Heq. unfold e in Hq. simpl in Hq. apply bool_decide_eq_true in Hq.
        apply Hnew. by rewrite <- Hq, Heq.
      * exists t. split; [by right|done].
    + rewrite <- Hspeaker in Hin. assert (s' = s) as -> by congruence.
      by apply (response_topic s m _ (MkRoomResponse code p (participants_ room ++ [p]))).
Qed.

(** The event that somebody left a room, for whoever is left. *)
Lemma left_event_conveys pid code room old rooms' :
  event_ok (LeftRoomEvent code pid (participants_ (without room pid))) →
  rooms' !! code = (if IsEmpty (without room pid) then None else Some (without room pid)) →
  let l := event_outbox reg (LeftRoomEvent code pid (participants_ (without room pid))) in
  faithful who old rooms' l ∧
  ∀ room' s', rooms' !! code = Some room' → who s' ∈ ids room' →
    RegistryFind (who s') reg = Some s' → ∃ t, (s', t) ∈ l ∧ topic t = Some code.
Proof.
  intros Hok Hroom l. destruct (IsEmpty (without room pid)) eqn:He.
  - split; [|intros room' s' Hroom'; congruence]. apply IsEmpty_true in He.
    unfold l, event_outbox, event_targets. cbn [event_receivers]. rewrite He. apply faithful_nil.
  - split; [by eapply event_outbox_faithful|]. intros room' s' Hroom' Hin Hreg'.
    rewrite Hroom in Hroom'. injection Hroom' as <-.
    set (e := LeftRoomEvent code pid (participants_ (without room pid))) in *.
    by destruct (event_outbox_reaches e s') as (t & Ht & Htop); [..|by exists t].
Qed.

Lemma leave_conveys m c g :
  meta_type m = ControlMessageType.LeaveRoom → command request = LeaveRoomAlt c →
  result_ok (answer_leave m c rooms g).1 →
  conveys (answer_leave m c rooms g).1 (answer_leave m c rooms g).2.1.
Proof.
  intros Hm Hc. rewrite Hc in Hspeaker. simpl in Hspeaker. unfold answer_leave.
  pose proof (leave_spec_lookup (leave_room_code c) (leave_participant_id c) rooms) as Hcode.
  pose proof (λ code', leave_spec_lookup_ne (leave_room_code c) code'
                         (leave_participant_id c) rooms) as Hother.
  unfold leave_spec in *.
  destruct (rooms !! _) as [room|] eqn:Hroom; [|intros [[Hok _] _]; by apply error_conveys].
  destruct (HasParticipant _ _) eqn:Hp; [|intros [[Hok _] _]; by apply error_conveys].
  cbn [fst snd remaining_participants left_room] in *.
  set (rooms' := partial_alter _ _ _) in *.
  intros [Hok [He _]%Forall_cons]. cbn [response events] in Hok, He.
  cbn [mbind option_bind] in Hcode. unfold drop_participant in Hcode.
  rewrite Hp in Hcode.
  destruct (left_event_conveys _ _ room rooms rooms' He Hcode) as [Hf Hr].
  unfold conveys, handler_outbox, respond_outbox. cbn [response events].
  unfold events_outbox. cbn [mbind list_bind]. rewrite app_nil_r. split.
  - apply faithful_cons; [|exact Hf]. eapply confirmation_faithful; [done..|].
    rewrite Hspeaker. by apply HasParticipant_true.
  - intros _ code' room' s' Hroom' Hin Hreg'.
    destruct (decide (leave_room_code c = code')) as [<-|Hne].
    + right. destruct (Hr room' s' Hroom' Hin Hreg') as (t & Ht & Htop). exists t.
      split; [by right|done].
    + left. by rewrite <- Hother.
Qed.

Lemma signaling_conveys m c g :
  meta_type m = ControlMessageType.Signaling → command request = SignalingAlt c →
  result_ok (answer_signaling m c rooms g).1 →
  conveys (answer_signaling m c rooms g).1 (answer_signaling m c rooms g).2.1.
Proof.
  intros Hm Hc. rewrite Hc in Hspeaker. simpl in Hspeaker. unfold answer_signaling.
  destruct (in_room rooms (command_room_code c) (command_from c)) eqn:Hfrom;
    [|intros [[Hok _] _]; by apply error_conveys].
  destruct (in_room rooms (command_room_code c) (command_target c)) eqn:Hto;
    [|intros [[Hok _] _]; by apply error_conveys].
  cbn [fst snd andb]. intros [Hok _]. cbn [response] in Hok. pose proof Hok as [Hmok Hsig].
  split; [|intros _; apply reaches_same]. apply in_room_true in Hfrom as (room & Hroom & Hfrom).
  apply in_room_true in Hto as (room1 & Hroom1 & Hto). simplify_eq.
  assert (Hrt : ResultType m ∉ roster_types).
  { apply (bool_decide_unpack _). unfold ResultType. rewrite Hm.
    destruct (signaling_type m) as [[]|]; by vm_compute. }
  unfold handler_outbox, respond_outbox. cbn [response events relay_response target_participant_id].
  destruct (RegistryFind (command_target c) reg) as [t|] eqn:Ht.
  - apply Hwho in Ht. apply faithful_cons; [|].
    + destruct (EncodeSignalingEvent_Ret _ Hsig) as [x Hx]. simpl in Hx. rewrite Hx. simpl.
      apply EncodeSignalingEvent_reads in Hx as [Htop Hsub]; [|apply Hsig].
      eapply faithful_one; [done..|by rewrite Ht|]. by rewrite Htop.
    + apply (response_faithful s _ _ _ room); [done| |by rewrite Hspeaker| |].
      * by intros code' [= <-].
      * by intros m' p' x [= <- <-].
      * by intros m' p' [= <- <-].
  - apply faithful_silent.
    destruct (EncodeResponse_Ret (ErrorResponse m ParticipantUnavailableResponse)) as [x Hx];
      [by split|].
    unfold response_text. rewrite Hx. apply EncodeResponse_reads in Hx as (_ & Hsub & _).
    done.
Qed.

Lemma dispatch_conveys g :
  request_ok request → result_ok (dispatch_spec request rooms g).1 →
  conveys (dispatch_spec request rooms g).1 (dispatch_spec request rooms g).2.1.
Proof.
  unfold request_ok, dispatch_spec. intros Hreq.
  destruct (command request) as [c|c|c|c] eqn:Hc in Hreq |- *;
    simpl in Hreq; rewrite Hreq.
  - by apply create_conveys.
  - by apply join_conveys.
  - by apply leave_conveys.
  - by apply signaling_conveys.
Qed.
End events.

(** *** Disconnections *)

Lemma leave_all_lookup pid rooms code :
  leave_all pid rooms !! code = rooms !! code ≫= drop_participant pid.
Proof. apply lookup_omap. Qed.

Lemma farewell_conveys who s rooms n l :
  texts_ok rooms → text_ok (participant_id_ (session_at n s)) = true →
  registered_ (session_at n s) = true → farewell s n rooms l →
  let reg := registry (unregister s n) in
  let rooms' := leave_all (participant_id_ (session_at n s)) rooms in
  (∀ pid s', RegistryFind pid reg = Some s' → who s' = pid) →
  faithful who rooms rooms' l ∧ reaches who reg rooms rooms' l.
Proof.
  intros Hok Hpid Hreg Hfar reg rooms' Hwho. unfold farewell in Hfar. rewrite Hreg in Hfar.
  destruct Hfar as (codes & Hcodes & ->).
  set (pid := participant_id_ (session_at n s)) in *.
  assert (Hleft : ∀ code room, rooms !! code = Some room → HasParticipant room pid = true →
    let l := event_outbox reg (LeftRoomEvent code pid (participants_ (without room pid))) in
    faithful who rooms rooms' l ∧
    ∀ room' s', rooms' !! code = Some room' → who s' ∈ ids room' →
      RegistryFind (who s') reg = Some s' → ∃ t, (s', t) ∈ l ∧ topic t = Some code).
  { intros code room Hroom Hp. apply left_event_conveys; [done|..].
    - destruct (Hok _ _ Hroom) as [Hc Hps]. split_and!; [done|by apply without_ok|done].
    - unfold rooms'. rewrite leave_all_lookup, Hroom. simpl. unfold drop_participant.
      by rewrite Hp. }
  unfold events_outbox. split.
  - intros s' t Hin. apply list_elem_of_bind in Hin as (e & Hin & He).
    apply list_elem_of_omap in He as (c & _ & He). unfold disconnect_event in He.
    apply bind_Some in He as (room & Hroom & He).
    destruct (HasParticipant room pid) eqn:Hp; [|done]. injection He as <-.
    destruct (Hleft c room Hroom Hp) as [Hf _]. by apply Hf.
  - intros code room' s' Hroom' Hin Hreg'. unfold rooms' in Hroom'.
    rewrite leave_all_lookup in Hroom'. apply bind_Some in Hroom' as (room & Hroom & Hdrop).
    destruct (HasParticipant room pid) eqn:Hp.
    + right. destruct (Hleft code room Hroom Hp) as [_ Hr].
      destruct (Hr room' s') as (t & Ht & Htop); [|done..|].
      { unfold rooms'. by rewrite leave_all_lookup, Hroom. }
      exists t. split; [|done]. apply list_elem_of_bind. eexists. split; [exact Ht|].
      apply list_elem_of_omap. exists code. split; [rewrite Hcodes; by apply room_codes_elem|].
      unfold disconnect_event. rewrite Hroom. simpl. by rewrite Hp.
    + left. unfold drop_participant in Hdrop. rewrite Hp in Hdrop. by simplify_eq.
Qed.
End outboxes.
