(* ===== verification/Effects.v ===== *)
(** * Effects: what each handler does to the network state

    [effect ev n n'] gives for every event the network state [n'] its handler
    leaves, as a function of the state [n] it starts in, up to the messages it
    posts, of which it says that they are messages of the protocol.  It is the
    specification of the handlers that the theorems on progress are proved from;
    [handle_effect] shows that in every reachable state the handlers meet it. *)

From S2P Require Import Prelude Text UnorderedMap Room RoomRepository RoomService.
From S2P Require Import RoomServiceSpec Json ControlDispatcher ControlDispatcherSpec.
From S2P Require Import ProtocolCodec ProtocolCodecSpec SessionRegistry Session SessionSpec.
From S2P Require Import Server System SystemInv SystemRun SystemSafety MessageTypes.

Section effects.
Context `{BucketOrder, JsonLaws, CodeDraws, IdDraws}.
Implicit Types (n : Net) (s : SessionPtr) (rooms : gmap RoomCode Room).

(** The messages posted when [s] is taken out of the registry. *)
Definition parting s rooms n (l : list (SessionPtr * string)) : Prop :=
  typed_outbox l ∧ farewell s n rooms l.

Lemma parting_none s rooms n l :
  parting s rooms n l → registered_ (session_at n s) = false → l = [].
Proof. intros [_ Hl] Hreg. unfold farewell in Hl. by rewrite Hreg in Hl. Qed.

Definition failed s rooms n rooms' n' : Prop :=
  ∃ l, parting s rooms n l ∧ rooms' = drop_rooms s n rooms ∧ n' = failed_net s l n.

Definition dropped s rooms n rooms' n' : Prop :=
  ∃ l, parting s rooms n l ∧ rooms' = drop_rooms s n rooms ∧
    n' = send_all l (drop_session s n).

(** A new session waits for its TLS or its WebSocket handshake. *)
Definition first_wait (tls : bool) s : completion :=
  if tls then TlsHandshake s else WebSocketAccept s.

Definition effect (tls : bool) (ev : io_event) rooms n rooms' n' : Prop :=
  match ev with
  | EvTcpAccept error =>
      rooms' = rooms ∧ n' = if negb (acceptor_open n) then n
           else if error then enqueue TcpAccept n
           else enqueue TcpAccept
                  (enqueue (first_wait tls (next_session n)) (allocated tls n))
  | EvTlsHandshake s true | EvWebSocketAccept s true | EvWebSocketWrite s _ true
  | EvWebSocketRead s ReadError => failed s rooms n rooms' n'
  | EvTlsHandshake s false => rooms' = rooms ∧ n' = enqueue (WebSocketAccept s) n
  | EvWebSocketAccept s false =>
      rooms' = rooms ∧ n' = enqueue (WebSocketRead s) (register s n)
  | EvWebSocketRead s ReadClosed => dropped s rooms n rooms' n'
  | EvWebSocketRead s (ReadMessage message got_text) =>
      ∃ l rid, one_answer s rid l ∧ echoes got_text message rid ∧
        handled s n message got_text rooms rooms' l ∧
        n' = enqueue (WebSocketRead s) (send_all l n)
  | EvWebSocketWrite s m false => rooms' = rooms ∧ n' = popped s m n
  | EvWebSocketClose _ => rooms' = rooms ∧ n' = n
  | EvPostedSend s m => rooms' = rooms ∧ n' = pushed s m n
  | EvPostedClose s is_open =>
      if closing_ (session_at n s) then rooms' = rooms ∧ n' = n
      else ∃ n1, dropped s rooms (set_session s set_closing n) rooms' n1 ∧
             n' = if is_open then enqueue (WebSocketClose s) n1
                  else set_session s set_lowest_closed n1
  | EvCloseCall s => rooms' = rooms ∧ n' = enqueue (PostedClose s) n
  | EvListenerStop => rooms' = rooms ∧ n' = set_acceptor_open false n
  end.
End effects.

Section handlers.
Context `{BucketOrder, JsonLaws, CodeDraws, IdDraws} {R : Type} `{LawfulRepository R}.
Context (tls : bool).
Implicit Types (n : Net) (s : SessionPtr) (rooms : gmap RoomCode Room) (v : R * nat).

Lemma farewell_typed s rooms n l :
  service_inv rooms → net_ok n → farewell s n rooms l → typed_outbox l.
Proof.
  intros Hs Hn. unfold farewell. destruct (registered_ _); [|intros ->; apply Forall_nil_2].
  intros (codes & _ & ->). apply events_outbox_typed, disconnect_events_ok; [apply Hs|].
  by apply session_at_id.
Qed.

Lemma RemoveFromRegistry_effect s r g rooms n :
  repo_rel r rooms → service_inv rooms → net_ok n →
  settles (RemoveFromRegistry s ((r, g), n)) (dropped s rooms n).
Proof.
  intros Hr Hs Hn. eapply settles_impl; [by apply RemoveFromRegistry_settles|].
  intros rooms' n' (l & Hl & -> & ->). exists l. split_and!; [|done..]. split; [|done].
  by eapply farewell_typed.
Qed.

Lemma Fail_effect s r g rooms n :
  repo_rel r rooms → service_inv rooms → net_ok n →
  settles (Fail s ((r, g), n)) (failed s rooms n).
Proof.
  intros Hr Hs Hn. eapply settles_impl; [by apply Fail_settles|].
  intros rooms' n' (l & Hl & -> & ->). exists l. split_and!; [|done..]. split; [|done].
  by eapply farewell_typed.
Qed.

Lemma OnRead_effect s result r g rooms n :
  repo_rel r rooms → service_inv rooms → net_ok n →
  settles (OnRead s result ((r, g), n)) (effect tls (EvWebSocketRead s result) rooms n).
Proof.
  intros Hr Hs Hn. destruct result as [| |message got_text].
  - by eapply RemoveFromRegistry_effect.
  - by eapply Fail_effect.
  - destruct (OnRead_answers s message got_text r rooms g n (session_at_id n s Hn) Hr
      (inv_texts _ Hs)) as ([r' g'] & l & rid & rooms' & Hrun & Hr' & Ha & Hid & Hh).
    rewrite Hrun. apply settles_ret with rooms'; [done|]. by exists l, rid.
Qed.

Lemma OnPostedClose_effect s is_open r g rooms n :
  repo_rel r rooms → service_inv rooms → net_ok n →
  settles (OnPostedClose s is_open ((r, g), n)) (effect tls (EvPostedClose s is_open) rooms n).
Proof.
  intros Hr Hs Hn. unfold OnPostedClose. unfold pbind at 1. simpl.
  destruct (closing_ (session_at n s)) eqn:Hcl.
  { apply settles_ret with rooms; [done|]. simpl. by rewrite Hcl. }
  unfold pbind at 1. simpl. eapply settles_bind.
  { apply RemoveFromRegistry_effect; [done..|].
    exact (net_ok_same n _ (same_closing s n) Hn). }
  intros r' g' n' rooms' Hr' Hd.
  destruct is_open; (eapply settles_ret; [done|]); simpl; rewrite Hcl; by exists n'.
Qed.

Lemma OnAccept_effect error r g rooms n :
  repo_rel r rooms →
  settles (OnAccept tls error ((r, g), n)) (effect tls (EvTcpAccept error) rooms n).
Proof.
  intros Hr. unfold OnAccept. unfold pbind at 1. simpl.
  destruct (acceptor_open n) eqn:Ho; simpl.
  2: { apply settles_ret with rooms; [done|]. simpl. by rewrite Ho. }
  destruct error; [apply settles_ret with rooms; [done|]; simpl; by rewrite Ho|].
  unfold pbind at 1. simpl. fold (allocated tls n). unfold Start. unfold pbind at 1 2. simpl.
  assert (tls_ (session_at (allocated tls n) (next_session n)) = tls) as Htls.
  { unfold session_at. simpl. by rewrite lookup_insert_eq. }
  rewrite Htls. unfold first_wait.
  destruct tls; (apply settles_ret with rooms; [done|]); simpl; by rewrite Ho.
Qed.

(** Every handler, run in a reachable state, returns and has its effect. *)
Lemma handle_effect strict ev r g rooms n n0 :
  repo_rel r rooms → world_inv strict rooms n → start_event ev n = Some n0 →
  settles (handle tls ev ((r, g), n0)) (effect tls ev rooms n0).
Proof.
  intros Hr [Hd _] Hst. apply (directory_start strict _ _ _ _ Hst) in Hd as [Hs Hn _ _].
  destruct ev as [error|s error|s error|s result|s m error|s|s m|s is_open|s|]; simpl handle.
  - by apply OnAccept_effect.
  - destruct error; [by eapply Fail_effect|by apply settles_ret with rooms].
  - destruct error; [by eapply Fail_effect|by apply settles_ret with rooms].
  - by eapply OnRead_effect.
  - destruct error; [by eapply Fail_effect|]. rewrite OnWrite_run. by apply settles_ret with rooms.
  - by apply settles_ret with rooms.
  - rewrite OnPostedSend_run. by apply settles_ret with rooms.
  - by eapply OnPostedClose_effect.
  - by apply settles_ret with rooms.
  - by apply settles_ret with rooms.
Qed.
End handlers.

(** ** Only messages of the protocol are sent *)

Section typed.
Context `{BucketOrder, JsonLaws, CodeDraws, IdDraws}.
Implicit Types (n : Net) (s : SessionPtr) (x : Session).

Definition typed_completion (c : completion) : Prop :=
  match c with PostedSend _ m | WebSocketWrite _ m => server_message m | _ => True end.

Definition typed_session x : Prop :=
  Forall server_message (pushed_ x) ∧ Forall server_message (write_queue_ x).

Record typed_net n : Prop := {
  tn_pending : Forall typed_completion (pending n);
  tn_sessions s : typed_session (session_at n s)
}.

Lemma typed_blank : typed_session blank_session.
Proof. split; apply Forall_nil_2. Qed.

Lemma typed_same n n' cs :
  (∀ s, core (session_at n' s) = core (session_at n s)) →
  pending n' = pending n ++ cs → Forall typed_completion cs → typed_net n → typed_net n'.
Proof.
  intros Hcore Hp Hcs [Hpend Hs]. split; [rewrite Hp; by apply Forall_app|].
  intros s. unfold typed_session. specialize (Hcore s). injection Hcore as -> _ ->. apply Hs.
Qed.

Lemma typed_quiet n n' cs :
  quiet n n' → pending n' = pending n ++ cs → Forall typed_completion cs →
  typed_net n → typed_net n'.
Proof. intros Hq. apply typed_same, Hq. Qed.

Lemma posted_typed l : typed_outbox l → Forall typed_completion (posted l).
Proof. intros Hl. by apply Forall_fmap. Qed.

Lemma typed_enqueue c n : typed_completion c → typed_net n → typed_net (enqueue c n).
Proof. intros Hc. eapply typed_same; [done..|by apply Forall_singleton]. Qed.

Lemma pending_drop s n : pending (drop_session s n) = pending n.
Proof. unfold drop_session. by destruct (registered_ _). Qed.

Lemma typed_failed s rooms n rooms' n' : failed s rooms n rooms' n' → typed_net n → typed_net n'.
Proof.
  intros (l & [Hl _] & _ & ->). eapply typed_quiet; [apply quiet_failed| |by apply posted_typed].
  simpl. by rewrite pending_drop.
Qed.

Lemma typed_dropped s rooms n rooms' n' : dropped s rooms n rooms' n' → typed_net n → typed_net n'.
Proof.
  intros (l & [Hl _] & _ & ->). eapply typed_quiet; [| |by apply posted_typed].
  - etrans; [apply (quiet_drop s)|apply quiet_send_all].
  - simpl. by rewrite pending_drop.
Qed.

Lemma typed_flags s f n : flags_only f → typed_net n → typed_net (set_session s f n).
Proof.
  intros Hf. eapply typed_quiet; [by apply quiet_set_session| |apply Forall_nil_2].
  by rewrite app_nil_r.
Qed.

Lemma typed_set_session s f n :
  (∀ x, typed_session x → typed_session (f x)) → typed_net n → typed_net (set_session s f n).
Proof.
  intros Hf [Hp Hs]. split; [done|]. intros s'. rewrite session_at_set.
  case_decide as Heq; [subst s'|apply Hs]. specialize (Hs s). unfold session_at in Hs.
  destruct (sessions n !! s); [by apply Hf|apply typed_blank].
Qed.

Lemma typed_do_write s n : typed_net n → typed_net (do_write s n).
Proof.
  intros Hn. unfold do_write. destruct (tn_sessions _ Hn s) as [_ Hq].
  destruct (write_queue_ (session_at n s)) as [|m q]; [done|].
  destruct (closing_ _); [done|]. apply typed_enqueue; [|done].
  by apply Forall_cons in Hq as [? _].
Qed.

Lemma typed_pushed s m n : server_message m → typed_net n → typed_net (pushed s m n).
Proof.
  intros Hm Hn. assert (Hp : typed_net (set_session s (queue_push m) n)).
  { apply typed_set_session; [|done]. intros x [Hx Hq].
    split; simpl; apply Forall_app; (split; [done|by apply Forall_singleton]). }
  unfold pushed. destruct (write_queue_ _); [by apply typed_do_write|done].
Qed.

Lemma typed_popped s m n : typed_net n → typed_net (popped s m n).
Proof.
  intros Hn. apply typed_do_write, typed_set_session; [|done].
  intros x [Hx Hq]. split; [done|]. simpl. destruct (write_queue_ x); [done|].
  by apply Forall_cons in Hq as [_ ?].
Qed.

Lemma typed_allocated tls n : typed_net n → typed_net (allocated tls n).
Proof.
  intros [Hp Hs]. split; [done|]. intros s. destruct (decide (s = next_session n)) as [->|Hne].
  - unfold session_at. simpl. rewrite lookup_insert_eq. apply typed_blank.
  - by rewrite allocated_session.
Qed.

Lemma typed_register s n : typed_net n → typed_net (register s n).
Proof.
  intros Hn. unfold register. apply typed_set_session; [by intros x|].
  by destruct Hn.
Qed.

Lemma typed_start ev n n0 :
  start_event ev n = Some n0 → typed_net n →
  typed_net n0 ∧ ∀ c, completion_of ev = Some c → typed_completion c.
Proof.
  intros Hst [Hp Hs]. pose proof (start_event_same _ _ _ Hst) as (_ & Hsess & _).
  assert (Hs0 : ∀ s, typed_session (session_at n0 s)).
  { intros s. unfold session_at. rewrite Hsess. apply Hs. }
  unfold start_event in Hst. destruct (completion_of ev) as [c|] eqn:Hc.
  - apply fmap_Some in Hst as (l & Hl%take_out_perm & ->). rewrite Hl in Hp.
    apply Forall_cons in Hp as [Hcp Hp]. split; [by split|]. by intros ? [= <-].
  - split; [|done]. split; [|done]. destruct ev; try (by injection Hst as <-).
    case_decide; [by injection Hst as <-|done].
Qed.

Lemma effect_typed tls ev rooms n n0 rooms' n' :
  start_event ev n = Some n0 → effect tls ev rooms n0 rooms' n' → typed_net n → typed_net n'.
Proof.
  intros Hst He Hn. destruct (typed_start ev n n0 Hst Hn) as [Hn0 Hc].
  destruct ev as [error|s error|s error|s result|s m error|s|s m|s is_open|s|]; simpl in He.
  - destruct He as [_ ->]. destruct (acceptor_open n0); [|done].
    destruct error; [by apply typed_enqueue|].
    apply typed_enqueue; [done|]. apply typed_enqueue; [by destruct tls|].
    by apply typed_allocated.
  - destruct error; [by eapply typed_failed|]. destruct He as [_ ->]. by apply typed_enqueue.
  - destruct error; [by eapply typed_failed|]. destruct He as [_ ->].
    apply typed_enqueue; [done|by apply typed_register].
  - destruct result as [| |m got_text]; [by eapply typed_dropped|by eapply typed_failed|].
    destruct He as (l & rid & Hl%one_answer_typed & _ & _ & ->). apply typed_enqueue; [done|].
    eapply typed_quiet; [apply quiet_send_all|done|by apply posted_typed|done].
  - destruct error; [by eapply typed_failed|]. destruct He as [_ ->]. by apply typed_popped.
  - by destruct He as [_ ->].
  - destruct He as [_ ->]. apply typed_pushed; [exact (Hc _ eq_refl)|done].
  - destruct (closing_ (session_at n0 s)); [by destruct He as [_ ->]|].
    destruct He as (n1 & Hd & ->).
    assert (Hn1 : typed_net n1).
    { eapply typed_dropped; [exact Hd|]. apply typed_flags; [apply flags_closing|done]. }
    destruct is_open; [by apply typed_enqueue|]. apply typed_flags;
      [apply flags_lowest_closed|done].
  - destruct He as [_ ->]. by apply typed_enqueue.
  - destruct He as [_ ->]. split; apply Hn0.
Qed.
End typed.

(** ** Only the listener's handler touches the listener *)

Section listening.
Context `{BucketOrder, JsonLaws, CodeDraws, IdDraws}.
Implicit Types (n : Net) (s : SessionPtr).

(** The outstanding accepts. *)
Definition accepts n : nat := length (filter (λ c, c = TcpAccept) (pending n)).

(** Whether new connections are accepted, and how many have been. *)
Definition listening n : bool * nat * nat := (acceptor_open n, accepts n, next_session n).

Lemma listening_enqueue_all n cs :
  Forall (λ c, c ≠ TcpAccept) cs → listening (enqueue_all cs n) = listening n.
Proof.
  intros Hcs. unfold listening, accepts. simpl. rewrite filter_app, length_app.
  assert (Hnil : filter (λ c, c = TcpAccept) cs = []).
  { induction Hcs as [|c cs Hc _ IH]; [done|]. by rewrite filter_cons, decide_False. }
  by rewrite Hnil, Nat.add_0_r.
Qed.

Lemma listening_enqueue c n : c ≠ TcpAccept → listening (enqueue c n) = listening n.
Proof. intros Hc. by apply (listening_enqueue_all n [c]), Forall_singleton. Qed.

Lemma listening_send_all l n : listening (send_all l n) = listening n.
Proof. apply listening_enqueue_all. unfold posted. by apply Forall_fmap, Forall_true. Qed.

Lemma listening_drop s n : listening (drop_session s n) = listening n.
Proof. unfold drop_session. by destruct (registered_ _). Qed.

Lemma listening_do_write s n : listening (do_write s n) = listening n.
Proof.
  unfold do_write. destruct (write_queue_ _); [done|]. destruct (closing_ _); [done|].
  by apply listening_enqueue.
Qed.

Lemma listening_failed s rooms n rooms' n' :
  failed s rooms n rooms' n' → listening n' = listening n.
Proof.
  intros (l & _ & _ & ->). unfold failed_net.
  etrans; [apply (listening_send_all l)|exact (listening_drop s (set_session s set_closing n))].
Qed.

Lemma listening_dropped s rooms n rooms' n' :
  dropped s rooms n rooms' n' → listening n' = listening n.
Proof. intros (l & _ & _ & ->). by rewrite listening_send_all, listening_drop. Qed.

Definition listener_event (ev : io_event) : bool :=
  match ev with EvTcpAccept _ | EvListenerStop => true | _ => false end.

Lemma effect_listening tls ev rooms n rooms' n' :
  listener_event ev = false → effect tls ev rooms n rooms' n' → listening n' = listening n.
Proof.
  intros Hev.
  destruct ev as [error|s error|s error|s result|s m error|s|s m|s is_open|s|]; try done; simpl.
  - destruct error; [by apply listening_failed|]. intros [_ ->]. by apply listening_enqueue.
  - destruct error; [by apply listening_failed|]. intros [_ ->].
    by apply (listening_enqueue (WebSocketRead s) (register s n)).
  - destruct result; [by apply listening_dropped|by apply listening_failed|].
    intros (l & rid & _ & _ & _ & ->). by rewrite listening_enqueue, listening_send_all.
  - destruct error; [by apply listening_failed|]. intros [_ ->].
    exact (listening_do_write s (set_session s (queue_pop m) n)).
  - by intros [_ ->].
  - intros [_ ->]. unfold pushed. destruct (write_queue_ _); [|done].
    exact (listening_do_write s (set_session s (queue_push m) n)).
  - destruct (closing_ _); [by intros [_ ->]|]. intros (n1 & Hd%listening_dropped & ->).
    destruct is_open; [by rewrite listening_enqueue|done].
  - intros [_ ->]. by apply listening_enqueue.
Qed.

Lemma start_accepts ev n n0 :
  start_event ev n = Some n0 →
  acceptor_open n0 = acceptor_open n ∧ next_session n0 = next_session n ∧
  accepts n = accepts n0 + match ev with EvTcpAccept _ => 1 | _ => 0 end.
Proof.
  intros Hst. unfold start_event in Hst. destruct (completion_of ev) as [c|] eqn:Hc.
  - apply fmap_Some in Hst as (l & Hl%take_out_perm & ->). split_and!; [done..|].
    unfold accepts. rewrite Hl, filter_cons. simpl.
    case_decide as Heq; destruct ev; simplify_eq/=; lia.
  - destruct ev; try done; [case_decide; [|done]|]; injection Hst as <-; split_and!; try done; lia.
Qed.
End listening.
