(* ===== verification/Progress.v ===== *)
(** * Progress: what is left to do only gets less

    A measure of the outstanding work of a network state, in two parts: the
    sessions that are or may still get registered, each of which may make the
    server post any number of messages when it goes; and the weight of the
    outstanding operations and queued messages.  Every event that brings nothing
    new from a client decreases it, but for an accept that fails. *)

From S2P Require Import Prelude Text UnorderedMap Room RoomRepository RoomService.
From S2P Require Import RoomServiceSpec Json ControlDispatcher ControlDispatcherSpec.
From S2P Require Import ProtocolCodec ProtocolCodecSpec SessionRegistry Session SessionSpec.
From S2P Require Import Server System SystemInv SystemRun SystemSafety MessageTypes Effects.

(** ** Sums over the sessions *)

Definition sum_below (k : nat) (f : nat → nat) : nat := sum_list_with f (seq 0 k).

Lemma sum_below_S k f : sum_below (S k) f = sum_below k f + f k.
Proof. unfold sum_below. rewrite seq_S, sum_list_with_app. simpl. lia. Qed.

Lemma sum_below_le k f g : (∀ i, i < k → g i ≤ f i) → sum_below k g ≤ sum_below k f.
Proof.
  induction k as [|k IH]; intros Hle; [done|]. rewrite !sum_below_S.
  pose proof (Hle k ltac:(lia)). specialize (IH ltac:(auto)). lia.
Qed.

(** A function that differs at one point. *)
Lemma sum_below_grow k f g s b :
  (∀ i, i ≠ s → g i ≤ f i) → g s ≤ f s + b → sum_below k g ≤ sum_below k f + b.
Proof.
  intros Hle Hs. induction k as [|k IH]; [unfold sum_below; simpl; lia|].
  rewrite !sum_below_S. destruct (decide (k = s)) as [->|Hne]; [|specialize (Hle k Hne); lia].
  pose proof (sum_below_le s f g ltac:(intros; apply Hle; lia)). lia.
Qed.

Lemma sum_below_drop k f g s a :
  s < k → (∀ i, i ≠ s → g i ≤ f i) → g s + a ≤ f s → sum_below k g + a ≤ sum_below k f.
Proof.
  intros Hk Hle Hs. induction k as [|k IH]; [lia|]. rewrite !sum_below_S.
  destruct (decide (k = s)) as [->|Hne].
  - pose proof (sum_below_le s f g ltac:(intros; apply Hle; lia)). lia.
  - specialize (Hle k Hne). specialize (IH ltac:(lia)). lia.
Qed.

(** ** The measure *)

(** Operations after which a session may get registered. *)
Definition entering (c : completion) : nat :=
  match c with TlsHandshake _ | WebSocketAccept _ => 1 | _ => 0 end.

(** More than what the handler may add at once. *)
Definition weight (c : completion) : nat :=
  match c with
  | TcpAccept => 0
  | TlsHandshake _ | PostedSend _ _ => 3
  | WebSocketAccept _ | PostedClose _ => 2
  | WebSocketRead _ | WebSocketWrite _ _ | WebSocketClose _ => 1
  end.

Section measure.
Context `{BucketOrder, JsonLaws, CodeDraws, IdDraws}.
Implicit Types (n : Net) (s : SessionPtr).

Definition registrations n : nat :=
  sum_below (next_session n) (λ s, if registered_ (session_at n s) then 1 else 0).

Definition queued n : nat :=
  sum_below (next_session n) (λ s, length (write_queue_ (session_at n s))).

Definition at_stake n : nat := sum_list_with entering (pending n) + registrations n.

Definition backlog n : nat := sum_list_with weight (pending n) + queued n.

(** [n'] has less to do than [n]. *)
Definition less n' n : Prop :=
  at_stake n' < at_stake n ∨ at_stake n' ≤ at_stake n ∧ backlog n' < backlog n.

Lemma less_wf : well_founded less.
Proof.
  intros n. remember (at_stake n) as a eqn:Ha. revert n Ha.
  induction a as [a IHa] using lt_wf_ind. intros n ->.
  remember (backlog n) as b eqn:Hb. revert n Hb IHa.
  induction b as [b IHb] using lt_wf_ind. intros n -> IHa.
  constructor. intros n' [Hlt|[Hle Hlt]]; [by eapply IHa|].
  destruct (decide (at_stake n' < at_stake n)) as [Hlt'|Hge]; [by eapply IHa|].
  apply (IHb _ Hlt n' eq_refl). intros m Hm. apply IHa. lia.
Qed.

(** Taking a handler out takes its weight. *)
Lemma start_measure ev c n n0 :
  completion_of ev = Some c → start_event ev n = Some n0 →
  at_stake n = entering c + at_stake n0 ∧ backlog n = weight c + backlog n0.
Proof.
  intros Hc Hst. unfold start_event in Hst. rewrite Hc in Hst.
  apply fmap_Some in Hst as (l & Hl%take_out_perm & ->).
  unfold at_stake, backlog. rewrite Hl. split; simpl; rewrite <- Nat.add_assoc; done.
Qed.

Lemma at_stake_quiet n n' cs :
  quiet n n' → pending n' = pending n ++ cs →
  at_stake n' ≤ at_stake n + sum_list_with entering cs.
Proof.
  intros Hq Hp. unfold at_stake, registrations. rewrite Hp, sum_list_with_app, (qu_next _ _ Hq).
  assert (Hle : ∀ k, sum_below k (λ s, if registered_ (session_at n' s) then 1 else 0) ≤
    sum_below k (λ s, if registered_ (session_at n s) then 1 else 0)).
  { intros k. apply sum_below_le. intros s _.
    destruct (registered_ (session_at n' s)) eqn:Hr; [|lia].
    by rewrite (qu_registered _ _ Hq _ Hr). }
  specialize (Hle (next_session n)). lia.
Qed.

Lemma backlog_quiet n n' cs :
  quiet n n' → pending n' = pending n ++ cs →
  backlog n' = backlog n + sum_list_with weight cs.
Proof.
  intros Hq Hp. unfold backlog, queued. rewrite Hp, sum_list_with_app, (qu_next _ _ Hq).
  assert (Heq : ∀ k, sum_below k (λ s, length (write_queue_ (session_at n' s))) =
    sum_below k (λ s, length (write_queue_ (session_at n s)))).
  { intros k. apply Nat.le_antisymm; apply sum_below_le; intros s _;
      pose proof (qu_core _ _ Hq s) as [= _ _ ->]; done. }
  rewrite Heq. lia.
Qed.

(** A session that is taken out of the registry: what it makes the server
    post is paid for by the registration. *)
Lemma parting_measure s rooms l n n' :
  net_ok n → quiet n n' → parting s rooms n l → pending n' = pending n ++ posted l →
  registered_ (session_at n' s) = false →
  at_stake n' < at_stake n ∨ at_stake n' ≤ at_stake n ∧ backlog n' = backlog n.
Proof.
  intros Hn Hq Hl Hp Hreg'. assert (Hent : sum_list_with entering (posted l) = 0).
  { unfold posted. clear. by induction l. }
  destruct (registered_ (session_at n s)) eqn:Hreg.
  - left. unfold at_stake, registrations. rewrite Hp, sum_list_with_app, Hent, (qu_next _ _ Hq).
    assert (sum_below (next_session n) (λ i, if registered_ (session_at n' i) then 1 else 0) + 1 ≤
      sum_below (next_session n) (λ i, if registered_ (session_at n i) then 1 else 0)); [|lia].
    apply sum_below_drop with s; [exact (registered_known _ _ Hn Hreg)| |by rewrite Hreg, Hreg'].
    intros i _. destruct (registered_ (session_at n' i)) eqn:Hr; [|lia].
    by rewrite (qu_registered _ _ Hq _ Hr).
  - right. rewrite (parting_none _ _ _ _ Hl Hreg) in Hp. split.
    + pose proof (at_stake_quiet _ _ _ Hq Hp) as Hle. simpl in Hle. lia.
    + rewrite (backlog_quiet _ _ _ Hq Hp). simpl. lia.
Qed.

(** ** Every event that brings nothing new makes progress *)

(** Events that are neither the end of an accept nor a message nor a call of
    [Close] or [Stop]. *)
Definition internal (ev : io_event) : bool :=
  match ev with
  | EvTcpAccept _ | EvCloseCall _ | EvListenerStop | EvWebSocketRead _ (ReadMessage _ _) =>
      false
  | _ => true
  end.

Lemma failed_measure s rooms n rooms' n' :
  net_ok n → failed s rooms n rooms' n' →
  at_stake n' < at_stake n ∨ at_stake n' ≤ at_stake n ∧ backlog n' = backlog n.
Proof.
  intros Hn (l & Hl & _ & ->).
  apply parting_measure with s rooms l; [done|apply quiet_failed|done| |].
  - simpl. by rewrite pending_drop.
  - apply failed_unregistered.
Qed.

Lemma dropped_measure s rooms n rooms' n' :
  net_ok n → dropped s rooms n rooms' n' →
  at_stake n' < at_stake n ∨ at_stake n' ≤ at_stake n ∧ backlog n' = backlog n.
Proof.
  intros Hn (l & Hl & _ & ->). apply parting_measure with s rooms l; [done| |done| |].
  - etrans; [apply (quiet_drop s)|apply quiet_send_all].
  - simpl. by rewrite pending_drop.
  - apply (drop_unregistered s n).
Qed.

(** A flag of a session, or one more operation. *)
Lemma enqueue_measure c n :
  at_stake (enqueue c n) = at_stake n + entering c ∧
  backlog (enqueue c n) = backlog n + weight c.
Proof.
  unfold at_stake, backlog. change (registrations (enqueue c n)) with (registrations n).
  change (queued (enqueue c n)) with (queued n). simpl. rewrite !sum_list_with_app. simpl.
  split; lia.
Qed.

Lemma register_measure s n :
  at_stake (register s n) ≤ at_stake n + 1 ∧ backlog (register s n) = backlog n.
Proof.
  unfold at_stake, backlog, registrations, queued.
  assert (Hat : ∀ i, session_at (register s n) i =
    session_at (set_session s (set_registered true) n) i) by done.
  split.
  - simpl. rewrite <- Nat.add_assoc. apply Nat.add_le_mono_l. apply sum_below_grow with s.
    + intros i Hi. by rewrite Hat, session_at_set_ne.
    + destruct (registered_ _); lia.
  - simpl. f_equal. apply Nat.le_antisymm; apply sum_below_le; intros i _;
      by rewrite Hat, (set_session_proj write_queue_).
Qed.

Lemma do_write_measure s n :
  at_stake (do_write s n) = at_stake n ∧ backlog (do_write s n) ≤ backlog n + 1 ∧
  (write_queue_ (session_at n s) = [] → backlog (do_write s n) = backlog n).
Proof.
  unfold do_write. destruct (write_queue_ (session_at n s)) as [|m q]; [by split_and!; [|lia|]|].
  destruct (closing_ _); [by split_and!; [|lia|]|].
  destruct (enqueue_measure (WebSocketWrite s m) n) as [-> ->]. simpl. split_and!; [lia..|done].
Qed.

(** A change of one session's queue. *)
Lemma queue_measure s f n :
  (∀ x, registered_ (f x) = registered_ x) →
  at_stake (set_session s f n) = at_stake n ∧
  (∀ b, length (write_queue_ (session_at (set_session s f n) s)) ≤
          length (write_queue_ (session_at n s)) + b →
        backlog (set_session s f n) ≤ backlog n + b) ∧
  (∀ a, s < next_session n →
        length (write_queue_ (session_at (set_session s f n) s)) + a ≤
          length (write_queue_ (session_at n s)) →
        backlog (set_session s f n) + a ≤ backlog n).
Proof.
  intros Hf. unfold at_stake, backlog, registrations, queued. split_and!.
  - simpl. f_equal. apply Nat.le_antisymm; apply sum_below_le; intros i _;
      by rewrite (set_session_proj registered_).
  - intros b Hb. simpl. rewrite <- Nat.add_assoc. apply Nat.add_le_mono_l.
    apply sum_below_grow with s; [|done]. intros i Hi. by rewrite session_at_set_ne.
  - intros a Hk Ha. simpl. rewrite <- Nat.add_assoc. apply Nat.add_le_mono_l.
    apply sum_below_drop with s; [done| |done]. intros i Hi. by rewrite session_at_set_ne.
Qed.

Lemma pushed_measure s m n :
  at_stake (pushed s m n) = at_stake n ∧ backlog (pushed s m n) ≤ backlog n + 2.
Proof.
  destruct (queue_measure s (queue_push m) n) as (Hs & Hb & _); [done|].
  assert (Hpush : backlog (set_session s (queue_push m) n) ≤ backlog n + 1).
  { apply Hb. rewrite session_at_set, decide_True by done. unfold session_at.
    destruct (sessions n !! s); simpl; [rewrite length_app; simpl; lia|lia]. }
  unfold pushed. destruct (write_queue_ (session_at n s)); [|lia].
  destruct (do_write_measure s (set_session s (queue_push m) n)) as (-> & Hd & _). lia.
Qed.

Lemma popped_measure s m n :
  s < next_session n → write_queue_ (session_at n s) ≠ [] →
  at_stake (popped s m n) = at_stake n ∧ backlog (popped s m n) ≤ backlog n.
Proof.
  intros Hk Hq. destruct (queue_measure s (queue_pop m) n) as (Hs & _ & Hb); [done|].
  specialize (Hb 1 Hk). unfold popped.
  destruct (do_write_measure s (set_session s (queue_pop m) n)) as (-> & Hd & _).
  split; [done|]. etrans; [exact Hd|]. apply Hb.
  rewrite session_at_set, decide_True by done. revert Hq. unfold session_at.
  destruct (sessions n !! s) as [x|]; simpl; [|done].
  destruct (write_queue_ x); simpl; [done|lia].
Qed.

(** The handler of a completed operation: it has to stay below its weight. *)
Lemma less_start ev c n n0 n' :
  completion_of ev = Some c → start_event ev n = Some n0 →
  at_stake n' < at_stake n0 ∨
    at_stake n' ≤ at_stake n0 + entering c ∧ backlog n' < backlog n0 + weight c →
  less n' n.
Proof.
  intros Hc Hst Hor. destruct (start_measure ev c n n0 Hc Hst) as [Ha Hb]. unfold less. lia.
Qed.

Lemma closed_measure s is_open rooms n rooms' n' tls :
  net_ok n → effect tls (EvPostedClose s is_open) rooms n rooms' n' →
  at_stake n' < at_stake n ∨ at_stake n' ≤ at_stake n ∧ backlog n' ≤ backlog n + 1.
Proof.
  intros Hn. simpl. destruct (closing_ (session_at n s)); [intros [_ ->]; lia|].
  intros (n1 & Hd & ->).
  assert (Hn1 : at_stake n1 < at_stake n ∨ at_stake n1 ≤ at_stake n ∧ backlog n1 ≤ backlog n).
  { destruct (queue_measure s set_closing n) as (Ha & Hb & _); [done|].
    specialize (Hb 0). rewrite (set_session_proj write_queue_) in Hb by done.
    specialize (Hb ltac:(lia)).
    destruct (dropped_measure s rooms (set_session s set_closing n) rooms' n1); [|done|lia..].
    exact (net_ok_same n _ (same_closing s n) Hn). }
  destruct is_open.
  - destruct (enqueue_measure (WebSocketClose s) n1) as [-> ->]. simpl. lia.
  - destruct (queue_measure s set_lowest_closed n1) as (-> & Hb & _); [done|].
    specialize (Hb 0). rewrite (set_session_proj write_queue_) in Hb by done.
    specialize (Hb ltac:(lia)). lia.
Qed.

(** An accept that fails leaves as much to do as before. *)
Lemma failed_accept_less tls rooms n n0 rooms' n' m :
  start_event (EvTcpAccept true) n = Some n0 →
  effect tls (EvTcpAccept true) rooms n0 rooms' n' → less m n' → less m n.
Proof.
  intros Hst [_ ->] Hm.
  destruct (start_measure (EvTcpAccept true) TcpAccept n n0 eq_refl Hst) as [Ha Hb].
  simpl in Ha, Hb. unfold less in *. destruct (negb (acceptor_open n0)); [lia|].
  destruct (enqueue_measure TcpAccept n0) as [Ha' Hb']. simpl in Ha', Hb'. lia.
Qed.

Lemma effect_less tls ev rooms n n0 rooms' n' :
  io_ok n → net_ok n0 → internal ev = true → start_event ev n = Some n0 →
  effect tls ev rooms n0 rooms' n' → less n' n.
Proof.
  intros Hio Hn Hin Hst He.
  assert (Hless : ∀ c, completion_of ev = Some c →
    at_stake n' < at_stake n0 ∨
      at_stake n' ≤ at_stake n0 + entering c ∧ backlog n' < backlog n0 + weight c → less n' n).
  { intros c Hc. exact (less_start ev c n n0 n' Hc Hst). }
  assert (Hfail : ∀ s c, completion_of ev = Some c → 0 < weight c →
    failed s rooms n0 rooms' n' → less n' n).
  { intros s c Hc Hw Hf. apply (Hless c Hc).
    destruct (failed_measure s rooms n0 rooms' n' Hn Hf); lia. }
  destruct ev as [error|s error|s error|s result|s m error|s|s m|s is_open|s|]; try done.
  - destruct error; simpl in He; [eapply Hfail; [done|simpl; lia|done]|].
    eapply Hless; [done|]. destruct He as [_ ->].
    destruct (enqueue_measure (WebSocketAccept s) n0) as [-> ->]. simpl. lia.
  - destruct error; simpl in He; [eapply Hfail; [done|simpl; lia|done]|].
    eapply Hless; [done|]. destruct He as [_ ->].
    destruct (enqueue_measure (WebSocketRead s) (register s n0)) as [-> ->].
    destruct (register_measure s n0) as [Ha ->]. simpl. lia.
  - destruct result as [| |m got_text]; simpl in He; [|eapply Hfail; [done|simpl; lia|done]|done].
    eapply Hless; [done|]. simpl. destruct (dropped_measure s rooms n0 rooms' n' Hn He); lia.
  - destruct error; simpl in He; [eapply Hfail; [done|simpl; lia|done]|].
    eapply Hless; [done|]. destruct He as [_ ->]. simpl.
    unfold start_event in Hst. simpl in Hst. apply fmap_Some in Hst as (l & Hl & ->).
    destruct (wk_front _ _ _ (start_write s m n l Hio Hl)) as [q Hq].
    destruct (popped_measure s m (set_pending l n)) as [-> Hb]; [|by rewrite Hq|lia].
    apply (net_known _ Hn). destruct (sessions (set_pending l n) !! s) eqn:Hx; [by eexists|].
    by rewrite (session_at_unknown _ s Hx) in Hq.
  - eapply Hless; [done|]. destruct He as [_ ->]. simpl. lia.
  - eapply Hless; [done|]. destruct He as [_ ->]. simpl.
    destruct (pushed_measure s m n0) as [-> Hb]. lia.
  - eapply Hless; [done|]. simpl.
    destruct (closed_measure s is_open rooms n0 rooms' n' tls Hn He); lia.
Qed.
End measure.
