(* ===== verification/Sending.v ===== *)
(** * Sending: the messages sent to a session, in their order

    [sent_to s n] lists what has been sent to a session so far: what was pushed
    on its queue, followed by what is posted to it.  [effect_sends] says what the
    handler of each event appends, by what the event means ([action_of]).  Nothing
    was assumed so far about the order in which the waiting handlers run; in
    [orderly] runs, and on the way to the [fifo_reachable] worlds, the lambdas
    posted to one session run in the order in which they were posted, as they do on
    an executor of one thread. *)

From S2P Require Import Prelude Text UnorderedMap Room RoomRepository RoomService.
From S2P Require Import RoomServiceSpec Json ControlDispatcher ControlDispatcherSpec.
From S2P Require Import ProtocolCodec ProtocolCodecSpec SessionRegistry Session SessionSpec.
From S2P Require Import Server System SystemInv SystemRun SystemSafety MessageTypes Effects.

(** ** What is posted *)

Section posted.
Implicit Types (s : SessionPtr) (l : list completion) (n : Net) (c : completion).

(** The messages posted to a session whose lambdas have not run. *)
Definition posted_to s l : list string :=
  omap (λ c, match c with
             | PostedSend s' m => if decide (s' = s) then Some m else None
             | _ => None
             end) l.

Lemma posted_to_perm s l l' : l ≡ₚ l' → posted_to s l ≡ₚ posted_to s l'.
Proof. unfold posted_to. by intros ->. Qed.

Lemma posted_to_app s l l' : posted_to s (l ++ l') = posted_to s l ++ posted_to s l'.
Proof. apply omap_app. Qed.

Lemma posted_to_do_write s s' n : posted_to s (pending (do_write s' n)) = posted_to s (pending n).
Proof.
  unfold do_write. destruct (write_queue_ _); [done|]. destruct (closing_ _); [done|].
  simpl. by rewrite posted_to_app, app_nil_r.
Qed.

Lemma posted_to_send_all s c (l : list (SessionPtr * string)) n :
  posted_to s [c] = [] →
  posted_to s (pending (enqueue c (send_all l n))) =
  posted_to s (pending n) ++ posted_to s (posted l).
Proof. intros Hc. simpl. by rewrite !posted_to_app, Hc, app_nil_r. Qed.

Lemma posted_to_posted s (l : list (SessionPtr * string)) m :
  m ∈ posted_to s (posted l) ↔ (s, m) ∈ l.
Proof.
  unfold posted_to, posted. rewrite list_elem_of_omap. split.
  - intros (c & Hc & Hm). apply list_elem_of_fmap in Hc as ([s' m'] & -> & Hin).
    simpl in Hm. case_decide; [|done]. by simplify_eq.
  - intros Hin. exists (PostedSend s m). rewrite decide_True by done. split; [|done].
    by apply (list_elem_of_fmap_2 (λ sm, PostedSend sm.1 sm.2) _ (s, m)).
Qed.

Lemma posted_to_elem s l m : m ∈ posted_to s l ↔ PostedSend s m ∈ l.
Proof.
  unfold posted_to. rewrite list_elem_of_omap. split.
  - intros (c & Hc & Hm). destruct c; try done. case_decide; [|done]. by simplify_eq.
  - intros Hin. exists (PostedSend s m). by rewrite decide_True.
Qed.

(** Taking a handler out keeps the order of the others. *)
Lemma posted_to_take_out s c l l' :
  take_out c l = Some l' → posted_to s [c] = [] → posted_to s l' = posted_to s l.
Proof.
  intros Hl Hc. revert l' Hl. induction l as [|c' l IH]; intros l' Hl; [done|]. simpl in Hl.
  change (c' :: l) with ([c'] ++ l). rewrite posted_to_app. case_decide as Heq.
  - injection Hl as <-. by rewrite Heq, Hc.
  - apply fmap_Some in Hl as (l1 & Hl1 & ->). change (c' :: l1) with ([c'] ++ l1).
    by rewrite posted_to_app, (IH l1 Hl1).
Qed.

Lemma posted_to_take_first s m l l' :
  take_out (PostedSend s m) l = Some l' → head (posted_to s l) = Some m →
  posted_to s l = m :: posted_to s l'.
Proof.
  revert l'. induction l as [|c l IH]; intros l' Hl Hm; [done|]. simpl in Hl.
  case_decide as Heq.
  - injection Hl as <-. rewrite Heq. cbn. by rewrite decide_True.
  - apply fmap_Some in Hl as (l1 & Hl1 & ->). change (c :: l) with ([c] ++ l) in Hm |- *.
    change (c :: l1) with ([c] ++ l1). rewrite posted_to_app in Hm |- *.
    rewrite posted_to_app. destruct (posted_to s [c]) as [|m' q] eqn:Hc; [by apply IH|].
    exfalso. assert (Hin : m ∈ posted_to s [c]).
    { rewrite Hc. simpl in Hm. injection Hm as ->. by left. }
    by apply posted_to_elem, list_elem_of_singleton in Hin.
Qed.
End posted.

(** ** What is sent *)

Section sent.
Context `{BucketOrder, JsonLaws, CodeDraws, IdDraws}.
Implicit Types (n : Net) (s : SessionPtr) (x : Session) (rooms : gmap RoomCode Room).

Definition sent_to s n : list string :=
  pushed_ (session_at n s) ++ posted_to s (pending n).

(** A posted lambda runs before those posted to the same session after it. *)
Definition in_order (ev : io_event) n : Prop :=
  match ev with
  | EvPostedSend s m => head (posted_to s (pending n)) = Some m
  | _ => True
  end.

(** [new] was sent to the session, in this order if the event is in order. *)
Definition appends (ev : io_event) n n' s (new : list string) : Prop :=
  sent_to s n' ≡ₚ sent_to s n ++ new ∧
  (in_order ev n → sent_to s n' = sent_to s n ++ new).

Lemma appends_eq ev n n' s new : sent_to s n' = sent_to s n ++ new → appends ev n n' s new.
Proof. intros Heq. by split; rewrite Heq. Qed.

Lemma sent_same n n' cs s :
  pushed_ (session_at n' s) = pushed_ (session_at n s) → pending n' = pending n ++ cs →
  sent_to s n' = sent_to s n ++ posted_to s cs.
Proof. intros Hs Hp. unfold sent_to. by rewrite Hs, Hp, posted_to_app, app_assoc. Qed.

Lemma sent_quiet n n' cs s :
  quiet n n' → pending n' = pending n ++ cs → sent_to s n' = sent_to s n ++ posted_to s cs.
Proof. intros Hq. apply sent_same. pose proof (qu_core _ _ Hq s) as [= -> _ _]. done. Qed.

Lemma sent_enqueue c n s : posted_to s [c] = [] → sent_to s (enqueue c n) = sent_to s n.
Proof. intros Hc. rewrite (sent_same n _ [c]) by done. by rewrite Hc, app_nil_r. Qed.

Lemma sent_set_session s' f n s :
  (∀ x, pushed_ (f x) = pushed_ x) → sent_to s (set_session s' f n) = sent_to s n.
Proof. intros Hf. unfold sent_to. by rewrite (set_session_proj pushed_). Qed.

Lemma sent_do_write s' n s : sent_to s (do_write s' n) = sent_to s n.
Proof. unfold sent_to. by rewrite session_at_do_write, posted_to_do_write. Qed.

Lemma sent_failed s' rooms n rooms' n' :
  failed s' rooms n rooms' n' →
  ∃ l, farewell s' n rooms l ∧ rooms' = drop_rooms s' n rooms ∧ n' = failed_net s' l n ∧
    ∀ s, sent_to s n' = sent_to s n ++ posted_to s (posted l).
Proof.
  intros (l & [_ Hl] & -> & ->). exists l. split_and!; [done..|]. intros s1.
  apply sent_quiet; [apply quiet_failed|]. simpl. by rewrite pending_drop.
Qed.

Lemma sent_dropped s' rooms n rooms' n' :
  dropped s' rooms n rooms' n' →
  ∃ l, farewell s' n rooms l ∧ rooms' = drop_rooms s' n rooms ∧
    n' = send_all l (drop_session s' n) ∧
    ∀ s, sent_to s n' = sent_to s n ++ posted_to s (posted l).
Proof.
  intros (l & [_ Hl] & -> & ->). exists l. split_and!; [done..|]. intros s1.
  apply sent_quiet; [etrans; [apply (quiet_drop s')|apply quiet_send_all]|].
  simpl. by rewrite pending_drop.
Qed.

(** ** Sessions are only added *)

Lemma dropped_next s rooms n rooms' n' :
  dropped s rooms n rooms' n' → next_session n' = next_session n.
Proof. intros (l & _ & _ & ->). exact (qu_next _ _ (quiet_drop s n)). Qed.

Lemma effect_next tls ev rooms n rooms' n' :
  effect tls ev rooms n rooms' n' → next_session n ≤ next_session n'.
Proof.
  assert (Hfail : ∀ s, failed s rooms n rooms' n' → next_session n ≤ next_session n').
  { intros s (l & _ & _ & ->). by rewrite (qu_next _ _ (quiet_failed s l n)). }
  destruct ev as [error|s error|s error|s result|s m error|s|s m|s is_open|s|]; simpl.
  - intros [_ ->]. destruct (acceptor_open n); [|done]. destruct error; [done|]. simpl. lia.
  - destruct error; [by apply Hfail|by intros [_ ->]].
  - destruct error; [by apply Hfail|by intros [_ ->]].
  - destruct result; [by intros ->%dropped_next|by apply Hfail|].
    by intros (l & rid & _ & _ & _ & ->).
  - destruct error; [by apply Hfail|]. intros [_ ->].
    by rewrite (sd_next _ _ (same_popped s m n)).
  - by intros [_ ->].
  - intros [_ ->]. by rewrite (sd_next _ _ (same_pushed s m n)).
  - destruct (closing_ _); [by intros [_ ->]|]. intros (n1 & Hd%dropped_next & ->).
    destruct is_open; simpl in *; by rewrite Hd.
  - by intros [_ ->].
  - by intros [_ ->].
Qed.

Lemma unique_ids_grow n n' : next_session n ≤ next_session n' → unique_ids n' → unique_ids n.
Proof.
  intros Hle Hu. unfold unique_ids in *.
  replace (next_session n') with (next_session n + (next_session n' - next_session n)) in Hu by lia.
  rewrite seq_app, fmap_app in Hu. by apply NoDup_app in Hu as [Hu _].
Qed.

(** ** What each event sends *)

Definition owner n s : ParticipantId := participant_id_ (session_at n s).

(** What an event means for a participant: his connection is upgraded, he sends a
    message, or his connection fails or is closed.  Events that only concern the
    listener, a handshake or the delivery of messages have no meaning of this
    kind; nor has a second [Close]. *)
Inductive action : Type :=
| Connects (pid : ParticipantId)
| Disconnects (pid : ParticipantId)
| Says (pid : ParticipantId) (message : string) (got_text : bool).

Definition action_of (ev : io_event) n : option action :=
  match ev with
  | EvWebSocketAccept s false => Some (Connects (owner n s))
  | EvWebSocketRead s (ReadMessage message got_text) =>
      Some (Says (owner n s) message got_text)
  | EvTlsHandshake s true | EvWebSocketAccept s true | EvWebSocketRead s _
  | EvWebSocketWrite s _ true => Some (Disconnects (owner n s))
  | EvPostedClose s _ =>
      if closing_ (session_at n s) then None else Some (Disconnects (owner n s))
  | _ => None
  end.

(** The outbox of a handler that ran from [rooms] and [n], by what the event means:
    empty if it leaves the rooms and the registry alone or registers a session,
    that of a message, or that of a session that is unregistered, if it was
    registered. *)
Inductive outbox_of (ev : io_event) rooms n
    : gmap RoomCode Room → Net → list (SessionPtr * string) → Prop :=
| outbox_none n' :
    action_of ev n = None → registry n' = registry n → outbox_of ev rooms n rooms n' []
| outbox_register s n' :
    action_of ev n = Some (Connects (owner n s)) →
    s < next_session n → registry n' = registry (register s n) →
    outbox_of ev rooms n rooms n' []
| outbox_absent s n' :
    action_of ev n = Some (Disconnects (owner n s)) → registered_ (session_at n s) = false →
    registry n' = registry n → outbox_of ev rooms n rooms n' []
| outbox_message s message got_text rooms' n' l :
    ev = EvWebSocketRead s (ReadMessage message got_text) → s < next_session n →
    handled s n message got_text rooms rooms' l →
    registry n' = registry n → (∀ s, owner n' s = owner n s) →
    outbox_of ev rooms n rooms' n' l
| outbox_farewell s n' l :
    action_of ev n = Some (Disconnects (owner n s)) →
    registered_ (session_at n s) = true → farewell s n rooms l →
    registry n' = registry (unregister s n) → (∀ s, owner n' s = owner n s) →
    outbox_of ev rooms n (leave_all (owner n s) rooms) n' l.

Lemma outbox_drop ev s rooms n n' l :
  action_of ev n = Some (Disconnects (owner n s)) → farewell s n rooms l →
  registry n' = registry (drop_session s n) →
  (∀ s, owner n' s = owner n s) → outbox_of ev rooms n (drop_rooms s n rooms) n' l.
Proof.
  intros Hact Hl Hreg Hown. unfold drop_rooms, drop_session, farewell in *.
  destruct (registered_ (session_at n s)) eqn:Hs; [|subst l; by eapply outbox_absent].
  apply outbox_farewell; [done..| |done|done]. unfold farewell. by rewrite Hs.
Qed.

Lemma owner_drop s n s' : owner (drop_session s n) s' = owner n s'.
Proof.
  unfold owner, drop_session. destruct (registered_ _); [|done]. by apply unregister_session.
Qed.

Lemma drop_session_registry s n n' :
  same_directory n n' → registry (drop_session s n') = registry (drop_session s n).
Proof.
  intros [Hr _ _ Hreg Hid _]. unfold drop_session. rewrite Hreg.
  destruct (registered_ _); [|done]. simpl. by rewrite Hr, Hid.
Qed.

Lemma outbox_failed ev s rooms n l :
  action_of ev n = Some (Disconnects (owner n s)) → farewell s n rooms l →
  outbox_of ev rooms n (drop_rooms s n rooms) (failed_net s l n) l.
Proof.
  intros Hact Hl. apply outbox_drop; [done..| |].
  - apply (drop_session_registry s n). apply same_closing.
  - intros s'. unfold failed_net, owner. rewrite (set_session_proj participant_id_) by done.
    change (owner (drop_session s (set_session s set_closing n)) s' = owner n s').
    rewrite owner_drop. unfold owner. by rewrite (set_session_proj participant_id_).
Qed.

(** What was sent before the handler ran. *)
Lemma sent_start ev n n0 s :
  start_event ev n = Some n0 → (∀ m, ev ≠ EvPostedSend s m) → sent_to s n0 = sent_to s n.
Proof.
  intros Hst Hev. pose proof (start_event_same _ _ _ Hst) as (_ & Hsess & _).
  unfold sent_to, session_at. rewrite Hsess. f_equal. unfold start_event in Hst.
  destruct (completion_of ev) as [c|] eqn:Hc.
  - apply fmap_Some in Hst as (l & Hl & ->). eapply posted_to_take_out; [exact Hl|].
    destruct ev as [| | | | | |s' m| | |]; try done; injection Hc as <-; try done.
    simpl. rewrite decide_False; [done|]. intros ->. by apply (Hev m).
  - destruct ev; try (by injection Hst as <-). case_decide; [by injection Hst as <-|done].
Qed.

Lemma posted_started s m n n0 :
  start_event (EvPostedSend s m) n = Some n0 → m ∈ posted_to s (pending n).
Proof.
  intros Hst. apply posted_to_elem. unfold start_event in Hst. simpl in Hst.
  apply fmap_Some in Hst as (l & Hl%take_out_perm & _). rewrite Hl. by left.
Qed.

Lemma sent_pushed s' m n s : s' ≠ s → sent_to s (pushed s' m n) = sent_to s n.
Proof.
  intros Hne. assert (Hs : sent_to s (set_session s' (queue_push m) n) = sent_to s n).
  { unfold sent_to. by rewrite session_at_set_ne. }
  unfold pushed. destruct (write_queue_ _); [by rewrite sent_do_write|done].
Qed.

(** A posted message moves to the queue. *)
Lemma posted_send_appends s m n n0 :
  start_event (EvPostedSend s m) n = Some n0 → is_Some (sessions n !! s) →
  appends (EvPostedSend s m) n (pushed s m n0) s [].
Proof.
  intros Hst Hk. unfold start_event in Hst. simpl in Hst. apply fmap_Some in Hst as (l & Hl & ->).
  assert (Hsent : sent_to s (pushed s m (set_pending l n)) =
    pushed_ (session_at n s) ++ m :: posted_to s l).
  { assert (Hp : sent_to s (set_session s (queue_push m) (set_pending l n)) =
      pushed_ (session_at n s) ++ m :: posted_to s l).
    { unfold sent_to. rewrite set_session_known by done. simpl. by rewrite <- app_assoc. }
    unfold pushed. destruct (write_queue_ _); [by rewrite sent_do_write|done]. }
  unfold appends. rewrite Hsent, app_nil_r. unfold sent_to. split.
  - f_equiv. apply take_out_perm in Hl. rewrite (posted_to_perm s _ _ Hl). cbn.
    by rewrite decide_True.
  - simpl. intros Hm. by rewrite (posted_to_take_first s m _ _ Hl Hm).
Qed.

(** The outbox is all that is sent. *)
Definition tells ev rooms n rooms' n' : Prop :=
  ∃ l, outbox_of ev rooms n rooms' n' l ∧
    ∀ s, sent_to s n' = sent_to s n ++ posted_to s (posted l).

Lemma tells_nothing ev rooms n rooms' n' :
  action_of ev n = None → rooms' = rooms → registry n' = registry n →
  (∀ s, sent_to s n' = sent_to s n) →
  tells ev rooms n rooms' n'.
Proof.
  intros Hact -> Hreg Hsent. exists []. split; [by apply outbox_none|].
  intros s. by rewrite Hsent, app_nil_r.
Qed.

Lemma tells_failed ev s rooms n rooms' n' :
  action_of ev n = Some (Disconnects (owner n s)) → failed s rooms n rooms' n' →
  tells ev rooms n rooms' n'.
Proof.
  intros Hact (l & Hl & -> & -> & Hsent)%sent_failed. exists l.
  split; [by apply outbox_failed|done].
Qed.

Lemma tells_dropped ev s rooms n rooms' n' :
  action_of ev n = Some (Disconnects (owner n s)) → dropped s rooms n rooms' n' →
  tells ev rooms n rooms' n'.
Proof.
  intros Hact (l & Hl & -> & -> & Hsent)%sent_dropped. exists l. split; [|done].
  apply outbox_drop; [done..|]. intros s'. apply owner_drop.
Qed.

Lemma tells_closed ev s rooms n rooms' n1 n' :
  action_of ev n = Some (Disconnects (owner n s)) →
  dropped s rooms (set_session s set_closing n) rooms' n1 →
  registry n' = registry n1 → (∀ s', owner n' s' = owner n1 s') →
  (∀ s', sent_to s' n' = sent_to s' n1) → tells ev rooms n rooms' n'.
Proof.
  intros Hact (l & Hl & -> & -> & Hsent)%sent_dropped Hreg Hown Hs. exists l.
  apply (proj1 (farewell_closing _ _ _ _)) in Hl.
  rewrite (drop_same_registered s n _ (same_closing s n)). split.
  - apply outbox_drop; [done..| |].
    + rewrite Hreg. apply (drop_session_registry s n), same_closing.
    + intros s'. rewrite Hown. change (owner (drop_session s (set_session s set_closing n)) s' =
        owner n s'). rewrite owner_drop. unfold owner.
      by rewrite (set_session_proj participant_id_).
  - intros s'. rewrite Hs, Hsent. by rewrite sent_set_session.
Qed.

Lemma sent_allocated tls n s : net_ok n → sent_to s (allocated tls n) = sent_to s n.
Proof.
  intros Hn. unfold sent_to. f_equal. destruct (decide (s = next_session n)) as [->|Hne].
  - rewrite (session_at_unknown n); [unfold session_at; simpl; by rewrite lookup_insert_eq|].
    apply eq_None_not_Some. rewrite (net_known _ Hn). lia.
  - by rewrite allocated_session.
Qed.

(** The session of a handshake, an accept or a read exists. *)
Definition stage_known (ev : io_event) n : Prop :=
  ∀ s c, completion_of ev = Some c → stage_of s c = true → s < next_session n.

Lemma start_known ev n n0 : io_ok n → start_event ev n = Some n0 → stage_known ev n0.
Proof.
  intros Hio Hst s c Hc Hs. unfold start_event in Hst. rewrite Hc in Hst.
  apply fmap_Some in Hst as (l & Hl & ->).
  exact (sk_known _ _ (proj1 (start_stage s c n l Hio Hl Hs))).
Qed.

Lemma effect_tells tls ev rooms n rooms' n' :
  net_ok n → stage_known ev n → (∀ s m, ev ≠ EvPostedSend s m) → effect tls ev rooms n rooms' n' →
  tells ev rooms n rooms' n'.
Proof.
  intros Hn Hk Hev He.
  destruct ev as [error|s error|s error|s result|s m error|s|s m|s is_open|s|]; simpl in He.
  - destruct He as [-> ->].
    apply tells_nothing; [done..|destruct (acceptor_open n), error; done|]. intros s.
    destruct (acceptor_open n); [|done]. destruct error; [by apply sent_enqueue|]. simpl.
    rewrite !sent_enqueue by (by destruct tls). by apply sent_allocated.
  - destruct error; [by eapply tells_failed|]. destruct He as [-> ->].
    apply tells_nothing; [done..|]. intros s'. by apply sent_enqueue.
  - destruct error; [by eapply tells_failed|]. destruct He as [-> ->]. exists []. split.
    { apply outbox_register with s; [done| |done].
      apply (Hk s (WebSocketAccept s)); [done|by apply bool_decide_eq_true_2]. }
    intros s'. rewrite sent_enqueue by done. unfold register. rewrite sent_set_session by done.
    by rewrite app_nil_r.
  - destruct result as [| |m got_text]; [by eapply tells_dropped|by eapply tells_failed|].
    destruct He as (l & rid & _ & _ & Hh & ->). exists l. split.
    { eapply outbox_message; [done| |done..].
      apply (Hk s (WebSocketRead s)); [done|by apply bool_decide_eq_true_2]. }
    intros s'. rewrite sent_enqueue by done. by apply sent_quiet; [apply quiet_send_all|].
  - destruct error; [by eapply tells_failed|]. destruct He as [-> ->]. apply tells_nothing;
      [done..|by apply sd_registry, same_popped|]. intros s'. unfold popped.
    rewrite sent_do_write. by apply sent_set_session.
  - destruct He as [-> ->]. by apply tells_nothing.
  - by destruct (Hev s m).
  - destruct (closing_ (session_at n s)) eqn:Hcl;
      [destruct He as [-> ->]; apply tells_nothing; [simpl; by rewrite Hcl|done..]|].
    destruct He as (n1 & Hd & ->).
    eapply tells_closed; [simpl; by rewrite Hcl|exact Hd|..]; destruct is_open; try done.
    + intros s'. unfold owner. by rewrite (set_session_proj participant_id_).
    + intros s'. by apply sent_enqueue.
    + intros s'. by apply sent_set_session.
  - destruct He as [-> ->]. apply tells_nothing; [done..|]. intros s'. by apply sent_enqueue.
  - destruct He as [-> ->]. by apply tells_nothing.
Qed.

Lemma is_posted_send ev : {s & {m | ev = EvPostedSend s m}} + {∀ s m, ev ≠ EvPostedSend s m}.
Proof. destruct ev; try (by right). left. eauto. Qed.

Lemma effect_sends tls ev rooms n n0 rooms' n' :
  start_event ev n = Some n0 → io_ok n → net_ok n0 → effect tls ev rooms n0 rooms' n' →
  ∃ l, outbox_of ev rooms n0 rooms' n' l ∧
    ∀ s, is_Some (sessions n' !! s) ∨ sent_to s n = [] →
      appends ev n n' s (posted_to s (posted l)).
Proof.
  intros Hst Hio Hn He. destruct (is_posted_send ev) as [(s & m & ->)|Hev].
  - destruct He as [-> ->]. exists [].
    split; [by apply outbox_none; [|apply sd_registry, same_pushed]|]. intros s' Hk.
    destruct (decide (s = s')) as [<-|Hne].
    + apply posted_send_appends; [done|]. destruct Hk as [Hk|Hnil].
      * pose proof (start_event_same _ _ _ Hst) as (_ & <- & _).
        by apply (sd_known _ _ (same_pushed s m n0) s).
      * exfalso. apply (posted_started s m n n0) in Hst. apply app_eq_nil in Hnil as [_ Hnil].
        rewrite Hnil in Hst. by apply elem_of_nil in Hst.
    + apply appends_eq. rewrite app_nil_r, sent_pushed by done.
      apply (sent_start (EvPostedSend s m)); [done|]. intros m' [= Heq _]. by apply Hne.
  - destruct (effect_tells tls ev rooms n0 rooms' n' Hn (start_known _ _ _ Hio Hst) Hev He)
      as (l & Hl & Hsent). exists l.
    split; [done|]. intros s _. apply appends_eq. rewrite Hsent. f_equal.
    by apply (sent_start ev n n0).
Qed.
End sent.

(** ** Posted lambdas run in order *)

Section fifo.
Context `{BucketOrder, JsonLaws, CodeDraws, IdDraws} {R : Type} `{!RoomRepository R}.
Context (tls : bool).

(** The worlds reached without late reads when the lambdas posted to a session
    run in the order in which they were posted. *)
Inductive fifo_reachable (repository : R) : world → Prop :=
| fifo_start : fifo_reachable repository (start_world repository)
| fifo_step v n ev w :
    fifo_reachable repository (Running v n) → in_order ev n →
    ¬ late_read ev (Running v n) → step tls (Running v n) ev w →
    fifo_reachable repository w.

(** Every lambda that runs in the events is one that is in order. *)
Fixpoint orderly (evs : list io_event) (w : world (R := R)) : Prop :=
  match evs, w with
  | ev :: evs, Running _ n =>
      in_order ev n ∧
      match run_event tls ev w with Some w => orderly evs w | None => True end
  | _, _ => True
  end.

Lemma fifo_reachable_strict repository w :
  fifo_reachable repository w → reachable tls true repository w.
Proof.
  induction 1 as [|v n ev w _ IH _ Hlate Hstep]; [by apply reachable_start|].
  by eapply reachable_step; [exact IH|exact Hstep|intros _].
Qed.
End fifo.
