(* ===== verification/Signaling.v ===== *)
(** * Signaling: the service that the server provides, in the abstract

    [service_step] is the specification of the whole server: rooms, participants
    that are online, and the notices that each action - somebody connects,
    disconnects or says something - sends to participants.  There are no sessions,
    no registry, no texts sent, no queues and no waiting handlers; a message is
    [understood] as a request, which is answered by [dispatch_spec], or refused.
    The lemmas relate the
    outboxes of the handlers to the notices: [carries] says that a message to a
    session is the text of a notice to the participant of the session. *)

From S2P Require Import Prelude Text UnorderedMap Room RoomRepository RoomService.
From S2P Require Import RoomServiceSpec Json ControlDispatcher ControlDispatcherSpec.
From S2P Require Import ProtocolCodec ProtocolCodecSpec SessionRegistry Session SessionSpec.
From S2P Require Import Server System SystemInv SystemRun SystemSafety MessageTypes Effects.
From S2P Require Import Sending.

(** ** The service *)

Section service.
Context `{JsonLaws, CodeDraws}.
Implicit Types (rooms : gmap RoomCode Room) (on : gset ParticipantId) (pid : ParticipantId).

(** What a participant is told: the answer to a request, that somebody joined or
    left, a signal of another participant, or that a message was refused. *)
Inductive notice : Type :=
| Answered (r : ControlDispatcherResponse)
| Happened (e : ControlDispatcherEvent)
| Signalled (x : SignalingResponse)
| Refused (args : option RequestMeta * string * option string).

Definition notice_text (x : notice) : outcome exception string :=
  match x with
  | Answered r => EncodeResponse r
  | Happened e => EncodeEvent e
  | Signalled x => EncodeSignalingEvent x
  | Refused args => encode_error args
  end.

Record service : Type := MkService {
  open_rooms : gmap RoomCode Room;
  online : gset ParticipantId
}.

(** Who joined is not told so, nor is anybody who is not online. *)
Definition concerned on (e : ControlDispatcherEvent) (p : Participant) : Prop :=
  GetId p ∈ on ∧
  match e with
  | JoinedRoomEvent _ joined _ => GetId p ≠ GetId joined
  | LeftRoomEvent _ _ _ => True
  end.

#[export] Instance concerned_decision on e p : Decision (concerned on e p).
Proof. unfold concerned. destruct e; apply _. Defined.

Definition event_notices on (e : ControlDispatcherEvent) : list (ParticipantId * notice) :=
  (λ p, (GetId p, Happened e)) <$> filter (concerned on e) (event_receivers e).

Definition result_notices on pid (result : ControlDispatcherResult)
    : list (ParticipantId * notice) :=
  let all := (pid, Answered (response result)) :: (events result ≫= event_notices on) in
  match response result with
  | SuccessResponse m (SignalingResponseAlt x) =>
      if decide (target_participant_id x ∈ on) then (target_participant_id x, Signalled x) :: all
      else [(pid, Answered (ErrorResponse m ParticipantUnavailableResponse))]
  | _ => all
  end.

(** What each action does.  Whoever says something need not be online: a message
    may be handled after its sender has left. *)
Inductive service_step (a : service)
    : action → service → list (ParticipantId * notice) → Prop :=
| service_connects pid :
    service_step a (Connects pid) (MkService (open_rooms a) ({[pid]} ∪ online a)) []
| service_disconnects pid codes :
    pid ∈ online a → codes ≡ₚ room_codes (open_rooms a) →
    let on := online a ∖ {[pid]} in
    service_step a (Disconnects pid) (MkService (leave_all pid (open_rooms a)) on)
      (omap (disconnect_event pid (open_rooms a)) codes ≫= event_notices on)
| service_absent pid : pid ∉ online a → service_step a (Disconnects pid) a []
| service_asked pid message got_text request g :
    understood pid message got_text = inl request →
    let answer := dispatch_spec request (open_rooms a) g in
    service_step a (Says pid message got_text) (MkService answer.2.1 (online a))
      (result_notices (online a) pid answer.1)
| service_refused pid message got_text args :
    understood pid message got_text = inr args →
    service_step a (Says pid message got_text) a [(pid, Refused args)].

(** What an event does that may have no meaning for the service. *)
Definition service_acts (a : service) (act : option action) (a' : service)
    (new : list (ParticipantId * notice)) : Prop :=
  match act with
  | Some act => service_step a act a' new
  | None => a' = a ∧ new = []
  end.

(** The states that a list of actions leads to from the empty service, with all
    notices sent. *)
Inductive service_run : list action → service → list (ParticipantId * notice) → Prop :=
| service_start : service_run [] (MkService ∅ ∅) []
| service_next acts act a a' told new :
    service_run acts a told → service_step a act a' new →
    service_run (acts ++ [act]) a' (told ++ new).

Lemma service_goes_on acts act a a' told new :
  service_run acts a told → service_acts a act a' new →
  service_run (acts ++ option_list act) a' (told ++ new).
Proof.
  intros Hrun Hact. destruct act as [act|]; [by eapply service_next|].
  destruct Hact as [-> ->]. by rewrite !app_nil_r.
Qed.

Definition notices_to pid (told : list (ParticipantId * notice)) : list notice :=
  omap (λ px, if decide (px.1 = pid) then Some px.2 else None) told.

Lemma notices_to_app pid told told' :
  notices_to pid (told ++ told') = notices_to pid told ++ notices_to pid told'.
Proof. apply omap_app. Qed.
End service.

(** ** Outboxes carry notices *)

Section carrying.
Context `{BucketOrder, JsonLaws, CodeDraws, IdDraws}.
Context (who : SessionPtr → ParticipantId) (k : nat) (reg : Registry).
Hypothesis (Hreg : ∀ pid s, to_gmap reg !! pid = Some s → s < k ∧ who s = pid).
Implicit Types (s : SessionPtr) (l : list (SessionPtr * string)).

(** A message to a known session with the text of a notice to its participant. *)
Definition carries (sm : SessionPtr * string) (px : ParticipantId * notice) : Prop :=
  sm.1 < k ∧ who sm.1 = px.1 ∧ notice_text px.2 = Ret sm.2.

Abbreviation on := (dom (to_gmap reg)).

Lemma found_carries pid s t x :
  to_gmap reg !! pid = Some s → notice_text x = Ret t → carries (s, t) (pid, x).
Proof. by intros [Hk Hw]%Hreg Ht. Qed.

Lemma event_carries e :
  event_ok e → Forall2 carries (event_outbox reg e) (event_notices on e).
Proof.
  intros Hok. destruct (EncodeEvent_Ret e Hok) as [t Ht].
  unfold event_outbox, event_targets, event_notices. rewrite Ht. simpl.
  induction (event_receivers e) as [|p ps IH]; [done|]. cbn [omap list_omap].
  rewrite filter_cons.
  assert (Hskip : skips_receiver e p = false ∧ is_Some (to_gmap reg !! GetId p) ↔
    concerned on e p).
  { unfold concerned. rewrite elem_of_dom. destruct e; simpl; [|naive_solver].
    rewrite bool_decide_eq_false. naive_solver. }
  rewrite RegistryFind_eq. destruct (skips_receiver e p) eqn:Hs.
  - rewrite decide_False; [done|]. by intros [? _]%Hskip.
  - destruct (to_gmap reg !! GetId p) as [s|] eqn:Hp.
    + rewrite decide_True by (apply Hskip; eauto). constructor; [|done].
      by apply found_carries.
    + rewrite decide_False; [done|]. by intros [_ [? ?]]%Hskip.
Qed.

Lemma events_carry es :
  Forall event_ok es → Forall2 carries (events_outbox reg es) (es ≫= event_notices on).
Proof.
  intros Hes. unfold events_outbox. induction Hes as [|e es He _ IH]; [by constructor|].
  simpl. apply Forall2_app; [by apply event_carries|done].
Qed.

Lemma response_carries s r :
  s < k → response_ok r → carries (s, response_text r) (who s, Answered r).
Proof.
  intros Hk Hok. destruct (EncodeResponse_Ret r Hok) as [t Ht]. split; [done|].
  split; [done|]. simpl. unfold response_text. by rewrite Ht.
Qed.

Lemma result_carries s result :
  s < k → result_ok result →
  Forall2 carries (handler_outbox reg s result) (result_notices on (who s) result).
Proof.
  intros Hk [Hr He]. pose proof (events_carry _ He) as Hes.
  unfold handler_outbox, respond_outbox, result_notices.
  assert (Hall : Forall2 carries ((s, response_text (response result)) ::
      events_outbox reg (events result))
    ((who s, Answered (response result)) :: (events result ≫= event_notices on))).
  { constructor; [by apply response_carries|done]. }
  destruct (response result) as [m p|m e]; [|done]. destruct p as [r|r|code|x]; try done.
  destruct Hr as [Hm Hsig]. simpl in Hm, Hsig. rewrite RegistryFind_eq.
  destruct (to_gmap reg !! target_participant_id x) as [s'|] eqn:Htarget.
  - rewrite decide_True by (apply elem_of_dom; eauto). constructor; [|done].
    destruct (EncodeSignalingEvent_Ret x Hsig) as [t Ht].
    apply found_carries; [done|]. simpl. by rewrite Ht.
  - rewrite decide_False by by apply not_elem_of_dom. constructor; [|done].
    apply response_carries; [done|by split].
Qed.
End carrying.

(** ** A handler is a step of the service *)

Section simulation.
Context `{BucketOrder, JsonLaws, CodeDraws, IdDraws}.
Implicit Types (n : Net) (s : SessionPtr) (rooms : gmap RoomCode Room).
Implicit Types (l : list (SessionPtr * string)).

(** What the stored rooms and the network state stand for. *)
Definition service_of rooms n : service := MkService rooms (dom (to_gmap (registry n))).

Lemma online_register s n :
  net_ok n →
  dom (to_gmap (registry (register s n))) = {[owner n s]} ∪ dom (to_gmap (registry n)).
Proof.
  intros Hn. unfold register, set_registry, set_session. cbn [registry].
  rewrite RegistryAdd_eq by apply Hn. by rewrite dom_insert_L.
Qed.

Lemma online_unregister s n :
  dom (to_gmap (registry (unregister s n))) = dom (to_gmap (registry n)) ∖ {[owner n s]}.
Proof. unfold unregister. simpl. by rewrite RegistryRemove_eq, dom_delete_L. Qed.

Lemma registry_known n pid s :
  net_ok n → to_gmap (registry n) !! pid = Some s → s < next_session n ∧ owner n s = pid.
Proof.
  intros Hn [Hreg Hid]%(net_registry _ Hn). split; [by apply registered_known|done].
Qed.

Lemma handled_step s message got_text rooms rooms' n l :
  service_inv rooms → net_ok n → s < next_session n →
  handled s n message got_text rooms rooms' l →
  ∃ new, service_step (service_of rooms n) (Says (owner n s) message got_text)
      (service_of rooms' n) new ∧
    Forall2 (carries (owner n) (next_session n)) l new.
Proof.
  intros Hs Hn Hk Hh. pose proof (session_at_id n s Hn) as Hpid.
  pose proof (λ pid s, registry_known n pid s Hn) as Hreg.
  destruct Hh as [request g Hreq|args t Hargs Ht].
  - pose proof (understood_request _ _ _ _ Hreq) as [_ Hdec].
    destruct (decode_ok _ _ _ Hpid Hdec) as (Hok & Hm & Hcmd).
    destruct (dispatch_ok request rooms g (inv_texts _ Hs) Hm Hcmd) as [Hres _].
    eexists. split; [by apply service_asked|]. by apply result_carries.
  - eexists. split; [by eapply service_refused|]. by repeat constructor.
Qed.

Lemma farewell_step s rooms n l :
  service_inv rooms → net_ok n → (unique_ids n → registry_complete n) → unique_ids n →
  registered_ (session_at n s) = true → farewell s n rooms l →
  ∃ new, service_step (service_of rooms n) (Disconnects (owner n s))
      (MkService (leave_all (owner n s) rooms) (dom (to_gmap (registry (unregister s n))))) new ∧
    Forall2 (carries (owner n) (next_session n)) l new.
Proof.
  intros Hs Hn Hc Hu Hreg Hl. unfold farewell in Hl. rewrite Hreg in Hl.
  destruct Hl as (codes & Hcodes & ->). rewrite online_unregister. eexists. split.
  - apply (service_disconnects (service_of rooms n) (owner n s) codes); [|done].
    simpl. apply elem_of_dom. exists s. by apply Hc.
  - simpl. rewrite <- online_unregister. apply events_carry.
    + intros pid s'. simpl. rewrite RegistryRemove_eq. intros [_ Hf]%lookup_delete_Some.
      by apply registry_known.
    + apply disconnect_events_ok; [apply Hs|by apply session_at_id].
Qed.

Lemma owner_inj n s s' :
  net_ok n → unique_ids n → s < next_session n → s' < next_session n →
  owner n s = owner n s' → s = s'.
Proof.
  intros Hn Hu Hs Hs'. unfold owner. rewrite !(net_ids _ Hn) by done.
  intros Heq%format_participant_id_inj. by apply (unique_ids_inj n).
Qed.

(** The participant of a session that is not registered is not online. *)
Lemma unregistered_absent n s :
  net_ok n → unique_ids n → registered_ (session_at n s) = false →
  owner n s ∉ dom (to_gmap (registry n)).
Proof.
  intros Hn Hu Hreg [s' Hs']%elem_of_dom. destruct (registry_known n _ s' Hn Hs') as [Hk' Hid].
  destruct (decide (s < next_session n)) as [Hk|Hge].
  - apply (owner_inj n) in Hid as ->; [|done..].
    apply (net_registry _ Hn) in Hs' as [Hreg' _]. congruence.
  - rewrite <- (net_known _ Hn) in Hge. apply eq_None_not_Some in Hge. unfold owner in Hid.
    by rewrite (net_ids _ Hn s' Hk'), (session_at_unknown n s Hge) in Hid.
Qed.

Lemma carries_owner n n' l new :
  (∀ s, s < next_session n → owner n' s = owner n s) →
  Forall2 (carries (owner n) (next_session n)) l new →
  Forall2 (carries (owner n') (next_session n)) l new.
Proof.
  intros Hown Hl. eapply Forall2_impl; [exact Hl|]. intros sm px (Hk & Hw & Ht).
  split_and!; [done|by rewrite Hown|done].
Qed.

(** The simulation: what a handler does to the rooms and the registry is the step
    of the service for what the event means, and what it sends are the notices of
    the step. *)
Lemma outbox_step strict ev rooms n rooms' n' l :
  directory_ok strict rooms n → unique_ids n →
  (∀ s, s < next_session n → owner n' s = owner n s) → outbox_of ev rooms n rooms' n' l →
  ∃ new, service_acts (service_of rooms n) (action_of ev n) (service_of rooms' n') new ∧
    Forall2 (carries (owner n') (next_session n)) l new.
Proof.
  intros [Hs Hn Hc _] Hu Hown Hout. revert Hown. unfold service_of.
  destruct Hout as [n1 Hact ->|s n1 Hact Hk ->|s n1 Hact Hreg ->
    |s message got_text rooms1 n1 l1 -> Hk Hh -> _|s n1 l1 Hact Hreg Hl -> _]; intros Hown.
  - exists []. by rewrite Hact.
  - exists []. rewrite Hact, online_register by done. split; [|done].
    by apply (service_connects (MkService rooms _)).
  - exists []. rewrite Hact. split; [|done]. apply service_absent.
    by apply unregistered_absent.
  - destruct (handled_step s message got_text rooms rooms1 n l1 Hs Hn Hk Hh) as (new & Hst & Hnew).
    exists new. split; [exact Hst|by eapply carries_owner].
  - destruct (farewell_step s rooms n l1 Hs Hn Hc Hu Hreg Hl) as (new & Hst & Hnew).
    exists new. rewrite Hact. split; [exact Hst|by eapply carries_owner].
Qed.

(** ** What was sent are the notices of a run *)

(** Each session has been sent the texts of the notices to its participant -
    in their order if [ordered] - and nobody else has been told anything. *)
Record explained (ordered : bool) n (told : list (ParticipantId * notice)) : Prop := {
  ex_sent s : s < next_session n → ∃ ts,
    Forall2 (λ x t, notice_text x = Ret t) (notices_to (owner n s) told) ts ∧
    if ordered then sent_to s n = ts else sent_to s n ≡ₚ ts;
  ex_silent s : next_session n ≤ s → sent_to s n = [];
  ex_known pid x : (pid, x) ∈ told → ∃ s, s < next_session n ∧ owner n s = pid
}.

(** The messages to a session carry the notices to its participant. *)
Lemma carries_notices n k s l new :
  net_ok n → unique_ids n → k ≤ next_session n → s < next_session n →
  Forall2 (carries (owner n) k) l new →
  Forall2 (λ x t, notice_text x = Ret t) (notices_to (owner n s) new) (posted_to s (posted l)).
Proof.
  intros Hn Hu Hle Hs Hl. induction Hl as [|[s1 t] [pid x] l new (Hk & Hw & Ht) _ IH]; [done|].
  simpl in *. destruct (decide (s1 = s)) as [->|Hne].
  - rewrite decide_True by done. by constructor.
  - rewrite decide_False; [done|]. intros Heq. apply Hne.
    apply (owner_inj n); [done..|lia|done|congruence].
Qed.

Lemma notices_to_nobody pid told :
  (∀ x, (pid, x) ∉ told) → notices_to pid told = [].
Proof.
  intros Hno. destruct (notices_to pid told) as [|x q] eqn:Heq; [done|]. exfalso.
  assert (Hin : x ∈ notices_to pid told) by (rewrite Heq; by left).
  unfold notices_to in Hin. rewrite list_elem_of_omap in Hin. destruct Hin as ([pid' y] & Hin & Hx).
  simpl in Hx. case_decide; simplify_eq. by apply (Hno x).
Qed.

Lemma explained_start ordered : explained ordered (enqueue TcpAccept empty_net) [].
Proof.
  split; [intros s Hs; simpl in Hs; lia| |by intros pid x ?%elem_of_nil].
  intros s _. unfold sent_to. by rewrite session_at_unknown by apply lookup_empty.
Qed.

(** A step of the network state sends the notices [new] of a step of the service,
    as the texts [l]. *)
Record explains (ordered : bool) n n' l (new : list (ParticipantId * notice)) : Prop := {
  xp_grows : next_session n ≤ next_session n';
  xp_owner s : s < next_session n → owner n' s = owner n s;
  xp_carries : Forall2 (carries (owner n') (next_session n)) l new;
  xp_sent s : s < next_session n' ∨ sent_to s n = [] →
    if ordered then sent_to s n' = sent_to s n ++ posted_to s (posted l)
    else sent_to s n' ≡ₚ sent_to s n ++ posted_to s (posted l)
}.

Lemma explained_sent ordered n n' l told new s :
  net_ok n' → unique_ids n' → explained ordered n told → explains ordered n n' l new →
  s < next_session n' → ∃ ts,
    Forall2 (λ x t, notice_text x = Ret t) (notices_to (owner n' s) (told ++ new)) ts ∧
    if ordered then sent_to s n' = ts else sent_to s n' ≡ₚ ts.
Proof.
  intros Hn' Hu [Hsent Hsilent Hknown] [Hle Hown Hl Hxp] Hs.
  pose proof (carries_notices n' _ s l new Hn' Hu Hle Hs Hl) as Hnew.
  specialize (Hxp s (or_introl Hs)). rewrite notices_to_app.
  destruct (decide (s < next_session n)) as [Hlt|Hge].
  - destruct (Hsent s Hlt) as (ts & Hts & Hor). exists (ts ++ posted_to s (posted l)).
    rewrite Hown by done. split; [apply Forall2_app; [done|by rewrite <- Hown]|].
    destruct ordered; by rewrite Hxp, Hor.
  - exists (posted_to s (posted l)). rewrite notices_to_nobody.
    + split; [done|]. rewrite (Hsilent s) in Hxp by lia. by destruct ordered.
    + intros x (s' & Hs' & Hw)%Hknown. rewrite <- Hown in Hw by done.
      apply (owner_inj n') in Hw as ->; [|done..|lia|done]. lia.
Qed.

Lemma explained_next ordered n n' l told new :
  net_ok n' → unique_ids n' → explained ordered n told → explains ordered n n' l new →
  explained ordered n' (told ++ new).
Proof.
  intros Hn' Hu Hex Hxp. pose proof Hex as [_ Hsilent Hknown].
  pose proof Hxp as [Hle Hown Hl Hsent].
  split.
  - intros s. by eapply explained_sent.
  - intros s Hs. assert (Hnil : sent_to s n = []) by (apply Hsilent; lia).
    assert (Hnone : posted_to s (posted l) = []).
    { destruct (posted_to s (posted l)) as [|t q] eqn:Heq; [done|].
      assert (Hin : (s, t) ∈ l) by (apply posted_to_posted; rewrite Heq; by left).
      apply list_elem_of_lookup_1 in Hin as (i & Hi).
      destruct (Forall2_lookup_l _ _ _ _ _ Hl Hi) as (px & _ & Hk & _). simpl in Hk. lia. }
    specialize (Hsent s (or_intror Hnil)). rewrite Hnil, Hnone in Hsent. simpl in Hsent.
    destruct ordered; [done|]. by apply Permutation_nil_r.
  - intros pid x [Hin|Hin]%elem_of_app.
    + destruct (Hknown pid x Hin) as (s & Hs & Hw). exists s.
      rewrite Hown by done. split; [lia|done].
    + apply list_elem_of_lookup_1 in Hin as (i & Hi).
      destruct (Forall2_lookup_r _ _ _ _ _ Hl Hi) as (sm & _ & Hk & Hw & _).
      exists sm.1. split; [lia|done].
Qed.
End simulation.

(** ** What the events of a run mean *)

Section meaning.
Context `{BucketOrder, Json, CodeDraws, IdDraws} {R : Type} `{!RoomRepository R}.
Context (tls : bool).

Fixpoint actions (evs : list io_event) (w : world (R := R)) : list action :=
  match evs, w with
  | ev :: evs, Running _ n =>
      option_list (action_of ev n) ++
      match run_event tls ev w with Some w => actions evs w | None => [] end
  | _, _ => []
  end.
End meaning.
