(* ===== verification/LifeCycle.v ===== *)
(** * LifeCycle: a session from its connection to its end

    [life] is the state machine of a session: it is accepted, shakes hands,
    upgrades to a WebSocket, reads messages and ends, by the events that carry it
    on.  [phase_of] reads the phase off the operations that are outstanding, and
    [effect_phase] shows that every handler is a transition.  [settled] and
    [effect_keeps] say what becomes of its flags. *)

From S2P Require Import Prelude Text UnorderedMap Room RoomRepository RoomService.
From S2P Require Import RoomServiceSpec Json ControlDispatcher ControlDispatcherSpec.
From S2P Require Import ProtocolCodec ProtocolCodecSpec SessionRegistry Session SessionSpec.
From S2P Require Import Server System SystemInv SystemRun SystemSafety MessageTypes Effects.
From S2P Require Import Sending.

(** ** The state machine *)

Inductive phase : Type :=
| Unborn
| Handshaking
| Accepting
| Reading
| Over.

Definition first_phase (tls : bool) : phase := if tls then Handshaking else Accepting.

(** The event completes a handshake, an accept or a read of the session. *)
Definition drives (ev : io_event) (s : SessionPtr) : bool :=
  match completion_of ev with Some c => stage_of s c | None => false end.

Inductive life (tls : bool) (s : SessionPtr) : phase → io_event → phase → Prop :=
| life_begins : life tls s Unborn (EvTcpAccept false) (first_phase tls)
| life_shaken : life tls s Handshaking (EvTlsHandshake s false) Accepting
| life_upgraded : life tls s Accepting (EvWebSocketAccept s false) Reading
| life_message m got_text : life tls s Reading (EvWebSocketRead s (ReadMessage m got_text)) Reading
| life_no_handshake : life tls s Handshaking (EvTlsHandshake s true) Over
| life_no_upgrade : life tls s Accepting (EvWebSocketAccept s true) Over
| life_closed : life tls s Reading (EvWebSocketRead s ReadClosed) Over
| life_broken : life tls s Reading (EvWebSocketRead s ReadError) Over
| life_other p ev : drives ev s = false → life tls s p ev p.

(** The phase that an outstanding operation shows. *)
Definition shown (l : list completion) : phase :=
  match l with
  | TlsHandshake _ :: _ => Handshaking
  | WebSocketAccept _ :: _ => Accepting
  | [] => Over
  | _ :: _ => Reading
  end.

Definition phase_of (n : Net) (s : SessionPtr) : phase :=
  if decide (s < next_session n) then shown (stage s (pending n)) else Unborn.

Section phases.
Context `{BucketOrder, JsonLaws, CodeDraws, IdDraws}.
Implicit Types (n : Net) (s : SessionPtr) (rooms : gmap RoomCode Room).

(** ** What each handler starts *)

Definition started (tls : bool) (ev : io_event) n s : list completion :=
  match ev with
  | EvTcpAccept false => if acceptor_open n then stage s [first_wait tls (next_session n)] else []
  | EvTlsHandshake s' false => stage s [WebSocketAccept s']
  | EvWebSocketAccept s' false | EvWebSocketRead s' (ReadMessage _ _) =>
      stage s [WebSocketRead s']
  | _ => []
  end.

Lemma stage_enqueue s c n :
  stage s (pending (enqueue c n)) = stage s (pending n) ++ stage s [c].
Proof. apply stage_app. Qed.

Lemma stage_do_write s s' n : stage s (pending (do_write s' n)) = stage s (pending n).
Proof.
  unfold do_write. destruct (write_queue_ _); [done|]. destruct (closing_ _); [done|].
  rewrite stage_enqueue. apply app_nil_r.
Qed.

Lemma stage_failed s s' rooms n rooms' n' :
  failed s' rooms n rooms' n' → stage s (pending n') = stage s (pending n) ++ [].
Proof.
  intros (l & _ & _ & ->). rewrite app_nil_r. apply qu_stage, quiet_failed.
Qed.

Lemma quiet_dropped s rooms n rooms' n' : dropped s rooms n rooms' n' → quiet n n'.
Proof.
  intros (l & _ & _ & ->). etrans; [apply (quiet_drop s)|apply quiet_send_all].
Qed.

Lemma stage_dropped s s' rooms n rooms' n' :
  dropped s' rooms n rooms' n' → stage s (pending n') = stage s (pending n) ++ [].
Proof. intros Hd%quiet_dropped. rewrite app_nil_r. by apply qu_stage. Qed.

Lemma effect_stage tls ev rooms n rooms' n' s :
  effect tls ev rooms n rooms' n' →
  stage s (pending n') = stage s (pending n) ++ started tls ev n s.
Proof.
  destruct ev as [error|s' error|s' error|s' result|s' m error|s'|s' m|s' is_open|s'|]; simpl.
  - intros [_ ->]. destruct (acceptor_open n), error; simpl; rewrite ?app_nil_r; try done.
    + by rewrite stage_app, app_nil_r.
    + rewrite !stage_app. by rewrite app_nil_r.
  - destruct error; [apply stage_failed|]. intros [_ ->]. apply stage_enqueue.
  - destruct error; [apply stage_failed|]. intros [_ ->].
    exact (stage_enqueue s (WebSocketRead s') (register s' n)).
  - destruct result; [apply stage_dropped|apply stage_failed|].
    intros (l & rid & _ & _ & _ & ->). rewrite stage_enqueue. f_equal.
    apply (qu_stage _ _ (quiet_send_all l n)).
  - destruct error; [apply stage_failed|]. intros [_ ->]. rewrite app_nil_r.
    exact (stage_do_write s s' (set_session s' (queue_pop m) n)).
  - intros [_ ->]. by rewrite app_nil_r.
  - intros [_ ->]. rewrite app_nil_r. unfold pushed. destruct (write_queue_ _); [|done].
    exact (stage_do_write s s' (set_session s' (queue_push m) n)).
  - destruct (closing_ _); [intros [_ ->]; by rewrite app_nil_r|].
    intros (n1 & Hd%(stage_dropped s) & ->).
    destruct is_open; [rewrite stage_enqueue, app_nil_r|]; exact Hd.
  - intros [_ ->]. apply stage_enqueue.
  - intros [_ ->]. by rewrite app_nil_r.
Qed.

(** ** Every handler is a transition *)

Lemma effect_births tls ev rooms n rooms' n' :
  effect tls ev rooms n rooms' n' →
  next_session n' = next_session n ∨
  ev = EvTcpAccept false ∧ acceptor_open n = true ∧ next_session n' = S (next_session n).
Proof.
  intros He. destruct (listener_event ev) eqn:Hev.
  - destruct ev as [error| | | | | | | | |]; try done; destruct He as [_ ->]; [|by left].
    destruct (acceptor_open n), error; auto.
  - apply effect_listening in He as Heq; [|done]. injection Heq as _ _ Heq. by left.
Qed.

(** A list of at most one element has no other order. *)
Lemma short_permutation {A} (l l' : list A) : length l ≤ 1 → l ≡ₚ l' → l = l'.
Proof.
  destruct l as [|x [|y l]]; simpl; [|intros _|lia].
  - intros _ Hl. by apply Permutation_nil_l in Hl.
  - intros Hl%Permutation_singleton_l. by rewrite Hl.
Qed.

Lemma stage_start_other ev n n0 s :
  io_ok n → start_event ev n = Some n0 → drives ev s = false →
  stage s (pending n0) = stage s (pending n).
Proof.
  intros Hio Hst Hd. unfold start_event in Hst. unfold drives in Hd.
  destruct (completion_of ev) as [c|] eqn:Hc.
  - apply fmap_Some in Hst as (l & Hl & ->). symmetry. apply short_permutation.
    { apply (io_stage _ Hio s). }
    destruct (start_perm c n l s Hl) as [_ ->].
    replace (stage s [c]) with (@nil completion); [done|]. unfold stage. simpl.
    destruct c; simpl in *; try done; apply bool_decide_eq_false in Hd; by rewrite decide_False.
  - destruct ev; try (by injection Hst as <-). case_decide; [by injection Hst as <-|done].
Qed.

Lemma stage_start_driven ev c n n0 s :
  io_ok n → start_event ev n = Some n0 → completion_of ev = Some c → stage_of s c = true →
  stage s (pending n) = [c] ∧ stage s (pending n0) = [] ∧ s < next_session n.
Proof.
  intros Hio Hst Hc Hs. unfold start_event in Hst. rewrite Hc in Hst.
  apply fmap_Some in Hst as (l & Hl & ->).
  destruct (start_stage s c n l Hio Hl Hs) as [[_ _ Hnone _ Hk] _].
  destruct (start_perm c n l s Hl) as [_ Hp]. simpl in Hnone.
  rewrite (stage_of_stage s c s Hs), decide_True, Hnone in Hp by done.
  split_and!; [by apply Permutation_singleton_r in Hp|done..].
Qed.

Lemma stage_single s c : stage_of s c = true → stage s [c] = [c].
Proof. intros Hc. by rewrite (stage_of_stage s c s Hc), decide_True. Qed.

(** The events of the session itself. *)
Lemma driven_phase tls ev rooms n n0 rooms' n' s :
  io_ok n → start_event ev n = Some n0 → effect tls ev rooms n0 rooms' n' →
  drives ev s = true → life tls s (phase_of n s) ev (phase_of n' s).
Proof.
  intros Hio Hst He Hd. unfold drives in Hd. destruct (completion_of ev) as [c|] eqn:Hc; [|done].
  destruct (stage_start_driven ev c n n0 s Hio Hst Hc Hd) as (Hn & Hn0 & Hk).
  pose proof (effect_stage tls ev rooms n0 rooms' n' s He) as Hn'. rewrite Hn0 in Hn'. simpl in Hn'.
  pose proof (effect_next _ _ _ _ _ _ He) as Hle.
  rewrite (sd_next _ _ (same_start _ _ _ Hst)) in Hle.
  unfold phase_of. rewrite !decide_True by lia. rewrite Hn, Hn'.
  assert (Hself : ∀ c, stage_of s c = true → stage s [c] = [c]) by apply stage_single.
  destruct ev as [|s' error|s' error|s' [| |m b]| | | | | |]; try done;
    injection Hc as <-; try done;
    apply bool_decide_eq_true in Hd as ->;
    try destruct error; simpl; rewrite ?decide_True by done; eauto using life.
Qed.

(** The events of others, and those that are no stage of a session. *)
Lemma undriven_phase tls ev rooms n n0 rooms' n' s :
  io_ok n → start_event ev n = Some n0 → effect tls ev rooms n0 rooms' n' →
  drives ev s = false → life tls s (phase_of n s) ev (phase_of n' s).
Proof.
  intros Hio Hst He Hd. pose proof (stage_start_other ev n n0 s Hio Hst Hd) as Hn0.
  pose proof (effect_stage tls ev rooms n0 rooms' n' s He) as Hn'. rewrite Hn0 in Hn'.
  pose proof (sd_next _ _ (same_start _ _ _ Hst)) as Hnext.
  destruct (effect_births _ _ _ _ _ _ He) as [Hsame|(-> & Hopen & Hborn)].
  - assert (Hnone : started tls ev n0 s = [] ∨ next_session n ≤ s).
    { destruct ev as [error|s' [|]|s' [|]|s' [| |m b]| | | | | |]; simpl; auto.
      - destruct error; auto. destruct (acceptor_open n0) eqn:Ho; [|auto].
        destruct He as [_ ->]. simpl in Hsame. rewrite Ho in Hsame. simpl in Hsame. lia.
      - left. apply bool_decide_eq_false in Hd. unfold stage. simpl. by rewrite decide_False.
      - left. apply bool_decide_eq_false in Hd. unfold stage. simpl. by rewrite decide_False.
      - left. apply bool_decide_eq_false in Hd. unfold stage. simpl. by rewrite decide_False. }
    unfold phase_of. rewrite Hsame, Hnext. destruct Hnone as [Hnone|Hge].
    + rewrite Hn', Hnone, app_nil_r. by apply life_other.
    + rewrite !decide_False by lia. by apply life_other.
  - unfold phase_of. rewrite Hborn, Hnext, Hn'. cbn [started]. rewrite Hopen, Hnext.
    destruct (decide (s = next_session n)) as [->|Hne].
    + rewrite decide_False, decide_True by lia.
      destruct (io_fresh _ Hio (next_session n) ltac:(lia)) as (_ & -> & _).
      rewrite stage_single; [|destruct tls; by apply bool_decide_eq_true_2].
      destruct tls; apply life_begins.
    + assert (Hnone : stage s [first_wait tls (next_session n)] = []).
      { unfold stage, first_wait. destruct tls; simpl; rewrite decide_False; auto. }
      rewrite Hnone, app_nil_r. destruct (decide (s < next_session n)).
      * rewrite decide_True by lia. by apply life_other.
      * rewrite decide_False by lia. by apply life_other.
Qed.

Lemma effect_phase tls ev rooms n n0 rooms' n' s :
  io_ok n → start_event ev n = Some n0 → effect tls ev rooms n0 rooms' n' →
  life tls s (phase_of n s) ev (phase_of n' s).
Proof.
  intros Hio Hst He. destruct (drives ev s) eqn:Hd; [by eapply driven_phase|].
  by eapply undriven_phase.
Qed.

(** ** Flags and writes *)

(** Between [n] and [n'] the session does not reopen, is registered at most by
    [entered], and starts no write if it is closing. *)
Record settled (entered : bool) s n n' : Prop := {
  se_closing : closing_ (session_at n s) = true → closing_ (session_at n' s) = true;
  se_registered : registered_ (session_at n' s) = true →
                  registered_ (session_at n s) = true ∨ entered = true;
  se_writes : closing_ (session_at n s) = true →
              inflight s (pending n') = inflight s (pending n)
}.

Lemma settled_quiet entered s n n' : quiet n n' → settled entered s n n'.
Proof.
  intros Hq. split; [apply Hq| |intros _; apply Hq]. left. by apply (qu_registered _ _ Hq).
Qed.

Lemma settled_trans entered s n1 n2 n3 :
  settled entered s n1 n2 → settled entered s n2 n3 → settled entered s n1 n3.
Proof.
  intros [Hc1 Hr1 Hw1] [Hc2 Hr2 Hw2].
  split; [auto| |intros Hc; by rewrite Hw2, Hw1 by auto]. intros [|]%Hr2; auto.
Qed.

Lemma settled_enqueue entered s c n : inflight s [c] = [] → settled entered s n (enqueue c n).
Proof.
  intros Hc. split; [done|by left|]. intros _. simpl. by rewrite inflight_app, Hc, app_nil_r.
Qed.

Lemma settled_set_session entered s s' f n :
  (∀ x, closing_ (f x) = closing_ x) → (∀ x, registered_ (f x) = registered_ x) →
  settled entered s n (set_session s' f n).
Proof.
  intros Hc Hr. split; [by rewrite (set_session_proj closing_)| |done].
  rewrite (set_session_proj registered_) by done. by left.
Qed.

Lemma settled_do_write entered s s' n : settled entered s n (do_write s' n).
Proof.
  unfold do_write. destruct (write_queue_ _) as [|m q]; [by apply settled_quiet|].
  destruct (closing_ (session_at n s')) eqn:Hc; [by apply settled_quiet|].
  split; [done|by left|]. intros Hcl. simpl. rewrite inflight_app. unfold inflight at 2. simpl.
  rewrite decide_False; [apply app_nil_r|congruence].
Qed.

Lemma settled_register s s' n : settled (bool_decide (s' = s)) s n (register s' n).
Proof.
  unfold register. split.
  - by rewrite (set_session_proj closing_ _ _ _ (set_registered true)).
  - rewrite session_at_set. case_decide as Hs; [|by left]. right. by apply bool_decide_eq_true_2.
  - done.
Qed.

Lemma settled_allocated tls s n :
  s < next_session n → settled false s n (allocated tls n).
Proof. intros Hs. split; rewrite ?allocated_session by lia; auto. Qed.

Definition enters (ev : io_event) s : bool :=
  match ev with EvWebSocketAccept s' false => bool_decide (s' = s) | _ => false end.

Lemma quiet_failed_effect s rooms n rooms' n' : failed s rooms n rooms' n' → quiet n n'.
Proof. intros (l & _ & _ & ->). apply quiet_failed. Qed.

Lemma effect_settled tls ev rooms n rooms' n' s :
  s < next_session n → effect tls ev rooms n rooms' n' → settled (enters ev s) s n n'.
Proof.
  intros Hs.
  destruct ev as [error|s' error|s' error|s' result|s' m error|s'|s' m|s' is_open|s'|]; simpl.
  - intros [_ ->]. destruct (acceptor_open n), error; try (by apply settled_quiet);
      [by apply settled_enqueue|]. eapply settled_trans; [|by apply settled_enqueue].
    eapply settled_trans; [by apply settled_allocated|]. by destruct tls; apply settled_enqueue.
  - destruct error; [by intros ?%quiet_failed_effect; apply settled_quiet|].
    intros [_ ->]. by apply settled_enqueue.
  - destruct error; [by intros ?%quiet_failed_effect; apply settled_quiet|].
    intros [_ ->]. eapply settled_trans; [apply settled_register|by apply settled_enqueue].
  - destruct result; [by intros ?%quiet_dropped; apply settled_quiet
      |by intros ?%quiet_failed_effect; apply settled_quiet|].
    intros (l & rid & _ & _ & _ & ->). eapply settled_trans; [|by apply settled_enqueue].
    apply settled_quiet, quiet_send_all.
  - destruct error; [by intros ?%quiet_failed_effect; apply settled_quiet|].
    intros [_ ->]. eapply settled_trans; [|apply settled_do_write]. by apply settled_set_session.
  - intros [_ ->]. by apply settled_quiet.
  - intros [_ ->]. unfold pushed. destruct (write_queue_ _); [|by apply settled_set_session].
    eapply settled_trans; [|apply settled_do_write]. by apply settled_set_session.
  - destruct (closing_ _); [intros [_ ->]; by apply settled_quiet|].
    intros (n1 & Hd%quiet_dropped & ->).
    eapply settled_trans.
    { apply settled_quiet, (quiet_set_session set_closing n s'), flags_closing. }
    eapply settled_trans; [by apply settled_quiet|].
    destruct is_open; [by apply settled_enqueue|]. apply settled_quiet.
    apply quiet_set_session, flags_lowest_closed.
  - intros [_ ->]. by apply settled_enqueue.
  - intros [_ ->]. by apply settled_quiet.
Qed.
(** ** Registration lasts *)

Lemma drop_other s s' n :
  s' ≠ s → registered_ (session_at (drop_session s' n) s) = registered_ (session_at n s).
Proof.
  intros Hne. unfold drop_session. destruct (registered_ (session_at n s')); [|done].
  destruct (unregister_session s' n s) as [-> _]. by rewrite bool_decide_eq_true_2.
Qed.

Lemma dropped_other s s' rooms n rooms' n' :
  s' ≠ s → dropped s' rooms n rooms' n' →
  registered_ (session_at n' s) = registered_ (session_at n s).
Proof. intros Hne (l & _ & _ & ->). by apply drop_other. Qed.

Lemma set_closing_closes s n :
  is_Some (sessions n !! s) → closing_ (session_at (set_session s set_closing n) s) = true.
Proof. intros Hk. by rewrite set_session_known. Qed.

(** Who fails is closing. *)
Lemma failed_keeps s s' rooms n rooms' n' :
  failed s' rooms n rooms' n' → registered_ (session_at n s) = true →
  registered_ (session_at n' s) = true ∨ closing_ (session_at n' s) = true.
Proof.
  intros (l & _ & _ & ->) Hreg. unfold failed_net. destruct (decide (s' = s)) as [->|Hne].
  - right. apply (qu_closing _ _ (quiet_set_session _ _ s flags_lowest_closed)).
    apply (qu_closing _ _ (quiet_send_all l _)). apply (qu_closing _ _ (quiet_drop s _)).
    by apply set_closing_closes, registered_exists.
  - left. rewrite session_at_set_ne by done.
    change (registered_ (session_at (drop_session s' (set_session s' set_closing n)) s) = true).
    rewrite drop_other by done. by rewrite session_at_set_ne.
Qed.

Lemma posted_close_keeps s s' is_open tls rooms n rooms' n' :
  effect tls (EvPostedClose s' is_open) rooms n rooms' n' → registered_ (session_at n s) = true →
  registered_ (session_at n' s) = true ∨ closing_ (session_at n' s) = true.
Proof.
  simpl. destruct (closing_ (session_at n s')); [intros [_ ->]; by left|].
  intros (n1 & Hd & ->) Hreg. destruct (decide (s' = s)) as [->|Hne].
  - right. assert (Hcl : closing_ (session_at n1 s) = true).
    { apply (qu_closing _ _ (quiet_dropped _ _ _ _ _ Hd)).
      by apply set_closing_closes, registered_exists. }
    destruct is_open; [done|]. by rewrite (set_session_proj closing_).
  - left. apply (dropped_other s) in Hd; [|done]. rewrite session_at_set_ne in Hd by done.
    destruct is_open; [by rewrite <- Hreg, <- Hd|]. rewrite (set_session_proj registered_) by done.
    congruence.
Qed.

(** A session stays registered until it closes or its peer has closed it. *)
Lemma effect_keeps tls ev rooms n rooms' n' s :
  s < next_session n → effect tls ev rooms n rooms' n' → registered_ (session_at n s) = true →
  registered_ (session_at n' s) = true ∨ closing_ (session_at n' s) = true ∨
  ev = EvWebSocketRead s ReadClosed.
Proof.
  intros Hs He Hreg.
  assert (Hfail : ∀ s', failed s' rooms n rooms' n' →
    registered_ (session_at n' s) = true ∨ closing_ (session_at n' s) = true ∨
    ev = EvWebSocketRead s ReadClosed).
  { intros s' Hf. destruct (failed_keeps s s' rooms n rooms' n' Hf Hreg); auto. }
  destruct ev as [error|s' error|s' error|s' result|s' m error|s'|s' m|s' is_open|s'|]; simpl in He.
  - left. destruct He as [_ ->]. destruct (acceptor_open n), error; try done; simpl.
    change (registered_ (session_at (allocated tls n) s) = true).
    by rewrite allocated_session by lia.
  - destruct error; [by eapply Hfail|]. left. by destruct He as [_ ->].
  - destruct error; [by eapply Hfail|]. left. destruct He as [_ ->].
    change (registered_ (session_at (set_session s' (set_registered true) n) s) = true).
    rewrite session_at_set. case_decide; [|done]. subst s'.
    by destruct (registered_exists n s Hreg) as [x ->].
  - destruct result; [|by eapply Hfail|].
    + destruct (decide (s' = s)) as [->|Hne]; [auto|]. left.
      by rewrite (dropped_other s s' _ _ _ _ Hne He).
    + left. by destruct He as (l & rid & _ & _ & _ & ->).
  - destruct error; [by eapply Hfail|]. left. destruct He as [_ ->]. unfold popped.
    rewrite session_at_do_write. by rewrite (set_session_proj registered_).
  - left. by destruct He as [_ ->].
  - left. destruct He as [_ ->]. unfold pushed. destruct (write_queue_ _).
    + rewrite session_at_do_write. by rewrite (set_session_proj registered_).
    + by rewrite (set_session_proj registered_).
  - destruct (posted_close_keeps s s' is_open tls rooms n rooms' n' He Hreg); auto.
  - left. by destruct He as [_ ->].
  - left. by destruct He as [_ ->].
Qed.
End phases.
