(* ===== verification/Interleaving.v ===== *)
(** * Interleaving: use cases on several threads

    The repository is shared: its member functions hold a mutex, so that each is
    one atomic step, but a use case makes several of them and other threads may
    run in between.  The code of the use cases is that of RoomService.v and
    ControlDispatcher.v, run over a repository whose state is the thread's
    history - the contents each of its calls found and the contents it left -
    and whose contents at the next call are whatever the other threads have made
    of them.  A scheduler picks, step by step, the thread that moves next. *)

From S2P Require Import Prelude Room RoomRepository RoomService Json ControlDispatcher.

(** ** A repository others work on *)

(** The contents found and left by the calls of one thread, in order. *)
Abbreviation history R := (list (R * R)).

Section interfered.
Context {R : Type} `{!RoomRepository R}.

(** One call: it runs on the contents it finds, and is recorded. *)
Definition atomically {A} (found : nat → R) (m : prog exception R A)
    : prog exception (history R) A :=
  λ log,
    let '(o, after) := m (found (length log)) in
    (o, log ++ [(found (length log), after)]).

Definition atomically_with {C A} (found : nat → R) (m : prog exception (C * R) A)
    : prog exception (C * history R) A :=
  λ '(c, log),
    let '(o, (c, after)) := m (c, found (length log)) in
    (o, (c, log ++ [(found (length log), after)])).

(** [found k] is what the thread's call number [k] finds. *)
Definition interfered (found : nat → R) : RoomRepository (history R) := {|
  repo_Add room := atomically found (repo_Add room);
  repo_FindByCode code := atomically found (repo_FindByCode code);
  repo_Update C code updater := atomically_with found (repo_Update code updater);
  repo_Remove code := atomically found (repo_Remove code);
  repo_RemoveIfEmpty code := atomically found (repo_RemoveIfEmpty code);
  repo_Exists code := atomically found (repo_Exists code);
  repo_ParticipantInRoom pid code := atomically found (repo_ParticipantInRoom pid code);
  repo_GetRoomCodes := atomically found repo_GetRoomCodes
|}.
End interfered.

(** ** Threads *)

Section threads.
Context `{Json} {R : Type} `{!RoomRepository R}.
Local Open Scope prog_scope.

(** What a session has the dispatcher do. *)
Inductive task : Type :=
| Request (request : ControlDispatcherRequest)
| Disconnect (participant_id : ParticipantId).

Inductive reply : Type :=
| Answered (result : ControlDispatcherResult)
| Departed (events : list ControlDispatcherEvent).

Definition record_reply {S} (a : reply) : prog exception (S * list reply) unit :=
  on_snd (pmodify (λ replies, replies ++ [a])).

(** The second case is the call in [RemoveFromRegistry]. *)
Definition run_task `{CodeDraws} (found : nat → R) (t : task)
    : prog exception ((history R * nat) * list reply) unit :=
  match t with
  | Request request =>
      Dispatch (RoomRepository0 := interfered found) request
        (Some (λ result, record_reply (Answered result)))
  | Disconnect participant_id =>
      ptry
        (events <- on_fst (on_fst
           (HandleParticipantDisconnected (RoomRepository0 := interfered found)
              participant_id));;
         record_reply (Departed events))
        (λ _, pret tt)
  end.

Definition run_tasks `{CodeDraws} (found : nat → R) (ts : list task)
    : prog exception ((history R * nat) * list reply) unit :=
  pfor ts (run_task found).

(** A thread has its own random generator; [performed] is the history of the
    calls it has made so far. *)
Record thread : Type := MkThread {
  draws : CodeDraws;
  tasks : list task;
  performed : history R
}.

(** What the calls found so far, and [now] from the next call on. *)
Definition recall (log : history R) (now : R) (k : nat) : R :=
  match log !! k with Some (before, _) => before | None => now end.

(** The thread's code, run again on what its calls have found. *)
Definition replay (th : thread) (now : R)
    : outcome exception unit * ((history R * nat) * list reply) :=
  run_tasks (H0 := draws th) (recall (performed th) now) (tasks th) (([], 0), []).

Definition log_of (result : outcome exception unit * ((history R * nat) * list reply))
    : history R := result.2.1.1.

Definition replies_of (result : outcome exception unit * ((history R * nat) * list reply))
    : list reply := result.2.2.

(** What the thread's next call leaves if it is made [now]; none if the thread
    has finished. *)
Definition next_call (th : thread) (now : R) : option R :=
  snd <$> log_of (replay th now) !! length (performed th).

Record config : Type := MkConfig {
  shared : R;
  threads : list thread
}.

Definition perform (call : R * R) (th : thread) : thread :=
  MkThread (draws th) (tasks th) (performed th ++ [call]).

(** Thread [i] makes its next call. *)
Definition run_step (i : nat) (c : config) : option config :=
  th ← threads c !! i;
  after ← next_call th (shared c);
  Some (MkConfig after (<[i := perform (shared c, after) th]> (threads c))).

Fixpoint run_schedule (schedule : list nat) (c : config) : option config :=
  match schedule with
  | [] => Some c
  | i :: schedule => c ← run_step i c; run_schedule schedule c
  end.

Definition start_config (r : R) (work : list (CodeDraws * list task)) : config :=
  MkConfig r ((λ w, MkThread w.1 w.2 []) <$> work).

(** No thread has a call left. *)
Definition at_rest (c : config) : Prop :=
  Forall (λ th, next_call th (shared c) = None) (threads c).
End threads.
Arguments thread {_} R.
Arguments config {_} R.
