(* ===== verification/InterleavingSpec.v ===== *)
(** * InterleavingSpec: what a thread does, and what it may rely on

    A thread's calls so far determine its next call ([run_step_spec]); each call
    is one of the atomic steps of [service_step], made on behalf of the
    participants the thread speaks for; and whoever empties a room makes the next
    call on it, which removes the room if it is still empty. *)

From S2P Require Import Prelude Room RoomRepository RoomService RoomServiceSpec.
From S2P Require Import Json ControlDispatcher ControlDispatcherSpec Interleaving.

(** ** Histories grow, and depend on what was found only *)

Section causality.
Context {R E : Type}.

(** [m] appends to the history, in a way that satisfies [P]; [P k l] says so of
    calls [l] of which the first has number [k]. *)
Definition emits {S A} (log : S → history R) (P : nat → history R → Prop) (m : prog E S A)
    : Prop :=
  ∀ s, ∃ seg, log (m s).2 = log s ++ seg ∧ P (length (log s)) seg.

(** Properties of histories that hold of nothing and of what is put together. *)
Class Segmental (P : nat → history R → Prop) : Prop := {
  seg_nil k : P k [];
  seg_app k l l' : P k l → P (k + length l) l' → P k (l ++ l')
}.

(** Each call is recorded with what it found. *)
Definition honest (found : nat → R) (k : nat) (l : history R) : Prop :=
  ∀ i call, l !! i = Some call → call.1 = found (k + i).

#[export] Instance honest_segmental found : Segmental (honest found).
Proof.
  split; [by intros k i call|]. intros k l l' Hl Hl' i call.
  intros [Hi|[Hlen Hi]]%lookup_app_Some; [by apply Hl|].
  rewrite (Hl' _ _ Hi). f_equal. lia.
Qed.

(** The two runs have not differed, or only after their [k]-th call. *)
Definition agree {S A} (log : S → history R) (k : nat) (x y : outcome E A * S) : Prop :=
  x = y ∨ k < length (log x.2) ∧ k < length (log y.2) ∧
          take k (log x.2) = take k (log y.2).

(** Two runs of one program, which find [found] and [found']. *)
Record lockstep {S A} (log : S → history R) (found found' : nat → R) (k : nat)
    (m m' : prog E S A) : Prop := {
  ls_left : emits log (honest found) m;
  ls_right : emits log (honest found') m';
  ls_agree s : agree log k (m s) (m' s)
}.

Lemma apart_grows k (l l' m m' : history R) :
  k < length l → k < length l' → take k l = take k l' →
  l `prefix_of` m → l' `prefix_of` m' →
  k < length m ∧ k < length m' ∧ take k m = take k m'.
Proof.
  intros Hl Hl' Ht [seg ->] [seg' ->]. rewrite !length_app, !take_app_le by lia.
  split_and!; [lia..|done].
Qed.

Section combinators.
Context {S : Type} (log : S → history R) (P : nat → history R → Prop) `{!Segmental P}.

Lemma emits_still {A} (m : prog E S A) : (∀ s, log (m s).2 = log s) → emits log P m.
Proof. intros Hm s. exists []. rewrite app_nil_r. split; [done|apply seg_nil]. Qed.

Lemma emits_bind {A B} (m : prog E S A) (f : A → prog E S B) :
  emits log P m → (∀ a, emits log P (f a)) → emits log P (pbind m f).
Proof.
  intros Hm Hf s. unfold pbind. destruct (Hm s) as (seg & Hseg & HP).
  destruct (m s) as [[a|e] s']; simpl in *; [|eauto].
  destruct (Hf a s') as (seg' & Hseg' & HP'). exists (seg ++ seg').
  rewrite Hseg', Hseg, app_assoc. split; [done|]. apply seg_app; [done|].
  by rewrite <- length_app, <- Hseg.
Qed.

Lemma emits_lift_bind {A B} (o : outcome E A) (f : A → prog E S B) :
  (∀ a, o = Ret a → emits log P (f a)) → emits log P (pbind (plift o) f).
Proof.
  intros Hf. destruct o as [a|e]; [exact (Hf a eq_refl)|].
  apply emits_still. intros s. done.
Qed.

Lemma emits_try {A} (m : prog E S A) h :
  emits log P m → (∀ e, emits log P (h e)) → emits log P (ptry m h).
Proof.
  intros Hm Hh s. unfold ptry. destruct (Hm s) as (seg & Hseg & HP).
  destruct (m s) as [[a|e] s']; simpl in *; [eauto|].
  destruct (Hh e s') as (seg' & Hseg' & HP'). exists (seg ++ seg').
  rewrite Hseg', Hseg, app_assoc. split; [done|]. apply seg_app; [done|].
  by rewrite <- length_app, <- Hseg.
Qed.

Lemma emits_for {A} (l : list A) (body : A → prog E S unit) :
  (∀ x, x ∈ l → emits log P (body x)) → emits log P (pfor l body).
Proof.
  induction l as [|x l IH]; intros Hb; simpl; [by apply emits_still|].
  apply emits_bind; [apply Hb; left|]. intros _. apply IH. intros y Hy. apply Hb. by right.
Qed.

Lemma emits_locals {C A} (c : C) (m : prog E (C * S) A) :
  emits (log ∘ snd) P m → emits log P (with_locals c m).
Proof.
  intros Hm s. unfold with_locals. destruct (Hm (c, s)) as (seg & Hseg & HP).
  destruct (m (c, s)) as [o [c' s']]. by exists seg.
Qed.

Lemma emits_on_fst {T A} (m : prog E S A) :
  emits log P m → emits (log ∘ fst (B := T)) P (on_fst m).
Proof.
  intros Hm [s t]. destruct (Hm s) as (seg & Hseg & HP). simpl.
  destruct (m s) as [o s']. by exists seg.
Qed.

Lemma emits_on_snd {C A} (m : prog E S A) :
  emits log P m → emits (log ∘ snd (A := C)) P (on_snd m).
Proof.
  intros Hm [c s]. destruct (Hm s) as (seg & Hseg & HP). simpl.
  destruct (m s) as [o s']. by exists seg.
Qed.

Lemma emits_on_snd_other {T A} (m : prog E T A) :
  emits (log ∘ fst (B := T)) P (on_snd m).
Proof.
  intros [s t]. simpl. destruct (m t) as [o t']. exists []. rewrite app_nil_r.
  split; [done|apply seg_nil].
Qed.
End combinators.

Section lockstep.
Context {S : Type} (log : S → history R) (found found' : nat → R) (k : nat).

Lemma lockstep_still {A} (m : prog E S A) :
  (∀ s, log (m s).2 = log s) → lockstep log found found' k m m.
Proof. intros Hm. split; [by apply emits_still; [apply _|]..|]. by left. Qed.

Lemma bind_grows {A B} P (m : prog E S A) (f : A → prog E S B) s :
  Segmental P → (∀ a, emits log P (f a)) → log (m s).2 `prefix_of` log (pbind m f s).2.
Proof.
  intros _ Hf. unfold pbind. destruct (m s) as [[a|e] s']; [|done].
  destruct (Hf a s') as (seg & Hseg & _). by exists seg.
Qed.

Lemma try_grows {A} P (m : prog E S A) h s :
  Segmental P → (∀ e, emits log P (h e)) → log (m s).2 `prefix_of` log (ptry m h s).2.
Proof.
  intros _ Hh. unfold ptry. destruct (m s) as [[a|e] s']; [done|].
  destruct (Hh e s') as (seg & Hseg & _). by exists seg.
Qed.

Lemma lockstep_bind {A B} (m m' : prog E S A) (f f' : A → prog E S B) :
  lockstep log found found' k m m' → (∀ a, lockstep log found found' k (f a) (f' a)) →
  lockstep log found found' k (pbind m f) (pbind m' f').
Proof.
  intros [Hl Hr Ha] Hf. split.
  - apply emits_bind; [apply _|done|]. intros a. apply Hf.
  - apply emits_bind; [apply _|done|]. intros a. apply Hf.
  - intros s. destruct (Ha s) as [Heq|(Hk & Hk' & Ht)].
    + unfold pbind. rewrite Heq. destruct (m' s) as [[a|e] s']; [apply Hf|by left].
    + right. apply (apart_grows k _ _ _ _ Hk Hk' Ht);
        (eapply bind_grows; [|intros a; apply Hf]; apply _).
Qed.

Lemma lockstep_try {A} (m m' : prog E S A) h h' :
  lockstep log found found' k m m' → (∀ e, lockstep log found found' k (h e) (h' e)) →
  lockstep log found found' k (ptry m h) (ptry m' h').
Proof.
  intros [Hl Hr Ha] Hf. split.
  - apply emits_try; [apply _|done|]. intros a. apply Hf.
  - apply emits_try; [apply _|done|]. intros a. apply Hf.
  - intros s. destruct (Ha s) as [Heq|(Hk & Hk' & Ht)].
    + unfold ptry. rewrite Heq. destruct (m' s) as [[a|e] s']; [by left|apply Hf].
    + right. apply (apart_grows k _ _ _ _ Hk Hk' Ht);
        (eapply try_grows; [|intros e; apply Hf]; apply _).
Qed.

Lemma lockstep_for {A} (l : list A) (b b' : A → prog E S unit) :
  (∀ x, lockstep log found found' k (b x) (b' x)) →
  lockstep log found found' k (pfor l b) (pfor l b').
Proof.
  intros Hb. induction l as [|x l IH]; simpl; [by apply lockstep_still|].
  by apply lockstep_bind.
Qed.

Lemma lockstep_locals {C A} (c : C) (m m' : prog E (C * S) A) :
  lockstep (log ∘ snd) found found' k m m' →
  lockstep log found found' k (with_locals c m) (with_locals c m').
Proof.
  intros [Hl Hr Ha]. split; [by apply emits_locals..|]. intros s. unfold with_locals.
  destruct (Ha (c, s)) as [->|Hd]; [by left|]. right.
  by destruct (m (c, s)) as [o [c' s']], (m' (c, s)) as [o' [c'' s'']].
Qed.

Lemma lockstep_on_fst {T A} (m m' : prog E S A) :
  lockstep log found found' k m m' →
  lockstep (log ∘ fst (B := T)) found found' k (on_fst m) (on_fst m').
Proof.
  intros [Hl Hr Ha]. split; [by apply emits_on_fst..|]. intros [s t]. simpl.
  destruct (Ha s) as [->|Hd]; [by left|]. right.
  by destruct (m s) as [o s'], (m' s) as [o' s''].
Qed.

Lemma lockstep_on_snd {C A} (m m' : prog E S A) :
  lockstep log found found' k m m' →
  lockstep (log ∘ snd (A := C)) found found' k (on_snd m) (on_snd m').
Proof.
  intros [Hl Hr Ha]. split; [by apply emits_on_snd..|]. intros [c s]. simpl.
  destruct (Ha s) as [->|Hd]; [by left|]. right.
  by destruct (m s) as [o s'], (m' s) as [o' s''].
Qed.

Lemma lockstep_on_snd_other {T A} (m : prog E T A) :
  lockstep (log ∘ fst (B := T)) found found' k (on_snd m) (on_snd m).
Proof. split; [by apply emits_on_snd_other; apply _..|]. by left. Qed.
End lockstep.
End causality.

Create HintDb causal discriminated.
(** One step of a proof that a program runs in lockstep with itself. *)
Ltac lockstep_step :=
  lazymatch goal with
  | |- lockstep _ _ _ _ (pbind _ _) _ => apply lockstep_bind; [|intros ?]
  | |- lockstep _ _ _ _ (ptry _ _) _ => apply lockstep_try; [|intros ?]
  | |- lockstep _ _ _ _ (with_locals _ _) _ => apply lockstep_locals
  | |- lockstep (_ ∘ fst) _ _ _ (on_snd _) _ => apply lockstep_on_snd_other
  | |- lockstep _ _ _ _ (on_fst _) _ => apply lockstep_on_fst
  | |- lockstep _ _ _ _ (on_snd _) _ => apply lockstep_on_snd
  | |- lockstep _ _ _ _ (pret _) _ => by apply lockstep_still
  | |- lockstep _ _ _ _ (pgets _) _ => by apply lockstep_still
  | |- lockstep _ _ _ _ (plift _) _ => by apply lockstep_still
  | |- lockstep _ _ _ _ (match _ with _ => _ end) _ => case_match
  | |- _ => solve [eauto with causal]
  end.

(** One step of a proof on the calls of a program. *)
Ltac emits_step :=
  lazymatch goal with
  | |- emits _ _ (pbind (plift _) _) => apply emits_lift_bind; [apply _|intros ? ?]
  | |- emits _ _ (pbind _ _) => apply emits_bind; [apply _| |intros ?]
  | |- emits _ _ (ptry _ _) => apply emits_try; [apply _| |intros ?]
  | |- emits (_ ∘ fst) _ (on_snd _) => apply emits_on_snd_other; apply _
  | |- emits _ _ (on_fst _) => apply emits_on_fst
  | |- emits _ _ (on_snd _) => apply emits_on_snd
  | |- emits _ _ (pret _) => by apply emits_still; [apply _|]
  | |- emits _ _ (match _ with _ => _ end) => case_match
  | |- _ => solve [eauto with calls]
  end.

Create HintDb calls discriminated.

Section causal.
Context `{Json, CodeDraws} {R : Type} `{!RoomRepository R}.
Context (k : nat) (found found' : nat → R) (Hfound : ∀ i, i < k → found i = found' i).

Lemma honest_call (f : nat → R) k' after : honest f k' [(f k', after)].
Proof. intros [|i] call; [|done]. intros [= <-]. by rewrite Nat.add_0_r. Qed.

Lemma atomically_honest {A} f (m : prog exception R A) :
  emits id (honest f) (atomically f m).
Proof.
  intros log. unfold atomically. destruct (m _) as [o r]. eexists. split; [done|].
  apply honest_call.
Qed.

Lemma atomically_with_honest {C A} f (m : prog exception (C * R) A) :
  emits (id ∘ snd) (honest f) (atomically_with f m).
Proof.
  intros [c log]. unfold atomically_with. destruct (m _) as [o [c' r]]. eexists.
  split; [done|]. apply honest_call.
Qed.

Lemma atomically_causal {A} (m : prog exception R A) :
  lockstep id found found' k (atomically found m) (atomically found' m).
Proof.
  split; [apply atomically_honest..|]. intros log. unfold atomically.
  destruct (decide (length log < k)) as [Hlt|Hge]; [left; by rewrite Hfound|right].
  destruct (m (found _)) as [o r], (m (found' _)) as [o' r']. simpl.
  rewrite !length_app, !take_app_le by lia. simpl. split_and!; [lia..|done].
Qed.

Lemma atomically_with_causal {C A} (m : prog exception (C * R) A) :
  lockstep (id ∘ snd) found found' k (atomically_with found m) (atomically_with found' m).
Proof.
  split; [apply atomically_with_honest..|]. intros [c log]. unfold atomically_with.
  destruct (decide (length log < k)) as [Hlt|Hge]; [left; by rewrite Hfound|right].
  destruct (m (c, found _)) as [o [c1 r]], (m (c, found' _)) as [o' [c2 r']]. simpl.
  rewrite !length_app, !take_app_le by lia. simpl. split_and!; [lia..|done].
Qed.

Abbreviation same_run log m :=
  (lockstep log found found' k (m (interfered found)) (m (interfered found')))
  (only parsing).

Lemma Add_causal room : same_run id (λ I, repo_Add (RoomRepository := I) room).
Proof. apply atomically_causal. Qed.
Lemma Update_causal {C} code (u : Updater C) :
  same_run (id ∘ snd) (λ I, repo_Update (RoomRepository := I) code u).
Proof. apply atomically_with_causal. Qed.
Lemma RemoveIfEmpty_causal code :
  same_run id (λ I, repo_RemoveIfEmpty (RoomRepository := I) code).
Proof. apply atomically_causal. Qed.
Lemma ParticipantInRoom_causal pid code :
  same_run id (λ I, repo_ParticipantInRoom (RoomRepository := I) pid code).
Proof. apply atomically_causal. Qed.
Lemma GetRoomCodes_causal : same_run id (λ I, repo_GetRoomCodes (RoomRepository := I)).
Proof. apply atomically_causal. Qed.

#[local] Hint Resolve atomically_causal Add_causal Update_causal RemoveIfEmpty_causal
  ParticipantInRoom_causal
  GetRoomCodes_causal : causal.

(** *** The use cases *)

Lemma create_attempts_causal n password :
  same_run (id ∘ fst) (λ I, create_attempts (RoomRepository0 := I) n password).
Proof.
  induction n as [|n IH]; simpl; [by apply lockstep_still|]. repeat lockstep_step.
Qed.

Lemma JoinRoom_causal code p given :
  same_run id (λ I, JoinRoom (RoomRepository0 := I) code p given).
Proof. unfold JoinRoom. repeat lockstep_step. Qed.

Lemma LeaveRoom_causal code pid :
  same_run id (λ I, LeaveRoom (RoomRepository0 := I) code pid).
Proof. unfold LeaveRoom. repeat lockstep_step. Qed.

Lemma leave_each_causal codes pid acc :
  same_run id (λ I, leave_each (RoomRepository0 := I) codes pid acc).
Proof.
  revert acc. induction codes as [|code codes IH]; intros acc; cbn [leave_each];
    [by apply lockstep_still|].
  apply lockstep_bind; [apply LeaveRoom_causal|]. intros r. apply IH.
Qed.

#[local] Hint Resolve create_attempts_causal JoinRoom_causal LeaveRoom_causal
  leave_each_causal : causal.

Lemma run_task_causal t :
  lockstep (id ∘ fst ∘ fst) found found' k (run_task found t) (run_task found' t).
Proof.
  destruct t as [request|pid]; cbn [run_task].
  - unfold Dispatch, dispatch_create, dispatch_join, dispatch_leave, dispatch_signaling,
      ServiceParticipantInRoom, CreateRoom, send_error, record_reply.
    repeat lockstep_step.
  - unfold HandleParticipantDisconnected, LeaveAllRooms, record_reply. repeat lockstep_step.
Qed.

Lemma run_tasks_causal ts :
  lockstep (id ∘ fst ∘ fst) found found' k (run_tasks found ts) (run_tasks found' ts).
Proof. apply lockstep_for, run_task_causal. Qed.
End causal.

(** ** The scheduler *)

Section scheduler.
Context `{Json} {R : Type} `{!RoomRepository R}.
Implicit Types (th : thread R) (c : config R).

(** What a thread would do next does not change what it has done. *)
Definition genuine th : Prop :=
  ∀ now, ∃ rest, log_of (replay th now) = performed th ++ rest.

Lemma genuine_start draws ts : genuine (MkThread draws ts []).
Proof. intros now. by eexists. Qed.

Lemma replay_lockstep th now now' performed' k :
  (∀ i, i < k → recall (performed th) now i = recall performed' now' i) →
  lockstep (id ∘ fst ∘ fst) (recall (performed th) now) (recall performed' now') k
    (run_tasks (H0 := draws th) (recall (performed th) now) (tasks th))
    (run_tasks (H0 := draws th) (recall performed' now') (tasks th)).
Proof. intros Heq. by apply (run_tasks_causal (H0 := draws th)). Qed.

Lemma replay_honest th now i call :
  log_of (replay th now) !! i = Some call → call.1 = recall (performed th) now i.
Proof.
  intros Hi. destruct (ls_left _ _ _ _ _ _ (replay_lockstep th now now (performed th) 0
    ltac:(done)) (([], 0), [])) as (seg & Hseg & Hh).
  apply (Hh i). simpl in Hseg. by rewrite <- Hseg.
Qed.

(** The next call is the entry of the replayed history that follows. *)
Lemma next_call_log th now after :
  genuine th → next_call th now = Some after →
  ∃ rest, log_of (replay th now) = performed th ++ (now, after) :: rest.
Proof.
  intros Hg Hnext. destruct (Hg now) as [rest Hrest]. unfold next_call in Hnext.
  apply fmap_Some in Hnext as ([b a] & Hi & ->).
  pose proof (replay_honest _ _ _ _ Hi) as Hb. simpl in Hb. rewrite Hrest in Hi.
  rewrite lookup_app_r, Nat.sub_diag in Hi by done.
  destruct rest as [|e rest]; [done|]. injection Hi as ->. exists rest. rewrite Hrest.
  do 3 f_equal. rewrite Hb. unfold recall. by rewrite lookup_ge_None_2.
Qed.

Lemma recall_perform (log : history R) now now' after i :
  i < S (length log) → recall log now i = recall (log ++ [(now, after)]) now' i.
Proof.
  intros Hi. unfold recall. destruct (decide (i = length log)) as [->|Hne].
  - rewrite lookup_ge_None_2 by lia. by rewrite list_lookup_middle.
  - destruct (lookup_lt_is_Some_2 log i ltac:(lia)) as [[b a] Hlog].
    by rewrite (lookup_app_l_Some _ _ _ _ Hlog), Hlog.
Qed.

Lemma genuine_perform th now after :
  genuine th → next_call th now = Some after → genuine (perform (now, after) th).
Proof.
  intros Hg Hnext now'. destruct (next_call_log _ _ _ Hg Hnext) as [rest Hrest].
  set (k := S (length (performed th))). set (th' := perform (now, after) th).
  assert (Ht : take k (log_of (replay th' now')) = take k (log_of (replay th now))).
  { destruct (ls_agree _ _ _ _ _ _ (replay_lockstep th now now' (performed th')
      k (λ i, recall_perform _ _ _ _ i)) (([], 0), [])) as [Heq|(_ & _ & Ht)].
    - exact (f_equal (λ x, take k (log_of x)) (eq_sym Heq)).
    - exact (eq_sym Ht). }
  exists (drop k (log_of (replay th' now'))).
  rewrite <- (take_drop k (log_of (replay th' now'))) at 1. f_equal.
  rewrite Ht, Hrest, (cons_middle (now, after)), app_assoc.
  rewrite take_app_length'; [done|]. unfold k. rewrite length_app. simpl. lia.
Qed.
End scheduler.
