(* ===== verification/InterleavingCalls.v ===== *)
(** * InterleavingCalls: the atomic steps of each use case

    What each use case does over a lawful repository that other threads work on:
    which calls it makes, what each of them changes, and on which contents its
    result depends. *)

From S2P Require Import Prelude Text Room RoomRepository RoomService RoomServiceSpec.
From S2P Require Import Json ControlDispatcher ControlDispatcherSpec.
From S2P Require Import Interleaving InterleavingSpec.

(** ** Atomic steps *)

Implicit Types (rooms : gmap RoomCode Room) (code : RoomCode) (pid : ParticipantId).

(** What one call changes in the stored rooms, made for the participants [who]. *)
Inductive atomic_step (who : ParticipantId → Prop) rooms : gmap RoomCode Room → Prop :=
| nothing_changed : atomic_step who rooms rooms
| room_created d password :
    (d ≤ 999999)%N → rooms !! format_room_code d = None →
    atomic_step who rooms
      (<[format_room_code d := NewRoom (format_room_code d) password]> rooms)
| participant_added code room p :
    rooms !! code = Some room → who (GetId p) → GetId p ∉ ids room →
    atomic_step who rooms (<[code := add_participant room p]> rooms)
| participant_removed code room pid :
    rooms !! code = Some room → who pid → pid ∈ ids room →
    atomic_step who rooms (<[code := without room pid]> rooms)
| empty_room_removed code room :
    rooms !! code = Some room → IsEmpty room = true →
    atomic_step who rooms (delete code rooms).

Lemma atomic_step_wf who rooms rooms' :
  atomic_step who rooms rooms' → rooms_wf rooms → rooms_wf rooms'.
Proof.
  intros Hstep Hwf. destruct Hstep as [|d password _ _|code room p Hroom _ Hp|
    code room pid Hroom _ _|code room Hroom He].
  - done.
  - apply map_Forall_insert_2; [|done]. split; [done|apply room_wf_new].
  - destruct (Hwf _ _ Hroom). apply map_Forall_insert_2; [|done].
    split; [done|by apply room_wf_add].
  - destruct (Hwf _ _ Hroom). apply map_Forall_insert_2; [|done].
    split; [done|by apply room_wf_without].
  - by apply map_Forall_delete.
Qed.

(** A step for others does not touch [pid]'s memberships. *)
Lemma atomic_step_other who rooms rooms' code pid :
  atomic_step who rooms rooms' → ¬ who pid →
  in_room rooms' code pid = in_room rooms code pid.
Proof.
  intros Hstep Hpid. apply eq_true_iff_eq. rewrite !in_room_true.
  assert (Hins : ∀ c room room', rooms !! c = Some room →
    (pid ∈ ids room' ↔ pid ∈ ids room) →
    (∃ r, <[c := room']> rooms !! code = Some r ∧ pid ∈ ids r) ↔
    (∃ r, rooms !! code = Some r ∧ pid ∈ ids r)).
  { intros c room room' Hroom Hids. destruct (decide (c = code)) as [->|Hne].
    - rewrite lookup_insert_eq, Hroom. naive_solver.
    - by rewrite lookup_insert_ne. }
  destruct Hstep as [|d password _ Hnone|c room p Hroom Hp _|c room q Hroom Hq _|
    c room Hroom He].
  - done.
  - destruct (decide (format_room_code d = code)) as [<-|Hne].
    + rewrite lookup_insert_eq, Hnone. split; [|naive_solver].
      intros (r & [= <-] & Hin). by apply elem_of_nil in Hin.
    + by rewrite lookup_insert_ne.
  - apply (Hins c room); [done|]. rewrite ids_add, elem_of_app, list_elem_of_singleton.
    naive_solver.
  - apply (Hins c room); [done|]. rewrite ids_without, list_elem_of_filter. naive_solver.
  - destruct (decide (c = code)) as [->|Hne]; [|by rewrite lookup_delete_ne].
    rewrite lookup_delete_eq, Hroom. split; [naive_solver|].
    intros (r & [= <-] & Hin). apply IsEmpty_true in He. unfold ids in Hin.
    rewrite He in Hin. by apply elem_of_nil in Hin.
Qed.

(** ** Histories of calls *)

Section lawful.
Context {R : Type} `{LawfulRepository R}.
Implicit Types (l : history R) (call : R * R).

(** The call left an empty room under [code] that it did not find there. *)
Definition empties code room call : Prop :=
  rooms_of call.2 !! code = Some room ∧ IsEmpty room = true ∧
  rooms_of call.1 !! code ≠ Some room.

(** The call changes the room under [code] if it is still [room]. *)
Definition settles_room code room call : Prop :=
  rooms_of call.1 !! code = Some room → rooms_of call.2 !! code ≠ Some room.

(** Whoever leaves an empty room makes the next call on it. *)
Definition followed_up l : Prop :=
  ∀ i call code room, l !! i = Some call → empties code room call →
    ∃ next, l !! S i = Some next ∧ settles_room code room next.

Definition call_ok (who : ParticipantId → Prop) call : Prop :=
  repo_wf call.2 ∧ atomic_step who (rooms_of call.1) (rooms_of call.2).

(** What every thread that speaks for [who] guarantees of its calls. *)
Definition orderly (who : ParticipantId → Prop) (_ : nat) l : Prop :=
  Forall (call_ok who) l ∧ followed_up l.

#[export] Instance orderly_segmental who : Segmental (orderly who).
Proof.
  split; [by split; [|intros i call code room]|].
  intros k l l' [Hok Hf] [Hok' Hf']. split; [by apply Forall_app|].
  intros i call code room [Hi|[Hlen Hi]]%lookup_app_Some He.
  - destruct (Hf _ _ _ _ Hi He) as (next & Hnext & Hs). exists next.
    split; [by apply lookup_app_l_Some|done].
  - destruct (Hf' _ _ _ _ Hi He) as (next & Hnext & Hs). exists next. split; [|done].
    rewrite lookup_app_r by lia. rewrite <- Hnext. f_equal. lia.
Qed.

(** A call that changes nothing. *)
Definition idle call : Prop := repo_wf call.2 ∧ rooms_of call.2 = rooms_of call.1.

Lemma call_not_emptying who k call :
  call_ok who call → (∀ code room, ¬ empties code room call) → orderly who k [call].
Proof.
  intros Hok Hne. split; [by apply Forall_singleton|].
  intros [|i] call' code room; [|done]. intros [= <-] He. by apply Hne in He.
Qed.

Lemma idle_orderly who k l : Forall idle l → orderly who k l.
Proof.
  intros Hl. split.
  - eapply Forall_impl; [exact Hl|]. intros call [Hwf Hr]. split; [done|].
    rewrite Hr. constructor.
  - intros i call code room Hi (He & _ & Hne).
    apply (Forall_lookup_1 _ _ _ _ Hl) in Hi as [_ Hr]. congruence.
Qed.
End lawful.

(** ** Calls of the service *)

Section runs.
Context {R : Type} `{LawfulRepository R}.
Context (found : nat → R) (Hfound : ∀ k, repo_wf (found k)).

#[local] Instance found_repository : RoomRepository (history R) := interfered found.

(** The contents the next call finds, and its record. *)
Abbreviation now log := (rooms_of (found (length log))) (only parsing).
Abbreviation then_ log after := (log ++ [(found (length log), after)]) (only parsing).

Lemma atomically_run {A} (m : prog exception R A) (m' : prog exception (gmap RoomCode Room) A)
    log :
  sim repo_rel m m' →
  ∃ after, repo_rel after (m' (now log)).2 ∧
    atomically found m log = ((m' (now log)).1, then_ log after).
Proof.
  intros Hsim. destruct (Hsim (found (length log)) (now log)) as (o & r' & t & Hm & Ht & Hr);
    [by split|].
  exists r'. unfold atomically. by rewrite Hm, Ht.
Qed.

Lemma Update_run {C} code (u : Updater C) c log :
  ∃ after, repo_rel after (spec_Update code u (c, now log)).2.2 ∧
    repo_Update code u (c, log) =
    ((spec_Update code u (c, now log)).1,
      ((spec_Update code u (c, now log)).2.1, then_ log after)).
Proof.
  destruct (law_Update code u (c, found (length log)) (c, now log))
    as (o & [c1 r'] & [c2 t] & Hm & Ht & [Hc Hr]);
    [exact (conj eq_refl (conj (Hfound _) eq_refl))|].
  exists r'. simpl in *. rewrite Ht, Hm. simpl. by subst.
Qed.

(** Joining is one call, with the result it would have alone. *)
Lemma JoinRoom_run code p given log :
  ∃ after, repo_rel after (join_spec code p given (now log)).2 ∧
    JoinRoom code p given log =
    (Ret (join_spec code p given (now log)).1, then_ log after).
Proof.
  destruct (Update_run code (join_updater p given) (None, []) log) as (after & Hr & Hrun).
  exists after. unfold JoinRoom, with_locals, ptry, pbind. rewrite Hrun. revert Hr.
  unfold spec_Update, join_spec. destruct (now log !! code) as [room|]; [|done].
  unfold join_updater. rewrite TryAddParticipant_eq.
  by destruct (join_outcome room p given).
Qed.

Lemma spec_RemoveIfEmpty_returns code rooms :
  ∃ a rooms', spec_RemoveIfEmpty code rooms = (Ret a, rooms').
Proof.
  unfold spec_RemoveIfEmpty. destruct (rooms !! code) as [room|]; [|eauto].
  destruct (IsEmpty room); eauto.
Qed.

(** Leaving is one call, on which the result depends; if the participant was in
    the room, a second one follows, which removes the room if it is empty. *)
Lemma LeaveRoom_run code pid log :
  ∃ after, repo_wf after ∧
    match now log !! code with
    | Some room =>
        if HasParticipant room pid then
          rooms_of after = <[code := without room pid]> (now log) ∧
          ∃ after', repo_rel after' (spec_RemoveIfEmpty code (now (then_ log after))).2 ∧
            LeaveRoom code pid log =
            (Ret (leave_spec code pid (now log)).1, then_ (then_ log after) after')
        else
          rooms_of after = now log ∧
          LeaveRoom code pid log = (Ret (leave_spec code pid (now log)).1, then_ log after)
    | None =>
        rooms_of after = now log ∧
        LeaveRoom code pid log = (Ret (leave_spec code pid (now log)).1, then_ log after)
    end.
Proof.
  destruct (Update_run code (leave_updater pid) (None, []) log) as (after & Hr & Hrun).
  exists after. split; [apply Hr|]. unfold LeaveRoom, with_locals, ptry, pbind.
  rewrite Hrun. revert Hr. unfold spec_Update, leave_spec.
  destruct (now log !! code) as [room|] eqn:Hroom; [|by intros [_ Hr]].
  unfold leave_updater. rewrite RemoveParticipant_eq.
  destruct (HasParticipant room pid); simpl; [|by intros [_ Hr]].
  intros [_ Hr]. split; [done|].
  destruct (atomically_run _ _ (then_ log after) (law_RemoveIfEmpty code)) as (after' & Hr' & Hrm).
  exists after'. split; [exact Hr'|]. prun. rewrite Hrm.
  by destruct (spec_RemoveIfEmpty_returns code (now (then_ log after))) as (a & rooms & ->).
Qed.

Lemma GetRoomCodes_run log :
  ∃ codes after, repo_rel after (now log) ∧ codes ≡ₚ room_codes (now log) ∧
    repo_GetRoomCodes log = (Ret codes, then_ log after).
Proof.
  destruct (law_GetRoomCodes (found (length log))) as (codes & Hcodes & Hperm); [done|].
  exists codes, (found (length log)). split_and!; [by split|done|].
  cbn. unfold atomically. by rewrite Hcodes.
Qed.

Lemma ParticipantInRoom_run pid code log :
  ∃ after, repo_rel after (now log) ∧
    ServiceParticipantInRoom pid code log =
    (Ret (in_room (now log) code pid), then_ log after).
Proof. exact (atomically_run _ _ log (law_ParticipantInRoom pid code)). Qed.

(** Creating is a number of calls that change nothing, because the code is
    taken, and the call that stores the new room. *)
Lemma create_attempts_run `{CodeDraws} n password log g :
  ∃ l g', Forall idle l ∧
    (create_attempts n password (log, g) =
       (Ret (Err BuildRoomCodeGenerationFailedError), (log ++ l, g')) ∨
     ∃ d after, (d ≤ 999999)%N ∧
       let code := format_room_code d in
       now (log ++ l) !! code = None ∧
       repo_rel after (<[code := NewRoom code password]> (now (log ++ l))) ∧
       create_attempts n password (log, g) =
         (Ret (Ok (NewRoom code password)), (then_ (log ++ l) after, g'))).
Proof.
  revert log g. induction n as [|n IH]; intros log g.
  { exists [], g. split; [done|]. left. by rewrite app_nil_r. }
  set (d := code_draw g). set (room := NewRoom (format_room_code d) password).
  destruct (atomically_run _ _ log (law_Add room)) as (after & Hr & Hrun).
  assert (Hstep : create_attempts (S n) password (log, g) =
    match now log !! format_room_code d with
    | None => (Ret (Ok room), (then_ log after, S g))
    | Some _ => create_attempts n password (then_ log after, S g)
    end).
  { cbn [create_attempts]. prun. fold d. fold room. rewrite Hrun. cbn.
    unfold spec_Add. by destruct (now log !! _). }
  cbn in Hr. unfold spec_Add in Hr. cbn [GetCode room NewRoom code_] in Hr.
  destruct (now log !! format_room_code d) as [taken|] eqn:Hcode.
  - destruct (IH (then_ log after) (S g)) as (l & g' & Hl & Hres).
    exists ((found (length log), after) :: l), g'.
    split; [constructor; [exact Hr|done]|]. rewrite Hstep.
    assert (log ++ (found (length log), after) :: l = then_ log after ++ l) as ->
      by by rewrite <- app_assoc.
    exact Hres.
  - exists [], (S g). split; [done|]. rewrite app_nil_r. right. exists d, after.
    split_and!; [apply code_draw_range|done..].
Qed.

(** ** What the calls guarantee *)

Context (who : ParticipantId → Prop).

Lemma join_step code p given rooms :
  who (GetId p) → atomic_step who rooms (join_spec code p given rooms).2.
Proof.
  intros Hp. unfold join_spec. destruct (rooms !! code) as [room|] eqn:Hroom; [|constructor].
  destruct (join_outcome room p given) eqn:Hj; [|constructor..].
  apply join_outcome_Joined in Hj as [Hnot _]. by apply participant_added.
Qed.

Lemma join_not_emptying code p given rooms code' room :
  (join_spec code p given rooms).2 !! code' = Some room → IsEmpty room = true →
  rooms !! code' = Some room.
Proof.
  unfold join_spec. destruct (rooms !! code) as [room'|]; [|done].
  destruct (join_outcome room' p given); [|done..]. simpl.
  destruct (decide (code = code')) as [->|Hne]; [|by rewrite lookup_insert_ne].
  rewrite lookup_insert_eq. intros [= <-] He%IsEmpty_true. simpl in He.
  by apply app_eq_nil in He as [_ ?].
Qed.

Lemma JoinRoom_orderly code p given :
  who (GetId p) → emits id (orderly who) (JoinRoom code p given).
Proof.
  intros Hp log. destruct (JoinRoom_run code p given log) as (after & [Hwf Hr] & ->).
  eexists. split; [done|]. apply call_not_emptying.
  - split; [done|]. cbn [snd fst]. rewrite Hr. by apply join_step.
  - intros code' room (Hroom & He & Hne). cbn [snd fst] in *. rewrite Hr in Hroom.
    by apply join_not_emptying in Hroom.
Qed.

Lemma reap_step code rooms rooms' :
  rooms' = (spec_RemoveIfEmpty code rooms).2 →
  atomic_step who rooms rooms' ∧
  (∀ room, rooms !! code = Some room → IsEmpty room = true → rooms' !! code = None) ∧
  ∀ code' room, rooms' !! code' = Some room → rooms !! code' = Some room.
Proof.
  intros ->. unfold spec_RemoveIfEmpty. destruct (rooms !! code) as [room|] eqn:Hroom.
  - destruct (IsEmpty room) eqn:He; simpl.
    + split_and!; [by eapply empty_room_removed|by rewrite lookup_delete_eq|].
      by intros code' room' [_ ?]%lookup_delete_Some.
    + split_and!; [constructor| |done]. intros room' Hroom' He'. congruence.
  - split_and!; [constructor|done|done].
Qed.

Lemma LeaveRoom_orderly code pid :
  who pid → emits id (orderly who) (LeaveRoom code pid).
Proof.
  intros Hp log. destruct (LeaveRoom_run code pid log) as (after & Hwf & Hcase).
  assert (Hidle : rooms_of after = now log →
    orderly who (length log) [(found (length log), after)]).
  { intros Hr. apply idle_orderly. by apply Forall_singleton. }
  destruct (now log !! code) as [room|] eqn:Hroom.
  2: { destruct Hcase as [Hr ->]. eexists. split; [done|auto]. }
  destruct (HasParticipant room pid) eqn:Hin.
  2: { destruct Hcase as [Hr ->]. eexists. split; [done|auto]. }
  destruct Hcase as (Hr & after' & [Hwf' Hr'] & ->).
  destruct (reap_step code _ _ Hr') as (Hstep & Hreap & Hsub).
  eexists. split; [by rewrite <- app_assoc|]. apply HasParticipant_true in Hin.
  split; [repeat apply Forall_cons_2; [..|done]; (split; [done|])|].
  - cbn [snd fst]. rewrite Hr. by apply participant_removed.
  - exact Hstep.
  - intros [|[|i]] call code' room'; [..|done]; intros [= <-] (Hroom' & He & Hne);
      cbn [snd fst] in *.
    + eexists. split; [done|]. intros Hfound' Hleft. cbn [snd fst] in *.
      destruct (decide (code = code')) as [->|Hd].
      * by rewrite (Hreap _ Hfound' He) in Hleft.
      * by rewrite Hr, lookup_insert_ne in Hroom'.
    + destruct Hne. by apply Hsub.
Qed.

Lemma leave_each_orderly codes pid acc :
  who pid → emits id (orderly who) (leave_each codes pid acc).
Proof.
  intros Hp. revert acc. induction codes as [|code codes IH]; intros acc; cbn [leave_each].
  - by apply emits_still; [apply _|].
  - apply emits_bind; [apply _|by apply LeaveRoom_orderly|]. intros r. apply IH.
Qed.

Lemma LeaveAllRooms_orderly pid :
  who pid → emits id (orderly who) (LeaveAllRooms pid).
Proof.
  intros Hp. apply emits_bind; [apply _| |intros codes; by apply leave_each_orderly].
  intros log. destruct (GetRoomCodes_run log) as (codes & after & [Hwf Hr] & _ & ->).
  eexists. split; [done|]. apply idle_orderly. by apply Forall_singleton.
Qed.

Lemma ParticipantInRoom_orderly pid code :
  emits id (orderly who) (ServiceParticipantInRoom pid code).
Proof.
  intros log. destruct (ParticipantInRoom_run pid code log) as (after & [Hwf Hr] & ->).
  eexists. split; [done|]. apply idle_orderly. by apply Forall_singleton.
Qed.

(** *** The dispatcher *)

Lemma emits_after {S A} (log : S → history R) P `{!Segmental P} (m : prog exception S A) s base l :
  emits log P m → log s = base ++ l → P (length base) l →
  ∃ seg, log (m s).2 = base ++ seg ∧ P (length base) seg.
Proof.
  intros Hm Hs Hl. destruct (Hm s) as (seg & -> & Hseg). exists (l ++ seg).
  rewrite Hs, <- app_assoc. split; [done|]. apply seg_app; [done|].
  by rewrite <- length_app, <- Hs.
Qed.

Context `{Json, CodeDraws}.

(** The calls of a creator: if the room it created is still as it left it when
    it joins, joining changes it. *)
Lemma created_orderly k l b after b' after' code p password :
  Forall idle l → repo_wf after → repo_wf after' →
  (∃ d, (d ≤ 999999)%N ∧ code = format_room_code d) →
  rooms_of b !! code = None →
  rooms_of after = <[code := NewRoom code password]> (rooms_of b) →
  rooms_of after' = (join_spec code p password (rooms_of b')).2 →
  who (GetId p) →
  orderly who k (l ++ [(b, after); (b', after')]).
Proof.
  intros Hl Hwf Hwf' (d & Hd & ->) Hnone Hr Hr' Hp.
  apply seg_app; [by apply idle_orderly|]. split.
  - repeat apply Forall_cons_2; [..|done]; (split; [done|]); cbn [fst snd].
    + rewrite Hr. by apply room_created.
    + rewrite Hr'. by apply join_step.
  - intros [|[|i]] call code' room'; [..|done]; intros [= <-] (Hroom' & He & Hne);
      cbn [snd fst] in *.
    + eexists. split; [done|]. intros Hfound'. cbn [snd fst] in *. rewrite Hr'.
      rewrite Hr in Hroom'.
      apply lookup_insert_Some in Hroom' as [[<- <-]|[_ ?]]; [|done].
      rewrite <- (insert_id (rooms_of b') (format_room_code d)
        (NewRoom (format_room_code d) password)) by done.
      rewrite join_fresh. simpl. by rewrite lookup_insert_eq.
    + destruct Hne. rewrite Hr' in Hroom'. by apply join_not_emptying in Hroom'.
Qed.

Lemma dispatch_create_orderly request (handler : Handler (R := history R) (Host := list reply)) :
  (∀ c, get_create (command request) = Ret c → who (GetId (create_participant c))) →
  (∀ result, emits (id ∘ fst ∘ fst) (orderly who) (handler result)) →
  emits (id ∘ fst ∘ fst) (orderly who) (dispatch_create request handler).
Proof.
  intros Hwho Hh. unfold dispatch_create.
  destruct (get_create (command request)) as [c|e] eqn:Hc.
  2: { by apply emits_still; [apply _|]. }
  specialize (Hwho c eq_refl). intros [[log g] x].
  destruct (create_attempts_run max_attempts (create_password_hash c) log g)
    as (l & g' & Hl & [Hrun|(d & after & Hd & Hnone & [Hwf Hr] & Hrun)]).
  - unfold pbind at 1. unfold plift.
    erewrite pbind_ret by (apply on_fst_eq; exact Hrun). cbn [send_error].
    eapply (emits_after (id ∘ fst ∘ fst) (orderly who)); [apply Hh|done|by apply idle_orderly].
  - unfold pbind at 1. unfold plift.
    erewrite pbind_ret by (apply on_fst_eq; exact Hrun). cbn [GetCode code_ NewRoom].
    destruct (JoinRoom_run (format_room_code d) (create_participant c) (create_password_hash c)
      (then_ (log ++ l) after)) as (after' & [Hwf' Hr'] & Hjoin).
    erewrite pbind_ret by (do 2 apply on_fst_eq; exact Hjoin).
    assert (Ho : ∀ result, ∃ seg,
      (handler result ((then_ (then_ (log ++ l) after) after', g'), x)).2.1.1 = log ++ seg ∧
      orderly who (length log) seg).
    { intros result.
      eapply (emits_after (id ∘ fst ∘ fst) (orderly who)); [apply Hh|by rewrite <- !app_assoc|].
      apply (created_orderly _ l _ after _ after' (format_room_code d)
        (create_participant c) (create_password_hash c)); try done.
      - by exists d.
      - by rewrite <- app_assoc in Hr'. }
    destruct (join_spec _ _ _ _).1; apply Ho.
Qed.

(** Whom a task speaks for. *)
Definition task_speaker (t : task) : ParticipantId :=
  match t with
  | Request request => speaker (command request)
  | Disconnect participant_id => participant_id
  end.

Lemma record_orderly a : emits (id ∘ fst ∘ fst) (orderly who)
  (record_reply (S := history R * nat) a).
Proof. apply (emits_on_snd_other (id ∘ fst)). apply _. Qed.

#[local] Hint Resolve record_orderly JoinRoom_orderly LeaveRoom_orderly LeaveAllRooms_orderly
  ParticipantInRoom_orderly : calls.

Lemma run_task_orderly t :
  who (task_speaker t) → emits (id ∘ fst ∘ fst) (orderly who) (run_task found t).
Proof.
  intros Hwho. destruct t as [request|pid]; cbn [run_task].
  - unfold Dispatch. emits_step; [|apply record_orderly].
    destruct (meta_type (meta request)).
    + apply dispatch_create_orderly; [|intros result; apply record_orderly].
      simpl in Hwho. by destruct (command request); intros c' [= <-].
    + unfold dispatch_join. emits_step. simpl in Hwho.
      destruct (command request); simplify_eq/=. unfold send_error. repeat emits_step.
    + unfold dispatch_leave. emits_step. simpl in Hwho.
      destruct (command request); simplify_eq/=. unfold send_error. repeat emits_step.
    + unfold dispatch_signaling, send_error. repeat emits_step.
  - unfold HandleParticipantDisconnected. simpl in Hwho. repeat emits_step.
Qed.

Lemma run_tasks_orderly ts :
  Forall (λ t, who (task_speaker t)) ts →
  emits (id ∘ fst ∘ fst) (orderly who) (run_tasks found ts).
Proof.
  intros Hts. apply emits_for; [apply _|]. intros t Ht. apply run_task_orderly.
  by apply (proj1 (Forall_forall _ _) Hts).
Qed.
End runs.
