(* ===== verification/InterleavingRun.v ===== *)
(** * InterleavingRun: invariants of interleaved executions

    Every schedule keeps the invariants of the stored rooms; an empty room is
    always about to be looked after by the thread that emptied it; and the number
    of calls of a request is bounded. *)

From S2P Require Import Prelude Text Room RoomRepository RoomService RoomServiceSpec.
From S2P Require Import Json ControlDispatcher ControlDispatcherSpec.
From S2P Require Import Interleaving InterleavingSpec InterleavingCalls.

(** ** How many calls a request makes *)

Section bounds.
Context {R S : Type} (log : S → history R).

(** [m] makes at most [n] calls. *)
Definition calls {A} (n : nat) (m : prog exception S A) : Prop :=
  emits log (λ _ l, length l ≤ n) m.

Lemma calls_le {A} n n' (m : prog exception S A) : n ≤ n' → calls n m → calls n' m.
Proof. intros Hle Hm s. destruct (Hm s) as (seg & Hseg & Hlen). exists seg. split; [done|lia]. Qed.

Lemma calls_still {A} (m : prog exception S A) : (∀ s, log (m s).2 = log s) → calls 0 m.
Proof. intros Hm s. exists []. by rewrite app_nil_r. Qed.

Lemma calls_bind {A B} n n' (m : prog exception S A) (f : A → prog exception S B) :
  calls n m → (∀ a, calls n' (f a)) → calls (n + n') (pbind m f).
Proof.
  intros Hm Hf s. unfold pbind. destruct (Hm s) as (seg & Hseg & Hn).
  destruct (m s) as [[a|e] s']; simpl in *; [|exists seg; split; [done|lia]].
  destruct (Hf a s') as (seg' & Hseg' & Hn'). exists (seg ++ seg').
  rewrite Hseg', Hseg, app_assoc, length_app. split; [done|lia].
Qed.

Lemma calls_try {A} n n' (m : prog exception S A) h :
  calls n m → (∀ e, calls n' (h e)) → calls (n + n') (ptry m h).
Proof.
  intros Hm Hh s. unfold ptry. destruct (Hm s) as (seg & Hseg & Hn).
  destruct (m s) as [[a|e] s']; simpl in *; [exists seg; split; [done|lia]|].
  destruct (Hh e s') as (seg' & Hseg' & Hn'). exists (seg ++ seg').
  rewrite Hseg', Hseg, app_assoc, length_app. split; [done|lia].
Qed.

Lemma calls_for {A} n (l : list A) (body : A → prog exception S unit) :
  Forall (λ x, calls n (body x)) l → calls (length l * n) (pfor l body).
Proof.
  induction 1 as [|x l Hx _ IH]; simpl; [by apply calls_still|]. by apply calls_bind.
Qed.
End bounds.

Lemma calls_locals {R S C A} (log : S → history R) n (c : C) (m : prog exception (C * S) A) :
  calls (log ∘ snd) n m → calls log n (with_locals c m).
Proof. apply emits_locals. Qed.

Lemma calls_on_fst {R S T A} (log : S → history R) n (m : prog exception S A) :
  calls log n m → calls (log ∘ fst (B := T)) n (on_fst m).
Proof. apply emits_on_fst. Qed.

Lemma calls_on_snd {R S C A} (log : S → history R) n (m : prog exception S A) :
  calls log n m → calls (log ∘ snd (A := C)) n (on_snd m).
Proof. apply emits_on_snd. Qed.

Lemma calls_other {R S T A} (log : S → history R) (m : prog exception T A) :
  calls (log ∘ fst (B := T)) 0 (on_snd m).
Proof. intros [s t]. simpl. destruct (m t) as [o t']. exists []. by rewrite app_nil_r. Qed.

Section requests.
Context `{Json, CodeDraws} {R : Type} `{!RoomRepository R} (found : nat → R).

#[local] Instance found_repository : RoomRepository (history R) := interfered found.

Lemma atomically_calls {A} (m : prog exception R A) : calls id 1 (atomically found m).
Proof. intros log. unfold atomically. destruct (m _) as [o r]. by eexists. Qed.

Lemma Update_calls {C} code (u : Updater C) : calls (id ∘ snd) 1 (repo_Update code u).
Proof.
  intros [c log]. cbn. unfold atomically_with. destruct (repo_Update _ _ _) as [o [c' r]].
  by eexists.
Qed.

(** A part that makes no call. *)
Ltac no_call :=
  intros; try case_match; (apply (calls_le _ 0); [lia|by apply calls_still]).

Lemma JoinRoom_calls code p given : calls id 1 (JoinRoom code p given).
Proof.
  apply calls_locals, (calls_bind _ 1 0).
  - apply (calls_try _ 1 0); [|no_call]. apply (calls_bind _ 1 0); [apply Update_calls|no_call].
  - intros [r|]; [no_call|]. apply (calls_bind _ 0 0); no_call.
Qed.

Lemma LeaveRoom_calls code pid : calls id 2 (LeaveRoom code pid).
Proof.
  apply calls_locals, (calls_bind _ 1 1).
  - apply (calls_try _ 1 0); [|no_call]. apply (calls_bind _ 1 0); [apply Update_calls|no_call].
  - intros [r|]; [no_call|]. apply (calls_bind _ 0 1); [no_call|]. intros locals.
    destruct locals.1 as [[]|]; [|no_call..]. apply (calls_try _ 1 0); [|no_call].
    apply (calls_bind _ 1 0); [apply calls_on_snd, atomically_calls|no_call].
Qed.

Lemma create_attempts_calls n password : calls (id ∘ fst) n (create_attempts n password).
Proof.
  induction n as [|n IH]; cbn [create_attempts]; [no_call|].
  apply (calls_bind _ 0 (S n)); [apply calls_other|]. intros code. apply (calls_bind _ 1 n).
  - apply (calls_try _ 1 0); [|no_call].
    apply (calls_bind _ 1 0); [apply calls_on_fst, atomically_calls|no_call].
  - intros [r|]; [no_call|done].
Qed.

Abbreviation at_most n m := (calls (id ∘ fst ∘ fst) n m) (only parsing).

Lemma record_calls n a : at_most n (record_reply (S := history R * nat) a).
Proof. apply (calls_le _ 0); [lia|]. apply (calls_other (id ∘ fst)). Qed.

Lemma ParticipantInRoom_calls pid code :
  at_most 1 (on_fst (T := list reply) (on_fst (T := nat) (ServiceParticipantInRoom pid code))).
Proof. do 2 apply calls_on_fst. apply atomically_calls. Qed.

(** A request makes at most 101 calls: a hundred attempts to store a new room
    and the join of its creator. *)
Lemma Request_calls request : at_most (S max_attempts) (run_task found (Request request)).
Proof.
  assert (Hreply : ∀ result : ControlDispatcherResult,
    at_most 0 (record_reply (S := history R * nat) (Answered result))).
  { intros result. apply record_calls. }
  cbn [run_task]. unfold Dispatch. rewrite <- (Nat.add_0_r (S max_attempts)).
  apply calls_try; [|intros e; apply Hreply]. destruct (meta_type (meta request)).
  - apply (calls_bind _ 0 (S max_attempts)); [no_call|]. intros c.
    rewrite <- Nat.add_1_r. apply calls_bind; [apply calls_on_fst, create_attempts_calls|].
    intros [room|e]; [|apply record_calls].
    apply (calls_bind _ 1 0); [do 2 apply calls_on_fst; apply JoinRoom_calls|].
    intros [joined|e]; apply Hreply.
  - apply (calls_le _ 1); [unfold max_attempts; lia|].
    apply (calls_bind _ 0 1); [no_call|]. intros c.
    apply (calls_bind _ 1 0); [do 2 apply calls_on_fst; apply JoinRoom_calls|].
    intros [joined|e]; apply Hreply.
  - apply (calls_le _ 2); [unfold max_attempts; lia|].
    apply (calls_bind _ 0 2); [no_call|]. intros c.
    apply (calls_bind _ 2 0); [do 2 apply calls_on_fst; apply LeaveRoom_calls|].
    intros [joined|e]; apply Hreply.
  - apply (calls_le _ 2); [unfold max_attempts; lia|].
    apply (calls_bind _ 0 2); [no_call|]. intros c.
    apply (calls_bind _ 1 1); [apply ParticipantInRoom_calls|]. intros from_in.
    apply (calls_bind _ 1 0).
    + destruct from_in; [apply ParticipantInRoom_calls|no_call].
    + intros [|]; apply Hreply.
Qed.
End requests.

(** ** Executions *)

Lemma sum_list_bound {A} (f g : A → nat) k l :
  Forall (λ x, f x ≤ k * g x) l → sum_list (f <$> l) ≤ k * sum_list (g <$> l).
Proof. induction 1; csimpl; nia. Qed.

Section schedule.
Context `{Json} {R : Type} `{!RoomRepository R}.
Implicit Types (th : thread R) (c : config R).

Lemma run_step_inv i c c' :
  run_step i c = Some c' →
  ∃ th after, threads c !! i = Some th ∧ next_call th (shared c) = Some after ∧
    c' = MkConfig after (<[i := perform (shared c, after) th]> (threads c)).
Proof.
  unfold run_step. intros (th & Hth & (after & Hafter & [= <-])%bind_Some)%bind_Some. eauto.
Qed.

(** A property of configurations that steps preserve. *)
Lemma run_schedule_inv (P : config R → Prop) schedule c c' :
  (∀ i c c', i ∈ schedule → P c → run_step i c = Some c' → P c') →
  P c → run_schedule schedule c = Some c' → P c'.
Proof.
  revert c. induction schedule as [|i schedule IH]; intros c HP Hc; simpl.
  - by intros [= <-].
  - intros (c1 & Hstep & Hrun)%bind_Some. apply (IH c1); [|by eapply HP; [left|..]|done].
    intros j d d' Hj. apply HP. by right.
Qed.

Definition all_genuine c : Prop := Forall genuine (threads c).

Lemma all_genuine_step i c c' : all_genuine c → run_step i c = Some c' → all_genuine c'.
Proof.
  intros Hg (th & after & Hth & Hnext & ->)%run_step_inv. apply Forall_insert; [done|].
  apply genuine_perform; [|done]. by eapply (Forall_lookup_1 _ _ _ _ Hg).
Qed.

Lemma start_genuine r work : all_genuine (start_config (R := R) r work).
Proof. apply Forall_fmap, Forall_forall. intros w _. apply genuine_start. Qed.

(** The calls made so far, and a bound of all calls of the threads' tasks. *)
Definition calls_made c : nat := sum_list (length ∘ performed <$> threads c).

Lemma calls_made_step i c c' :
  run_step i c = Some c' → calls_made c' = S (calls_made c).
Proof.
  intros (th & after & Hth & _ & ->)%run_step_inv. unfold calls_made. simpl.
  revert i Hth. induction (threads c) as [|th' l IH]; intros [|i] Hth; simplify_eq/=.
  - rewrite length_app. simpl. lia.
  - rewrite (IH i) by done. lia.
Qed.

Lemma calls_made_schedule schedule c c' :
  run_schedule schedule c = Some c' → calls_made c' = calls_made c + length schedule.
Proof.
  revert c. induction schedule as [|i schedule IH]; intros c; simpl.
  - intros [= ->]. lia.
  - intros (c1 & Hstep & Hrun)%bind_Some. rewrite (IH _ Hrun), (calls_made_step _ _ _ Hstep).
    lia.
Qed.

Definition is_request (t : task) : bool :=
  match t with Request _ => true | Disconnect _ => false end.

Lemma performed_bound th (now : R) :
  genuine th → Forall (λ t, is_request t = true) (tasks th) →
  length (performed th) ≤ length (tasks th) * S max_attempts.
Proof.
  intros Hg Hts. destruct (Hg now) as [rest Hrest].
  assert (Hc : calls (id ∘ fst ∘ fst) (length (tasks th) * S max_attempts)
    (run_tasks (H0 := draws th) (recall (performed th) now) (tasks th))).
  { apply calls_for. eapply Forall_impl; [exact Hts|]. intros [request|pid] Ht; [|done].
    apply (Request_calls (H0 := draws th)). }
  destruct (Hc (([], 0), [])) as (seg & Hseg & Hlen). simpl in Hseg.
  change (log_of (replay th now) = seg) in Hseg. rewrite Hrest in Hseg. subst seg.
  rewrite length_app in Hlen. lia.
Qed.

(** The tasks of the threads do not change. *)
Lemma tasks_schedule schedule c c' :
  run_schedule schedule c = Some c' → tasks <$> threads c' = tasks <$> threads c.
Proof.
  intros Hrun. apply (run_schedule_inv (λ d, tasks <$> threads d = tasks <$> threads c)
    schedule c c'); [|done..].
  intros i d d' _ Hd (th & after & Hth & _ & ->)%run_step_inv. simpl.
  rewrite list_fmap_insert, <- Hd, list_insert_id; [done|].
  rewrite list_lookup_fmap, Hth. done.
Qed.
End schedule.

(** ** Invariants over a lawful repository *)

Section lawful.
Context `{Json} {R : Type} `{LawfulRepository R}.
Implicit Types (th : thread R) (c : config R).

(** The participants a thread speaks for. *)
Definition speaks th (pid : ParticipantId) : Prop := ∃ t, t ∈ tasks th ∧ task_speaker t = pid.

Record thread_ok th : Prop := {
  to_genuine : genuine th;
  to_found : Forall (λ call, repo_wf call.1) (performed th)
}.

Record config_ok c : Prop := {
  co_shared : repo_wf (shared c);
  co_threads : Forall thread_ok (threads c)
}.

Lemma recall_wf th now k : thread_ok th → repo_wf now → repo_wf (recall (performed th) now k).
Proof.
  intros [_ Hf] Hnow. unfold recall. destruct (performed th !! k) as [[b a]|] eqn:Hk; [|done].
  by apply (Forall_lookup_1 _ _ _ _ Hf) in Hk.
Qed.

Lemma replay_orderly th now :
  thread_ok th → repo_wf now → orderly (speaks th) 0 (log_of (replay th now)).
Proof.
  intros Hth Hnow.
  destruct (run_tasks_orderly (H1 := draws th) (recall (performed th) now)
    (λ k, recall_wf th now k Hth Hnow) (speaks th) (tasks th))
    with (([] : history R, 0), [] : list reply)
    as (seg & Hseg & Ho).
  - apply Forall_forall. intros t Ht. by exists t.
  - simpl in Hseg. unfold log_of, replay. by rewrite Hseg.
Qed.

(** The next call of a thread is one of those it guarantees to make. *)
Lemma next_call_ok th now after :
  thread_ok th → repo_wf now → next_call th now = Some after →
  call_ok (speaks th) (now, after).
Proof.
  intros Hth Hnow Hnext. destruct (replay_orderly th now Hth Hnow) as [Hok _].
  destruct (next_call_log th now after (to_genuine _ Hth) Hnext) as [rest Hrest].
  rewrite Hrest in Hok. by apply Forall_app in Hok as [_ [Hcall _]%Forall_cons].
Qed.

Lemma config_ok_step i c c' : config_ok c → run_step i c = Some c' → config_ok c'.
Proof.
  intros [Hs Hths] (th & after & Hth & Hnext & ->)%run_step_inv.
  pose proof (Forall_lookup_1 _ _ _ _ Hths Hth) as Hok.
  split; [apply (next_call_ok th _ _ Hok Hs Hnext)|].
  apply Forall_insert; [done|]. split; [apply genuine_perform; [apply Hok|done]|].
  apply Forall_app. split; [apply Hok|]. by apply Forall_singleton.
Qed.

Lemma config_ok_start r work : repo_wf r → config_ok (start_config r work).
Proof.
  intros Hr. split; [done|]. apply Forall_fmap, Forall_forall. intros w _.
  split; [apply genuine_start|done].
Qed.

Lemma config_ok_schedule schedule c c' :
  config_ok c → run_schedule schedule c = Some c' → config_ok c'.
Proof.
  intros Hok Hrun. eapply run_schedule_inv; [|exact Hok|exact Hrun].
  intros i d d' _. apply config_ok_step.
Qed.

Lemma run_step_atomic i c c' :
  config_ok c → run_step i c = Some c' →
  ∃ th, threads c !! i = Some th ∧
    atomic_step (speaks th) (rooms_of (shared c)) (rooms_of (shared c')).
Proof.
  intros [Hs Hths] (th & after & Hth & Hnext & ->)%run_step_inv. exists th. split; [done|].
  by apply (next_call_ok th _ _ (Forall_lookup_1 _ _ _ _ Hths Hth) Hs Hnext).
Qed.

(** *** Empty rooms are looked after *)

(** For every empty room there is a thread whose last call has left it. *)
Definition looked_after c : Prop :=
  ∀ code room, rooms_of (shared c) !! code = Some room → IsEmpty room = true →
    ∃ i th call, threads c !! i = Some th ∧ last (performed th) = Some call ∧
      empties code room call.

Lemma looked_after_step i c c' :
  config_ok c → looked_after c → run_step i c = Some c' → looked_after c'.
Proof.
  intros [Hs Hths] Hl (th & after & Hth & Hnext & ->)%run_step_inv code room Hroom He.
  simpl in Hroom. pose proof (Forall_lookup_1 _ _ _ _ Hths Hth) as Hok.
  pose proof (lookup_lt_Some _ _ _ Hth) as Hi.
  destruct (decide (rooms_of (shared c) !! code = Some room)) as [Hold|Hnew].
  2: { exists i, (perform (shared c, after) th), (shared c, after).
       split_and!; [by apply list_lookup_insert_eq|by apply last_snoc|done]. }
  destruct (Hl code room Hold He) as (j & th' & call & Hth' & Hlast & Hem).
  destruct (decide (i = j)) as [<-|Hne].
  2: { exists j, th', call. simpl. by rewrite list_lookup_insert_ne. }
  rewrite Hth in Hth'. injection Hth' as <-. exfalso.
  destruct (next_call_log th _ _ (to_genuine _ Hok) Hnext) as [rest Hrest].
  destruct (replay_orderly th _ Hok Hs) as [_ Hfollow]. rewrite Hrest in Hfollow.
  rewrite last_lookup in Hlast. pose proof (lookup_lt_Some _ _ _ Hlast) as Hlen.
  destruct (Hfollow (pred (length (performed th))) call code room) as (next & Hn & Hsettle).
  - by rewrite lookup_app_l.
  - done.
  - rewrite Nat.succ_pred in Hn by lia. rewrite list_lookup_middle in Hn by done.
    injection Hn as <-. by destruct (Hsettle Hold).
Qed.

Lemma looked_after_start r work :
  no_empty_room (rooms_of r) → looked_after (start_config r work).
Proof. intros Hne code room Hroom He. apply Hne in Hroom. congruence. Qed.

Lemma looked_after_schedule schedule c c' :
  config_ok c → looked_after c → run_schedule schedule c = Some c' → looked_after c'.
Proof.
  intros Hok Hl Hrun.
  apply (run_schedule_inv (λ d, config_ok d ∧ looked_after d) schedule c c'); [|done..].
  intros i d d' _ [Hd Hd'] Hstep.
  split; [by eapply config_ok_step|by eapply looked_after_step].
Qed.

(** A finished thread has looked after what it left. *)
Lemma finished_settled th now code room call :
  thread_ok th → repo_wf now → next_call th now = None →
  last (performed th) = Some call → ¬ empties code room call.
Proof.
  intros Hok Hnow Hnext Hlast Hem. destruct (to_genuine _ Hok now) as [rest Hrest].
  unfold next_call in Hnext. apply fmap_None in Hnext. rewrite Hrest in Hnext.
  rewrite lookup_app_r, Nat.sub_diag in Hnext by done.
  destruct rest as [|e rest]; [|done]. rewrite app_nil_r in Hrest.
  destruct (replay_orderly th now Hok Hnow) as [_ Hfollow]. rewrite Hrest in Hfollow.
  rewrite last_lookup in Hlast. pose proof (lookup_lt_Some _ _ _ Hlast) as Hlen.
  destruct (Hfollow _ _ _ _ Hlast Hem) as (next & Hn & _).
  apply lookup_lt_Some in Hn. lia.
Qed.
End lawful.
