(* ===== verification/Samples.v ===== *)
(** * Samples: concrete runs

    Instances of the parameters and a concrete run of the server, at which the
    theorems are evaluated: two clients connect, the first creates a room, the
    second joins it, and their messages are written out. *)

From S2P Require Import Prelude Text UnorderedMap Room RoomRepository InMemoryRoomRepository.
From S2P Require Import RoomService Json JsonTree ControlDispatcher ProtocolCodec.
From S2P Require Import SessionRegistry Session Config Server System Sending.

#[export] Existing Instance push_front_order.

#[local] Obligation Tactic := idtac.

#[export] Program Instance counting_codes : CodeDraws := {|
  code_draw n := (N.of_nat n mod 1000000)%N
|}.
Next Obligation.
  intros n. simpl. apply N.lt_succ_r. exact (N.mod_lt (N.of_nat n) 1000000 ltac:(done)).
Qed.

#[export] Program Instance counting_ids : IdDraws := {|
  id_draw n := (N.of_nat n mod 2 ^ 64)%N
|}.
Next Obligation. intros n. apply N.mod_lt. done. Qed.

Definition first_id : ParticipantId := format_participant_id 0.
Definition second_id : ParticipantId := format_participant_id 1.

Definition create_message : string :=
  msg "{'type':'create_room','request_id':'a','payload':{'display_name':'Ann'}}".
Definition join_message : string :=
  msg "{'type':'join_room','payload':{'room_code':'000000','display_name':'Bob'}}".
Definition leave_message : string :=
  msg "{'type':'leave_room','payload':{'room_code':'000000'}}".
Definition offer_message : string :=
  msg ("{'type':'offer','payload':{'room_code':'000000'," +:+
       "'target_participant_id':'p_0000000000000000','sdp':'v=0'}}").

(** The accepted connections and their first messages. *)
Definition connect (s : SessionPtr) : list io_event :=
  [EvTcpAccept false; EvWebSocketAccept s false].

Definition meeting_events : list io_event :=
  connect 0 ++ connect 1 ++
  [EvWebSocketRead 0 (ReadMessage create_message true);
   EvWebSocketRead 1 (ReadMessage join_message true)].

Definition server_start : world (R := Rooms) := start_world NewRepository.

Definition world_after (evs : list io_event) : world (R := Rooms) :=
  default server_start (run_events false evs server_start).

Definition net_of (w : world (R := Rooms)) : Net :=
  match w with Running _ n => n | Crashed _ => empty_net end.

Definition rooms_in (w : world (R := Rooms)) : gmap RoomCode Room :=
  match w with Running (r, _) _ => rooms_of r | Crashed _ => ∅ end.

(** Every posted send of a world runs, in order. *)
Definition flush_events (w : world (R := Rooms)) : list io_event :=
  omap (λ c, match c with PostedSend s m => Some (EvPostedSend s m) | _ => None end)
    (pending (net_of w)).

Definition sent_events : list io_event :=
  meeting_events ++ flush_events (world_after meeting_events).

Section reachability.
Context `{BucketOrder, Json, CodeDraws, IdDraws} {R : Type} `{!RoomRepository R}.

#[export] Instance late_read_decision ev w : Decision (late_read (R := R) ev w).
Proof.
  unfold late_read. destruct ev as [| | |s [| |m []]| | | | | |], w as [v n|]; apply _.
Defined.

(** No event of a run is a late read. *)
Fixpoint no_late (tls : bool) (evs : list io_event) (w : world (R := R)) : bool :=
  match evs with
  | [] => true
  | ev :: evs =>
      bool_decide (¬ late_read ev w) &&
      match run_event tls ev w with Some w => no_late tls evs w | None => true end
  end.

Lemma reachable_events tls strict repository evs w w' :
  reachable tls strict repository w → run_events tls evs w = Some w' →
  (strict = true → no_late tls evs w = true) →
  reachable tls strict repository w'.
Proof.
  revert w. induction evs as [|ev evs IH]; intros w Hw Hrun Hlate; simpl in Hrun.
  { by injection Hrun as <-. }
  apply bind_Some in Hrun as (w1 & Hev & Hrun). apply (IH w1); [|done|].
  - apply reachable_step with w ev; [done|done|]. intros Hs.
    specialize (Hlate Hs). simpl in Hlate.
    by apply andb_true_iff in Hlate as [?%bool_decide_eq_true _].
  - intros Hs. specialize (Hlate Hs). simpl in Hlate. rewrite Hev in Hlate.
    by apply andb_true_iff in Hlate as [_ ?].
Qed.

#[export] Instance in_order_decision ev n : Decision (in_order ev n).
Proof. unfold in_order. destruct ev; apply _. Defined.

(** Every event of a run is in order and none is a late read. *)
Fixpoint in_turn (tls : bool) (evs : list io_event) (w : world (R := R)) : bool :=
  match evs, w with
  | [], _ => true
  | ev :: evs, Running _ n =>
      bool_decide (in_order ev n) && bool_decide (¬ late_read ev w) &&
      match run_event tls ev w with Some w => in_turn tls evs w | None => true end
  | _ :: _, Crashed _ => false
  end.

Lemma in_turn_orderly tls evs w : in_turn tls evs w = true → orderly tls evs w.
Proof.
  revert w. induction evs as [|ev evs IH]; intros [v n|e] Hturn; try done.
  cbn [in_turn orderly] in *. apply andb_true_iff in Hturn as [Hnow Hturn].
  apply andb_true_iff in Hnow as [Hord%bool_decide_eq_true _]. split; [done|].
  destruct (run_event tls ev (Running v n)); [by apply IH|done].
Qed.

Lemma fifo_events tls repository evs w w' :
  fifo_reachable tls repository w → run_events tls evs w = Some w' →
  in_turn tls evs w = true → fifo_reachable tls repository w'.
Proof.
  revert w. induction evs as [|ev evs IH]; intros w Hw Hrun Hturn.
  { by injection Hrun as <-. }
  destruct w as [v n|e]; [|done].
  change (run_events tls (ev :: evs) (Running v n)) with
    (run_event tls ev (Running v n) ≫= run_events tls evs) in Hrun.
  apply bind_Some in Hrun as (w1 & Hev & Hrun). cbn [in_turn] in Hturn. rewrite Hev in Hturn.
  apply andb_true_iff in Hturn as [Hnow Hturn]. apply andb_true_iff in Hnow as [Hord Hlate].
  apply bool_decide_eq_true in Hord, Hlate.
  apply (IH w1); [|done..]. by apply fifo_step with v n ev.
Qed.
End reachability.

Lemma run_events_after evs :
  is_Some (run_events false evs server_start) →
  run_events false evs server_start = Some (world_after evs).
Proof. unfold world_after. by intros [w ->]. Qed.

Lemma sent_run : run_events false sent_events server_start = Some (world_after sent_events).
Proof. apply run_events_after. vm_compute. eauto. Qed.

Lemma sent_reachable strict : reachable false strict NewRepository (world_after sent_events).
Proof.
  eapply reachable_events; [apply reachable_start|apply sent_run|]. intros _. by vm_compute.
Qed.

Lemma sent_fifo : fifo_reachable false NewRepository (world_after sent_events).
Proof. eapply fifo_events; [apply fifo_start|apply sent_run|]. by vm_compute. Qed.

Example meeting_rooms :
  rooms_in (world_after meeting_events) !! "000000" =
  Some (MkRoom "000000" None [MkParticipant first_id "Ann"; MkParticipant second_id "Bob"]).
Proof. by vm_compute. Qed.

(** A world that runs, by its parts. *)
Lemma running_parts (w : world (R := Rooms)) :
  (match w with Running _ _ => true | Crashed _ => false end) = true →
  ∃ r g, w = Running (r, g) (net_of w) ∧ rooms_of r = rooms_in w.
Proof. destruct w as [[r g] n|e]; [|done]. intros _. by exists r, g. Qed.

Lemma sent_running :
  ∃ r g, world_after sent_events = Running (r, g) (net_of (world_after sent_events)) ∧
         rooms_of r = rooms_in (world_after sent_events).
Proof. apply running_parts. by vm_compute. Qed.

(** The network state in which two clients have met and their messages are
    being written. *)
Definition sample_net : Net := net_of (world_after sent_events).

Lemma sample_running strict :
  ∃ r g, reachable false strict NewRepository (Running (r, g) sample_net) ∧
         rooms_of r = rooms_in (world_after sent_events).
Proof.
  destruct sent_running as (r & g & Hw & Hr). exists r, g. split; [|exact Hr].
  unfold sample_net. rewrite <- Hw. apply sent_reachable.
Qed.

Lemma sample_run :
  ∃ r g, run_events false sent_events server_start = Some (Running (r, g) sample_net) ∧
         rooms_of r = rooms_in (world_after sent_events).
Proof.
  destruct sent_running as (r & g & Hw & Hr). exists r, g. split; [|exact Hr].
  unfold sample_net. rewrite <- Hw. apply sent_run.
Qed.

Lemma sent_orderly : orderly false sent_events server_start.
Proof. apply in_turn_orderly. by vm_compute. Qed.

Lemma sample_fifo :
  ∃ r g, fifo_reachable false NewRepository (Running (r, g) sample_net) ∧
         rooms_of r = rooms_in (world_after sent_events).
Proof.
  destruct sent_running as (r & g & Hw & Hr). exists r, g. split; [|exact Hr].
  unfold sample_net. rewrite <- Hw. apply sent_fifo.
Qed.

Lemma sample_ids : NoDup (id_draw <$> seq 0 (next_session sample_net)).
Proof. vm_compute. repeat constructor; set_solver. Qed.

(** The room they have met in. *)
Definition meeting_room : Room :=
  MkRoom "000000" None [MkParticipant first_id "Ann"; MkParticipant second_id "Bob"].

(** A client sends a binary message and then a request; the write of the answer
    to the first fails when the second has been read but not yet handled. *)
Definition refusal : string :=
  match InvalidMessageError with Ret t => t | Throw _ => "" end.

Definition ghost_events : list io_event :=
  connect 0 ++ [EvWebSocketRead 0 (ReadMessage "" false); EvPostedSend 0 refusal;
                EvWebSocketWrite 0 refusal true;
                EvWebSocketRead 0 (ReadMessage create_message true)].

Lemma ghost_reachable : reachable false false NewRepository (world_after ghost_events).
Proof.
  eapply reachable_events; [apply reachable_start| |done].
  apply run_events_after. vm_compute. eauto.
Qed.

#[global] Opaque world_after.
