(* ===== verification/RoomProps.v ===== *)
(** * RoomProps: what rooms, codes and the repository guarantee *)

From stdpp Require Import relations.
From S2P Require Import Prelude Text UnorderedMap Room RoomRepository InMemoryRoomRepository.
From S2P Require Import RoomService Session SystemRun Samples.

(** ** Rooms *)

Section room.
Implicit Types (r : Room) (p : Participant) (pid : ParticipantId).

(** [TryAddParticipant] tests membership before the secret, and the secret
    only of a protected room; it appends the participant when it answers
    [Joined] and leaves the room as it was in every other case. *)
Theorem try_add_decides r p given :
  let '(result, r') := TryAddParticipant r p given in
  (result = JoinRoomResult.AlreadyInRoom ↔ HasParticipant r (GetId p) = true) ∧
  (result = JoinRoomResult.SecretNotProvided ↔
     HasParticipant r (GetId p) = false ∧ IsSecretProtected r = true ∧ given = None) ∧
  (result = JoinRoomResult.InvalidSecret ↔
     HasParticipant r (GetId p) = false ∧
     ∃ own other, room_secret_ r = Some own ∧ given = Some other ∧ own ≠ other) ∧
  (result = JoinRoomResult.Joined →
     GetParticipants r' = GetParticipants r ++ [p] ∧ GetCode r' = GetCode r ∧
     room_secret_ r' = room_secret_ r) ∧
  (result ≠ JoinRoomResult.Joined → r' = r).
Proof.
  unfold TryAddParticipant, IsSecretProtected. destruct (HasParticipant r (GetId p)) eqn:Hp.
  { naive_solver. }
  destruct (room_secret_ r) as [own|] eqn:Hs; [|naive_solver].
  destruct given as [other|]; [|naive_solver].
  case_decide; naive_solver.
Qed.

(** Leaving undoes joining: the participant who has just joined leaves the
    room exactly as it was before. *)
Lemma join_then_leave r p given :
  (TryAddParticipant r p given).1 = JoinRoomResult.Joined →
  RemoveParticipant (TryAddParticipant r p given).2 (GetId p) = (LeaveRoomResult.Left, r).
Proof.
  rewrite TryAddParticipant_eq. simpl. intros Hj. rewrite decide_True by done.
  assert (Hout : GetId p ∉ ids r).
  { rewrite <- HasParticipant_false. unfold join_outcome in Hj.
    by destruct (HasParticipant r (GetId p)). }
  rewrite RemoveParticipant_eq, without_add by done.
  replace (HasParticipant _ _) with true; [done|].
  symmetry. rewrite HasParticipant_true, ids_add. set_solver.
Qed.

(** One operation on a room; a participant is renamed through the reference
    that [FindParticipant] returns. *)
Inductive room_step r : Room → Prop :=
| step_try_add p given : room_step r (TryAddParticipant r p given).2
| step_remove pid : room_step r (RemoveParticipant r pid).2
| step_rename pid i name :
    FindParticipantRef r pid = Ret i → room_step r (write_ref r i (SetName name)).

Lemma ids_rename r i name : ids (write_ref r i (SetName name)) = ids r.
Proof.
  unfold ids, write_ref. simpl. apply list_eq. intros j. rewrite !list_lookup_fmap.
  destruct (decide (i = j)) as [->|Hne].
  - rewrite list_lookup_alter_eq. by destruct (participants_ r !! j).
  - by rewrite list_lookup_alter_ne.
Qed.

Lemma room_step_inv r r' :
  room_step r r' → (room_wf r → room_wf r') ∧ code_ r' = code_ r ∧
                   room_secret_ r' = room_secret_ r.
Proof.
  intros [p given|pid|pid i name _].
  - rewrite TryAddParticipant_eq. simpl. case_decide as Hj; [|done]. split_and!; [|done..].
    intros Hwf. apply room_wf_add; [done|]. rewrite <- HasParticipant_false.
    unfold join_outcome in Hj. by destruct (HasParticipant r (GetId p)).
  - rewrite RemoveParticipant_eq. simpl. split_and!; [apply room_wf_without|done..].
  - split_and!; [|done..]. unfold room_wf. by rewrite ids_rename.
Qed.

(** Whatever operations are applied to a new room, no participant id is
    ever listed twice, and code and secret never change. *)
Theorem rooms_list_nobody_twice code secret r :
  rtc room_step (NewRoom code secret) r →
  NoDup (GetId <$> GetParticipants r) ∧ GetCode r = code ∧ room_secret_ r = secret.
Proof.
  assert (Hinv : ∀ r0 r1, rtc room_step r0 r1 →
    (room_wf r0 → room_wf r1) ∧ code_ r1 = code_ r0 ∧ room_secret_ r1 = room_secret_ r0).
  { induction 1 as [|r0 r1 r2 Hstep _ IH]; [done|].
    apply room_step_inv in Hstep. naive_solver congruence. }
  intros (Hwf & Hc & Hs)%Hinv. split_and!; [|done..]. apply Hwf, room_wf_new.
Qed.

Definition first_with (pid : ParticipantId) (l : list Participant) : option Participant :=
  snd <$> list_find (λ p, has_id pid p = true) l.

Lemma first_with_cons pid p l :
  first_with pid (p :: l) = if has_id pid p then Some p else first_with pid l.
Proof.
  unfold first_with. simpl. destruct (has_id pid p); [by rewrite decide_True|].
  rewrite decide_False by done. by destruct (list_find _ l) as [[? ?]|].
Qed.

Lemma FindParticipant_eq r pid :
  FindParticipant r pid =
  match first_with pid (participants_ r) with
  | Some p => Ret p
  | None => Throw (out_of_range "participant_not_found")
  end.
Proof. unfold FindParticipant, first_with. by destruct (list_find _ _) as [[? ?]|]. Qed.

Lemma find_pos_first l pid i name :
  find_pos (has_id pid) l = Some i →
  ∃ p, first_with pid l = Some p ∧ GetId p = pid ∧
    first_with pid (alter (SetName name) i l) = Some (SetName name p) ∧
    ∀ pid', pid' ≠ pid → first_with pid' (alter (SetName name) i l) = first_with pid' l.
Proof.
  revert i. induction l as [|x l IH]; intros i; simpl; [done|].
  destruct (has_id pid x) eqn:Hx.
  - intros [= <-]. apply has_id_true in Hx as Hid. exists x. simpl.
    setoid_rewrite first_with_cons. rewrite Hx.
    change (has_id pid (SetName name x)) with (has_id pid x). rewrite Hx.
    split_and!; [done..|]. intros pid' Hne.
    assert (Hx' : has_id pid' x = false) by (apply has_id_false; congruence).
    change (has_id pid' (SetName name x)) with (has_id pid' x). by rewrite Hx'.
  - intros (j & Hj & ->)%fmap_Some. destruct (IH j Hj) as (p & Hp & Hid & Hw & Hother).
    exists p. simpl. setoid_rewrite first_with_cons. rewrite Hx.
    split_and!; [done..|]. intros pid' Hne. by rewrite Hother.
Qed.

(** Both overloads of [FindParticipant] throw [out_of_range] exactly for
    an absent id; a name written through the returned reference is what the
    lookup finds afterwards, and nobody else changes. *)
Theorem find_participant_refers r pid name :
  (HasParticipant r pid = false →
     FindParticipant r pid = Throw (out_of_range "participant_not_found") ∧
     FindParticipantRef r pid = Throw (out_of_range "participant_not_found")) ∧
  (HasParticipant r pid = true →
     ∃ i p, FindParticipantRef r pid = Ret i ∧ FindParticipant r pid = Ret p ∧
       GetId p = pid ∧
       FindParticipant (write_ref r i (SetName name)) pid = Ret (SetName name p) ∧
       ∀ pid', pid' ≠ pid →
         FindParticipant (write_ref r i (SetName name)) pid' = FindParticipant r pid').
Proof.
  unfold HasParticipant, FindParticipantRef. setoid_rewrite FindParticipant_eq. split.
  - intros Hno. rewrite existsb_false in Hno.
    destruct (find_pos (has_id pid) (participants_ r)) as [i|] eqn:Hi.
    { apply find_pos_Some in Hi as (x & Hx & Hid & _).
      apply list_elem_of_lookup_2, Hno in Hx. congruence. }
    split; [|done]. unfold first_with.
    destruct (list_find _ _) as [[j x]|] eqn:Hf; [|done].
    apply list_find_Some in Hf as (Hx & Hid & _).
    apply list_elem_of_lookup_2, Hno in Hx. congruence.
  - intros Hin. destruct (find_pos (has_id pid) (participants_ r)) as [i|] eqn:Hi.
    + destruct (find_pos_first _ _ _ name Hi) as (p & Hp & Hid & Hw & Hother).
      exists i, p. rewrite Hp. simpl. rewrite Hw. split_and!; [done..|].
      intros pid' Hne. by rewrite Hother.
    + rewrite find_pos_None in Hi. rewrite existsb_true in Hin.
      destruct Hin as (x & Hx & Hid). rewrite (Hi x Hx) in Hid. done.
Qed.
End room.

(** ** Codes and ids *)

Definition decimal_chars : list Ascii.ascii := String.list_ascii_of_string "0123456789".

(** The generated room codes are exactly six decimal digits, participant ids
    are the prefix p_ and sixteen characters, and different draws of the random
    generators give different codes and ids. *)
Theorem generated_text_shape `{CodeDraws, IdDraws} g :
  (∃ code, GenerateRoomCode g = (Ret code, S g) ∧ String.length code = 6 ∧
     (∀ c, c ∈ String.list_ascii_of_string code → c ∈ decimal_chars) ∧
     ∀ g', (GenerateRoomCode g').1 = Ret code ↔ code_draw g' = code_draw g) ∧
  (∃ pid, GenerateParticipantId g = (Ret pid, S g) ∧ String.length pid = 18 ∧
     String.substring 0 2 pid = "p_" ∧
     ∀ g', (GenerateParticipantId g').1 = Ret pid ↔ id_draw g' = id_draw g).
Proof.
  split.
  - exists (format_room_code (code_draw g)). split_and!; [done|..].
    + apply padded_length; [done|lia|]. pose proof (code_draw_range g).
      apply N.le_lt_trans with 999999%N; [done|by vm_compute].
    + intros c Hc. apply (text_of_chars _ _ 10) in Hc; [exact Hc|done|].
      apply setw_fill0_bound, digits_bound; lia.
    + intros g'. unfold GenerateRoomCode. simpl. split; [|by intros ->].
      intros [= Heq]. by apply padded_inj in Heq.
  - exists (format_participant_id (id_draw g)). split_and!; [done|..].
    + unfold format_participant_id.
      change (S (S (String.length (text_of (setw_fill0 16 (digits 16 (id_draw g)))))) = 18).
      rewrite padded_length; [done|done|lia|]. apply id_draw_range.
    + unfold format_participant_id. by destruct (text_of _).
    + intros g'. unfold GenerateParticipantId. simpl. split; [|by intros ->].
      intros [= Heq]. by apply (padded_inj 16 16) in Heq.
Qed.

(** ** The repository *)

Section repository.
Context `{BucketOrder}.
Implicit Types (t : Rooms) (code : RoomCode).

(** C35: the hash table refines the abstract repository: on a table with unique
    keys every member function returns what the operation on the finite map of
    rooms returns and leaves a table with unique keys for its result; the
    iteration order never shows but in [GetRoomCodes], a permutation of the
    keys. *)
Theorem in_memory_refines :
  (∀ room, sim table_rel (Add room) (spec_Add room)) ∧
  (∀ code, sim table_rel (FindByCode code) (spec_FindByCode code)) ∧
  (∀ C code (u : Updater C), sim (with_left table_rel) (Update code u) (spec_Update code u)) ∧
  (∀ code, sim table_rel (Remove code) (spec_Remove code)) ∧
  (∀ code, sim table_rel (RemoveIfEmpty code) (spec_RemoveIfEmpty code)) ∧
  (∀ code, sim table_rel (Exists code) (spec_Exists code)) ∧
  (∀ pid code, sim table_rel (ParticipantInRoom pid code) (spec_ParticipantInRoom pid code)) ∧
  (∀ t rooms, table_rel t rooms →
     ∃ codes, GetRoomCodes t = (Ret codes, t) ∧ codes ≡ₚ room_codes rooms).
Proof.
  split_and!; auto using Add_sim, FindByCode_sim, Remove_sim, RemoveIfEmpty_sim, Exists_sim,
    ParticipantInRoom_sim.
  - intros. apply Update_sim.
  - intros t rooms [Hwf <-]. exists (um_keys t). split; [done|]. by apply um_keys_perm.
Qed.

(** [Update] is a transaction: an updater that throws or aborts leaves the
    table exactly as it was, whatever it wrote to the room it was given; on
    commit only the room of that code changes, in place. *)
Theorem update_is_transactional {C} code (u : Updater C) c t room :
  um_wf t → FindByCode code t = (Ret (Some room), t) →
  match u (c, room), Update code u (c, t) with
  | (Throw e, (c', _)), (result, (c'', t')) => result = Throw e ∧ c'' = c' ∧ t' = t
  | (Ret TransactionResult.Abort, (c', _)), (result, (c'', t')) =>
      result = Ret UpdateRoomResult.Aborted ∧ c'' = c' ∧ t' = t
  | (Ret TransactionResult.Commit, (c', room')), (result, (c'', t')) =>
      result = Ret UpdateRoomResult.Updated ∧ c'' = c' ∧
      FindByCode code t' = (Ret (Some room'), t') ∧
      (∀ code', code' ≠ code → (FindByCode code' t').1 = (FindByCode code' t).1) ∧
      GetRoomCodes t' = (Ret (um_keys t), t')
  end.
Proof.
  intros Hwf Hfind.
  assert (Hroom : um_find code t = Some room).
  { unfold FindByCode in Hfind. destruct (um_find code t); by simplify_eq/=. }
  unfold Update. rewrite Hroom.
  destruct (u (c, room)) as [[[]|e] [c' room']]; [|done..].
  assert (Hmap : to_gmap (um_assign code room' t) = <[code := room']> (to_gmap t)).
  { apply to_gmap_assign. rewrite <- um_find_spec, Hroom. eauto. }
  unfold FindByCode, GetRoomCodes. setoid_rewrite um_find_spec. rewrite Hmap.
  split_and!; [done|done|by rewrite lookup_insert_eq|..].
  - intros code' Hne. rewrite lookup_insert_ne by done. by destruct (_ !! _).
  - do 2 f_equal. unfold um_keys, um_assign. simpl. rewrite <- list_fmap_compose.
    apply list_fmap_ext. intros i [k v] _. simpl. by case_decide.
Qed.
End repository.

(** ** Witnesses *)

Definition locked_room : Room := MkRoom "000042" (Some "s3cret") [MkParticipant "p_a" "Ann"].

Lemma join_then_leave_witness :
  RemoveParticipant (TryAddParticipant locked_room (MkParticipant "p_b" "Bob") (Some "s3cret")).2
    "p_b" = (LeaveRoomResult.Left, locked_room).
Proof.
  apply (join_then_leave locked_room (MkParticipant "p_b" "Bob") (Some "s3cret")).
  by vm_compute.
Defined.

Lemma rooms_list_nobody_twice_witness :
  NoDup (GetId <$> GetParticipants (MkRoom "000042" None [MkParticipant "p_a" "Anna"])).
Proof.
  apply (rooms_list_nobody_twice "000042" None).
  eapply rtc_l; [apply (step_try_add _ (MkParticipant "p_a" "Ann") None)|].
  eapply rtc_l; [apply (step_try_add _ (MkParticipant "p_a" "Twin") None)|].
  eapply rtc_l; [apply (step_rename _ "p_a" 0 "Anna"); by vm_compute|].
  exact (rtc_refl _ _).
Defined.

Definition locked_table : Rooms := (Add locked_room NewRepository).2.

(** An updater that clears its copy of the room and then throws. *)
Definition failing_updater : Updater nat :=
  λ '(c, room), (Throw (runtime_error "updater"), (S c, set_participants room [])).

Lemma update_is_transactional_witness :
  Update "000042" failing_updater (0, locked_table) =
  (Throw (runtime_error "updater"), (1, locked_table)).
Proof.
  assert (Hwf : um_wf locked_table) by (vm_compute; repeat constructor; set_solver).
  pose proof (update_is_transactional "000042" failing_updater 0 locked_table locked_room Hwf
    ltac:(by vm_compute)) as Hrun.
  destruct (Update "000042" failing_updater (0, locked_table)) as [result [c t]].
  by destruct Hrun as (-> & -> & ->).
Defined.
