(* ===== verification/ServiceProps.v ===== *)
(** * ServiceProps: what the use cases guarantee *)

From S2P Require Import Prelude Text UnorderedMap Room RoomRepository InMemoryRoomRepository.
From S2P Require Import RoomService RoomServiceSpec Samples.

(** ** Over a lawful repository *)

Section lawful.
Context `{CodeDraws} {R : Type} `{LawfulRepository R}.
Implicit Types (r : R) (rooms : gmap RoomCode Room) (code : RoomCode) (pid : ParticipantId).

(** C23: [JoinRoom] is [TryAddParticipant] on the stored room: it stores the new
    room and returns its participants when the room says [Joined], and
    otherwise reports the matching error and stores nothing. *)
Theorem join_room_behaviour code p given r rooms :
  repo_rel r rooms →
  ∃ result r', JoinRoom code p given r = (Ret result, r') ∧
    match rooms !! code with
    | None => result = Err BuildRoomNotFoundError ∧ repo_rel r' rooms
    | Some room =>
        match TryAddParticipant room p given with
        | (JoinRoomResult.Joined, room') =>
            result = Ok (MkJoined code p (GetParticipants room')) ∧
            repo_rel r' (<[code := room']> rooms)
        | (JoinRoomResult.AlreadyInRoom, _) =>
            result = Err BuildAlreadyJoinedError ∧ repo_rel r' rooms
        | (JoinRoomResult.InvalidSecret, _) =>
            result = Err BuildWrongPasswordError ∧ repo_rel r' rooms
        | (JoinRoomResult.SecretNotProvided, _) =>
            result = Err BuildPasswordNotProvidedError ∧ repo_rel r' rooms
        end
    end.
Proof.
  intros Hr. destruct (JoinRoom_lawful code p given r rooms Hr) as (r' & Hrun & Hr').
  eexists _, r'. split; [exact Hrun|]. unfold join_spec in *.
  destruct (rooms !! code) as [room|]; [|done]. rewrite TryAddParticipant_eq.
  by destruct (join_outcome room p given).
Qed.

(** C24: [LeaveRoom] is [RemoveParticipant] on the stored room: on [Left] the
    room without the participant is stored, or removed if that emptied it, and
    the remaining participants are returned; an unknown room and an absent
    participant are errors that change nothing. *)
Theorem leave_room_behaviour code pid r rooms :
  repo_rel r rooms →
  ∃ result r', LeaveRoom code pid r = (Ret result, r') ∧
    match rooms !! code with
    | None => result = Err BuildRoomNotFoundError ∧ repo_rel r' rooms
    | Some room =>
        match RemoveParticipant room pid with
        | (LeaveRoomResult.NotInRoom, _) =>
            result = Err BuildNotInRoomError ∧ repo_rel r' rooms
        | (LeaveRoomResult.Left, room') =>
            result = Ok (MkLeft code pid (GetParticipants room')) ∧
            repo_rel r' (if IsEmpty room' then delete code rooms
                         else <[code := room']> rooms)
        end
    end.
Proof.
  intros Hr. destruct (LeaveRoom_lawful code pid r rooms Hr) as (r' & Hrun & Hr').
  eexists _, r'. split; [exact Hrun|]. unfold leave_spec, drop_participant in *.
  destruct (rooms !! code) as [room|]; [|done]. rewrite RemoveParticipant_eq.
  destruct (HasParticipant room pid); [|done]. split; [done|].
  by destruct (IsEmpty (without room pid)).
Qed.

(** C25: [CreateRoom] stores a new, empty room under the first of its next
    hundred draws that is not a stored code, and takes no further draw; if all
    hundred are taken it reports so and stores nothing. *)
Theorem create_room_behaviour password r rooms g :
  repo_rel r rooms →
  (∃ i r' room, i < 100 ∧ room = NewRoom (format_room_code (code_draw (g + i))) password ∧
     CreateRoom password (r, g) = (Ret (Ok room), (r', S (g + i))) ∧
     rooms !! GetCode room = None ∧ repo_rel r' (<[GetCode room := room]> rooms) ∧
     ∀ j, j < i → is_Some (rooms !! format_room_code (code_draw (g + j)))) ∨
  (∃ r', CreateRoom password (r, g) =
           (Ret (Err BuildRoomCodeGenerationFailedError), (r', g + 100)) ∧
     repo_rel r' rooms ∧
     ∀ j, j < 100 → is_Some (rooms !! format_room_code (code_draw (g + j)))).
Proof.
  intros Hr. pose proof (CreateRoom_lawful password r rooms g Hr) as Hc.
  unfold create_spec, max_attempts in Hc.
  destruct (first_free 100 g rooms) as [i|] eqn:Hf.
  - apply first_free_Some in Hf as (Hi & Hnone & Hbefore).
    destruct Hc as (r' & Hrun & Hr'). left. eexists i, r', _. split_and!; eauto.
  - destruct Hc as (r' & Hrun & Hr'). right. exists r'. split_and!; [done..|].
    by apply first_free_None.
Qed.

Lemma left_results_length pid rooms codes :
  length (omap (left_result pid rooms) codes) =
  length (filter (λ c, in_room rooms c pid = true) codes).
Proof.
  induction codes as [|c codes IH]; [done|]. rewrite filter_cons. simpl.
  assert (Hc : is_Some (left_result pid rooms c) ↔ in_room rooms c pid = true).
  { unfold left_result, in_room. destruct (rooms !! c) as [room|]; simpl;
      [|by split; [intros []|]].
    destruct (HasParticipant room pid); split; try done; by intros []. }
  destruct (left_result pid rooms c) as [result|]; case_decide as Hd; simpl.
  - f_equal. exact IH.
  - destruct Hd. by apply Hc.
  - by apply Hc in Hd as [].
  - exact IH.
Qed.

(** C26: [LeaveAllRooms] returns one success, with the remaining participants,
    for each room the participant was in and nothing else; afterwards the
    participant is in no room, rooms that became empty are gone, and all other
    rooms are as before. *)
Theorem leave_all_rooms_behaviour pid r rooms :
  repo_rel r rooms →
  ∃ results r' rooms', LeaveAllRooms pid r = (Ret results, r') ∧ repo_rel r' rooms' ∧
    (∀ result, result ∈ results ↔
       ∃ code room, rooms !! code = Some room ∧ HasParticipant room pid = true ∧
         result = Ok (MkLeft code pid (GetParticipants (RemoveParticipant room pid).2))) ∧
    length results = length (filter (λ c, in_room rooms c pid = true) (room_codes rooms)) ∧
    ∀ code, rooms' !! code =
      match rooms !! code with
      | Some room =>
          if HasParticipant room pid then
            let room' := (RemoveParticipant room pid).2 in
            if IsEmpty room' then None else Some room'
          else Some room
      | None => None
      end.
Proof.
  intros Hr. destruct (LeaveAllRooms_lawful pid r rooms Hr) as (codes & r' & Hcodes & Hrun & Hr').
  eexists _, r', _. split_and!; [exact Hrun|exact Hr'|..].
  - intros result. rewrite list_elem_of_omap. unfold left_result, left_room.
    setoid_rewrite RemoveParticipant_eq. split.
    + intros (code & _ & (room & Hroom & Hres)%bind_Some). exists code, room.
      destruct (HasParticipant room pid); [|done]. by simplify_eq.
    + intros (code & room & Hroom & Hin & ->). exists code.
      rewrite Hcodes, room_codes_elem, Hroom. simpl. by rewrite Hin.
  - rewrite <- Hcodes. apply left_results_length.
  - intros code. unfold leave_all. rewrite lookup_omap.
    destruct (rooms !! code) as [room|]; simpl; [|done]. unfold drop_participant.
    by rewrite RemoveParticipant_eq.
Qed.
End lawful.

Section round_trip.
Context `{CodeDraws} {R : Type} `{LawfulRepository R}.
Local Open Scope prog_scope.

(** What a client can do in a row: create a room, join it, leave it. *)
Definition visit (p : Participant) (password : option RoomSecret)
    : prog exception (R * nat) ParticipantLeftRoomResult :=
  room <- CreateRoom password;;
  match room with
  | Err e => pret (Err e)
  | Ok room =>
      _ <- on_fst (JoinRoom (GetCode room) p password);;
      on_fst (LeaveRoom (GetCode room) (GetId p))
  end.

(** Creating a room, joining it with the room's own password and leaving
    it again leaves the stored rooms exactly as they were, if one of the next
    hundred codes is free. *)
Theorem create_join_leave p password r rooms g i :
  repo_rel r rooms → i < 100 → rooms !! format_room_code (code_draw (g + i)) = None →
  ∃ code r' g', visit p password (r, g) = (Ret (Ok (MkLeft code (GetId p) [])), (r', g')) ∧
    repo_rel r' rooms.
Proof.
  intros Hr Hi Hfree. pose proof (CreateRoom_lawful password r rooms g Hr) as Hc.
  unfold create_spec in Hc. destruct (first_free max_attempts g rooms) as [k|] eqn:Hf.
  2: { unfold max_attempts in Hf. rewrite first_free_None in Hf.
       destruct (Hf i Hi) as [? ?]. congruence. }
  apply first_free_Some in Hf as (_ & Hnone & _). destruct Hc as (r1 & Hcreate & Hr1).
  set (code := format_room_code (code_draw (g + k))) in *.
  set (room := NewRoom code password) in *.
  destruct (JoinRoom_lawful code p password r1 _ Hr1) as (r2 & Hjoin & Hr2).
  assert (Hjs : join_spec code p password (<[code := room]> rooms) =
    (Ok (MkJoined code p [p]), <[code := add_participant room p]> rooms)).
  { unfold join_spec. rewrite lookup_insert_eq, insert_insert_eq. unfold join_outcome. simpl.
    destruct password; simpl; [rewrite bool_decide_eq_true_2 by done|]; done. }
  rewrite Hjs in Hjoin, Hr2. simpl in Hr2.
  destruct (LeaveRoom_lawful code (GetId p) r2 _ Hr2) as (r3 & Hleave & Hr3).
  assert (Hhas : HasParticipant (add_participant room p) (GetId p) = true).
  { rewrite HasParticipant_true, ids_add. set_solver. }
  unfold leave_spec, drop_participant, left_room in Hleave, Hr3.
  rewrite lookup_insert_eq, Hhas, without_add in Hleave, Hr3 by (apply not_elem_of_nil).
  simpl in Hleave, Hr3. exists code, r3, (S (g + k)). split.
  - unfold visit. rewrite (pbind_ret _ _ _ _ _ Hcreate).
    unfold pbind at 1. simpl. rewrite Hjoin. simpl. by rewrite Hleave.
  - replace rooms with (delete code (<[code := add_participant room p]> rooms)); [done|].
    rewrite delete_insert_eq. by apply delete_id.
Qed.
End round_trip.

(** ** Over any repository *)

Section any_repository.
Context `{CodeDraws} {R : Type} `{!RoomRepository R}.

(** The computation returns a value from every state. *)
Definition total {S A} (m : prog exception S A) : Prop := ∀ s, ∃ a s', m s = (Ret a, s').

Lemma total_ret {S A} (a : A) : total (S := S) (pret a).
Proof. intros s. by exists a, s. Qed.

Lemma total_try {S A} (m : prog exception S A) h :
  (∀ e, total (h e)) → total (ptry m h).
Proof. intros Hh s. unfold ptry. destruct (m s) as [[a|e] s']; [eauto|apply Hh]. Qed.

Lemma total_bind {S A B} (m : prog exception S A) (f : A → prog exception S B) :
  total m → (∀ a, total (f a)) → total (pbind m f).
Proof. intros Hm Hf s. unfold pbind. destruct (Hm s) as (a & s' & ->). apply Hf. Qed.

Lemma total_gets {S A} (f : S → A) : total (pgets f).
Proof. intros s. by exists (f s), s. Qed.

Lemma total_on_snd {S T A} (m : prog exception T A) : total m → total (on_snd (S := S) m).
Proof. intros Hm [s t]. simpl. destruct (Hm t) as (a & t' & ->). eauto. Qed.

Lemma total_locals {C S A} (c : C) (m : prog exception (C * S) A) :
  total m → total (with_locals c m).
Proof. intros Hm s. unfold with_locals. destruct (Hm (c, s)) as (a & [c' s'] & ->). eauto. Qed.

#[local] Hint Resolve total_ret total_try total_bind total_gets total_on_snd total_locals : core.

Lemma total_create n password : total (create_attempts (R := R) n password).
Proof.
  induction n as [|n IH]; simpl; [auto|]. apply total_bind.
  - apply total_on_snd. intros g. unfold GenerateRoomCode. eauto.
  - intros code. apply total_bind; [auto|]. intros [result|]; auto.
Qed.

Lemma total_leave code pid : total (LeaveRoom (R := R) code pid).
Proof.
  apply total_locals, total_bind; [auto|]. intros [result|]; [auto|].
  apply total_bind; [auto|]. intros [[[]|] ?]; simpl; auto.
Qed.

Lemma total_leave_each codes pid acc : total (leave_each (R := R) codes pid acc).
Proof.
  revert acc. induction codes as [|code codes IH]; intros acc; simpl; [auto|].
  apply total_bind; [apply total_leave|auto].
Qed.

(** C33: whatever the repository throws, and from whatever state, no exception
    leaves [CreateRoom], [JoinRoom] or [LeaveRoom], and none leaves
    [LeaveAllRooms] unless listing the room codes throws it. *)
Theorem use_cases_never_throw :
  (∀ password, total (CreateRoom (R := R) password)) ∧
  (∀ code p password, total (JoinRoom (R := R) code p password)) ∧
  (∀ code pid, total (LeaveRoom (R := R) code pid)) ∧
  ∀ pid r e r', LeaveAllRooms pid r = (Throw e, r') → repo_GetRoomCodes r = (Throw e, r').
Proof.
  split_and!.
  - intros password. apply total_create.
  - intros code p password. apply total_locals, total_bind; [auto|].
    intros [result|]; [auto|]. apply total_bind; auto.
  - apply total_leave.
  - intros pid r e r'. unfold LeaveAllRooms, pbind.
    destruct (repo_GetRoomCodes r) as [[codes|e'] r1]; [|by intros [= -> ->]].
    destruct (total_leave_each codes pid [] r1) as (a & s & ->). done.
Qed.

(** If the repository's [Update] throws before it has called the updater,
    both use cases report an internal error in the state it left. *)
Lemma update_failure_reported code p password pid r e r' :
  (∀ C (c : C) u, repo_Update code u (c, r) = (Throw e, (c, r'))) →
  JoinRoom code p password r = (Ret (Err BuildInternalError), r') ∧
  LeaveRoom code pid r = (Ret (Err BuildInternalError), r').
Proof.
  intros Hthrow. unfold JoinRoom, LeaveRoom, with_locals.
  split; unfold pbind at 1; unfold ptry at 1; unfold pbind at 1; by rewrite Hthrow.
Qed.
End any_repository.

(** A repository whose [Update] runs the updater and then fails to store the
    room, as a [std::bad_alloc] or a lost connection would have it. *)
Definition failing_commit : RoomRepository (gmap RoomCode Room) := {|
  repo_Add := spec_Add;
  repo_FindByCode := spec_FindByCode;
  repo_Update C code u := λ '(c, rooms),
    match @spec_Update C code u (c, rooms) with
    | (Ret UpdateRoomResult.Updated, (c', _)) =>
        (Throw (runtime_error "commit failed"), (c', rooms))
    | result => result
    end;
  repo_Remove := spec_Remove;
  repo_RemoveIfEmpty := spec_RemoveIfEmpty;
  repo_Exists := spec_Exists;
  repo_ParticipantInRoom := spec_ParticipantInRoom;
  repo_GetRoomCodes := spec_GetRoomCodes
|}.

(** C34: when storing the room fails after the updater has run, [JoinRoom]
    reports an internal error, but [LeaveRoom] reports success although the
    participant is still in the stored room: its first catch block only logs,
    and the updater has already set the result the code goes on to test. *)
Theorem leave_reports_uncommitted code room pid p password rooms :
  rooms !! code = Some room → HasParticipant room pid = true →
  HasParticipant room (GetId p) = false → secret_ok (room_secret_ room) password = true →
  JoinRoom (RoomRepository0 := failing_commit) code p password rooms =
    (Ret (Err BuildInternalError), rooms) ∧
  ∃ remaining, IsEmpty room = false ∧
    LeaveRoom (RoomRepository0 := failing_commit) code pid rooms =
      (Ret (Ok (MkLeft code pid remaining)), rooms) ∧
    in_room rooms code pid = true.
Proof.
  intros Hroom Hpid Hp Hs. split.
  - unfold JoinRoom, with_locals, pbind, ptry. simpl. rewrite Hroom.
    unfold join_updater. rewrite TryAddParticipant_eq. unfold join_outcome. by rewrite Hp, Hs.
  - exists (participants_ (without room pid)).
    assert (Hne : IsEmpty room = false).
    { apply IsEmpty_false. intros Hnil. unfold HasParticipant in Hpid. by rewrite Hnil in Hpid. }
    split_and!; [done| |by unfold in_room; rewrite Hroom].
    unfold LeaveRoom, with_locals, pbind, ptry. simpl. rewrite Hroom.
    unfold leave_updater. rewrite RemoveParticipant_eq, Hpid. simpl.
    unfold spec_RemoveIfEmpty. rewrite Hroom, Hne. done.
Qed.

(** ** Witnesses *)

Definition ann : Participant := MkParticipant "p_a" "Ann".
Definition bob : Participant := MkParticipant "p_b" "Bob".

(** A locked room with Ann in it, and Bob's room. *)
Definition sample_rooms : gmap RoomCode Room :=
  <["000007" := MkRoom "000007" (Some "key") [ann]]>
    (<["000000" := MkRoom "000000" None [bob; ann]]> ∅).

Definition sample_table : Rooms :=
  (Add (MkRoom "000000" None [bob; ann])
     (Add (MkRoom "000007" (Some "key") [ann]) NewRepository).2).2.

Lemma sample_table_rel : repo_rel sample_table sample_rooms.
Proof. split; [vm_compute; repeat constructor; set_solver|]. vm_compute. reflexivity. Qed.

Lemma join_room_behaviour_witness :
  ∃ r', JoinRoom "000007" bob (Some "key") sample_table =
          (Ret (Ok (MkJoined "000007" bob [ann; bob])), r') ∧
        rooms_of r' !! "000007" = Some (MkRoom "000007" (Some "key") [ann; bob]).
Proof.
  destruct (join_room_behaviour "000007" bob (Some "key") _ _ sample_table_rel)
    as (result & r' & Hrun & Hres).
  destruct Hres as [Hresult [_ Hrooms]]. exists r'. rewrite Hrun, Hresult.
  split; [reflexivity|]. rewrite Hrooms. vm_compute. reflexivity.
Defined.

Lemma leave_room_behaviour_witness :
  ∃ r', LeaveRoom "000007" "p_a" sample_table = (Ret (Ok (MkLeft "000007" "p_a" [])), r') ∧
        rooms_of r' !! "000007" = None.
Proof.
  destruct (leave_room_behaviour "000007" "p_a" _ _ sample_table_rel)
    as (result & r' & Hrun & Hres).
  destruct Hres as [Hresult [_ Hrooms]]. exists r'. rewrite Hrun, Hresult.
  split; [reflexivity|]. rewrite Hrooms. vm_compute. reflexivity.
Defined.

(** The first draw is taken, the second is free. *)
Lemma create_room_behaviour_witness :
  ∃ r', CreateRoom (Some "pw") (sample_table, 0) =
          (Ret (Ok (NewRoom "000001" (Some "pw"))), (r', 2)).
Proof.
  destruct (create_room_behaviour (Some "pw") _ _ 0 sample_table_rel)
    as [(i & r' & room & Hi & -> & Hrun & Hfree & _ & Hbefore)|(r' & _ & _ & Hall)].
  - assert (Hi1 : i = 1).
    { destruct i as [|[|i]]; [by vm_compute in Hfree|done|].
      destruct (Hbefore 1 ltac:(lia)) as [x Hx]. by vm_compute in Hx. }
    subst i. exists r'. exact Hrun.
  - exfalso. destruct (Hall 1 ltac:(lia)) as [x Hx]. by vm_compute in Hx.
Defined.

Lemma leave_all_rooms_behaviour_witness :
  ∃ results r', LeaveAllRooms "p_a" sample_table = (Ret results, r') ∧ length results = 2 ∧
    rooms_of r' !! "000007" = None ∧ rooms_of r' !! "000000" = Some (MkRoom "000000" None [bob]).
Proof.
  destruct (leave_all_rooms_behaviour "p_a" _ _ sample_table_rel)
    as (results & r' & rooms' & Hrun & [_ Hr'] & _ & Hlen & Hlookup).
  exists results, r'. rewrite Hr', !Hlookup, Hlen.
  split_and!; [exact Hrun|vm_compute; reflexivity..].
Defined.

Lemma create_join_leave_witness :
  ∃ code r' g', visit bob (Some "pw") (sample_table, 0) =
    (Ret (Ok (MkLeft code "p_b" [])), (r', g')) ∧ repo_rel r' sample_rooms.
Proof.
  apply (create_join_leave bob (Some "pw") _ _ 0 1 sample_table_rel); [lia|].
  vm_compute. reflexivity.
Defined.

(** A repository that is out of reach. *)
Definition unreachable_repository : RoomRepository unit := {|
  repo_Add _ := pthrow (runtime_error "unreachable");
  repo_FindByCode _ := pthrow (runtime_error "unreachable");
  repo_Update C code u := pthrow (runtime_error "unreachable");
  repo_Remove _ := pthrow (runtime_error "unreachable");
  repo_RemoveIfEmpty _ := pthrow (runtime_error "unreachable");
  repo_Exists _ := pthrow (runtime_error "unreachable");
  repo_ParticipantInRoom _ _ := pthrow (runtime_error "unreachable");
  repo_GetRoomCodes := pthrow (runtime_error "unreachable")
|}.

Lemma update_failure_reported_witness :
  LeaveRoom (RoomRepository0 := unreachable_repository) "000007" "p_a" tt =
  (Ret (Err BuildInternalError), tt).
Proof.
  apply (update_failure_reported (RoomRepository0 := unreachable_repository)
           "000007" ann None "p_a" tt (runtime_error "unreachable") tt).
  intros C c u. reflexivity.
Defined.

Lemma leave_reports_uncommitted_witness :
  ∃ remaining, LeaveRoom (RoomRepository0 := failing_commit) "000007" "p_a" sample_rooms =
    (Ret (Ok (MkLeft "000007" "p_a" remaining)), sample_rooms).
Proof.
  destruct (leave_reports_uncommitted "000007" (MkRoom "000007" (Some "key") [ann]) "p_a" bob
              (Some "key") sample_rooms) as [_ (remaining & _ & Hrun & _)];
    [vm_compute; reflexivity..|].
  exists remaining. exact Hrun.
Defined.
