(* ===== verification/DispatchProps.v ===== *)
(** * DispatchProps: what the dispatcher guarantees *)

From S2P Require Import Prelude Text UnorderedMap Room RoomRepository InMemoryRoomRepository.
From S2P Require Import RoomService RoomServiceSpec Json JsonTree ControlDispatcher.
From S2P Require Import ControlDispatcherSpec Samples ServiceProps.

Section properties.
Context `{Json, CodeDraws} {R : Type} `{LawfulRepository R} {Host : Type}.
Implicit Types (rooms : gmap RoomCode Room) (r : R) (g : nat) (x : Host).
Implicit Types (handler : Handler (R := R) (Host := Host)).

(** C22: the dispatcher calls the handler with the one result that
    [dispatch_spec] gives for the request and the stored rooms, in a state that
    stores the rooms [dispatch_spec] gives; only if that call throws, whatever
    it throws, is the handler called once more, with an internal error. *)
Theorem dispatch_answers_request request handler r rooms g x :
  request_ok request → repo_rel r rooms →
  let '(result, (rooms', g')) := dispatch_spec request rooms g in
  ∃ r', repo_rel r' rooms' ∧
    Dispatch request (Some handler) ((r, g), x) =
    match handler result ((r', g'), x) with
    | (Ret tt, s) => (Ret tt, s)
    | (Throw _, s) =>
        handler (MkResult (ErrorResponse (meta request) InternalErrorResponse) []) s
    end.
Proof.
  intros Hok Hr. destruct (Dispatch_answers request handler r rooms g x Hok Hr)
    as (r' & Hr' & Hrun).
  destruct (dispatch_spec request rooms g) as [result [rooms' g']]. exists r'.
  split; [exact Hr'|]. rewrite Hrun. unfold answer_with, ptry. simpl.
  by destruct (handler result _) as [[[]|e] s].
Qed.

(** A request whose command is not the one its meta data announces is
    answered with an internal error in an untouched state, and without a
    handler nothing happens at all. *)
Lemma dispatch_refuses_mismatch request handler r g x :
  meta_type (meta request) ≠ alternative (command request) →
  Dispatch request (Some handler) ((r, g), x) =
    handler (MkResult (ErrorResponse (meta request) InternalErrorResponse) []) ((r, g), x) ∧
  Dispatch request None ((r, g), x) = (Ret tt, ((r, g), x)).
Proof. intros Hne. split; [|done]. by apply Dispatch_mismatch. Qed.

(** The ids of the participants of a stored room. *)
Definition members_of rooms (code : RoomCode) : list ParticipantId :=
  match rooms !! code with Some room => GetId <$> GetParticipants room | None => [] end.

Lemma in_room_members rooms code pid :
  in_room rooms code pid = bool_decide (pid ∈ members_of rooms code).
Proof.
  apply eq_true_iff_eq. rewrite in_room_true, bool_decide_eq_true. unfold members_of.
  destruct (rooms !! code) as [room|].
  - split; [by intros (? & [= <-] & ?)|by exists room].
  - split; [by intros (? & ? & ?)|by intros ?%not_elem_of_nil].
Qed.

(** A signal is relayed exactly when both the sender and the target are in
    the room it names; otherwise the sender is told that it is not.  Either way
    the stored rooms do not change. *)
Theorem signaling_needs_both_members m c handler r rooms g x :
  meta_type m = ControlMessageType.Signaling → repo_rel r rooms →
  ∃ r', repo_rel r' rooms ∧
    Dispatch (MkRequest m (SignalingAlt c)) (Some handler) ((r, g), x) =
    answer_with (MkRequest m (SignalingAlt c)) handler
      (MkResult
         (if decide (command_from c ∈ members_of rooms (command_room_code c) ∧
                     command_target c ∈ members_of rooms (command_room_code c))
          then SuccessResponse m (SignalingResponseAlt (relay_response c))
          else ErrorResponse m NotInRoomResponse) [])
      ((r', g), x).
Proof.
  intros Hm Hr. set (request := MkRequest m (SignalingAlt c)).
  destruct (Dispatch_answers request handler r rooms g x Hm Hr) as (r' & Hr' & Hrun).
  assert (Hs : dispatch_spec request rooms g = answer_signaling m c rooms g).
  { unfold dispatch_spec. simpl. by rewrite Hm. }
  rewrite Hs in Hr', Hrun. exists r'. split; [exact Hr'|]. rewrite Hrun.
  unfold answer_signaling. simpl. f_equal.
  rewrite !in_room_members. case_decide as Hd;
    repeat case_bool_decide; simpl; tauto.
Qed.

(** The creator of a room is its first and only participant, knows its
    code from the response and is the only one to be told. *)
Theorem creator_joins m c handler r rooms g x i :
  meta_type m = ControlMessageType.CreateRoom → repo_rel r rooms →
  i < 100 → rooms !! format_room_code (code_draw (g + i)) = None →
  ∃ code r' g', rooms !! code = None ∧
    repo_rel r' (<[code := MkRoom code (create_password_hash c) [create_participant c]]> rooms) ∧
    Dispatch (MkRequest m (CreateRoomAlt c)) (Some handler) ((r, g), x) =
    answer_with (MkRequest m (CreateRoomAlt c)) handler
      (MkResult (SuccessResponse m (CreateRoomResponse
         (MkRoomResponse code (create_participant c) [create_participant c]))) [])
      ((r', g'), x).
Proof.
  intros Hm Hr Hi Hfree. set (request := MkRequest m (CreateRoomAlt c)).
  destruct (Dispatch_answers request handler r rooms g x Hm Hr) as (r' & Hr' & Hrun).
  assert (Hs : dispatch_spec request rooms g = answer_create m c rooms g).
  { unfold dispatch_spec. simpl. by rewrite Hm. }
  rewrite Hs in Hr', Hrun. unfold answer_create in *.
  destruct (first_free max_attempts g rooms) as [k|] eqn:Hf.
  - apply first_free_Some in Hf as (_ & Hnone & _). eauto 10.
  - unfold max_attempts in Hf. rewrite first_free_None in Hf.
    destruct (Hf i Hi) as [? ?]. congruence.
Qed.

(** When a participant disconnects it leaves every room it is in, and for
    each of them there is exactly one event, addressed to those who stay. *)
Lemma disconnect_notifies_rooms pid r rooms :
  repo_rel r rooms →
  ∃ events r', HandleParticipantDisconnected pid r = (Ret events, r') ∧
    repo_rel r' (leave_all pid rooms) ∧
    events ≡ₚ omap (λ '(code, room),
      if HasParticipant room pid
      then Some (LeftRoomEvent code pid (participants_ (without room pid))) else None)
      (map_to_list rooms).
Proof.
  intros Hr. destruct (HandleParticipantDisconnected_lawful pid r rooms Hr)
    as (codes & r' & Hcodes & Hrun & Hr').
  eexists _, r'. split_and!; [exact Hrun|exact Hr'|]. rewrite Hcodes. unfold room_codes.
  assert (Hall : ∀ l, (∀ kv, kv ∈ l → rooms !! kv.1 = Some kv.2) →
    omap (disconnect_event pid rooms) l.*1 =
    omap (λ '(code, room), if HasParticipant room pid
      then Some (LeftRoomEvent code pid (participants_ (without room pid))) else None) l).
  { induction l as [|[k v] l IH]; intros Hl; [done|].
    specialize (IH ltac:(intros; apply Hl; by right)).
    specialize (Hl (k, v) ltac:(left)). simpl in Hl |- *.
    unfold disconnect_event at 1. rewrite Hl. simpl.
    destruct (HasParticipant v pid); [f_equal|]; exact IH. }
  rewrite Hall; [done|]. by intros [k v] ?%elem_of_map_to_list.
Qed.
End properties.

(** ** Witnesses *)

(** A handler that records the results it is called with, and one that throws
    on the first of them. *)
Definition recorder : Handler (R := Rooms) (Host := list ControlDispatcherResult) :=
  λ result, on_snd (pmodify (λ seen, seen ++ [result])).

Definition fragile_recorder : Handler (R := Rooms) (Host := list ControlDispatcherResult) :=
  λ result '(v, seen),
    match seen with
    | [] => (Throw (runtime_error "send"), (v, [result]))
    | _ :: _ => (Ret tt, (v, seen ++ [result]))
    end.

Definition leave_meta : RequestMeta := MkMeta ControlMessageType.LeaveRoom (Some "17") None.
Definition leave_request : ControlDispatcherRequest :=
  MkRequest leave_meta (LeaveRoomAlt (MkLeaveRoomCommand "000000" "p_a")).

Lemma leave_answer :
  dispatch_spec leave_request sample_rooms 0 =
  (MkResult (SuccessResponse leave_meta (LeaveRoomResponse "000000"))
     [LeftRoomEvent "000000" "p_a" [bob]],
   (<["000000" := MkRoom "000000" None [bob]]> sample_rooms, 0)).
Proof. reflexivity. Qed.

(** The handler throws on the answer and is called again with an error. *)
Lemma dispatch_answers_request_witness :
  ∃ v, Dispatch leave_request (Some fragile_recorder) ((sample_table, 0), []) =
    (Ret tt, (v, [MkResult (SuccessResponse leave_meta (LeaveRoomResponse "000000"))
                    [LeftRoomEvent "000000" "p_a" [bob]];
                  MkResult (ErrorResponse leave_meta InternalErrorResponse) []])).
Proof.
  pose proof (dispatch_answers_request leave_request fragile_recorder _ _ 0 []
                eq_refl sample_table_rel) as Hrun.
  rewrite leave_answer in Hrun. destruct Hrun as (r' & _ & Hrun).
  exists (r', 0). rewrite Hrun. reflexivity.
Defined.

Lemma dispatch_refuses_mismatch_witness :
  let request := MkRequest leave_meta (SignalingAlt
    (MkSignalingCommand SignalingType.Offer "000000" "p_a" "p_b" TNull)) in
  Dispatch request (Some recorder) ((sample_table, 0), []) =
  (Ret tt, ((sample_table, 0),
            [MkResult (ErrorResponse leave_meta InternalErrorResponse) []])).
Proof.
  intros request. exact (proj1 (dispatch_refuses_mismatch request recorder _ 0 [] ltac:(done))).
Defined.

Definition offer_meta : RequestMeta :=
  MkMeta ControlMessageType.Signaling None (Some SignalingType.Offer).
Definition offer_to (target : ParticipantId) : SignalingCommand :=
  MkSignalingCommand SignalingType.Offer "000000" "p_a" target (TObject []).

Lemma signaling_needs_both_members_witness :
  (∃ v, Dispatch (MkRequest offer_meta (SignalingAlt (offer_to "p_b"))) (Some recorder)
          ((sample_table, 0), []) =
        (Ret tt, (v, [MkResult (SuccessResponse offer_meta
                        (SignalingResponseAlt (relay_response (offer_to "p_b")))) []]))) ∧
  (∃ v, Dispatch (MkRequest offer_meta (SignalingAlt (offer_to "p_c"))) (Some recorder)
          ((sample_table, 0), []) =
        (Ret tt, (v, [MkResult (ErrorResponse offer_meta NotInRoomResponse) []]))).
Proof.
  destruct (signaling_needs_both_members offer_meta (offer_to "p_b") recorder _ _ 0 []
              eq_refl sample_table_rel) as (r1 & _ & Hb).
  destruct (signaling_needs_both_members offer_meta (offer_to "p_c") recorder _ _ 0 []
              eq_refl sample_table_rel) as (r2 & _ & Hc).
  split; [exists (r1, 0); rewrite Hb|exists (r2, 0); rewrite Hc]; reflexivity.
Defined.

Lemma creator_joins_witness :
  ∃ code r' g',
    repo_rel r' (<[code := MkRoom code (Some "pw") [ann]]> sample_rooms) ∧
    Dispatch (MkRequest (MkMeta ControlMessageType.CreateRoom None None)
                (CreateRoomAlt (MkCreateRoomCommand ann (Some "pw"))))
      (Some recorder) ((sample_table, 0), []) =
    (Ret tt, ((r', g'), [MkResult
       (SuccessResponse (MkMeta ControlMessageType.CreateRoom None None)
          (CreateRoomResponse (MkRoomResponse code ann [ann]))) []])).
Proof.
  destruct (creator_joins (MkMeta ControlMessageType.CreateRoom None None)
              (MkCreateRoomCommand ann (Some "pw")) recorder _ _ 0 [] 1
              eq_refl sample_table_rel ltac:(lia) ltac:(vm_compute; reflexivity))
    as (code & r' & g' & _ & Hr' & Hrun).
  exists code, r', g'. split; [exact Hr'|]. rewrite Hrun. reflexivity.
Defined.

Lemma disconnect_notifies_rooms_witness :
  ∃ events r', HandleParticipantDisconnected "p_a" sample_table = (Ret events, r') ∧
    events ≡ₚ [LeftRoomEvent "000000" "p_a" [bob]; LeftRoomEvent "000007" "p_a" []].
Proof.
  destruct (disconnect_notifies_rooms "p_a" _ _ sample_table_rel) as (events & r' & Hrun & _ & He).
  exists events, r'. split; [exact Hrun|]. rewrite He.
  replace (map_to_list sample_rooms) with
    [("000007", MkRoom "000007" (Some "key") [ann]); ("000000", MkRoom "000000" None [bob; ann])]
    by (vm_compute; reflexivity).
  apply Permutation_swap.
Defined.
