(* ===== verification/ProtocolProps.v ===== *)
(** * ProtocolProps: what clients and server can read of each other *)

From S2P Require Import Prelude Text Room RoomService Json JsonTree ControlDispatcher.
From S2P Require Import ControlDispatcherSpec ProtocolCodec ProtocolCodecSpec.
From S2P Require Import Session SessionSpec SystemInv Samples.

(** The keys of a written-out object are distinct. *)
Ltac distinct_keys :=
  cbn; apply (bool_decide_unpack _); vm_compute; exact I.

Section decoding.
Context `{JsonLaws, CodeDraws}.
Implicit Types (j payload : json) (pid : ParticipantId) (message : string).

(** C36: the decoder accepts exactly the protocol: a message is decoded to a
    request if and only if it is JSON text of an object that [encodes] the
    request, field by field. *)
Theorem decode_accepts_exactly pid message request :
  DecodeRequest pid message = Ret request ↔
  ∃ j, parse message = Ret j ∧ encodes pid j request.
Proof.
  unfold DecodeRequest. destruct (parse message) as [j|f]; simpl.
  - rewrite decode_json_iff. split; [eauto|]. by intros (? & [= <-] & ?).
  - by split; [|intros (? & ? & ?)].
Qed.

(** C37: a rejected message is either not JSON text, or a protocol error with one
    of three codes that carries the message's request id whenever the message
    is an object with a type and a text as request id; no other exception
    leaves the decoder. *)
Theorem decode_rejects_with_code pid message e :
  DecodeRequest pid message = Throw e →
  (∃ f, parse message = Throw f ∧ e = JsonFailure f) ∨
  (∃ j m code rid, parse message = Ret j ∧ e = ProtocolDecodeError m code rid ∧
     code ∈ ["invalid_message"; "missing_field"; "invalid_field"] ∧
     (is_object j = true → is_Some (member_text j "type") →
      rid = member_text j "request_id")).
Proof.
  unfold DecodeRequest. destruct (parse message) as [j|f]; simpl.
  - intros (m & code & rid & -> & Hcode & _ & _ & Hid)%decode_json_Throw. right.
    by exists j, m, code, rid.
  - intros [= <-]. left. eauto.
Qed.

(** The sender of a request is the session it came from, whatever the
    message claims, and the command is the one the type of the message names,
    so that the dispatcher never sees a mismatch. *)
Theorem decode_fixes_sender pid message request :
  DecodeRequest pid message = Ret request →
  speaker (command request) = pid ∧
  meta_type (meta request) = alternative (command request) ∧
  signaling_type (meta request) =
    match command request with SignalingAlt c => Some (command_type c) | _ => None end.
Proof.
  intros Hdec. split; [by eapply decode_speaker|]. apply decode_accepts_exactly in Hdec.
  destruct Hdec as (j & _ & _ & type & pl & _ & _ & _ & _ & Hcmd).
  destruct (command request); simpl in Hcmd; destruct_and!;
    match goal with E : meta request = _ |- _ => by rewrite E end.
Qed.

(** ** Requests written by a client *)

Definition optional_member (key : string) (o : option string) : list (string * json) :=
  match o with Some s => [(key, of_string s)] | None => [] end.

Definition request_type (c : CommandType) : string :=
  match c with
  | CreateRoomAlt _ => "create_room"
  | JoinRoomAlt _ => "join_room"
  | LeaveRoomAlt _ => "leave_room"
  | SignalingAlt c => SignalingTypeToString (command_type c)
  end.

Definition request_payload (c : CommandType) : json :=
  match c with
  | CreateRoomAlt c =>
      of_object (("display_name", of_string (GetName (create_participant c))) ::
                 optional_member "password" (create_password_hash c))
  | JoinRoomAlt c =>
      of_object (("room_code", of_string (join_room_code c)) ::
                 ("display_name", of_string (GetName (join_participant c))) ::
                 optional_member "password" (join_password_hash c))
  | LeaveRoomAlt c => of_object [("room_code", of_string (leave_room_code c))]
  | SignalingAlt c => command_data c
  end.

Definition request_json (request : ControlDispatcherRequest) : json :=
  of_object (("type", of_string (request_type (command request))) ::
             ("payload", request_payload (command request)) ::
             optional_member "request_id" (request_id (meta request))).

(** The requests of participant [pid]: consistent, and a signal's data is an
    object that names its room and target. *)
Definition request_of pid (request : ControlDispatcherRequest) : Prop :=
  meta_type (meta request) = alternative (command request) ∧
  speaker (command request) = pid ∧
  match command request with
  | SignalingAlt c =>
      signaling_type (meta request) = Some (command_type c) ∧
      is_object (command_data c) = true ∧
      field_is (command_data c) "room_code" (command_room_code c) ∧
      field_is (command_data c) "target_participant_id" (command_target c)
  | _ => signaling_type (meta request) = None
  end.

(** Equality of commands up to [≡] on a signal's data. *)
Definition command_equiv (c c' : CommandType) : Prop :=
  match c, c' with
  | SignalingAlt c, SignalingAlt c' =>
      command_type c = command_type c' ∧ command_room_code c = command_room_code c' ∧
      command_from c = command_from c' ∧ command_target c = command_target c' ∧
      command_data c ≡ command_data c'
  | c, c' => c = c'
  end.

Lemma field_of_object kvs key s :
  NoDup kvs.*1 → assoc key kvs = Some (of_string s) → field_is (of_object kvs) key s.
Proof.
  intros Hnd Hk. unfold field_is, member_text. rewrite object_at, Hk by done.
  apply get_of_string.
Qed.

Lemma optional_of_object kvs key o :
  NoDup kvs.*1 → assoc key kvs = of_string <$> o → optional_is (of_object kvs) key o.
Proof.
  intros Hnd Hk. destruct o as [s|]; [by apply field_of_object|]. simpl.
  by rewrite object_at, Hk.
Qed.

Lemma request_json_encodes pid request :
  request_of pid request → encodes pid (request_json request) request.
Proof.
  intros (Hmeta & Hpid & Hsig). unfold request_json.
  assert (Hnd : NoDup (("type", of_string (request_type (command request))) ::
    ("payload", request_payload (command request)) ::
    optional_member "request_id" (request_id (meta request))).*1).
  { destruct (request_id (meta request)); distinct_keys. }
  split; [apply object_is_object|].
  exists (request_type (command request)), (request_payload (command request)).
  split_and!.
  - by apply field_of_object.
  - apply optional_of_object; [done|]. by destruct (request_id (meta request)).
  - by rewrite object_at.
  - destruct (command request); simpl; [apply object_is_object..|by destruct_and!].
  - destruct request as [[t rid st] [c|c|c|c]]; simpl in *; subst; simpl; destruct_and?;
      subst; split_and!; try done.
    all: try (apply field_of_object; [|done]).
    all: try (apply optional_of_object;
      [|first [by destruct c as [? []]|by destruct c as [? ? []]]]).
    all: first [destruct (create_password_hash c) | destruct (join_password_hash c) | idtac].
    all: distinct_keys.
Qed.

Lemma field_is_proper j j' key s : j ≡ j' → field_is j key s → field_is j' key s.
Proof. intros Hj. unfold field_is. by rewrite (member_text_proper _ _ _ Hj). Qed.

Lemma at_key_equiv j j' key v :
  j ≡ j' → at_key j key = Some v → ∃ v', at_key j' key = Some v' ∧ v ≡ v'.
Proof.
  intros Hj Hv. pose proof (at_key_proper _ _ Hj key key eq_refl) as Hk. rewrite Hv in Hk.
  inversion Hk. eauto.
Qed.

Lemma optional_is_proper j j' key o : j ≡ j' → optional_is j key o → optional_is j' key o.
Proof.
  intros Hj. destruct o as [s|]; [by apply field_is_proper|]. simpl.
  pose proof (at_key_proper _ _ Hj key key eq_refl) as Hk.
  inversion Hk as [v v' Hv|]; [|done]. simpl. by rewrite Hv.
Qed.

Lemma encodes_proper pid j j' request :
  j ≡ j' → encodes pid j request →
  ∃ c, encodes pid j' (MkRequest (meta request) c) ∧ command_equiv (command request) c.
Proof.
  intros Hj (Hobj & type & pl & Htype & Hid & Hpay & Hplobj & Hcmd).
  destruct (at_key_equiv _ _ _ _ Hj Hpay) as (pl' & Hpay' & Hpl).
  assert (Hsame : ∀ c, command_encodes pid type (meta request) pl' c →
    encodes pid j' (MkRequest (meta request) c)).
  { intros c Hc. split; [by rewrite <- Hj|]. exists type, pl'. split_and!.
    - by eapply field_is_proper.
    - by eapply optional_is_proper.
    - done.
    - by rewrite <- Hpl.
    - done. }
  destruct (command request) as [c|c|c|c]; simpl in Hcmd; destruct_and!.
  1-3: (eexists; split; [apply Hsame|reflexivity]); simpl;
    split_and!; eauto using field_is_proper, optional_is_proper.
  exists (SignalingAlt (MkSignalingCommand (command_type c) (command_room_code c)
            (command_from c) (command_target c) pl')).
  split; [apply Hsame; simpl; split_and!; eauto using field_is_proper|].
  simpl. subst pl. done.
Qed.

(** C38: what a client writes for a request, the server reads: the text of any
    consistent request of the participant decodes to the same meta data and
    the same command, a signal's data up to the representation of numbers. *)
Theorem request_round_trip pid request message :
  request_of pid request → dump (request_json request) = Some message →
  ∃ c, DecodeRequest pid message = Ret (MkRequest (meta request) c) ∧
       command_equiv (command request) c.
Proof.
  intros Hreq Hdump. apply parse_dump in Hdump as (j & Hparse & Hj).
  destruct (encodes_proper pid _ j request (symmetry Hj) (request_json_encodes pid request Hreq))
    as (c & Hc & Heq).
  exists c. split; [|done]. unfold DecodeRequest. rewrite Hparse. simpl. by apply decode_json_iff.
Qed.
End decoding.

(** ** What a client reads *)

Section encoding.
Context `{JsonLaws}.
Implicit Types (j payload : json).

Lemma dump_parse j : json_ok j = true → ∃ t j', json_dump j = Ret t ∧ parse t = Ret j' ∧ j ≡ j'.
Proof.
  intros (t & Ht & Hd)%json_dump_Ret. apply parse_dump in Hd as (j' & Hp & Hj).
  exists t, j'. by split_and!.
Qed.

Lemma member_text_of j j' key s :
  j ≡ j' → at_key j key = Some (of_string s) → member_text j' key = Some s.
Proof.
  intros Hj Hk. rewrite <- (member_text_proper _ _ key Hj). unfold member_text.
  rewrite Hk. apply get_of_string.
Qed.

(** A JSON value from which a client reads a participant. *)
Definition shows_participant j (p : Participant) : Prop :=
  member_text j "participant_id" = Some (GetId p) ∧
  member_text j "display_name" = Some (GetName p).

Lemma ParticipantToJson_shows p : shows_participant (ParticipantToJson p) p.
Proof.
  unfold ParticipantToJson. split; (eapply member_text_of; [reflexivity|]);
    (rewrite object_at; [done|distinct_keys]).
Qed.

Lemma shows_participant_proper j j' p : j ≡ j' → shows_participant j p → shows_participant j' p.
Proof.
  intros Hj [Hid Hname]. split; [rewrite <- Hid|rewrite <- Hname];
    symmetry; by apply member_text_proper.
Qed.

Lemma all_shown ps : Forall2 shows_participant (ParticipantToJson <$> ps) ps.
Proof. induction ps; constructor; [apply ParticipantToJson_shows|done]. Qed.

(** What the payload of a successful response says. *)
Definition payload_says (pl : json) (p : SuccessResponsePayload) : Prop :=
  match p with
  | CreateRoomResponse x | JoinRoomResponse x =>
      member_text pl "room_code" = Some (response_room_code x) ∧
      (∃ me, at_key pl "participant" = Some me ∧
         shows_participant me (response_participant x)) ∧
      ∃ all l, at_key pl "participants" = Some all ∧ all ≡ of_array l ∧
        Forall2 shows_participant l (response_participants x)
  | LeaveRoomResponse code => member_text pl "room_code" = Some code
  | SignalingResponseAlt x => member_text pl "room_code" = Some (signal_room_code x)
  end.

Lemma participant_read pl0 pl key p :
  pl0 ≡ pl → at_key pl0 key = Some (ParticipantToJson p) →
  ∃ me, at_key pl key = Some me ∧ shows_participant me p.
Proof.
  intros Heq Hat. destruct (at_key_equiv _ _ _ _ Heq Hat) as (me & Hk & Hme).
  exists me. split; [done|].
  eapply shows_participant_proper; [exact Hme|apply ParticipantToJson_shows].
Qed.

Lemma participants_read pl0 pl key ps :
  pl0 ≡ pl → at_key pl0 key = Some (of_array (ParticipantToJson <$> ps)) →
  ∃ all l, at_key pl key = Some all ∧ all ≡ of_array l ∧ Forall2 shows_participant l ps.
Proof.
  intros Heq Hat. destruct (at_key_equiv _ _ _ _ Heq Hat) as (all & Hk & Hall).
  exists all, (ParticipantToJson <$> ps). split_and!; [done|by symmetry|apply all_shown].
Qed.

Lemma payload_json_says p pl0 pl : payload_json p = Ret pl0 → pl0 ≡ pl → payload_says pl p.
Proof.
  intros Hp Heq.
  destruct p as [x|x|code|x]; cbn in Hp; rewrite ?ParticipantsToJson_eq in Hp; cbn in Hp;
    injection Hp as Hp; simpl.
  3-4: apply (member_text_of _ _ _ _ Heq); rewrite <- Hp, object_at; [done|distinct_keys].
  all: split_and!;
    [apply (member_text_of _ _ _ _ Heq)|apply (participant_read _ _ _ _ Heq)
    |apply (participants_read _ _ _ _ Heq)];
    rewrite <- Hp, object_at; try done; distinct_keys.
Qed.

(** C39: a client reads in every response the result type, the success flag, the
    request id it sent, if any, and either the error's code and message or the
    payload, never both: the room code and, if the request was to create or to join
    the room, its own id and name and those of all participants, in their order. *)
Theorem response_readable r :
  response_ok r →
  ∃ t j, EncodeResponse r = Ret t ∧ parse t = Ret j ∧
    member_text j "type" = Some (ResultType (response_meta r)) ∧
    (∃ ok, at_key j "ok" = Some ok ∧ ok ≡ of_bool (is_success r)) ∧
    member_text j "request_id" = request_id (response_meta r) ∧
    match r with
    | ErrorResponse _ e =>
        at_key j "payload" = None ∧
        ∃ err, at_key j "error" = Some err ∧ member_text err "code" = Some (ErrorCode e) ∧
               member_text err "message" = Some (ErrorMessage (ErrorCode e))
    | SuccessResponse _ p =>
        at_key j "error" = None ∧
        ∃ pl, at_key j "payload" = Some pl ∧ payload_says pl p
    end.
Proof.
  intros Hok. destruct (response_json_Ret r) as (j0 & Hrun & Hmem & Hjok).
  destruct (dump_parse j0 (Hjok Hok)) as (t & j & Hdump & Hparse & Hj).
  exists t, j. unfold EncodeResponse. rewrite Hrun. simpl.
  destruct Hmem as [_ Htype Hflag Hid Herr Hpl].
  assert (Hnone : ∀ key, at_key j0 key = None → at_key j key = None).
  { intros key Hk. pose proof (at_key_proper _ _ Hj key key eq_refl) as He.
    rewrite Hk in He. by inversion He. }
  split_and!; [done|done|by eapply member_text_of| | |].
  - destruct (at_key_equiv _ _ _ _ Hj Hflag) as (ok & Hk & Heq). by exists ok.
  - destruct (request_id (response_meta r)) as [rid|] eqn:Hrid; simpl in Hid.
    + by eapply member_text_of.
    + unfold member_text. by rewrite (Hnone _ Hid).
  - destruct r as [m p|m e].
    + split; [by apply Hnone|]. destruct Hpl as (pl0 & Hp & Hat).
      destruct (at_key_equiv _ _ _ _ Hj Hat) as (pl & Hk & Heq). exists pl. split; [done|].
      exact (payload_json_says p pl0 pl Hp Heq).
    + split; [by apply Hnone|]. destruct (at_key_equiv _ _ _ _ Hj Herr) as (err & Hk & Heq).
      exists err. split_and!; [done|..]; (eapply member_text_of; [exact Heq|]);
        unfold error_json; (rewrite object_at; [done|distinct_keys]).
Qed.

(** Events and signals: an object of a type and a payload. *)
Lemma envelope_readable type pl0 :
  ascii_text type = true → json_ok pl0 = true →
  ∃ t j pl, json_dump (of_object [("type", of_string type); ("payload", pl0)]) = Ret t ∧
    parse t = Ret j ∧ member_text j "type" = Some type ∧
    at_key j "payload" = Some pl ∧ pl0 ≡ pl.
Proof.
  intros Htype Hpl0. set (j0 := of_object [("type", of_string type); ("payload", pl0)]).
  assert (Hj0 : json_ok j0 = true).
  { apply of_object_ok. repeat apply Forall_cons_2; [..|apply Forall_nil_2];
      (split; [by apply ascii_text_ok|]); simpl; [by apply literal_ok|done]. }
  destruct (dump_parse j0 Hj0) as (t & j & Hdump & Hparse & Hj).
  assert (Hat : at_key j0 "payload" = Some pl0).
  { unfold j0. rewrite object_at; [done|distinct_keys]. }
  destruct (at_key_equiv _ _ _ _ Hj Hat) as (pl & Hk & Hpl).
  exists t, j, pl. split_and!; [done|done| |done|done].
  apply member_text_of with j0; [done|]. unfold j0. rewrite object_at; [done|distinct_keys].
Qed.

(** The target of a relayed signal reads its type, its true sender, the
    target and the room, whatever the sender wrote in these members, and all
    other members of the sender's payload unchanged. *)
Theorem signal_readable r :
  signal_ok r →
  ∃ t j pl, EncodeSignalingEvent r = Ret t ∧ parse t = Ret j ∧
    member_text j "type" = Some (SignalingTypeToString (signal_type r)) ∧
    at_key j "payload" = Some pl ∧
    member_text pl "from_participant_id" = Some (from_participant_id r) ∧
    member_text pl "target_participant_id" = Some (target_participant_id r) ∧
    member_text pl "room_code" = Some (signal_room_code r) ∧
    ∀ key, key ∉ ["from_participant_id"; "target_participant_id"; "room_code"] →
      at_key pl key ≡ at_key (data r) key.
Proof.
  intros Hok. destruct (signal_json_Ret r) as (pl0 & Hrun & Hmem & Hplok); [apply Hok|].
  destruct (envelope_readable (SignalingTypeToString (signal_type r)) pl0)
    as (t & j & pl & Hdump & Hparse & Htype & Hk & Hpl);
    [by destruct (signal_type r)|by apply Hplok|].
  exists t, j, pl. unfold EncodeSignalingEvent. rewrite Hrun. simpl.
  assert (Htext : ∀ key s, at_key pl0 key = Some (of_string s) → member_text pl key = Some s).
  { intros key s. by apply member_text_of. }
  split_and!; [done|done|done|done|by apply Htext; rewrite Hmem..|].
  intros key Hkey. rewrite <- (at_key_proper _ _ Hpl key key eq_refl), Hmem.
  rewrite !decide_False; [done|intros ->; apply Hkey; repeat first [by left|right]..].
Qed.

(** The members of a room read in an event who joined or left which room
    and who is in it now. *)
Theorem event_readable e :
  event_ok e →
  ∃ t j pl ps, EncodeEvent e = Ret t ∧ parse t = Ret j ∧
    at_key j "payload" = Some pl ∧
    member_text pl "room_code" = Some (event_room_code e) ∧
    at_key pl "participants" = Some ps ∧
    ps ≡ of_array (ParticipantToJson <$> event_receivers e) ∧
    match e with
    | JoinedRoomEvent _ p _ =>
        member_text j "type" = Some "participant_joined" ∧
        ∃ x, at_key pl "participant" = Some x ∧ x ≡ ParticipantToJson p
    | LeftRoomEvent _ pid _ =>
        member_text j "type" = Some "participant_left" ∧
        member_text pl "participant_id" = Some pid
    end.
Proof.
  intros Hok. destruct (event_json_Ret e) as (pl0 & Hrun & _ & Hmem & Hplok).
  destruct (envelope_readable (event_type e) pl0)
    as (t & j & pl & Hdump & Hparse & Htype & Hk & Hpl); [by destruct e|by apply Hplok|].
  assert (Hps : at_key pl0 "participants" =
    Some (of_array (ParticipantToJson <$> event_receivers e))) by (rewrite Hmem; by destruct e).
  destruct (at_key_equiv _ _ _ _ Hpl Hps) as (ps & Hk2 & Hps2).
  exists t, j, pl, ps. unfold EncodeEvent. rewrite Hrun. simpl.
  split_and!; [done|done|done| |done|done|].
  - apply member_text_of with pl0; [done|]. rewrite Hmem. by destruct e.
  - destruct e as [code p l|code pid l]; (split; [done|]).
    + assert (Hx : at_key pl0 "participant" = Some (ParticipantToJson p)) by by rewrite Hmem.
      destruct (at_key_equiv _ _ _ _ Hpl Hx) as (x & Hk3 & Hx3). by exists x.
    + apply member_text_of with pl0; [done|]. by rewrite Hmem.
Qed.
End encoding.

(** ** Witnesses *)

Definition join_request : ControlDispatcherRequest :=
  MkRequest (MkMeta ControlMessageType.JoinRoom (Some "9") None)
    (JoinRoomAlt (MkJoinRoomCommand "000000" (MkParticipant "p_a" "Ann") (Some "key"))).

Lemma decode_rejects_with_code_witness :
  ∃ j m code rid, parse (msg "{'type':'join_room','request_id':'9','payload':{}}") = Ret j ∧
    ProtocolDecodeError (Some (MkMeta ControlMessageType.JoinRoom (Some "9") None))
      "missing_field" (Some "9") = ProtocolDecodeError m code rid ∧
    rid = member_text j "request_id".
Proof.
  destruct (decode_rejects_with_code "p_a"
    (msg "{'type':'join_room','request_id':'9','payload':{}}")
    (ProtocolDecodeError (Some (MkMeta ControlMessageType.JoinRoom (Some "9") None))
       "missing_field" (Some "9")))
    as [(f & _ & Hf)|(j & m & code & rid & Hp & He & _ & Hid)]; [reflexivity|discriminate Hf|].
  exists j, m, code, rid. split_and!; [exact Hp|exact He|].
  vm_compute in Hp. injection Hp as <-. apply Hid; [reflexivity|]. by eexists.
Defined.

Lemma decode_fixes_sender_witness :
  ∃ request, DecodeRequest "p_me"
      (msg "{'type':'leave_room','payload':{'room_code':'000000','participant_id':'p_you'}}") =
      Ret request ∧ speaker (command request) = "p_me".
Proof.
  exists (MkRequest (MkMeta ControlMessageType.LeaveRoom None None)
            (LeaveRoomAlt (MkLeaveRoomCommand "000000" "p_me"))).
  split; [reflexivity|].
  apply (decode_fixes_sender "p_me"
    (msg "{'type':'leave_room','payload':{'room_code':'000000','participant_id':'p_you'}}")).
  reflexivity.
Defined.

Lemma request_round_trip_witness :
  ∃ c, DecodeRequest "p_a"
      (default "" (dump (request_json join_request))) = Ret (MkRequest (meta join_request) c) ∧
    command_equiv (command join_request) c.
Proof. apply (request_round_trip "p_a" join_request); [done|reflexivity]. Defined.

Lemma response_readable_witness :
  ∃ t j pl all, EncodeResponse (SuccessResponse (meta join_request) (JoinRoomResponse
      (MkRoomResponse "000000" (MkParticipant "p_a" "Ann")
         [MkParticipant "p_b" "Bob"; MkParticipant "p_a" "Ann"]))) = Ret t ∧
    parse t = Ret j ∧ member_text j "request_id" = Some "9" ∧
    at_key j "payload" = Some pl ∧ member_text pl "room_code" = Some "000000" ∧
    at_key pl "participants" = Some all.
Proof.
  destruct (response_readable (SuccessResponse (meta join_request) (JoinRoomResponse
      (MkRoomResponse "000000" (MkParticipant "p_a" "Ann")
         [MkParticipant "p_b" "Bob"; MkParticipant "p_a" "Ann"]))))
    as (t & j & Hrun & Hparse & _ & _ & Hid & _ & pl & Hpl & Hroom & _ & all & l & Hall & _).
  { split; [done|]. split_and!; [done..|]. repeat constructor. }
  exists t, j, pl, all.
  split_and!; [exact Hrun|exact Hparse|exact Hid|exact Hpl|exact Hroom|exact Hall].
Defined.

(** A sender that claims to be someone else. *)
Definition forged_signal : SignalingResponse :=
  MkSignalingResponse SignalingType.Offer "000000" "p_a" "p_b"
    (TObject [("from_participant_id", TString "p_c"); ("sdp", TString "v=0")]).

Lemma signal_readable_witness :
  ∃ t j pl, EncodeSignalingEvent forged_signal = Ret t ∧ parse t = Ret j ∧
    at_key j "payload" = Some pl ∧ member_text pl "from_participant_id" = Some "p_a".
Proof.
  destruct (signal_readable forged_signal)
    as (t & j & pl & Hrun & Hparse & _ & Hk & Hfrom & _); [by split_and!|].
  exists t, j, pl. split_and!; [exact Hrun|exact Hparse|exact Hk|exact Hfrom].
Defined.

Lemma event_readable_witness :
  ∃ t j pl, EncodeEvent (LeftRoomEvent "000000" "p_a" [MkParticipant "p_b" "Bob"]) = Ret t ∧
    parse t = Ret j ∧ at_key j "payload" = Some pl ∧ member_text pl "participant_id" = Some "p_a".
Proof.
  destruct (event_readable (LeftRoomEvent "000000" "p_a" [MkParticipant "p_b" "Bob"]))
    as (t & j & pl & ps & Hrun & Hparse & Hk & _ & _ & _ & _ & Hid).
  { split_and!; [done|by apply Forall_singleton|done]. }
  exists t, j, pl. split_and!; [exact Hrun|exact Hparse|exact Hk|exact Hid].
Defined.
