(* ===== verification/SessionProps.v ===== *)
(** * SessionProps: what a client's message makes the server send

    In every reachable state: which messages a received message posts, and to
    which sessions. *)

From S2P Require Import Prelude Text UnorderedMap Room RoomRepository InMemoryRoomRepository.
From S2P Require Import RoomService RoomServiceSpec Json JsonTree ControlDispatcher.
From S2P Require Import ControlDispatcherSpec ProtocolCodec ProtocolCodecSpec SessionRegistry.
From S2P Require Import Session SessionSpec Server System SystemInv SystemRun SystemSafety.
From S2P Require Import MessageTypes Samples.

Section properties.
Context `{BucketOrder, JsonLaws, CodeDraws, IdDraws} {R : Type} `{LawfulRepository R}.
Context (tls : bool) (start : R).
Implicit Types (n : Net) (s : SessionPtr) (r : R) (g : nat) (message : string).

(** The server can get to this state. *)
Definition serving r g n : Prop :=
  repo_rel start ∅ ∧ reachable tls false start (Running (r, g) n).

Lemma serving_inv r g n :
  serving r g n → repo_rel r (rooms_of r) ∧ service_inv (rooms_of r) ∧ net_ok n.
Proof.
  intros [Hstart Hw]. apply reachable_ok in Hw; [|done].
  destruct Hw as (rooms & [Hwf <-] & [[Hs Hn _ _] _]). by split_and!.
Qed.

Lemma serving_handles r g n s message request :
  serving r g n → DecodeRequest (participant_id_ (session_at n s)) message = Ret request →
  ∃ r', repo_rel r' (dispatch_spec request (rooms_of r) g).2.1 ∧
    HandleMessage s message ((r, g), n) =
    (Ret tt, ((r', (dispatch_spec request (rooms_of r) g).2.2),
      send_all (handler_outbox (registry n) s (dispatch_spec request (rooms_of r) g).1) n)).
Proof.
  intros Hsv Hdec. destruct (serving_inv r g n Hsv) as (Hr & Hs & Hn).
  apply HandleMessage_run; [by apply session_at_id|done|done|apply Hs].
Qed.

Lemma decoded_ok r g n s message request :
  serving r g n → DecodeRequest (participant_id_ (session_at n s)) message = Ret request →
  request_ok request ∧ speaker (command request) = participant_id_ (session_at n s).
Proof.
  intros Hsv Hdec. destruct (serving_inv r g n Hsv) as (_ & _ & Hn).
  split; [|by eapply decode_speaker].
  by destruct (decode_ok _ _ _ (session_at_id n s Hn) Hdec).
Qed.

(** The sessions registered for the given participants. *)
Definition sessions_of n (ps : list Participant) : list SessionPtr :=
  omap (λ p, RegistryFind (GetId p) (registry n)) ps.

Lemma joined_targets n code p ps :
  GetId p ∉ GetId <$> ps →
  event_targets (registry n) (JoinedRoomEvent code p (ps ++ [p])) = sessions_of n ps.
Proof.
  intros Hout. unfold event_targets, sessions_of. cbn [event_receivers].
  rewrite omap_app. cbn. rewrite bool_decide_eq_true_2 by done. rewrite app_nil_r.
  induction ps as [|q ps IH]; [done|]. cbn in *.
  apply not_elem_of_cons in Hout as [Hne Hout].
  rewrite bool_decide_eq_false_2 by done. specialize (IH Hout).
  destruct (RegistryFind _ _); [f_equal|]; exact IH.
Qed.

(** Whoever joins a room gets the response, with all participants, and
    everybody who was in the room and is connected gets the event; nobody else
    gets anything. *)
Theorem join_is_broadcast r g n s message m c room :
  serving r g n →
  DecodeRequest (participant_id_ (session_at n s)) message = Ret (MkRequest m (JoinRoomAlt c)) →
  rooms_of r !! join_room_code c = Some room →
  (TryAddParticipant room (join_participant c) (join_password_hash c)).1 =
    JoinRoomResult.Joined →
  let code := join_room_code c in
  let p := join_participant c in
  let all := GetParticipants room ++ [p] in
  GetId p = participant_id_ (session_at n s) ∧
  ∃ r', rooms_of r' = <[code := add_participant room p]> (rooms_of r) ∧
    HandleMessage s message ((r, g), n) =
    (Ret tt, ((r', g), send_all
      ((s, response_text (SuccessResponse m (JoinRoomResponse (MkRoomResponse code p all)))) ::
       ((λ t, (t, text_or_empty (EncodeEvent (JoinedRoomEvent code p all)))) <$>
          sessions_of n (GetParticipants room))) n)).
Proof.
  intros Hsv Hdec Hroom Hj code p all.
  destruct (decoded_ok _ _ _ _ _ _ Hsv Hdec) as [Hok Hspk].
  destruct (serving_handles _ _ _ _ _ _ Hsv Hdec) as (r' & [_ Hr'] & Hrun).
  split; [exact Hspk|]. exists r'.
  rewrite TryAddParticipant_eq in Hj. simpl in Hj.
  assert (Hs : dispatch_spec (MkRequest m (JoinRoomAlt c)) (rooms_of r) g =
    (MkResult (SuccessResponse m (JoinRoomResponse (MkRoomResponse code p all)))
       [JoinedRoomEvent code p all],
     (<[code := add_participant room p]> (rooms_of r), g))).
  { unfold request_ok in Hok. simpl in Hok. unfold dispatch_spec. simpl. rewrite Hok.
    unfold answer_join, join_spec. by rewrite Hroom, Hj. }
  rewrite Hs in Hr', Hrun. split; [done|]. rewrite Hrun. unfold handler_outbox, respond_outbox.
  simpl. unfold events_outbox. simpl. rewrite app_nil_r. unfold event_outbox, all.
  rewrite joined_targets; [done|]. by apply join_outcome_Joined in Hj as [? _].
Qed.

(** C19: a signal between two participants of a room goes to the target's session
    with the sender's true id, and the sender gets the response; if the target
    is not connected the sender is told so and nothing is relayed.  The stored
    rooms stay as they are. *)
Theorem signal_goes_to_target r g n s message m c room :
  serving r g n →
  DecodeRequest (participant_id_ (session_at n s)) message = Ret (MkRequest m (SignalingAlt c)) →
  rooms_of r !! command_room_code c = Some room →
  participant_id_ (session_at n s) ∈ GetId <$> GetParticipants room →
  command_target c ∈ GetId <$> GetParticipants room →
  let signal := MkSignalingResponse (command_type c) (command_room_code c)
                  (participant_id_ (session_at n s)) (command_target c) (command_data c) in
  ∃ r', rooms_of r' = rooms_of r ∧
    HandleMessage s message ((r, g), n) =
    (Ret tt, ((r', g), send_all
      match RegistryFind (command_target c) (registry n) with
      | Some t =>
          [(t, text_or_empty (EncodeSignalingEvent signal));
           (s, response_text (SuccessResponse m (SignalingResponseAlt signal)))]
      | None => [(s, response_text (ErrorResponse m ParticipantUnavailableResponse))]
      end n)).
Proof.
  intros Hsv Hdec Hroom Hfrom Htarget signal.
  destruct (decoded_ok _ _ _ _ _ _ Hsv Hdec) as [Hok Hspk]. simpl in Hspk.
  destruct (serving_handles _ _ _ _ _ _ Hsv Hdec) as (r' & [_ Hr'] & Hrun).
  exists r'.
  assert (Hin : ∀ pid, pid ∈ GetId <$> GetParticipants room →
    in_room (rooms_of r) (command_room_code c) pid = true).
  { intros pid Hpid. apply in_room_true. by exists room. }
  assert (Hs : dispatch_spec (MkRequest m (SignalingAlt c)) (rooms_of r) g =
    (MkResult (SuccessResponse m (SignalingResponseAlt signal)) [], (rooms_of r, g))).
  { unfold request_ok in Hok. simpl in Hok. unfold dispatch_spec. simpl. rewrite Hok.
    unfold answer_signaling, relay_response, signal. rewrite Hspk.
    by rewrite (Hin _ Hfrom), (Hin _ Htarget). }
  rewrite Hs in Hr', Hrun. split; [done|]. rewrite Hrun. unfold handler_outbox. simpl.
  by destruct (RegistryFind _ _).
Qed.

(** A message that is not a request - a binary one, or one the decoder
    rejects - has one effect: its sender gets one error message, which names
    the decoder's error.  Rooms, registry and all other sessions are as
    before, and the session reads on. *)
Theorem rejected_message_changes_nothing (v : R * nat) n s message e :
  DecodeRequest (participant_id_ (session_at n s)) message = Throw e →
  OnRead s (ReadMessage message true) (v, n) =
    (Ret tt, (v, enqueue (WebSocketRead s) (enqueue (PostedSend s (protocol_error_text e)) n))) ∧
  ∃ t, EncodeProtocolError None "invalid_message" None = Ret t ∧
    OnRead s (ReadMessage message false) (v, n) =
    (Ret tt, (v, enqueue (WebSocketRead s) (enqueue (PostedSend s t) n))).
Proof.
  intros Hdec. split.
  - unfold OnRead. simpl.
    by rewrite (pbind_ret _ _ _ _ _ (HandleMessage_error_run _ _ _ _ _ Hdec)).
  - destruct (EncodeProtocolError_Ret None "invalid_message" None) as [t Ht]; [done..|].
    exists t. split; [done|]. unfold OnRead. simpl. unfold pbind, plift, InvalidMessageError.
    by rewrite Ht.
Qed.

(** C18: in every reachable state every message, whatever it is, is answered to
    its sender exactly once: among the messages posted there is one answer, a
    result or an error, with the request id of the message, and the others are
    notifications without one.  The session then waits for the next message. *)
Theorem every_message_answered r g n s message got_text :
  serving r g n →
  ∃ v' before answer after rid,
    OnRead s (ReadMessage message got_text) ((r, g), n) =
    (Ret tt, (v', enqueue (WebSocketRead s)
                    (send_all (before ++ (s, answer) :: after) n))) ∧
    answer_message rid answer ∧ echoes got_text message rid ∧
    Forall (λ sm, notification sm.2) (before ++ after).
Proof.
  intros Hsv. destruct (serving_inv r g n Hsv) as (Hr & Hs & Hn).
  destruct (OnRead_answers s message got_text r (rooms_of r) g n (session_at_id n s Hn) Hr
    (inv_texts _ Hs)) as (v' & l & rid & _ & Hrun & _ & Hans & Hid & _).
  destruct Hans as (before & answer & after & -> & Ha & Ht).
  by exists v', before, answer, after, rid.
Qed.

(** When a registered session goes away, its participant leaves every room,
    its id is no longer found, and for each room it was in everyone who stays
    and is connected gets one event; a second removal does nothing. *)
Theorem removal_notifies_rooms r g n s :
  serving r g n → registered_ (session_at n s) = true →
  let pid := participant_id_ (session_at n s) in
  ∃ r' n' codes, codes ≡ₚ room_codes (rooms_of r) ∧
    rooms_of r' = leave_all pid (rooms_of r) ∧
    RegistryFind pid (registry n') = None ∧
    (∀ pid', pid' ≠ pid → RegistryFind pid' (registry n') = RegistryFind pid' (registry n)) ∧
    RemoveFromRegistry s ((r, g), n) =
      (Ret tt, ((r', g), send_all
         (codes ≫= λ code,
            match rooms_of r !! code with
            | Some room =>
                if HasParticipant room pid then
                  let rest := GetParticipants (RemoveParticipant room pid).2 in
                  (λ t, (t, text_or_empty (EncodeEvent (LeftRoomEvent code pid rest)))) <$>
                    sessions_of n' rest
                else []
            | None => []
            end) n')) ∧
    RemoveFromRegistry s ((r', g), n') = (Ret tt, ((r', g), n')).
Proof.
  intros Hsv Hreg pid. destruct (serving_inv r g n Hsv) as (Hr & Hs & Hn).
  destruct (RemoveFromRegistry_run s r (rooms_of r) g n Hreg (session_at_id n s Hn) Hr
    (inv_texts _ Hs)) as (codes & r' & Hcodes & [_ Hr'] & Hrun).
  exists r', (unregister s n), codes. split_and!; [done|done|..].
  - rewrite RegistryFind_eq. unfold unregister. cbn [registry set_registry].
    rewrite RegistryRemove_eq. apply lookup_delete_eq.
  - intros pid' Hne. rewrite !RegistryFind_eq. unfold unregister. cbn [registry set_registry].
    rewrite RegistryRemove_eq. by apply lookup_delete_ne.
  - rewrite Hrun. do 3 f_equal. unfold events_outbox. fold pid. clear Hrun Hcodes.
    induction codes as [|code codes IH]; [done|]. rewrite bind_cons, <- IH. simpl.
    unfold disconnect_event at 1. destruct (rooms_of r !! code) as [room|]; [|done]. simpl.
    destruct (HasParticipant room pid) eqn:Hin; [|done]. simpl. f_equal.
    rewrite RemoveParticipant_eq. simpl. unfold event_outbox.
    f_equal.
  - apply RemoveFromRegistry_idle.
    destruct (unregister_session s n s) as [-> _].
    by rewrite bool_decide_eq_false_2 by naive_solver.
Qed.
End properties.

(** ** Witnesses: the first client is in its room, the second is connected *)

Definition lobby_events : list io_event :=
  connect 0 ++ connect 1 ++ [EvWebSocketRead 0 (ReadMessage create_message true)].

Definition lobby_net : Net := net_of (world_after lobby_events).
Definition meeting_net : Net := net_of (world_after meeting_events).

Lemma serving_after evs :
  is_Some (run_events false evs server_start) →
  (match world_after evs with Running _ _ => true | Crashed _ => false end) = true →
  ∃ r g, serving false NewRepository r g (net_of (world_after evs)) ∧
         rooms_of r = rooms_in (world_after evs).
Proof.
  intros Hrun (r & g & Hw & Hr)%running_parts. exists r, g. split; [|exact Hr].
  split; [apply NewRepository_rel|]. rewrite <- Hw.
  eapply reachable_events; [apply reachable_start|by apply run_events_after|done].
Qed.

Lemma lobby_serving :
  ∃ r g, serving false NewRepository r g lobby_net ∧
         rooms_of r = rooms_in (world_after lobby_events).
Proof. apply serving_after; [vm_compute; eauto|vm_compute; reflexivity]. Qed.

Lemma meeting_serving :
  ∃ r g, serving false NewRepository r g meeting_net ∧
         rooms_of r = rooms_in (world_after meeting_events).
Proof. apply serving_after; [vm_compute; eauto|vm_compute; reflexivity]. Qed.

Definition join_meta : RequestMeta := MkMeta ControlMessageType.JoinRoom None None.
Definition bob_joins : JoinRoomCommand :=
  MkJoinRoomCommand "000000" (MkParticipant second_id "Bob") None.

Lemma lobby_second_id : participant_id_ (session_at lobby_net 1) = second_id.
Proof. vm_compute. reflexivity. Qed.

Lemma join_decodes :
  DecodeRequest second_id join_message = Ret (MkRequest join_meta (JoinRoomAlt bob_joins)).
Proof. reflexivity. Qed.

Lemma join_is_broadcast_witness :
  ∃ (r : Rooms) g r' response event,
    HandleMessage 1 join_message ((r, g), lobby_net) =
    (Ret tt, ((r', g), send_all [(1, response); (0, event)] lobby_net)).
Proof.
  destruct lobby_serving as (r & g & Hsv & Hr).
  destruct (join_is_broadcast false NewRepository r g lobby_net 1 join_message join_meta bob_joins
              (MkRoom "000000" None [MkParticipant first_id "Ann"]) Hsv)
    as (_ & r' & _ & Hrun).
  - rewrite lobby_second_id. exact join_decodes.
  - rewrite Hr. vm_compute. reflexivity.
  - reflexivity.
  - exists r, g, r'. eexists _, _. etrans; [exact Hrun|].
    replace (sessions_of lobby_net _) with [0] by (vm_compute; reflexivity). reflexivity.
Defined.

Definition offer_command : SignalingCommand :=
  MkSignalingCommand SignalingType.Offer "000000" second_id first_id
    (TObject [("room_code", TString "000000"); ("target_participant_id", TString first_id);
              ("sdp", TString "v=0")]).

Lemma meeting_second_id : participant_id_ (session_at meeting_net 1) = second_id.
Proof. vm_compute. reflexivity. Qed.

Lemma meeting_registry : RegistryFind first_id (registry meeting_net) = Some 0.
Proof. vm_compute. reflexivity. Qed.

Lemma signal_goes_to_target_witness :
  ∃ (r : Rooms) g r' response signal,
    HandleMessage 1 offer_message ((r, g), meeting_net) =
    (Ret tt, ((r', g), send_all [(0, signal); (1, response)] meeting_net)).
Proof.
  destruct meeting_serving as (r & g & Hsv & Hr).
  destruct (signal_goes_to_target false NewRepository r g meeting_net 1 offer_message
              (MkMeta ControlMessageType.Signaling None (Some SignalingType.Offer)) offer_command
              (MkRoom "000000" None
                 [MkParticipant first_id "Ann"; MkParticipant second_id "Bob"]) Hsv)
    as (r' & _ & Hrun).
  - rewrite meeting_second_id. reflexivity.
  - rewrite Hr. vm_compute. reflexivity.
  - rewrite meeting_second_id. right. by left.
  - by left.
  - exists r, g, r'. eexists _, _. etrans; [exact Hrun|]. change (command_target _) with first_id.
    rewrite meeting_registry. reflexivity.
Defined.

Lemma rejected_message_changes_nothing_witness :
  ∃ r g, serving false NewRepository r g lobby_net ∧
    OnRead 1 (ReadMessage (msg "{'type':'fly'}") true) ((r, g), lobby_net) =
    (Ret tt, ((r, g), enqueue (WebSocketRead 1) (enqueue (PostedSend 1
       (protocol_error_text (ProtocolDecodeError None "invalid_message" None))) lobby_net))).
Proof.
  destruct lobby_serving as (r & g & Hsv & Hr). exists r, g. split; [exact Hsv|].
  apply (rejected_message_changes_nothing (R := Rooms) (r, g) lobby_net 1).
  rewrite lobby_second_id. reflexivity.
Defined.

Lemma every_message_answered_witness :
  ∃ (r : Rooms) g v' before answer after,
    OnRead 0 (ReadMessage create_message true) ((r, g), meeting_net) =
    (Ret tt, (v', enqueue (WebSocketRead 0)
                    (send_all (before ++ (0, answer) :: after) meeting_net))) ∧
    answer_message (Some "a") answer.
Proof.
  destruct meeting_serving as (r & g & Hsv & Hr).
  destruct (every_message_answered false NewRepository r g meeting_net 0 create_message true Hsv)
    as (v' & before & answer & after & rid & Hrun & Ha & Hid & _).
  exists r, g, v', before, answer, after. split; [exact Hrun|].
  assert (rid = Some "a") as <-; [|exact Ha].
  exact (Hid (TObject [("type", TString "create_room"); ("request_id", TString "a");
    ("payload", TObject [("display_name", TString "Ann")])])
    eq_refl eq_refl eq_refl ltac:(eauto)).
Defined.

Lemma removal_notifies_rooms_witness :
  ∃ (r : Rooms) g r' n' posts, RemoveFromRegistry 1 ((r, g), meeting_net) =
      (Ret tt, ((r', g), send_all posts n')) ∧
    RegistryFind second_id (registry n') = None ∧
    rooms_of r' !! "000000" = Some (MkRoom "000000" None [MkParticipant first_id "Ann"]).
Proof.
  destruct meeting_serving as (r & g & Hsv & Hr).
  destruct (removal_notifies_rooms false NewRepository r g meeting_net 1 Hsv)
    as (r' & n' & codes & _ & Hrooms & Hgone & _ & Hrun & _); [vm_compute; reflexivity|].
  exists r, g, r', n'. eexists. split_and!; [exact Hrun|..].
  - rewrite meeting_second_id in Hgone. exact Hgone.
  - rewrite Hrooms, Hr, meeting_second_id. vm_compute. reflexivity.
Defined.
