(* ===== verification/SystemProps.v ===== *)
(** * SystemProps: what holds of every reachable state of the server

    The safety properties of the running server, over any lawful repository that
    starts empty and for any order in which the waiting handlers run. *)

From S2P Require Import Prelude Text UnorderedMap Room RoomRepository InMemoryRoomRepository.
From S2P Require Import RoomService RoomServiceSpec Json JsonTree ControlDispatcher.
From S2P Require Import ProtocolCodec SessionRegistry Session SessionSpec Config Server.
From S2P Require Import System SystemInv SystemRun SystemSafety Samples.

Section properties.
Context `{BucketOrder, JsonLaws, CodeDraws, IdDraws} {R : Type} `{LawfulRepository R}.
Context (tls strict : bool).
Implicit Types (n : Net) (s : SessionPtr) (v : R * nat) (pid : ParticipantId).

Lemma reachable_running r w :
  repo_rel r ∅ → reachable tls strict r w →
  ∃ v n rooms, w = Running v n ∧ repo_rel v.1 rooms ∧ world_inv strict rooms n.
Proof.
  intros Hr Hw. pose proof (reachable_ok tls strict r w Hr Hw) as Hok.
  destruct w as [[r' g] n|e]; [|done]. destruct Hok as (rooms & Hr' & Hinv).
  by exists (r', g), n, rooms.
Qed.

Lemma reachable_inv r v n :
  repo_rel r ∅ → reachable tls strict r (Running v n) →
  ∃ rooms, repo_rel v.1 rooms ∧ world_inv strict rooms n.
Proof.
  intros Hr Hw. destruct (reachable_running r _ Hr Hw) as (v' & n' & rooms & [= <- <-] & ? & ?).
  eauto.
Qed.

(** C1: no exception ever leaves a completion handler: whatever the clients
    send, in whatever order the handlers run and whichever operations fail,
    the server is never terminated by an uncaught exception. *)
Theorem server_never_crashes r w :
  repo_rel r ∅ → reachable tls strict r w → ∃ v n, w = Running v n.
Proof.
  intros Hr Hw. destruct (reachable_running r w Hr Hw) as (v & n & _ & Heq & _). eauto.
Qed.

(** C4: writes of a session never overlap and keep their order: the messages
    pushed on a session's queue are those written so far followed by the
    queue, and the outstanding writes are none or that of the queue's front. *)
Theorem writes_in_order r v n s :
  repo_rel r ∅ → reachable tls strict r (Running v n) →
  pushed_ (session_at n s) = written_ (session_at n s) ++ write_queue_ (session_at n s) ∧
  (inflight s (pending n) = [] ∨
   ∃ m q, inflight s (pending n) = [m] ∧ write_queue_ (session_at n s) = m :: q).
Proof.
  intros Hr Hw. destruct (reachable_inv r v n Hr Hw) as (rooms & _ & [_ Hio]).
  by destruct (io_write _ Hio s).
Qed.

(** An open session never stalls: in every reachable state, if the writes
    of its queued messages complete without error, one after the other, they
    are exactly the waiting writes of the session, and afterwards the queue is
    empty and everything ever pushed has been written. *)
Theorem open_sessions_drain r v n s :
  repo_rel r ∅ → reachable tls strict r (Running v n) → closing_ (session_at n s) = false →
  ∃ n', run_events tls
          ((λ m, EvWebSocketWrite s m false) <$> write_queue_ (session_at n s))
          (Running v n) = Some (Running v n') ∧
    write_queue_ (session_at n' s) = [] ∧
    written_ (session_at n' s) = pushed_ (session_at n s).
Proof.
  intros Hr Hw Hcl. destruct (reachable_inv r v n Hr Hw) as (rooms & _ & [_ Hio]).
  by apply queue_drains.
Qed.

(** A session has at most one of handshake, accept and read outstanding,
    and a registered session is always waiting for the next message. *)
Theorem registered_sessions_read r v n s :
  repo_rel r ∅ → reachable tls strict r (Running v n) →
  length (stage s (pending n)) ≤ 1 ∧
  (registered_ (session_at n s) = true → stage s (pending n) = [WebSocketRead s]).
Proof.
  intros Hr Hw. destruct (reachable_inv r v n Hr Hw) as (rooms & _ & [_ Hio]).
  by destruct (io_stage _ Hio s).
Qed.

(** C14: the registry maps ids to the registered sessions that carry them, and,
    as long as the random ids drawn so far differ, to all of them. *)
Theorem registry_is_exact r v n :
  repo_rel r ∅ → reachable tls strict r (Running v n) →
  (∀ pid s, RegistryFind pid (registry n) = Some s →
     registered_ (session_at n s) = true ∧ participant_id_ (session_at n s) = pid) ∧
  (NoDup (id_draw <$> seq 0 (next_session n)) →
   ∀ s, registered_ (session_at n s) = true →
     RegistryFind (participant_id_ (session_at n s)) (registry n) = Some s).
Proof.
  intros Hr Hw. destruct (reachable_inv r v n Hr Hw) as (rooms & _ & [[_ Hn Hc _] _]).
  setoid_rewrite RegistryFind_eq. split; [apply Hn|exact Hc].
Qed.

(** C13: every stored room is stored under its own code, which is six decimal
    digits, has at least one participant and none twice. *)
Theorem stored_rooms_valid r v n code room :
  repo_rel r ∅ → reachable tls strict r (Running v n) →
  rooms_of v.1 !! code = Some room →
  GetCode room = code ∧ IsEmpty room = false ∧ NoDup (GetId <$> GetParticipants room) ∧
  ∃ d, (d ≤ 999999)%N ∧ code = format_room_code d.
Proof.
  intros Hr Hw Hroom.
  destruct (reachable_inv r v n Hr Hw) as (rooms & [_ <-] & [[[Hwf Hne Hc _] _ _ _] _]).
  destruct (Hwf _ _ Hroom) as [Hcode Hnd].
  split_and!; [done|exact (Hne _ _ Hroom)|exact Hnd|exact (Hc _ _ Hroom)].
Qed.
End properties.

Section connected.
Context `{BucketOrder, JsonLaws, CodeDraws, IdDraws} {R : Type} `{LawfulRepository R}.
Context (tls : bool).

(** C12: as long as no message of an already unregistered session is handled,
    every participant of every stored room is connected: a registered session
    carries the participant's id, so a leaving client is in no room. *)
Theorem members_are_connected r v n code room p :
  repo_rel r ∅ → reachable tls true r (Running v n) →
  rooms_of v.1 !! code = Some room → p ∈ GetParticipants room →
  ∃ s, registered_ (session_at n s) = true ∧
       participant_id_ (session_at n s) = GetId p.
Proof.
  intros Hr Hw Hroom Hp.
  destruct (reachable_inv tls true r v n Hr Hw) as (rooms & [_ <-] & [[_ _ _ Hm] _]).
  apply (Hm eq_refl). exists code, room. split; [done|]. by apply list_elem_of_fmap_2.
Qed.
End connected.

(** C20: a participant of a room need not be connected if a message of an already
    unregistered session is handled.  When a write fails after the session's
    next message has been read, the session is closed and unregistered first
    and the message is handled afterwards: the room it creates has a participant
    that no session carries any more. *)
Theorem late_read_leaves_ghost :
  ∃ (r : Rooms) g n room,
    reachable false false NewRepository (Running (r, g) n) ∧
    rooms_of r !! "000000" = Some room ∧
    GetParticipants room = [MkParticipant first_id "Ann"] ∧
    RegistryFind first_id (registry n) = None ∧
    registered_ (session_at n 0) = false ∧ closing_ (session_at n 0) = true.
Proof.
  destruct (running_parts (world_after ghost_events)) as (r & g & Hw & Hr);
    [by vm_compute|].
  exists r, g, (net_of (world_after ghost_events)),
    (MkRoom "000000" None [MkParticipant first_id "Ann"]).
  rewrite <- Hw, Hr. split; [exact ghost_reachable|]. split_and!; vm_compute; reflexivity.
Qed.

Section serving.
Context `{BucketOrder, JsonLaws, CodeDraws, IdDraws}.

(** What [main] has set up when the event loop is entered. *)
Lemma main_serving getenv os config rooms net :
  main getenv os = Serving config rooms net →
  LoadConfig getenv = Ret config ∧ rooms = NewRepository ∧
  net = enqueue TcpAccept empty_net.
Proof.
  unfold main. destruct (LoadConfig getenv) as [c|]; [|done]. simpl.
  destruct (NewServer os c) as [n|] eqn:Hs; [|done]. simpl.
  intros [= <- <- <-]. split_and!; [done..|]. unfold NewServer in Hs.
  destruct (if tls_enabled c then _ else _); [|done]. simpl in Hs.
  destruct (NewListener os (port c)); [|done]. by simplify_eq/=.
Qed.

(** When [main] reaches [io_context_.run()] the repository is empty, one
    accept is outstanding, and from there the process never terminates by an
    uncaught exception. *)
Theorem main_serves_safely getenv os config rooms net w :
  main getenv os = Serving config rooms net →
  (LoadConfig getenv = Ret config ∧ rooms = NewRepository ∧ pending net = [TcpAccept]) ∧
  (reachable (tls_enabled config) false rooms w → ∃ v n, w = Running v n).
Proof.
  intros (Hload & -> & ->)%main_serving. split; [done|]. intros Hw.
  destruct (reachable_running _ _ _ _ NewRepository_rel Hw) as (v & n' & _ & -> & _). eauto.
Qed.
End serving.

(** ** Witnesses: two clients have met and their messages are being written *)

Lemma server_never_crashes_witness : ∃ v n, world_after sent_events = Running v n.
Proof.
  exact (server_never_crashes false true NewRepository _ NewRepository_rel (sent_reachable true)).
Defined.

Lemma writes_in_order_witness :
  length (write_queue_ (session_at sample_net 0)) = 2 ∧
  ∃ m q, inflight 0 (pending sample_net) = [m] ∧ write_queue_ (session_at sample_net 0) = m :: q.
Proof.
  split; [by vm_compute|]. destruct (sample_running true) as (r & g & Hw & _).
  destruct (writes_in_order false true NewRepository (r, g) sample_net 0 NewRepository_rel Hw)
    as [_ [Hnil|Hone]]; [exfalso; revert Hnil; by vm_compute|exact Hone].
Defined.

Lemma open_sessions_drain_witness :
  ∃ (v : Rooms * nat) n', run_events false
      ((λ m, EvWebSocketWrite 0 m false) <$> write_queue_ (session_at sample_net 0))
      (Running v sample_net) = Some (Running v n') ∧
    length (written_ (session_at n' 0)) = 2.
Proof.
  destruct (sample_running true) as (r & g & Hw & _).
  destruct (open_sessions_drain false true NewRepository (r, g) sample_net 0 NewRepository_rel Hw)
    as (n' & Hrun & _ & Hall); [by vm_compute|].
  exists (r, g), n'. split; [exact Hrun|]. rewrite Hall. by vm_compute.
Defined.

Lemma registered_sessions_read_witness :
  stage 1 (pending sample_net) = [WebSocketRead 1].
Proof.
  destruct (sample_running true) as (r & g & Hw & _).
  apply (registered_sessions_read false true NewRepository (r, g) sample_net 1
           NewRepository_rel Hw).
  by vm_compute.
Defined.

Lemma registry_is_exact_witness :
  RegistryFind (participant_id_ (session_at sample_net 1)) (registry sample_net) = Some 1.
Proof.
  destruct (sample_running true) as (r & g & Hw & _).
  apply (registry_is_exact false true NewRepository (r, g) sample_net NewRepository_rel Hw).
  - vm_compute. repeat constructor; set_solver.
  - by vm_compute.
Defined.

Lemma stored_rooms_valid_witness :
  ∃ room, rooms_in (world_after sent_events) !! "000000" = Some room ∧ IsEmpty room = false.
Proof.
  destruct (sample_running true) as (r & g & Hw & Hr).
  exists (MkRoom "000000" None [MkParticipant first_id "Ann"; MkParticipant second_id "Bob"]).
  split; [by vm_compute|].
  apply (stored_rooms_valid false true NewRepository (r, g) sample_net "000000" _
           NewRepository_rel Hw).
  change (rooms_of (r, g).1) with (rooms_of r). rewrite Hr. by vm_compute.
Defined.

Lemma members_are_connected_witness :
  ∃ s, registered_ (session_at sample_net s) = true ∧
       participant_id_ (session_at sample_net s) = second_id.
Proof.
  destruct (sample_running true) as (r & g & Hw & Hr).
  apply (members_are_connected false NewRepository (r, g) sample_net "000000"
           (MkRoom "000000" None [MkParticipant first_id "Ann"; MkParticipant second_id "Bob"])
           (MkParticipant second_id "Bob") NewRepository_rel Hw).
  - change (rooms_of (r, g).1) with (rooms_of r). rewrite Hr. by vm_compute.
  - right. by left.
Defined.

(** The environment and the operating system of the witness for [main]. *)
Definition sample_env (name : string) : option string :=
  if decide (name = "BUZZWEB_TLS_ENABLED") then Some "0" else None.

Definition willing_os : os_results :=
  MkOsResults None (λ _, None) (λ _, None) None None (λ _, None) None.

Lemma main_serves_safely_witness :
  ∃ net, main sample_env willing_os =
           Serving (MkServerConfig DEFAULT_PORT "" "" false) NewRepository net ∧
         ∃ v n, world_after sent_events = Running v n.
Proof.
  exists (enqueue TcpAccept empty_net). split; [by vm_compute|].
  apply (main_serves_safely sample_env willing_os (MkServerConfig DEFAULT_PORT "" "" false)
           NewRepository (enqueue TcpAccept empty_net)); [by vm_compute|].
  exact (sent_reachable false).
Defined.
