(* ===== verification/ProgressProps.v ===== *)
(** * ProgressProps: messages are typed, work ends, what is sent arrives

    The theorems on runs of the server that the effects of the handlers
    (Effects.v) and the measure of the work left (Progress.v) give, those on
    the listener and on new clients included. *)

From S2P Require Import Prelude Text UnorderedMap Room RoomRepository InMemoryRoomRepository.
From S2P Require Import RoomService RoomServiceSpec Json JsonTree ControlDispatcher.
From S2P Require Import ProtocolCodec ProtocolCodecSpec SessionRegistry Session SessionSpec.
From S2P Require Import Server System SystemInv SystemRun SystemSafety MessageTypes Effects.
From S2P Require Import Progress Sending Samples.

Section properties.
Context `{BucketOrder, JsonLaws, CodeDraws, IdDraws} {R : Type} `{LawfulRepository R}.
Context (tls strict : bool).
Implicit Types (n : Net) (s : SessionPtr) (v : R * nat) (r : R).

Lemma reachable_any r w : reachable tls strict r w → reachable tls false r w.
Proof.
  induction 1 as [|w ev w' _ IH Hstep _]; [by apply reachable_start|by eapply reachable_step].
Qed.

(** A step of a reachable world, by its effect. *)
Lemma reachable_turn r v n ev w' :
  repo_rel r ∅ → reachable tls strict r (Running v n) → step tls (Running v n) ev w' →
  ∃ rooms v' n0 rooms' n', w' = Running v' n' ∧ start_event ev n = Some n0 ∧
    effect tls ev rooms n0 rooms' n' ∧ repo_rel v.1 rooms ∧ repo_rel v'.1 rooms' ∧
    world_inv strict rooms n.
Proof.
  intros Hr Hw [Hrun]. destruct v as [r1 g].
  destruct (reachable_ok tls strict r _ Hr Hw) as (rooms & Hr1 & Hinv).
  simpl in Hrun. apply bind_Some in Hrun as (n0 & Hst & [= <-]).
  destruct (handle_effect tls strict ev r1 g rooms n n0 Hr1 Hinv Hst)
    as (r' & g' & n' & rooms' & -> & Hr' & He).
  by exists rooms, (r', g'), n0, rooms', n'.
Qed.

Lemma reachable_effect r v n ev w' :
  repo_rel r ∅ → reachable tls strict r (Running v n) → step tls (Running v n) ev w' →
  ∃ rooms v' n0 rooms' n', w' = Running v' n' ∧ start_event ev n = Some n0 ∧
    effect tls ev rooms n0 rooms' n' ∧ io_ok n ∧ net_ok n0.
Proof.
  intros Hr Hw Hstep. destruct (reachable_turn r v n ev w' Hr Hw Hstep)
    as (rooms & v' & n0 & rooms' & n' & -> & Hst & He & _ & _ & [Hd Hio]).
  exists rooms, v', n0, rooms', n'. split_and!; [done..|].
  exact (dir_net _ _ _ (directory_start strict _ _ _ _ Hst Hd)).
Qed.

Lemma reachable_typed r v n :
  repo_rel r ∅ → reachable tls strict r (Running v n) → typed_net n.
Proof.
  intros Hr Hw. remember (Running v n) as w eqn:Heq. revert v n Heq.
  induction Hw as [|w ev w' Hw IH Hstep Hlate]; intros v n Heq.
  - injection Heq as _ <-. split; [by repeat constructor|]. intros s.
    rewrite session_at_unknown by apply lookup_empty. apply typed_blank.
  - destruct w as [v1 n1|e]; [|by destruct Hstep].
    destruct (reachable_effect r v1 n1 ev w' Hr Hw Hstep)
      as (rooms & v' & n0 & rooms' & n' & -> & Hst & He & _ & _).
    injection Heq as <- <-. eapply effect_typed; [done..|by eapply IH].
Qed.

(** C17: every message the server ever sends is a message of the protocol: in
    every reachable state each message that was pushed on a session's queue,
    is posted to one or is being written is the text of a JSON object whose
    member "type" is one of the twelve message types. *)
Theorem sent_messages_typed r v n s m :
  repo_rel r ∅ → reachable tls strict r (Running v n) →
  m ∈ pushed_ (session_at n s) ∨ PostedSend s m ∈ pending n ∨ WebSocketWrite s m ∈ pending n →
  ∃ j type, parse m = Ret j ∧ is_object j = true ∧ member_text j "type" = Some type ∧
    type ∈ message_types.
Proof.
  intros Hr Hw Hm. destruct (reachable_typed r v n Hr Hw) as [Hp Hs].
  destruct Hm as [Hm|[Hm|Hm]].
  - exact (proj1 (Forall_forall _ _) (proj1 (Hs s)) m Hm).
  - exact (proj1 (Forall_forall _ _) Hp _ Hm).
  - exact (proj1 (Forall_forall _ _) Hp _ Hm).
Qed.

(** Accepts fail, any number of times. *)
Definition accepts_fail : relation (world (R := R)) :=
  rtc (λ w w', step tls w (EvTcpAccept true) w').

(** Accepts fail, and then an internal event happens. *)
Definition works (w' w : world (R := R)) : Prop :=
  ∃ w1 ev, accepts_fail w w1 ∧ internal ev = true ∧ step tls w1 ev w'.

Lemma accepts_fail_less r v n w :
  repo_rel r ∅ → reachable tls strict r (Running v n) → accepts_fail (Running v n) w →
  ∃ v' n', w = Running v' n' ∧ reachable tls strict r w ∧ ∀ m, less m n' → less m n.
Proof.
  intros Hr Hw Hfail. remember (Running v n) as w0 eqn:Heq. revert v n Heq Hw.
  induction Hfail as [w|w0 w1 w Hstep _ IH]; intros v n -> Hw; [by exists v, n|].
  destruct (reachable_turn r v n _ w1 Hr Hw Hstep)
    as (rooms & v1 & n0 & rooms' & n1 & -> & Hst & He & _).
  destruct (IH v1 n1 eq_refl) as (v' & n' & -> & Hw' & Hless);
    [by eapply reachable_step; [done..|by intros _ ?]|].
  exists v', n'. split_and!; [done..|]. intros m Hm%Hless. by eapply failed_accept_less.
Qed.

(** The listener tries again at once. *)
Lemma failed_accept_again v n :
  acceptor_open n = true → TcpAccept ∈ pending n →
  ∃ l, l ≡ₚ pending n ∧ step tls (Running v n) (EvTcpAccept true) (Running v (set_pending l n)).
Proof.
  intros Ho (l & Hl)%take_out_Some. exists (l ++ [TcpAccept]).
  pose proof (take_out_perm _ _ _ Hl) as Hp. split; [by rewrite Hp, Permutation_app_comm|].
  constructor. cbn [run_event]. unfold start_event. simpl completion_of. cbn iota. rewrite Hl.
  simpl. unfold OnAccept, pbind at 1. simpl. by rewrite Ho.
Qed.

(** *** The listener *)

Definition accepting n : Prop := if acceptor_open n then accepts n = 1 else accepts n ≤ 1.

(** What an event does to the listener and to the number of sessions. *)
Definition listens (ev : io_event) n n' : Prop :=
  acceptor_open n' = match ev with EvListenerStop => false | _ => acceptor_open n end ∧
  match ev with
  | EvTcpAccept false =>
      if acceptor_open n then
        next_session n' = S (next_session n) ∧ is_Some (sessions n' !! next_session n) ∧
        first_wait tls (next_session n) ∈ pending n'
      else next_session n' = next_session n
  | _ => next_session n' = next_session n
  end.

Lemma accepting_step ev rooms n n0 rooms' n' :
  start_event ev n = Some n0 → effect tls ev rooms n0 rooms' n' → accepting n →
  accepting n' ∧ listens ev n n'.
Proof.
  intros Hst He Hacc. destruct (start_accepts ev n n0 Hst) as (Ho & Hn & Ha).
  unfold accepting, listens in *. destruct (listener_event ev) eqn:Hev.
  2: { assert (Heq : listening n' = listening n0) by by eapply effect_listening.
       injection Heq as -> -> ->. rewrite Ho.
       assert (accepts n = accepts n0) as <- by (destruct ev; try done; lia).
       by destruct ev. }
  destruct ev as [error| | | | | | | | |]; try done; destruct He as [_ ->].
  - rewrite Ho in *. destruct (acceptor_open n) eqn:Hop; simpl.
    + destruct error; simpl; rewrite ?Ho; unfold accepts in *; simpl;
        rewrite !filter_app, !length_app; simpl.
      * split_and!; [lia|done..].
      * split_and!; [destruct tls; simpl; lia|done|by rewrite Hn|..].
        { rewrite Hn, lookup_insert_eq. by eexists. }
        rewrite Hn. apply elem_of_app. left. apply elem_of_app. right. by left.
    + rewrite Ho. split_and!; [lia|done|by destruct error].
  - simpl. split_and!; [|done..]. unfold accepts in *. simpl. destruct (acceptor_open n); lia.
Qed.

Lemma reachable_accepting r v n :
  repo_rel r ∅ → reachable tls strict r (Running v n) → accepting n.
Proof.
  intros Hr Hw. remember (Running v n) as w eqn:Heq. revert v n Heq.
  induction Hw as [|w ev w' Hw IH Hstep Hlate]; intros v n Heq.
  - by injection Heq as _ <-.
  - destruct w as [v1 n1|e]; [|by destruct Hstep].
    destruct (reachable_effect r v1 n1 ev w' Hr Hw Hstep)
      as (rooms & v' & n0 & rooms' & n' & -> & Hst & He & _ & _).
    injection Heq as <- <-. eapply accepting_step; [done..|by eapply IH].
Qed.

(** C16: the listener keeps accepting until it is stopped: while the acceptor is
    open exactly one accept is outstanding, after [Stop] at most the last one; only
    [Stop] closes the acceptor, and nothing opens it again; each connection that is
    accepted while it is open gives one new session, which waits for its handshake,
    and nothing else gives a session. *)
Theorem listener_keeps_accepting r v n :
  repo_rel r ∅ → reachable tls strict r (Running v n) →
  (if acceptor_open n then accepts n = 1 else accepts n ≤ 1) ∧
  ∀ ev w, step tls (Running v n) ev w → ∃ v' n', w = Running v' n' ∧
    acceptor_open n' = match ev with EvListenerStop => false | _ => acceptor_open n end ∧
    match ev with
    | EvTcpAccept false =>
        if acceptor_open n then
          next_session n' = S (next_session n) ∧ is_Some (sessions n' !! next_session n) ∧
          first_wait tls (next_session n) ∈ pending n'
        else next_session n' = next_session n
    | _ => next_session n' = next_session n
    end.
Proof.
  intros Hr Hw. pose proof (reachable_accepting r v n Hr Hw) as Hacc. split; [exact Hacc|].
  intros ev w Hstep. destruct (reachable_effect r v n ev w Hr Hw Hstep)
    as (rooms & v' & n0 & rooms' & n' & -> & Hst & He & _ & _).
  destruct (accepting_step ev rooms n n0 rooms' n' Hst He Hacc) as [_ Hlistens].
  by exists v', n'.
Qed.

Lemma open_waits r v n :
  repo_rel r ∅ → reachable tls strict r (Running v n) → acceptor_open n = true →
  TcpAccept ∈ pending n.
Proof.
  intros Hr Hw Ho. pose proof (reachable_accepting r v n Hr Hw) as Hacc.
  unfold accepting in Hacc. rewrite Ho in Hacc. unfold accepts in Hacc.
  destruct (filter _ _) as [|c l] eqn:Hf; [done|].
  assert (Hc : c ∈ filter (λ c, c = TcpAccept) (pending n)) by (rewrite Hf; by left).
  by apply list_elem_of_filter in Hc as [-> Hc].
Qed.

(** C15: without accepted connections, messages and calls of [Close] and [Stop]
    the server comes to rest, but for accepts that fail: from no reachable state is
    there an infinite sequence of handlers with only failing accepts in between,
    whatever the operations' outcomes and order, failed reads and writes and lost
    sessions included.  A failing accept is no rest: the listener, while it is open,
    tries again at once, in the same state but for the order of what waits. *)
Theorem internal_events_terminate r w :
  repo_rel r ∅ → reachable tls strict r w →
  Acc works w ∧
  ∀ v n, w = Running v n → acceptor_open n = true →
    ∃ l, l ≡ₚ pending n ∧ step tls w (EvTcpAccept true) (Running v (set_pending l n)).
Proof.
  intros Hr Hw. split.
  2: { intros v n -> Ho. apply failed_accept_again; [done|]. by eapply open_waits. }
  destruct w as [v n|e].
  2: { constructor. intros w' (w1 & ev & Hfail & _ & Hstep).
       apply rtc_inv in Hfail as [<-|(w2 & Hstep2 & _)]; [by destruct Hstep|by destruct Hstep2]. }
  revert v Hw. induction (less_wf n) as [n _ IH]. intros v Hw. constructor.
  intros w' (w1 & ev & Hfail & Hin & Hstep).
  destruct (accepts_fail_less r v n w1 Hr Hw Hfail) as (v1 & n1 & -> & Hw1 & Hless).
  destruct (reachable_effect r v1 n1 ev w' Hr Hw1 Hstep)
    as (rooms & v' & n0 & rooms' & n' & -> & Hst & He & Hio & Hn).
  apply IH; [by eapply Hless, effect_less|]. eapply reachable_step; [done..|]. intros _ Hlate.
  by destruct ev as [| | |s [| |m got_text]| | | | | |].
Qed.

(** *** Deliveries *)

(** A posted message reaches the queue, or a write completes. *)
Definition delivery (ev : io_event) : bool :=
  match ev with EvPostedSend _ _ | EvWebSocketWrite _ _ false => true | _ => false end.

(** No delivery is left to do. *)
Definition delivered n : Prop := ∀ ev, delivery ev = true → start_event ev n = None.

Lemma start_enabled ev c n :
  completion_of ev = Some c → c ∈ pending n → is_Some (start_event ev n).
Proof.
  intros Hc Hin. unfold start_event. rewrite Hc. apply fmap_is_Some. by apply take_out_Some.
Qed.

Lemma delivered_or_not n :
  delivered n ∨ ∃ ev, delivery ev = true ∧ in_order ev n ∧ is_Some (start_event ev n).
Proof.
  set (waits := λ c, match c with PostedSend _ _ | WebSocketWrite _ _ => true | _ => false end).
  destruct (existsb waits (pending n)) eqn:Hex.
  - apply existsb_true in Hex as (c & Hc & Hw). right. destruct c as [| | | |s m| |s m|]; try done.
    + exists (EvWebSocketWrite s m false). split_and!; [done..|by eapply start_enabled].
    + apply posted_to_elem in Hc. destruct (posted_to s (pending n)) as [|m' q] eqn:Hq.
      { by apply elem_of_nil in Hc. }
      exists (EvPostedSend s m'). simpl. rewrite Hq. split_and!; [done..|].
      eapply start_enabled; [done|]. apply posted_to_elem. rewrite Hq. by left.
  - left. intros ev Hev. apply eq_None_not_Some. intros [n0 Hst].
    assert (Hc : ∃ c, completion_of ev = Some c ∧ waits c = true).
    { destruct ev as [| | | |s m [|]| | | | |]; try done; by eexists. }
    destruct Hc as (c & Hc & Hw). unfold start_event in Hst. rewrite Hc in Hst.
    apply fmap_Some in Hst as (l & Hl%take_out_perm & _).
    rewrite (proj1 (existsb_false _ _) Hex c) in Hw; [done|]. rewrite Hl. by left.
Qed.

(** The open session has been given [base] and what has arrived since, which
    together with what is still posted makes up [due]. *)
Record on_course s (base due : list string) n : Prop := {
  oc_known : is_Some (sessions n !! s);
  oc_open : closing_ (session_at n s) = false;
  oc_sent : ∃ arrived, pushed_ (session_at n s) = base ++ arrived ∧
              arrived ++ posted_to s (pending n) ≡ₚ due
}.

Lemma on_course_start s n :
  is_Some (sessions n !! s) → closing_ (session_at n s) = false →
  on_course s (pushed_ (session_at n s)) (posted_to s (pending n)) n.
Proof. intros Hk Ho. split; [done..|]. exists []. by rewrite app_nil_r. Qed.

Lemma known_do_write s s' n : is_Some (sessions n !! s) → is_Some (sessions (do_write s' n) !! s).
Proof.
  unfold do_write. destruct (write_queue_ _); [done|]. by destruct (closing_ _).
Qed.

Lemma on_course_do_write s base due s' n :
  on_course s base due n → on_course s base due (do_write s' n).
Proof.
  intros [Hk Ho Hs].
  split; [by apply known_do_write|by rewrite session_at_do_write|].
  by rewrite session_at_do_write, posted_to_do_write.
Qed.

(** Something happens that is no message for the session. *)
Lemma on_course_other s base due c l s' f n :
  on_course s base due n → pending n ≡ₚ c :: l → posted_to s [c] = [] →
  (∀ x, closing_ (f x) = closing_ x) → s' ≠ s ∨ (∀ x, pushed_ (f x) = pushed_ x) →
  on_course s base due (set_session s' f (set_pending l n)).
Proof.
  intros [Hk Ho (arrived & Hp & Hdue)] Hl Hc Hcl Hf.
  assert (Hpushed : pushed_ (session_at (set_session s' f (set_pending l n)) s) =
    pushed_ (session_at n s)).
  { destruct Hf as [Hne|Hf]; [by rewrite session_at_set_ne|].
    by rewrite (set_session_proj pushed_). }
  split; [by apply known_set_session|by rewrite (set_session_proj closing_)|].
  exists arrived. rewrite Hpushed. split; [done|]. simpl. rewrite <- Hdue.
  rewrite (posted_to_perm s _ _ Hl). change (c :: l) with ([c] ++ l).
  by rewrite posted_to_app, Hc.
Qed.

(** A message arrives. *)
Lemma on_course_arrival s base due m l n :
  on_course s base due n → pending n ≡ₚ PostedSend s m :: l →
  on_course s base due (set_session s (queue_push m) (set_pending l n)).
Proof.
  intros [Hk Ho (arrived & Hp & Hdue)] Hl.
  split; [by apply known_set_session|by rewrite (set_session_proj closing_)|].
  exists (arrived ++ [m]). rewrite set_session_known by done.
  change (session_at (set_pending l n) s) with (session_at n s). simpl. rewrite Hp.
  split; [by rewrite app_assoc|]. rewrite <- Hdue, (posted_to_perm s _ _ Hl), <- app_assoc.
  cbn. by rewrite decide_True.
Qed.

Lemma on_course_pushed s base due s' m n :
  on_course s base due (set_session s' (queue_push m) n) → on_course s base due (pushed s' m n).
Proof.
  intros Hc. unfold pushed. destruct (write_queue_ _); [by apply on_course_do_write|done].
Qed.

Lemma delivery_keeps ev s base due rooms n n0 rooms' n' :
  delivery ev = true → start_event ev n = Some n0 → effect tls ev rooms n0 rooms' n' →
  on_course s base due n → on_course s base due n'.
Proof.
  intros Hev Hst He Hc.
  destruct ev as [| | | |s' m' [|]| |s' m'| | |]; try done; simpl in He; destruct He as [_ ->];
    unfold start_event in Hst; simpl in Hst; apply fmap_Some in Hst as (l & Hl%take_out_perm & ->).
  - apply on_course_do_write. eapply on_course_other; [done..|by right].
  - apply on_course_pushed. destruct (decide (s' = s)) as [->|Hne]; [by apply on_course_arrival|].
    eapply on_course_other; [done..| |done|by left].
    cbn. by rewrite decide_False.
Qed.

Lemma not_late_delivery ev w : delivery ev = true → ¬ late_read (R := R) ev w.
Proof. intros Hev Hlate. by destruct ev as [| | |s [| |m []]| | | | | |]. Qed.

(** A run of deliveries from a reachable world keeps what is on its way. *)
Lemma deliveries_keep r v n evs w' :
  repo_rel r ∅ → reachable tls strict r (Running v n) →
  Forall (λ ev, delivery ev = true) evs → run_events tls evs (Running v n) = Some w' →
  ∃ v' n', w' = Running v' n' ∧ reachable tls strict r (Running v' n') ∧
    ∀ s base due, on_course s base due n → on_course s base due n'.
Proof.
  intros Hr Hw Hevs. revert v n Hw. induction Hevs as [|ev evs Hev _ IH]; intros v n Hw Hrun.
  { injection Hrun as <-. eauto. }
  apply bind_Some in Hrun as (w1 & Hstep & Hrun).
  destruct (reachable_effect r v n ev w1 Hr Hw (step_intro _ _ _ _ Hstep))
    as (rooms & v1 & n0 & rooms' & n1 & -> & Hst & He & _ & _).
  destruct (IH v1 n1) as (v' & n' & -> & Hw' & Hkeep); [|done|].
  { eapply reachable_step; [exact Hw|by constructor|]. intros _. by apply not_late_delivery. }
  exists v', n'. split_and!; [done..|]. intros s base due Hs. apply Hkeep. by eapply delivery_keeps.
Qed.

Lemma delivered_posted n s : delivered n → posted_to s (pending n) = [].
Proof.
  intros Hd. destruct (posted_to s (pending n)) as [|m l] eqn:Heq; [done|].
  assert (Hc : PostedSend s m ∈ pending n) by (apply posted_to_elem; rewrite Heq; by left).
  destruct (start_enabled (EvPostedSend s m) _ n eq_refl Hc) as [n0 Hst].
  by rewrite (Hd (EvPostedSend s m)) in Hst.
Qed.

(** When nothing is left to deliver, everything due has been written. *)
Lemma delivered_written r v n s base due :
  repo_rel r ∅ → reachable tls strict r (Running v n) → delivered n →
  on_course s base due n →
  ∃ arrived, written_ (session_at n s) = base ++ arrived ∧ arrived ≡ₚ due.
Proof.
  intros Hr Hw Hd [Hk Ho (arrived & Hp & Hdue)]. destruct v as [r1 g].
  destruct (reachable_ok tls strict r _ Hr Hw) as (rooms & _ & [_ Hio]).
  destruct (io_write _ Hio s) as [Hh Hi Hpend].
  assert (Hq : write_queue_ (session_at n s) = []).
  { destruct (write_queue_ (session_at n s)) as [|m' q] eqn:Hq; [done|].
    destruct (Hpend ltac:(done) Ho). destruct (inflight s (pending n)) as [|m l] eqn:Hin; [done|].
    assert (Hwr : WebSocketWrite s m ∈ pending n).
    { apply inflight_elem. rewrite Hin. by left. }
    destruct (start_enabled (EvWebSocketWrite s m false) _ n eq_refl Hwr) as [n0 Hst].
    by rewrite (Hd (EvWebSocketWrite s m false)) in Hst. }
  rewrite Hq, app_nil_r in Hh. exists arrived. rewrite <- Hh, Hp. split; [done|].
  by rewrite <- Hdue, (delivered_posted n s Hd), app_nil_r.
Qed.

(** Deliveries in order, until none is left, lead to a world with any property
    that each of them keeps. *)
Lemma deliveries_lead (P : world → Prop) r v n :
  repo_rel r ∅ → (∀ w, P w → reachable tls strict r w) →
  (∀ ev v n w, P (Running v n) → delivery ev = true → in_order ev n →
     step tls (Running v n) ev w → P w) →
  P (Running v n) →
  ∃ evs v' n', Forall (λ ev, delivery ev = true) evs ∧
    run_events tls evs (Running v n) = Some (Running v' n') ∧ delivered n' ∧ P (Running v' n').
Proof.
  intros Hr Hreach Hkeep. revert v. induction (less_wf n) as [n _ IH]. intros v Hw.
  destruct (delivered_or_not n) as [Hd|(ev & Hev & Hord & n0 & Hst)].
  { by exists [], v, n. }
  assert (Hstep : is_Some (run_event tls ev (Running v n))).
  { simpl. rewrite Hst. simpl. eauto. }
  destruct Hstep as [w1 Hrun]. assert (Hstep : step tls (Running v n) ev w1) by by constructor.
  destruct (reachable_effect r v n ev w1 Hr (Hreach _ Hw) Hstep)
    as (rooms & v1 & n0' & rooms' & n1 & -> & Hst' & He & Hio & Hn).
  destruct (IH n1) with (v := v1) as (evs & v' & n' & Hevs & Hrun' & Hd).
  - eapply effect_less; [done..| |done|done]. by destruct ev as [| | | |s m []| | | | |].
  - by eapply Hkeep.
  - exists (ev :: evs), v', n'. split_and!; [by constructor| |apply Hd..].
    by rewrite (run_events_next _ _ _ _ _ Hrun).
Qed.

Lemma deliveries_end r v n :
  repo_rel r ∅ → reachable tls strict r (Running v n) →
  ∃ evs v' n', Forall (λ ev, delivery ev = true) evs ∧
    run_events tls evs (Running v n) = Some (Running v' n') ∧ delivered n'.
Proof.
  intros Hr Hw. destruct (deliveries_lead (reachable tls strict r) r v n Hr)
    as (evs & v' & n' & Hevs & Hrun & Hd & _); [done| |done|eauto 6].
  intros ev v1 n1 w Hw1 Hev _ Hstep. eapply reachable_step; [done..|].
  intros _. by apply not_late_delivery.
Qed.

(** C5: what is sent arrives, once: from every reachable state the deliveries -
    posted messages reach their queues, writes complete without error - can be
    carried on until none is left, and in whatever order that happens, an open
    session has then written exactly the messages pushed on its queue before, in
    their order, followed by the messages that were posted to it. *)
Theorem messages_are_delivered r v n :
  repo_rel r ∅ → reachable tls strict r (Running v n) →
  (∃ evs v' n', Forall (λ ev, delivery ev = true) evs ∧
     run_events tls evs (Running v n) = Some (Running v' n') ∧ delivered n') ∧
  (∀ evs w' s, Forall (λ ev, delivery ev = true) evs →
     run_events tls evs (Running v n) = Some w' →
     is_Some (sessions n !! s) → closing_ (session_at n s) = false →
     ∃ v' n', w' = Running v' n' ∧
       (delivered n' → ∃ arrived,
          written_ (session_at n' s) = pushed_ (session_at n s) ++ arrived ∧
          arrived ≡ₚ posted_to s (pending n))).
Proof.
  intros Hr Hw. split; [by eapply deliveries_end|].
  intros evs w' s Hevs Hrun Hk Ho.
  destruct (deliveries_keep r v n evs w' Hr Hw Hevs Hrun) as (v' & n' & -> & Hw' & Hkeep).
  exists v', n'. split; [done|]. intros Hd. eapply delivered_written; [done..|].
  by apply Hkeep, on_course_start.
Qed.
End properties.

(** ** From request to answer *)

Section answers.
Context `{BucketOrder, JsonLaws, CodeDraws, IdDraws} {R : Type} `{LawfulRepository R}.
Context (tls : bool).
Implicit Types (n : Net) (s : SessionPtr) (v : R * nat) (r : R).

Lemma posted_to_told s (l : list (SessionPtr * string)) :
  Forall (λ sm, notification sm.2) l → Forall notification (posted_to s (posted l)).
Proof.
  intros Hl. apply Forall_forall. intros m Hm. unfold posted_to, posted in Hm.
  rewrite list_elem_of_omap in Hm. destruct Hm as (c & Hc & Hm).
  apply list_elem_of_fmap in Hc as (sm & -> & Hsm). case_decide; [|done].
  injection Hm as <-. exact (proj1 (Forall_forall _ _) Hl _ Hsm).
Qed.

Lemma posted_to_one s m l l' :
  posted_to s (posted (l ++ (s, m) :: l')) ≡ₚ m :: posted_to s (posted (l ++ l')).
Proof.
  unfold posted. rewrite !fmap_app, !posted_to_app. simpl.
  rewrite decide_True by done. by rewrite Permutation_middle.
Qed.

(** An open session that handles a message is on the way to answering it. *)
Lemma read_on_course r v n s message got_text w :
  repo_rel r ∅ → reachable tls false r (Running v n) → closing_ (session_at n s) = false →
  run_event tls (EvWebSocketRead s (ReadMessage message got_text)) (Running v n) = Some w →
  ∃ v1 n1 answer rid others, w = Running v1 n1 ∧ reachable tls false r (Running v1 n1) ∧
    answer_message rid answer ∧ echoes got_text message rid ∧ Forall notification others ∧
    on_course s (pushed_ (session_at n s)) (answer :: others ++ posted_to s (pending n)) n1.
Proof.
  intros Hr Hw Ho Hrun.
  destruct (reachable_effect tls false r v n _ w Hr Hw (step_intro _ _ _ _ Hrun))
    as (rooms & v1 & n0 & rooms' & n1 & -> & Hst & He & Hio & Hn).
  simpl in He. destruct He as (l & rid & (bef & answer & aft & -> & Ha & Ht) & Hid & _ & ->).
  unfold start_event in Hst. simpl in Hst. apply fmap_Some in Hst as (l0 & Hl & ->).
  destruct (start_stage s (WebSocketRead s) n l0 Hio Hl) as [[_ _ _ _ Hknown] _];
    [by apply bool_decide_eq_true_2|]. apply take_out_perm in Hl.
  exists v1. eexists. exists answer, rid, (posted_to s (posted (bef ++ aft))).
  split_and!; [reflexivity| |done|done|by apply posted_to_told|].
  { eapply reachable_step; [exact Hw|by constructor|done]. }
  split; [by apply (net_known _ Hn)|done|].
  exists []. rewrite app_nil_r. split; [done|]. rewrite app_nil_l.
  rewrite posted_to_send_all, posted_to_one by done.
  rewrite (posted_to_perm s _ _ Hl). simpl.
  by rewrite <- Permutation_middle, (Permutation_app_comm _ (posted_to s l0)).
Qed.

(** *** New clients *)

(** A waiting handler can run. *)
Lemma waiting_runs r v n ev c :
  repo_rel r ∅ → reachable tls false r (Running v n) → completion_of ev = Some c →
  c ∈ pending n →
  ∃ v' n0 rooms rooms' n', run_event tls ev (Running v n) = Some (Running v' n') ∧
    start_event ev n = Some n0 ∧ effect tls ev rooms n0 rooms' n' ∧
    reachable tls false r (Running v' n').
Proof.
  intros Hr Hw Hc Hin. destruct (start_enabled ev c n Hc Hin) as [n0 Hst].
  assert (Hrun : is_Some (run_event tls ev (Running v n))) by (simpl; rewrite Hst; simpl; eauto).
  destruct Hrun as [w Hrun]. assert (Hstep : step tls (Running v n) ev w) by by constructor.
  destruct (reachable_effect tls false r v n ev w Hr Hw Hstep)
    as (rooms & v' & n0' & rooms' & n' & -> & Hst' & He & _ & _).
  simplify_eq. exists v', n0, rooms, rooms', n'. split_and!; [done..|by eapply reachable_step].
Qed.

(** The session waits for its handshake or its upgrade and has been sent
    nothing. *)
Record newcomer s c n : Prop := {
  nc_waits : c ∈ pending n;
  nc_open : closing_ (session_at n s) = false
}.

Lemma accepted_newcomer r v n :
  repo_rel r ∅ → reachable tls false r (Running v n) → acceptor_open n = true →
  ∃ v' n', run_event tls (EvTcpAccept false) (Running v n) = Some (Running v' n') ∧
    reachable tls false r (Running v' n') ∧
    newcomer (next_session n) (first_wait tls (next_session n)) n'.
Proof.
  intros Hr Hw Hopen. pose proof (open_waits tls false r v n Hr Hw Hopen) as Hin.
  destruct (waiting_runs r v n (EvTcpAccept false) _ Hr Hw eq_refl Hin)
    as (v' & n0 & rooms & rooms' & n' & Hrun & Hst & [_ He] & Hw').
  destruct (start_accepts _ _ _ Hst) as (Ho & Hnext & _).
  rewrite Ho, Hopen in He. simpl in He. subst n'. rewrite Hnext in Hrun, Hw'.
  exists v', (enqueue TcpAccept (enqueue (first_wait tls (next_session n)) (allocated tls n0))).
  split_and!; [done..|]. split.
  - simpl. rewrite !elem_of_app. left. right. by left.
  - unfold session_at. simpl. by rewrite Hnext, lookup_insert_eq.
Qed.

(** The handshake, if there is one. *)
Lemma shaken_newcomer r v n s :
  repo_rel r ∅ → reachable tls false r (Running v n) → newcomer s (first_wait tls s) n →
  ∃ v' n', run_events tls (if tls then [EvTlsHandshake s false] else []) (Running v n) =
      Some (Running v' n') ∧
    reachable tls false r (Running v' n') ∧ newcomer s (WebSocketAccept s) n'.
Proof.
  intros Hr Hw [Hin Ho]. destruct tls eqn:Htls; [|by exists v, n]. rewrite <- Htls in *.
  unfold first_wait in Hin. rewrite Htls in Hin.
  destruct (waiting_runs r v n (EvTlsHandshake s false) _ Hr Hw eq_refl Hin)
    as (v' & n0 & rooms & rooms' & n' & Hrun & Hst & [_ ->] & Hw').
  eexists v', _. split_and!; [|exact Hw'|].
  - by rewrite (run_events_next _ _ _ _ _ Hrun).
  - pose proof (start_event_same _ _ _ Hst) as (_ & Hsess & _). split.
    + simpl. apply elem_of_app. right. by left.
    + unfold session_at in *. simpl. by rewrite Hsess.
Qed.

Lemma upgraded_newcomer r v n s :
  repo_rel r ∅ → reachable tls false r (Running v n) → newcomer s (WebSocketAccept s) n →
  ∃ v' n', run_event tls (EvWebSocketAccept s false) (Running v n) = Some (Running v' n') ∧
    reachable tls false r (Running v' n') ∧ newcomer s (WebSocketRead s) n'.
Proof.
  intros Hr Hw [Hin Ho].
  destruct (waiting_runs r v n (EvWebSocketAccept s false) _ Hr Hw eq_refl Hin)
    as (v' & n0 & rooms & rooms' & n' & Hrun & Hst & [_ ->] & Hw').
  eexists v', _. split_and!; [exact Hrun|exact Hw'|].
  pose proof (start_event_same _ _ _ Hst) as (_ & Hsess & _). split.
  - simpl. apply elem_of_app. right. by left.
  - change (closing_ (session_at (set_session s (set_registered true) n0) s) = false).
    rewrite (set_session_proj closing_) by done. unfold session_at in *. by rewrite Hsess.
Qed.

(** What an open session that handles a message has written in the end. *)
Lemma message_answered r v n s message got_text :
  repo_rel r ∅ → reachable tls false r (Running v n) → newcomer s (WebSocketRead s) n →
  ∃ evs v' n' answer rid, run_events tls (EvWebSocketRead s (ReadMessage message got_text) :: evs)
      (Running v n) = Some (Running v' n') ∧
    answer_message rid answer ∧ echoes got_text message rid ∧
    answer ∈ written_ (session_at n' s).
Proof.
  intros Hr Hw [Hin Ho].
  destruct (waiting_runs r v n (EvWebSocketRead s (ReadMessage message got_text)) _ Hr Hw
    eq_refl Hin) as (v0 & n0 & rooms & rooms' & n1 & Hrun & _ & _ & _).
  destruct (read_on_course r v n s message got_text _ Hr Hw Ho Hrun)
    as (v1 & n1' & answer & rid & others & [= <- <-] & Hw1 & Ha & Hid & _ & Hcourse).
  destruct (deliveries_end tls false r v0 n1 Hr Hw1) as (evs & v' & n' & Hevs & Hrun' & Hend).
  destruct (deliveries_keep tls false r v0 n1 evs _ Hr Hw1 Hevs Hrun')
    as (v2 & n2 & [= <- <-] & Hw' & Hkeep).
  destruct (delivered_written tls false r v' n' s _ _ Hr Hw' Hend (Hkeep _ _ _ Hcourse))
    as (arrived & Hwr & Harr).
  exists evs, v', n', answer, rid. split_and!; [|done..|].
  - by rewrite (run_events_next _ _ _ _ _ Hrun).
  - rewrite Hwr. apply elem_of_app. right. rewrite Harr. by left.
Qed.

(** C7: the server stays available: in every reachable state, whatever its other
    clients have done, as long as the listener has not been stopped, a new client
    can be accepted, shake hands and upgrade, and if he then sends a message, any
    one, the server can go on to write an answer to it, with its request id. *)
Theorem newcomers_are_served r v n message got_text :
  repo_rel r ∅ → reachable tls false r (Running v n) → acceptor_open n = true →
  let s := next_session n in
  ∃ evs v' n' answer rid,
    run_events tls (EvTcpAccept false :: (if tls then [EvTlsHandshake s false] else []) ++
      EvWebSocketAccept s false :: EvWebSocketRead s (ReadMessage message got_text) :: evs)
      (Running v n) = Some (Running v' n') ∧
    answer_message rid answer ∧ echoes got_text message rid ∧
    answer ∈ written_ (session_at n' s).
Proof.
  intros Hr Hw Hopen s. destruct (accepted_newcomer r v n Hr Hw Hopen)
    as (v1 & n1 & Hrun1 & Hw1 & Hnc1).
  destruct (shaken_newcomer r v1 n1 s Hr Hw1 Hnc1) as (v2 & n2 & Hrun2 & Hw2 & Hnc2).
  destruct (upgraded_newcomer r v2 n2 s Hr Hw2 Hnc2) as (v3 & n3 & Hrun3 & Hw3 & Hnc3).
  destruct (message_answered r v3 n3 s message got_text Hr Hw3 Hnc3)
    as (evs & v' & n' & answer & rid & Hrun4 & Hanswer).
  exists evs, v', n', answer, rid. split; [|done].
  rewrite (run_events_next _ _ _ _ _ Hrun1), (run_events_then _ _ _ _ _ Hrun2).
  by rewrite (run_events_next _ _ _ _ _ Hrun3).
Qed.

(** C6: every message of a client is answered on its connection, once: when an
    open session has handled a message, whatever it was, the deliveries can be
    carried on until none is left, and then, in whatever order they happened,
    the session has written what was sent to it before and one answer to this
    message, with its request id; whatever else it has written since are
    notifications. *)
Theorem answers_are_delivered r v n s message got_text w :
  repo_rel r ∅ → reachable tls false r (Running v n) → closing_ (session_at n s) = false →
  run_event tls (EvWebSocketRead s (ReadMessage message got_text)) (Running v n) = Some w →
  (∃ evs v' n', Forall (λ ev, delivery ev = true) evs ∧
     run_events tls evs w = Some (Running v' n') ∧ delivered n') ∧
  ∃ answer rid others,
    answer_message rid answer ∧ echoes got_text message rid ∧ Forall notification others ∧
    ∀ evs w', Forall (λ ev, delivery ev = true) evs → run_events tls evs w = Some w' →
      ∃ v' n', w' = Running v' n' ∧
        (delivered n' → ∃ arrived,
           written_ (session_at n' s) = pushed_ (session_at n s) ++ arrived ∧
           arrived ≡ₚ answer :: others ++ posted_to s (pending n)).
Proof.
  intros Hr Hw Ho Hrun.
  destruct (read_on_course r v n s message got_text w Hr Hw Ho Hrun)
    as (v1 & n1 & answer & rid & others & -> & Hw1 & Ha & Hid & Hothers & Hcourse).
  split; [by eapply deliveries_end|]. exists answer, rid, others. split_and!; [done..|].
  intros evs w' Hevs Hevs'.
  destruct (deliveries_keep tls false r v1 n1 evs w' Hr Hw1 Hevs Hevs')
    as (v' & n' & -> & Hw' & Hkeep).
  exists v', n'. split; [done|]. intros Hd. eapply delivered_written; [done..|]. by apply Hkeep.
Qed.
End answers.

(** ** Witnesses: the messages of two clients that have met *)

Definition first_message : string := default "" (pushed_ (session_at sample_net 0) !! 0).

Lemma sent_messages_typed_witness :
  length (pushed_ (session_at sample_net 0)) = 2 ∧
  ∃ j type, parse first_message = Ret j ∧ member_text j "type" = Some type ∧
    type ∈ message_types.
Proof.
  split; [vm_compute; reflexivity|]. destruct (sample_running true) as (r & g & Hw & _).
  destruct (sent_messages_typed false true NewRepository (r, g) sample_net 0 first_message
    NewRepository_rel Hw) as (j & type & Hj & _ & Htype & Hin).
  - left. apply list_elem_of_lookup_2 with 0. unfold first_message.
    destruct (pushed_ (session_at sample_net 0)) as [|m l] eqn:Hp; [|reflexivity].
    exfalso. assert (Hlen : length (pushed_ (session_at sample_net 0)) = 2)
      by (vm_compute; reflexivity).
    rewrite Hp in Hlen. discriminate Hlen.
  - exists j, type. split_and!; [exact Hj|exact Htype|exact Hin].
Defined.

Lemma internal_events_terminate_witness : Acc (works (R := Rooms) false) (world_after sent_events).
Proof.
  destruct (internal_events_terminate false true NewRepository _ NewRepository_rel
    (sent_reachable true)) as [Hacc _].
  exact Hacc.
Defined.

(** Another connection is accepted. *)
Lemma listener_keeps_accepting_witness :
  accepts sample_net = 1 ∧
  ∃ (v v' : Rooms * nat) n',
    step false (Running v sample_net) (EvTcpAccept false) (Running v' n') ∧
    next_session n' = S (next_session sample_net) ∧
    WebSocketAccept (next_session sample_net) ∈ pending n'.
Proof.
  destruct (sample_running true) as (r & g & Hw & _).
  destruct (listener_keeps_accepting false true NewRepository (r, g) sample_net
    NewRepository_rel Hw) as [Hone Hall].
  assert (Hopen : acceptor_open sample_net = true) by (vm_compute; reflexivity).
  rewrite Hopen in Hone. split; [exact Hone|].
  assert (Hst : match start_event (EvTcpAccept false) sample_net
                with Some _ => true | None => false end = true) by (vm_compute; reflexivity).
  destruct (run_event false (EvTcpAccept false) (Running (r, g) sample_net)) as [w|] eqn:Hrun.
  2: { exfalso. unfold run_event in Hrun.
       destruct (start_event (EvTcpAccept false) sample_net); [discriminate Hrun|done]. }
  destruct (Hall (EvTcpAccept false) w) as (v' & n' & -> & _ & Hnext); [constructor; exact Hrun|].
  cbn iota in Hnext. rewrite Hopen in Hnext. destruct Hnext as (Hnext & _ & Hwait).
  exists (r, g), v', n'. split; [constructor; exact Hrun|]. split; [exact Hnext|exact Hwait].
Defined.

Lemma sample_known : is_Some (sessions sample_net !! 0).
Proof.
  assert (Hk : match sessions sample_net !! 0 with Some _ => true | None => false end = true)
    by (vm_compute; reflexivity).
  destruct (sessions sample_net !! 0); [eexists; reflexivity|discriminate Hk].
Qed.

(** Both messages of the first session are written when nothing is left to
    deliver. *)
Lemma messages_are_delivered_witness :
  ∃ (v v' : Rooms * nat) n' evs,
    run_events false evs (Running v sample_net) = Some (Running v' n') ∧
    written_ (session_at n' 0) = pushed_ (session_at sample_net 0).
Proof.
  destruct (sample_running true) as (r & g & Hw & _).
  destruct (messages_are_delivered false true NewRepository (r, g) sample_net
    NewRepository_rel Hw) as [(evs & v' & n' & Hevs & Hrun & Hend) Hall].
  destruct (Hall evs _ 0 Hevs Hrun) as (v1 & n1 & Heq & Hwritten).
  - exact sample_known.
  - vm_compute. reflexivity.
  - injection Heq as <- <-. destruct (Hwritten Hend) as (arrived & Hwr & Harr).
    exists (r, g), v', n', evs. split; [exact Hrun|].
    replace (posted_to 0 (pending sample_net)) with (@nil string) in Harr
      by (vm_compute; reflexivity).
    apply Permutation_nil_r in Harr as ->. rewrite app_nil_r in Hwr. exact Hwr.
Defined.

(** A third client arrives and creates a room. *)
Lemma newcomers_are_served_witness :
  ∃ (v v' : Rooms * nat) evs n' answer rid,
    acceptor_open sample_net = true ∧
    run_events false (EvTcpAccept false :: EvWebSocketAccept (next_session sample_net) false ::
      EvWebSocketRead (next_session sample_net) (ReadMessage create_message true) :: evs)
      (Running v sample_net) = Some (Running v' n') ∧
    answer_message rid answer ∧
    answer ∈ written_ (session_at n' (next_session sample_net)).
Proof.
  destruct (sample_running false) as (r & g & Hw & _).
  assert (Hopen : acceptor_open sample_net = true) by (vm_compute; reflexivity).
  destruct (newcomers_are_served false NewRepository (r, g) sample_net create_message true
    NewRepository_rel Hw Hopen) as (evs & v' & n' & answer & rid & Hrun & Ha & _ & Hin).
  exists (r, g), v', evs, n', answer, rid. split_and!; [exact Hopen|exact Hrun|exact Ha|exact Hin].
Defined.

(** The first client asks for another room. *)
Lemma answers_are_delivered_witness :
  ∃ (v v' : Rooms * nat) w n' evs answer,
    run_event false (EvWebSocketRead 0 (ReadMessage create_message true))
      (Running v sample_net) = Some w ∧
    run_events false evs w = Some (Running v' n') ∧
    answer_message (Some "a") answer ∧ answer ∈ written_ (session_at n' 0).
Proof.
  destruct (sample_running false) as (r & g & Hw & _).
  assert (Hst : match start_event (EvWebSocketRead 0 (ReadMessage create_message true)) sample_net
                with Some _ => true | None => false end = true) by (vm_compute; reflexivity).
  destruct (run_event false (EvWebSocketRead 0 (ReadMessage create_message true))
    (Running (r, g) sample_net)) as [w|] eqn:Hrun.
  2: { exfalso. unfold run_event in Hrun.
       destruct (start_event (EvWebSocketRead 0 _) sample_net); [discriminate Hrun|done]. }
  destruct (answers_are_delivered false NewRepository (r, g) sample_net 0 create_message true w
    NewRepository_rel Hw) as [(evs & v' & n' & Hevs & Hrun' & Hend) Hans].
  - vm_compute. reflexivity.
  - exact Hrun.
  - destruct Hans as (answer & rid & others & Ha & Hid & _ & Hall).
    destruct (Hall evs _ Hevs Hrun') as (v1 & n1 & Heq & Hwritten).
    injection Heq as <- <-. destruct (Hwritten Hend) as (arrived & Hwr & Harr).
    exists (r, g), v', w, n', evs, answer. split_and!; [exact Hrun|exact Hrun'| |].
    + assert (rid = Some "a") as <-; [|exact Ha].
      exact (Hid (TObject [("type", TString "create_room"); ("request_id", TString "a");
        ("payload", TObject [("display_name", TString "Ann")])])
        eq_refl eq_refl eq_refl ltac:(eauto)).
    + rewrite Hwr. apply elem_of_app. right. rewrite Harr. by left.
Defined.
