(* ===== verification/RosterProps.v ===== *)
(** * RosterProps: the members know their rooms

    The theorems on what the clients learn: the affairs of a room are told to its
    members only, and - when posted lambdas run in order - the last message that
    lists the participants of a room lists, for each of its members, those it has. *)

From S2P Require Import Prelude Text UnorderedMap Room RoomRepository InMemoryRoomRepository.
From S2P Require Import RoomService RoomServiceSpec Json JsonTree ControlDispatcher.
From S2P Require Import ControlDispatcherSpec ProtocolCodec ProtocolCodecSpec SessionRegistry.
From S2P Require Import Session SessionSpec Server System SystemInv SystemRun SystemSafety.
From S2P Require Import MessageTypes Rosters Effects Progress Sending Samples SystemProps.
From S2P Require Import ProgressProps.

(** ** What an event's outbox conveys *)

Section events.
Context `{BucketOrder, JsonLaws, CodeDraws, IdDraws}.
Implicit Types (n : Net) (s : SessionPtr) (rooms : gmap RoomCode Room).
Implicit Types (l : list (SessionPtr * string)).

(** The messages of registered sessions only. *)
Definition timely (ev : io_event) n : Prop :=
  match ev with
  | EvWebSocketRead s (ReadMessage _ true) => registered_ (session_at n s) = true
  | _ => True
  end.

Definition conveyed n n' rooms rooms' (timely_read : Prop) l : Prop :=
  faithful (owner n') rooms rooms' l ∧
  (unique_ids n → timely_read → reaches (owner n') (registry n') rooms rooms' l).

Lemma found_owner n pid s : net_ok n → RegistryFind pid (registry n) = Some s → owner n s = pid.
Proof. rewrite RegistryFind_eq. intros Hn Hf. by apply (net_registry _ Hn). Qed.

Lemma message_conveyed strict s message got_text rooms rooms' n n' l :
  directory_ok strict rooms n → net_ok n' → handled s n message got_text rooms rooms' l →
  registry n' = registry n → (∀ s, owner n' s = owner n s) →
  conveyed n n' rooms rooms' (timely (EvWebSocketRead s (ReadMessage message got_text)) n) l.
Proof.
  intros [Hs Hn Hc _] Hn' Hh Hreg Hown. pose proof (session_at_id n s Hn) as Hpid.
  destruct Hh as [request g Hreq|args t _ Ht].
  - apply understood_request in Hreq as [-> Hdec].
    destruct (decode_ok _ _ _ Hpid Hdec) as (Hok & Hm & Hcmd).
    destruct (dispatch_ok request rooms g (inv_texts _ Hs) Hm Hcmd) as [Hres _].
    destruct (dispatch_conveys (owner n') (registry n)) with (s := s) (request := request)
      (rooms := rooms) (g := g) as [Hf Hr]; [|..|done|done|].
    + intros pid s' Hfind. apply found_owner; [done|]. by rewrite Hreg.
    + rewrite Hown. symmetry. by eapply decode_speaker.
    + split; [done|]. intros Hu Hreg'. rewrite Hreg. apply Hr. rewrite Hown, RegistryFind_eq.
      by apply Hc.
  - split; [|intros _ _; apply reaches_same]. apply faithful_silent.
    by apply refusal_reads in Ht as [_ Hsub].
Qed.

Lemma outbox_conveyed strict ev rooms n rooms' n' l :
  directory_ok strict rooms n → net_ok n' → outbox_of ev rooms n rooms' n' l →
  conveyed n n' rooms rooms' (timely ev n) l.
Proof.
  intros Hd Hn' Hout. revert Hn'.
  destruct Hout as [n1 _ _|s n1 _ _ _|s n1 _ _ _|s message got_text rooms1 n1 l1 -> _ Hh Hreg Hown
    |s n1 l1 _ Hs Hl Hreg Hown]; intros Hn'.
  - split; [apply faithful_nil|]. intros _ _. apply reaches_same.
  - split; [apply faithful_nil|]. intros _ _. apply reaches_same.
  - split; [apply faithful_nil|]. intros _ _. apply reaches_same.
  - by eapply message_conveyed.
  - destruct (farewell_conveys (owner n1) s rooms n l1) as [Hf Hr];
      [apply inv_texts, (dir_service _ _ _ Hd)|apply session_at_id, Hd|done..| |].
    + intros pid s' Hfind. rewrite <- Hreg in Hfind. by apply found_owner.
    + split; [exact Hf|]. intros _ _. rewrite Hreg. exact Hr.
Qed.
End events.

(** ** The members are informed *)

Section informed.
Context `{BucketOrder, JsonLaws, CodeDraws, IdDraws}.
Implicit Types (n : Net) (s : SessionPtr) (rooms : gmap RoomCode Room).

(** The last message to a member of a room that lists its participants lists
    those it has. *)
Definition informed rooms n : Prop :=
  ∀ code room s, rooms !! code = Some room → registered_ (session_at n s) = true →
    owner n s ∈ ids room →
    ∃ t, latest code (sent_to s n) = Some t ∧ lists t (GetParticipants room).

(** What follows a message that lists the participants takes its place only if
    it does so, too. *)
Lemma latest_told who old rooms l code room s ts :
  faithful who old rooms l → rooms !! code = Some room →
  (∃ t, latest code ts = Some t ∧ lists t (GetParticipants room)) ∨
    (∃ t, (s, t) ∈ l ∧ topic t = Some code) →
  ∃ t, latest code (ts ++ posted_to s (posted l)) = Some t ∧ lists t (GetParticipants room).
Proof.
  intros Hf Hroom Hor. rewrite latest_app.
  destruct (latest code (posted_to s (posted l))) as [t|] eqn:Hnew.
  - exists t. split; [done|]. apply latest_Some in Hnew as [Hin%posted_to_posted Htop].
    destruct (topic_subject _ _ Htop) as [Hsub Hne].
    destruct (Hf s t Hin code Hsub) as [(room' & Hroom' & _ & Hl)|[Htype _]]; [|done].
    simplify_eq. by apply Hl.
  - destruct Hor as [Hold|(t & Hin & Htop)]; [done|].
    destruct (latest_is_Some code (posted_to s (posted l)) t) as [t' Ht']; [|done|congruence].
    by apply posted_to_posted.
Qed.

(** A session that is new in the registry is in no room. *)
Lemma member_registered rooms n n' s code room :
  members_inv rooms n → net_ok n → net_ok n' → next_session n ≤ next_session n' →
  unique_ids n' → registered_ (session_at n' s) = true → rooms !! code = Some room →
  owner n' s ∈ ids room → registered_ (session_at n s) = true ∧ owner n s = owner n' s.
Proof.
  intros Hm Hn Hn' Hle Hu Hreg Hroom Hin.
  destruct (Hm (owner n' s)) as (s' & Hreg' & Hid); [by exists code, room|].
  pose proof (registered_known _ _ Hn Hreg') as Hk.
  pose proof (registered_known _ _ Hn' Hreg) as Hk'.
  assert (s = s') as <-; [|by split]. apply (unique_ids_inj n' s s' Hu Hk'); [lia|].
  apply format_participant_id_inj. unfold owner in Hid.
  rewrite (net_ids _ Hn) in Hid by done. by rewrite (net_ids _ Hn') in Hid.
Qed.

Lemma informed_step tls ev rooms n n0 rooms' n' :
  start_event ev n = Some n0 → io_ok n → in_order ev n → timely ev n0 →
  effect tls ev rooms n0 rooms' n' → directory_ok true rooms n0 → directory_ok true rooms' n' →
  unique_ids n' → informed rooms n → informed rooms' n'.
Proof.
  intros Hst Hio Hord Htime He Hd Hd' Hu Hinf code room s Hroom Hreg Hin.
  pose proof (dir_net _ _ _ Hd) as Hn. pose proof (dir_net _ _ _ Hd') as Hn'.
  pose proof (effect_next _ _ _ _ _ _ He) as Hle.
  destruct (effect_sends tls ev rooms n n0 rooms' n' Hst Hio Hn He)
    as (l & Hout & Hsent).
  destruct (outbox_conveyed true ev rooms n0 rooms' n' l Hd Hn' Hout) as [Hf Hr].
  destruct (Hsent s) as [_ ->]; [left; by apply registered_exists| |done].
  apply (latest_told (owner n') rooms rooms'); [done..|].
  destruct (Hr (unique_ids_grow _ _ Hle Hu) Htime code room s) as [Hroom'|Htold];
    [done..| | |by right].
  - rewrite RegistryFind_eq. by apply (dir_complete _ _ _ Hd' Hu).
  - left. destruct (member_registered rooms n0 n' s code room) as [Hreg0 Hown];
      [by apply (dir_members _ _ _ Hd)|done..|].
    pose proof (start_event_same _ _ _ Hst) as (_ & Hsess & _).
    unfold owner, session_at in Hreg0, Hown. rewrite Hsess in Hreg0, Hown.
    apply (Hinf code room s Hroom' Hreg0). unfold owner, session_at. by rewrite Hown.
Qed.
End informed.

(** ** Runs *)

Section properties.
Context `{BucketOrder, JsonLaws, CodeDraws, IdDraws} {R : Type} `{LawfulRepository R}.
Context (tls strict : bool).
Implicit Types (n : Net) (s : SessionPtr) (v : R * nat) (r : R).

(** C9: the affairs of a room are its members' only: whatever happens, the
    messages that are sent to a session because of it and speak of a room - its
    members, who joined or left it, an offer made in it - go to sessions of
    participants that are in the room afterwards, and those that list
    participants list exactly the room's.  The one exception is the result of a
    request to leave, which names the room, to a participant who was in it before
    the step. *)
Theorem rooms_are_private r v n ev w s :
  repo_rel r ∅ → reachable tls strict r (Running v n) → step tls (Running v n) ev w →
  ∃ v' n' new, w = Running v' n' ∧
    (is_Some (sessions n' !! s) → sent_to s n' ≡ₚ sent_to s n ++ new) ∧
    ∀ t code, t ∈ new → subject t = Some code →
      (∃ room, rooms_of v'.1 !! code = Some room ∧
         participant_id_ (session_at n' s) ∈ GetId <$> GetParticipants room ∧
         (topic t = Some code → lists t (GetParticipants room))) ∨
      (type_of t = Some "leave_room_result" ∧ ∃ room, rooms_of v.1 !! code = Some room ∧
         participant_id_ (session_at n' s) ∈ GetId <$> GetParticipants room).
Proof.
  intros Hr Hw%reachable_any Hstep.
  destruct (reachable_turn tls false r v n ev w Hr Hw Hstep)
    as (rooms & v' & n0 & rooms' & n' & -> & Hst & He & [_ Hold] & [_ Heq] & [Hd Hio]).
  apply (directory_start false _ _ _ _ Hst) in Hd.
  destruct (reachable_inv tls false r v' n' Hr) as (rooms1 & _ & [Hd' _]);
    [by eapply reachable_step|].
  destruct (effect_sends tls ev rooms n n0 rooms' n' Hst Hio (dir_net _ _ _ Hd) He)
    as (l & Hout & Hsent).
  destruct (outbox_conveyed false ev rooms n0 rooms' n' l Hd (dir_net _ _ _ Hd') Hout) as [Hf _].
  exists v', n', (posted_to s (posted l)). split_and!; [done|by intros Hk; apply Hsent; left|].
  intros t code Hin%posted_to_posted Hc. rewrite Hold, Heq. by apply (Hf s t Hin code).
Qed.

Lemma fifo_informed r v n :
  repo_rel r ∅ → fifo_reachable tls r (Running v n) → unique_ids n → informed (rooms_of v.1) n.
Proof.
  intros Hr Hw. remember (Running v n) as w eqn:Heq. revert v n Heq.
  induction Hw as [|v n ev w Hw IH Hord Hlate Hstep]; intros v' n' Heq Hu.
  { injection Heq as <- <-. intros code room s Hroom. destruct Hr as [_ Hr]. simpl in Hroom.
    by rewrite Hr, lookup_empty in Hroom. }
  pose proof (fifo_reachable_strict _ _ _ Hw) as Hreach.
  destruct (reachable_turn tls true r v n ev w Hr Hreach Hstep)
    as (rooms & v1 & n0 & rooms' & n1 & -> & Hst & He & [_ Heq1] & [_ Heq2] & [Hd Hio]).
  injection Heq as -> ->. apply (directory_start true _ _ _ _ Hst) in Hd.
  destruct (reachable_inv tls true r v' n' Hr) as (rooms1 & [_ Heq3] & [Hd' _]);
    [by eapply reachable_step|].
  simplify_eq. pose proof (start_event_same _ _ _ Hst) as (_ & Hsess & Hnext & _).
  eapply informed_step; [done..| |exact He|exact Hd|exact Hd'|done|].
  - destruct ev as [| | |s' [| |m []]| | | | | |]; try done. simpl in *.
    apply not_false_iff_true. unfold session_at in *. by rewrite Hsess.
  - apply (IH v n); [done|]. eapply unique_ids_grow; [|exact Hu]. rewrite <- Hnext.
    by eapply effect_next.
Qed.

(** C10: the members of a room know who is in it: as long as no message of an
    unregistered session is handled, posted lambdas run in order and the random
    ids differ, in every state the last message that lists the participants of
    a room, of those sent to the session of one of them, lists exactly those
    that the room has. *)
Theorem members_know_their_rooms r v n code room s :
  repo_rel r ∅ → fifo_reachable tls r (Running v n) →
  NoDup (id_draw <$> seq 0 (next_session n)) →
  rooms_of v.1 !! code = Some room → registered_ (session_at n s) = true →
  participant_id_ (session_at n s) ∈ GetId <$> GetParticipants room →
  ∃ t, latest code (sent_to s n) = Some t ∧ lists t (GetParticipants room).
Proof. intros Hr Hw Hu. by apply (fifo_informed r v n Hr Hw Hu). Qed.

(** A delivery changes neither the rooms nor who is connected. *)
Lemma delivery_same ev rooms n n0 rooms' n' :
  delivery ev = true → start_event ev n = Some n0 → effect tls ev rooms n0 rooms' n' →
  rooms' = rooms ∧ same_directory n n'.
Proof.
  intros Hev Hst He. apply same_start in Hst. destruct ev as [| | | |s m []| |s m| | |]; try done;
    destruct He as [-> ->]; (split; [done|]); (etrans; [exact Hst|]).
  - apply same_popped.
  - apply same_pushed.
Qed.

(** A world that deliveries lead to from [v] and [n]. *)
Definition delivering r v n (w : world) : Prop :=
  ∃ v' n', w = Running v' n' ∧ fifo_reachable tls r w ∧ rooms_of v'.1 = rooms_of v.1 ∧
    same_directory n n'.

Lemma delivering_step r v n ev v1 n1 w :
  repo_rel r ∅ → delivering r v n (Running v1 n1) → delivery ev = true → in_order ev n1 →
  step tls (Running v1 n1) ev w → delivering r v n w.
Proof.
  intros Hr (v1' & n1' & [= <- <-] & Hw & Hrooms & Hsame) Hev Hord Hstep.
  destruct (reachable_turn tls true r v1 n1 ev w Hr (fifo_reachable_strict _ _ _ Hw) Hstep)
    as (rooms & v' & n0 & rooms' & n' & -> & Hst & He & [_ Heq] & [_ Heq'] & _).
  destruct (delivery_same ev rooms n1 n0 rooms' n' Hev Hst He) as [-> Hsame'].
  exists v', n'. split_and!; [done| |congruence|by etrans].
  eapply fifo_step; [exact Hw|done| |exact Hstep]. by apply not_late_delivery.
Qed.

(** C8: the clients' views of their rooms converge: from every state that was
    reached while posted lambdas ran in order, no message of an unregistered
    session was handled and the random ids differed, the deliveries can be carried
    on until none is left, and then every registered session of a participant of a
    room that was not closing has written, as the last message that lists the
    room's participants, one that lists exactly those it has. *)
Theorem rosters_converge r v n :
  repo_rel r ∅ → fifo_reachable tls r (Running v n) →
  NoDup (id_draw <$> seq 0 (next_session n)) →
  ∃ evs v' n', Forall (λ ev, delivery ev = true) evs ∧
    run_events tls evs (Running v n) = Some (Running v' n') ∧
    ∀ code room s, rooms_of v.1 !! code = Some room →
      registered_ (session_at n s) = true → closing_ (session_at n s) = false →
      participant_id_ (session_at n s) ∈ GetId <$> GetParticipants room →
      ∃ t, latest code (written_ (session_at n' s)) = Some t ∧ lists t (GetParticipants room).
Proof.
  intros Hr Hw Hu. pose proof (fifo_reachable_strict _ _ _ Hw) as Hreach.
  destruct (deliveries_lead tls true (delivering r v n) r v n Hr)
    as (evs & v' & n' & Hevs & Hrun & Hd & v1 & n1 & Heq & Hw' & Hrooms & Hsame).
  - intros w (v1 & n1 & -> & Hw1 & _). by apply fifo_reachable_strict.
  - intros ev v1 n1 w. by apply delivering_step.
  - by exists v, n.
  - injection Heq as <- <-. exists evs, v', n'. split_and!; [done..|].
    intros code room s Hroom Hreg Ho Hin.
    destruct (deliveries_keep tls true r v n evs _ Hr Hreach Hevs Hrun)
      as (v2 & n2 & Heq & Hreach' & Hkeep).
    injection Heq as <- <-. pose proof (registered_exists n s Hreg) as Hk.
    pose proof (Hkeep s _ _ (on_course_start s n Hk Ho)) as [Hk' Ho' _].
    destruct (delivered_written tls true r v' n' s _ _ Hr Hreach' Hd
      (on_course_start s n' Hk' Ho')) as (arrived & -> & Harr).
    rewrite (delivered_posted n' s Hd) in Harr. apply Permutation_nil_r in Harr as ->.
    destruct (fifo_informed r v' n' Hr Hw') with (code := code) (room := room) (s := s)
      as (t & Ht & Hl); [..|exists t; split; [|done]].
    + unfold unique_ids. by rewrite (sd_next _ _ Hsame).
    + by rewrite Hrooms.
    + by rewrite (sd_registered _ _ Hsame).
    + unfold owner. by rewrite (sd_id _ _ Hsame).
    + unfold sent_to in Ht. by rewrite (delivered_posted n' s Hd) in Ht.
Qed.
End properties.

(** ** Witnesses: two clients have met in a room *)

(** The second client leaves: what the first is sent is about his room. *)
Lemma rooms_are_private_witness :
  ∃ (v v' : Rooms * nat) n' (new : list string),
    step false (Running v sample_net) (EvWebSocketRead 1 (ReadMessage leave_message true))
      (Running v' n') ∧
    ∀ t, t ∈ new → subject t = Some "000000" → type_of t ≠ Some "leave_room_result" →
      ∃ room, rooms_of v'.1 !! "000000" = Some room ∧
        participant_id_ (session_at n' 0) ∈ GetId <$> GetParticipants room.
Proof.
  destruct (sample_running false) as (r & g & Hw & _).
  assert (Hst : match start_event (EvWebSocketRead 1 (ReadMessage leave_message true)) sample_net
                with Some _ => true | None => false end = true) by (vm_compute; reflexivity).
  destruct (run_event false (EvWebSocketRead 1 (ReadMessage leave_message true))
    (Running (r, g) sample_net)) as [w|] eqn:Hrun.
  2: { exfalso. unfold run_event in Hrun.
       destruct (start_event (EvWebSocketRead 1 _) sample_net); [discriminate Hrun|done]. }
  destruct (rooms_are_private false false NewRepository (r, g) sample_net
    (EvWebSocketRead 1 (ReadMessage leave_message true)) w 0 NewRepository_rel Hw)
    as (v' & n' & new & -> & _ & Hnew).
  - constructor. exact Hrun.
  - exists (r, g), v', n', new. split; [constructor; exact Hrun|]. intros t Hin Hc Hne.
    destruct (Hnew t "000000" Hin Hc) as [(room & Hroom & Hmem & _)|[Htype _]];
      [|destruct (Hne Htype)].
    exists room. split; [exact Hroom|exact Hmem].
Defined.

(** The first client has been told that the second joined. *)
Lemma members_know_their_rooms_witness :
  ∃ t, latest "000000" (sent_to 0 sample_net) = Some t ∧
       lists t (GetParticipants meeting_room).
Proof.
  destruct sample_fifo as (r & g & Hw & Hr).
  apply (members_know_their_rooms false NewRepository (r, g) sample_net "000000" meeting_room 0
    NewRepository_rel Hw sample_ids).
  - change (rooms_of (r, g).1) with (rooms_of r). rewrite Hr. vm_compute. reflexivity.
  - vm_compute. reflexivity.
  - vm_compute. left.
Defined.

(** The second client's connection ends up with the answer to his request. *)
Lemma rosters_converge_witness :
  ∃ (v v' : Rooms * nat) n' evs,
    run_events false evs (Running v sample_net) = Some (Running v' n') ∧
    ∃ t, latest "000000" (written_ (session_at n' 1)) = Some t ∧
         lists t (GetParticipants meeting_room).
Proof.
  destruct sample_fifo as (r & g & Hw & Hr).
  destruct (rosters_converge false NewRepository (r, g) sample_net NewRepository_rel Hw sample_ids)
    as (evs & v' & n' & _ & Hrun & Hall).
  exists (r, g), v', n', evs. split; [exact Hrun|].
  apply (Hall "000000" meeting_room 1).
  - change (rooms_of (r, g).1) with (rooms_of r). rewrite Hr. vm_compute. reflexivity.
  - vm_compute. reflexivity.
  - vm_compute. reflexivity.
  - vm_compute. right. left.
Defined.
