(* ===== verification/RefinementProps.v ===== *)
(** * RefinementProps: the server implements the signaling service

    The refinement theorems of the whole server: its runs are runs of the abstract
    service of Signaling.v, by the actions that the events of the run mean, and
    what its clients are sent are the notices of it. *)

From S2P Require Import Prelude Text UnorderedMap Room RoomRepository InMemoryRoomRepository.
From S2P Require Import RoomService RoomServiceSpec Json JsonTree ControlDispatcher.
From S2P Require Import ControlDispatcherSpec ProtocolCodec ProtocolCodecSpec SessionRegistry.
From S2P Require Import Session SessionSpec Server System SystemInv SystemRun SystemSafety.
From S2P Require Import MessageTypes Effects Sending Signaling Config Samples SystemProps.
From S2P Require Import ProgressProps.

Section properties.
Context `{BucketOrder, JsonLaws, CodeDraws, IdDraws} {R : Type} `{LawfulRepository R}.
Context (tls : bool).
Implicit Types (n : Net) (s : SessionPtr) (v : R * nat) (r : R).

(** The meaning of an event does not depend on what waits. *)
Lemma action_start ev n n0 : start_event ev n = Some n0 → action_of ev n0 = action_of ev n.
Proof.
  intros Hst. pose proof (start_event_same _ _ _ Hst) as (_ & Hsess & _).
  unfold action_of, owner, session_at. by rewrite Hsess.
Qed.

Lemma effect_explains ordered ev rooms n n0 rooms' n' :
  start_event ev n = Some n0 → io_ok n → directory_ok false rooms n0 → net_ok n' →
  unique_ids n' → effect tls ev rooms n0 rooms' n' → (ordered = true → in_order ev n) →
  ∃ l new, service_acts (service_of rooms n) (action_of ev n) (service_of rooms' n') new ∧
    explains ordered n n' l new.
Proof.
  intros Hst Hio Hd Hn' Hu He Hord. pose proof (same_start _ _ _ Hst) as Hsame.
  pose proof (effect_next _ _ _ _ _ _ He) as Hle. pose proof (dir_net _ _ _ Hd) as Hn.
  destruct (effect_sends tls ev rooms n n0 rooms' n' Hst Hio Hn He) as (l & Hout & Hsent).
  assert (Hown : ∀ s, s < next_session n0 → owner n' s = owner n0 s).
  { intros s Hs. unfold owner. rewrite (net_ids _ Hn), (net_ids _ Hn'); [done|lia|done]. }
  destruct (outbox_step false ev rooms n0 rooms' n' l Hd) as (new & Hstep & Hl); [|done..|].
  { by eapply unique_ids_grow. }
  exists l, new. rewrite (action_start ev n n0 Hst) in Hstep.
  destruct Hsame as [Hr Hnext _ _ Hid _]. unfold service_of in *.
  rewrite Hr in Hstep. rewrite Hnext in *. split; [done|]. split; [done| |done|].
  - intros s Hs. rewrite Hown by done. apply Hid.
  - intros s Hk. destruct (Hsent s) as [Hp Heq].
    + destruct Hk as [Hk|Hk]; [left; by apply (net_known _ Hn')|by right].
    + destruct ordered; [by apply Heq, Hord|done].
Qed.

(** The simulation diagram for a step of a reachable world. *)
Lemma reachable_simulates ordered r v n ev w :
  repo_rel r ∅ → reachable tls false r (Running v n) → step tls (Running v n) ev w →
  (ordered = true → in_order ev n) →
  ∃ v' n', w = Running v' n' ∧ next_session n ≤ next_session n' ∧
    ∀ told, unique_ids n' → explained ordered n told → ∃ new,
      service_acts (service_of (rooms_of v.1) n) (action_of ev n)
        (service_of (rooms_of v'.1) n') new ∧
      explained ordered n' (told ++ new).
Proof.
  intros Hr Hw Hstep Hord.
  destruct (reachable_turn tls false r v n ev w Hr Hw Hstep)
    as (rooms & v' & n0 & rooms' & n' & -> & Hst & He & [_ Hr1] & [_ Hr2] & [Hd Hio]).
  apply (directory_start false _ _ _ _ Hst) in Hd.
  destruct (reachable_inv tls false r v' n' Hr) as (rooms1 & _ & [Hd' _]);
    [by eapply reachable_step|].
  pose proof (same_start _ _ _ Hst) as Hsame. exists v', n'. split_and!; [done| |].
  { rewrite <- (sd_next _ _ Hsame). by eapply effect_next. }
  intros told Hu Hex. destruct (effect_explains ordered ev rooms n n0 rooms' n' Hst Hio Hd
    (dir_net _ _ _ Hd') Hu He Hord) as (l & new & Hserv & Hxp).
  exists new. rewrite Hr1, Hr2. split; [done|].
  exact (explained_next ordered n n' l told new (dir_net _ _ _ Hd') Hu Hex Hxp).
Qed.

Lemma service_of_start r :
  repo_rel r ∅ → service_of (rooms_of (r, 0).1) (enqueue TcpAccept empty_net) = MkService ∅ ∅.
Proof.
  intros [_ Hr]. unfold service_of. simpl. by rewrite Hr.
Qed.

(** The actions lead the service to the state, which explains what was sent. *)
Definition implements (ordered : bool) (acts : list action) (w : world (R := R)) : Prop :=
  ∃ v n, w = Running v n ∧
    (unique_ids n → ∃ told,
       service_run acts (service_of (rooms_of v.1) n) told ∧ explained ordered n told).

Lemma implements_start ordered r : repo_rel r ∅ → implements ordered [] (start_world r).
Proof.
  intros Hr. eexists _, _. split; [done|]. intros _. exists [].
  rewrite service_of_start by done. split; [apply service_start|apply explained_start].
Qed.

Lemma implements_step ordered r acts v n ev w :
  repo_rel r ∅ → reachable tls false r (Running v n) → step tls (Running v n) ev w →
  (ordered = true → in_order ev n) → implements ordered acts (Running v n) →
  implements ordered (acts ++ option_list (action_of ev n)) w.
Proof.
  intros Hr Hw Hstep Hord (v1 & n1 & [= <- <-] & IH).
  destruct (reachable_simulates ordered r v n ev _ Hr Hw Hstep Hord)
    as (v' & n' & -> & Hle & Hsim).
  exists v', n'. split; [done|]. intros Hu.
  destruct IH as (told & Hrun & Hex); [by eapply unique_ids_grow|].
  destruct (Hsim told Hu Hex) as (new & Hserv & Hex').
  exists (told ++ new). split; [by eapply service_goes_on|done].
Qed.

Lemma implements_events ordered r acts evs w w' :
  repo_rel r ∅ → reachable tls false r w → implements ordered acts w →
  run_events tls evs w = Some w' → (ordered = true → orderly tls evs w) →
  reachable tls false r w' ∧ implements ordered (acts ++ actions tls evs w) w'.
Proof.
  intros Hr. revert acts w. induction evs as [|ev evs IH]; intros acts w Hw Hi Hrun Hord.
  { injection Hrun as <-. by rewrite app_nil_r. }
  rewrite run_events_cons in Hrun. apply bind_Some in Hrun as (w1 & Hev & Hrun).
  pose proof Hi as (v & n & -> & _). cbn [actions]. rewrite Hev, app_assoc.
  assert (Hstep : step tls (Running v n) ev w1) by by constructor.
  assert (Hnow : ordered = true → in_order ev n ∧ orderly tls evs w1).
  { intros Hs. specialize (Hord Hs). cbn [orderly] in Hord. by rewrite Hev in Hord. }
  apply (IH _ w1); [by eapply reachable_step| |done|by intros [_ ?]%Hnow].
  eapply implements_step; [done..|by intros [? _]%Hnow|done].
Qed.

Lemma run_implements ordered r evs w :
  repo_rel r ∅ → run_events tls evs (start_world r) = Some w →
  (ordered = true → orderly tls evs (start_world r)) →
  reachable tls false r w ∧ implements ordered (actions tls evs (start_world r)) w.
Proof.
  intros Hr Hrun Hord.
  apply (implements_events ordered r [] evs (start_world r)); [done|..|done|done].
  - apply reachable_start.
  - by apply implements_start.
Qed.

(** C2: the server implements the signaling service: whatever events happen, if
    the random ids drawn differ, the stored rooms and the registered participants
    are a state that the abstract service, with some draws of room codes, reaches
    by the actions that the events mean - who connects, what he says, who
    disconnects - and each session has been sent exactly the texts of the notices
    the service sent to its participant on the way; whichever operations fail and
    in whatever order the handlers run. *)
Theorem server_refines_service r evs v n :
  repo_rel r ∅ → run_events tls evs (start_world r) = Some (Running v n) →
  NoDup (id_draw <$> seq 0 (next_session n)) →
  ∃ told,
    service_run (actions tls evs (start_world r)) (service_of (rooms_of v.1) n) told ∧
    ∀ s, s < next_session n → ∃ ts,
      Forall2 (λ x t, notice_text x = Ret t)
        (notices_to (participant_id_ (session_at n s)) told) ts ∧
      sent_to s n ≡ₚ ts.
Proof.
  intros Hr Hrun Hu.
  destruct (run_implements false r evs _ Hr Hrun) as (_ & v' & n' & Heq & Hi); [done|].
  injection Heq as <- <-. destruct (Hi Hu) as (told & Hserv & [Hsent _ _]). by exists told.
Qed.

(** C3: clients see the service in order: if posted lambdas run in the order in
    which they were posted and the random ids drawn differ, what has been written
    to a client are the texts of the first notices to its participant in a run
    of the abstract service by the actions that the events mean, and what is
    queued or posted are the texts of the rest, both in their order. *)
Theorem clients_see_service r evs v n :
  repo_rel r ∅ → run_events tls evs (start_world r) = Some (Running v n) →
  orderly tls evs (start_world r) → NoDup (id_draw <$> seq 0 (next_session n)) →
  ∃ told,
    service_run (actions tls evs (start_world r)) (service_of (rooms_of v.1) n) told ∧
    ∀ s, s < next_session n → ∃ seen due,
      notices_to (participant_id_ (session_at n s)) told = seen ++ due ∧
      Forall2 (λ x t, notice_text x = Ret t) seen (written_ (session_at n s)) ∧
      Forall2 (λ x t, notice_text x = Ret t) due
        (write_queue_ (session_at n s) ++ posted_to s (pending n)).
Proof.
  intros Hr Hrun Hord Hu.
  destruct (run_implements true r evs _ Hr Hrun) as (Hw & v' & n' & Heq & Hi); [done|].
  injection Heq as <- <-. destruct (Hi Hu) as (told & Hserv & [Hsent _ _]).
  destruct (reachable_inv tls false r v n Hr Hw) as (rooms & _ & [_ Hio]).
  exists told. split; [done|]. intros s Hs. destruct (Hsent s Hs) as (ts & Hts & <-).
  unfold sent_to in Hts. rewrite (wr_history _ _ (io_write _ Hio s)), <- app_assoc in Hts.
  apply Forall2_app_inv_r in Hts as (seen & due & Hseen & Hdue & Heq). by exists seen, due.
Qed.
End properties.

(** ** From [main] *)

Section serving.
Context `{BucketOrder, JsonLaws, CodeDraws, IdDraws}.

(** The calls of the start-up that can fail, in their order. *)
Definition startup (os : os_results) (config : ServerConfig) : list (option exception) :=
  (if tls_enabled config then
     [set_tls_options os; use_certificate_chain_file os (certificate_file config);
      use_private_key_file os (private_key_file config)]
   else []) ++
  [foreign_exception <$> acceptor_open_error os; foreign_exception <$> reuse_address_error os;
   foreign_exception <$> bind_error os (port config); foreign_exception <$> listen_error os].

Definition first_error (calls : list (option exception)) : option exception :=
  head (omap id calls).

Lemma NewServer_startup os config :
  NewServer os config =
  match first_error (startup os config) with Some e => Throw e | None => Ret empty_net end.
Proof.
  unfold NewServer, ConfigureTls, NewListener, startup, first_error.
  destruct (tls_enabled config); simpl;
    repeat (match goal with
            | |- context [check_call ?x] => destruct x; simpl; try done
            | |- context [check_error ?x] => destruct x; simpl; try done
            end).
Qed.

(** C21: the program serves: [main] fails if the configuration cannot be loaded;
    else the first call of the start-up that fails ends the process - the TLS set-up
    if TLS is required, then opening, binding and listening, at the configured port
    with the configured files - and if none fails, it enters the event loop with no
    sessions and one accept outstanding, from where, whatever events happen, no
    exception ends the process and, if the random ids drawn differ, the abstract
    service is implemented as in C2. *)
Theorem main_serves_service getenv os :
  match main getenv os with
  | ExitFailure => ∃ e, LoadConfig getenv = Throw e
  | Terminated e =>
      ∃ config, LoadConfig getenv = Ret config ∧ first_error (startup os config) = Some e
  | Serving config rooms net =>
      LoadConfig getenv = Ret config ∧ first_error (startup os config) = None ∧
      Running (rooms, 0) net = start_world rooms ∧
      let tls := tls_enabled config in
      ∀ evs w, run_events tls evs (Running (rooms, 0) net) = Some w → ∃ v n, w = Running v n ∧
        (NoDup (id_draw <$> seq 0 (next_session n)) → ∃ told,
           service_run (actions tls evs (Running (rooms, 0) net)) (service_of (rooms_of v.1) n)
             told ∧
           ∀ s, s < next_session n → ∃ ts,
             Forall2 (λ x t, notice_text x = Ret t)
               (notices_to (participant_id_ (session_at n s)) told) ts ∧
             sent_to s n ≡ₚ ts)
  end.
Proof.
  unfold main. destruct (LoadConfig getenv) as [config|e]; [|by exists e]. simpl.
  rewrite NewServer_startup. destruct (first_error (startup os config)) as [e|] eqn:He; simpl.
  { by exists config. }
  split_and!; [done..|]. intros evs w Hrun.
  destruct (run_implements (tls_enabled config) false NewRepository evs w NewRepository_rel Hrun)
    as (_ & v & n & -> & Hi); [done|].
  exists v, n. split; [done|]. intros (told & Hserv & [Hsent _ _])%Hi. by exists told.
Qed.
End serving.

(** ** Witnesses: two clients have met in a room *)

(** Two participants connect, one creates a room, the other joins it. *)
Lemma sent_actions :
  actions false sent_events server_start =
  [Connects first_id; Connects second_id; Says first_id create_message true;
   Says second_id join_message true].
Proof. vm_compute. reflexivity. Qed.

(** The first has been sent the answer to his request and the news of the second. *)
Lemma server_refines_service_witness :
  ∃ (rooms : gmap RoomCode Room) told ts,
    rooms !! "000000" = Some meeting_room ∧
    service_run [Connects first_id; Connects second_id; Says first_id create_message true;
      Says second_id join_message true] (service_of rooms sample_net) told ∧
    Forall2 (λ x t, notice_text x = Ret t) (notices_to first_id told) ts ∧
    sent_to 0 sample_net ≡ₚ ts ∧ length ts = 2.
Proof.
  destruct sample_run as (r & g & Hw & Hr).
  destruct (server_refines_service false NewRepository sent_events (r, g) sample_net
    NewRepository_rel Hw sample_ids) as (told & Hrun & Hall).
  destruct (Hall 0) as (ts & Hts & Hsent).
  { assert (Hlt : bool_decide (0 < next_session sample_net) = true) by (vm_compute; reflexivity).
    exact (bool_decide_eq_true_1 _ Hlt). }
  exists (rooms_of r), told, ts. split_and!.
  - rewrite Hr. vm_compute. reflexivity.
  - rewrite <- sent_actions. exact Hrun.
  - replace first_id with (participant_id_ (session_at sample_net 0)) by (vm_compute; reflexivity).
    exact Hts.
  - exact Hsent.
  - rewrite <- (Permutation_length Hsent). vm_compute. reflexivity.
Defined.

(** Both messages are still in the queue of his session. *)
Lemma clients_see_service_witness :
  ∃ (rooms : gmap RoomCode Room) told due,
    rooms !! "000000" = Some meeting_room ∧
    service_run [Connects first_id; Connects second_id; Says first_id create_message true;
      Says second_id join_message true] (service_of rooms sample_net) told ∧
    notices_to first_id told = due ∧
    Forall2 (λ x t, notice_text x = Ret t) due (write_queue_ (session_at sample_net 0)) ∧
    length due = 2.
Proof.
  destruct sample_run as (r & g & Hw & Hr).
  destruct (clients_see_service false NewRepository sent_events (r, g) sample_net
    NewRepository_rel Hw sent_orderly sample_ids) as (told & Hrun & Hall).
  destruct (Hall 0) as (seen & due & Hnotices & Hseen & Hdue).
  { assert (Hlt : bool_decide (0 < next_session sample_net) = true) by (vm_compute; reflexivity).
    exact (bool_decide_eq_true_1 _ Hlt). }
  replace (written_ (session_at sample_net 0)) with (@nil string) in Hseen
    by (vm_compute; reflexivity).
  apply Forall2_nil_inv_r in Hseen as ->.
  replace (posted_to 0 (pending sample_net)) with (@nil string) in Hdue
    by (vm_compute; reflexivity).
  rewrite app_nil_r in Hdue. exists (rooms_of r), told, due. split_and!.
  - rewrite Hr. vm_compute. reflexivity.
  - rewrite <- sent_actions. exact Hrun.
  - replace first_id with (participant_id_ (session_at sample_net 0)) by (vm_compute; reflexivity).
    exact Hnotices.
  - exact Hdue.
  - rewrite (Forall2_length _ _ _ Hdue). vm_compute. reflexivity.
Defined.

Lemma main_serves_service_witness :
  main sample_env willing_os = Serving (MkServerConfig DEFAULT_PORT "" "" false) NewRepository
    (enqueue TcpAccept empty_net) ∧
  ∃ (v : Rooms * nat) n told, world_after sent_events = Running v n ∧
    service_run [Connects first_id; Connects second_id; Says first_id create_message true;
      Says second_id join_message true] (service_of (rooms_of v.1) n) told.
Proof.
  assert (Hmain : main sample_env willing_os = Serving (MkServerConfig DEFAULT_PORT "" "" false)
    NewRepository (enqueue TcpAccept empty_net)) by (vm_compute; reflexivity).
  split; [exact Hmain|]. pose proof (main_serves_service sample_env willing_os) as Hserves.
  rewrite Hmain in Hserves. destruct Hserves as (_ & _ & _ & Hserves).
  destruct (Hserves sent_events (world_after sent_events) sent_run) as (v & n & Hw & Hrun).
  assert (Hn : n = sample_net) by (unfold sample_net; rewrite Hw; reflexivity).
  destruct Hrun as (told & Hrun & _); [rewrite Hn; exact sample_ids|].
  exists v, n, told. split; [exact Hw|]. rewrite <- sent_actions. exact Hrun.
Defined.
