(* ===== verification/LifeCycleProps.v ===== *)
(** * LifeCycleProps: what becomes of a session

    The theorem that the sessions of the running server follow the state machine
    of LifeCycle.v, one handshake, accept or read at a time. *)

From S2P Require Import Prelude Text UnorderedMap Room RoomRepository InMemoryRoomRepository.
From S2P Require Import RoomService RoomServiceSpec Json JsonTree ControlDispatcher.
From S2P Require Import ProtocolCodec SessionRegistry Session SessionSpec Server System.
From S2P Require Import SystemInv SystemRun SystemSafety Effects LifeCycle Samples SystemProps.
From S2P Require Import ProgressProps.

Section properties.
Context `{BucketOrder, JsonLaws, CodeDraws, IdDraws} {R : Type} `{LawfulRepository R}.
Context (tls strict : bool).
Implicit Types (n : Net) (s : SessionPtr) (v : R * nat) (r : R).

(** A registered session is reading. *)
Lemma registered_reading n s :
  net_ok n → io_ok n → registered_ (session_at n s) = true → phase_of n s = Reading.
Proof.
  intros Hn Hio Hreg. unfold phase_of. rewrite decide_True by by apply registered_known.
  by rewrite (st_reading _ _ (io_stage _ Hio s) Hreg).
Qed.

Lemma life_to_reading s ev p :
  life tls s p ev Reading → p ≠ Unborn ∧ (enters ev s = true → p = Accepting).
Proof.
  intros Hl. remember Reading as q eqn:Hq. destruct Hl as [| | | | | | | |q ev Hd]; try done.
  - by destruct tls.
  - subst q. split; [done|]. intros He. destruct ev as [| |s' [|]| | | | | | |]; try done.
    simpl in *. unfold drives in Hd. simpl in Hd. congruence.
Qed.

Lemma phase_born n s : phase_of n s ≠ Unborn → s < next_session n.
Proof. unfold phase_of. by case_decide. Qed.

Lemma inflight_start ev n n0 s :
  start_event ev n = Some n0 → inflight s (pending n0) ⊆ inflight s (pending n).
Proof.
  intros Hst. unfold start_event in Hst. destruct (completion_of ev) as [c|].
  - apply fmap_Some in Hst as (l & Hl & ->). destruct (start_perm c n l s Hl) as [-> _].
    intros m Hm. apply elem_of_app. by right.
  - destruct ev; try (by injection Hst as <-). case_decide; [by injection Hst as <-|done].
Qed.

(** A session that reads is registered, unless it is closing. *)
Definition active n : Prop :=
  ∀ s, phase_of n s = Reading →
    registered_ (session_at n s) = true ∨ closing_ (session_at n s) = true.

(** How a session comes to read, or goes on reading. *)
Lemma life_reading_inv s p ev :
  life tls s p ev Reading →
  ev = EvWebSocketAccept s false ∨ p = Reading ∧ ev ≠ EvWebSocketRead s ReadClosed.
Proof.
  intros Hl. remember Reading as q eqn:Hq. destruct Hl as [| | | | | | | |q ev Hd]; try done; auto.
  - by destruct tls.
  - right. split; [done|]. intros ->. unfold drives in Hd. simpl in Hd.
    by rewrite bool_decide_eq_true_2 in Hd.
Qed.

Lemma active_step ev rooms n n0 rooms' n' :
  net_ok n → io_ok n → start_event ev n = Some n0 → effect tls ev rooms n0 rooms' n' →
  active n → active n'.
Proof.
  intros Hn Hio Hst He Ha s Hreading.
  pose proof (effect_phase tls ev rooms n n0 rooms' n' s Hio Hst He) as Hl.
  rewrite Hreading in Hl. pose proof (proj1 (life_to_reading s ev _ Hl)) as Hborn%phase_born.
  pose proof (same_start _ _ _ Hst) as Hsame. pose proof Hborn as Hk.
  rewrite <- (sd_next _ _ Hsame) in Hk. pose proof (start_event_same _ _ _ Hst) as (_ & Hsess & _).
  apply life_reading_inv in Hl as [->|[Hp Hev]].
  - left. destruct He as [_ ->].
    change (registered_ (session_at (set_session s (set_registered true) n0) s) = true).
    rewrite set_session_known; [done|]. rewrite Hsess. by apply (net_known _ Hn).
  - assert (Hat : session_at n0 s = session_at n s) by (unfold session_at; by rewrite Hsess).
    destruct (Ha s Hp) as [Hreg|Hcl].
    + destruct (effect_keeps tls ev rooms n0 rooms' n' s Hk He) as [|[|]];
        [by rewrite Hat|auto..|done].
    + right. apply (se_closing _ _ _ _ (effect_settled tls ev rooms n0 rooms' n' s Hk He)).
      by rewrite Hat.
Qed.

Lemma reachable_active r v n :
  repo_rel r ∅ → reachable tls false r (Running v n) → active n.
Proof.
  intros Hr Hw. remember (Running v n) as w eqn:Heq. revert v n Heq.
  induction Hw as [|w ev w' Hw IH Hstep _]; intros v n Heq.
  - injection Heq as _ <-. intros s Hs. exfalso.
    assert (Hborn : phase_of (enqueue TcpAccept empty_net) s ≠ Unborn) by congruence.
    apply phase_born in Hborn. simpl in Hborn. lia.
  - destruct w as [v1 n1|e]; [|by destruct Hstep].
    destruct (reachable_turn tls false r v1 n1 ev w' Hr Hw Hstep)
      as (rooms & v' & n0 & rooms' & n' & -> & Hst & He & _ & _ & [Hd Hio]).
    injection Heq as <- <-. eapply active_step; [exact (dir_net _ _ _ Hd)|done..|by eapply IH].
Qed.

(** C11: the life of a session: it has at most one of handshake, accept and read
    outstanding, and whatever happens takes it along the state machine [life]: a
    TLS handshake unless the server is plain, the upgrade, message after message,
    the end.  It is registered only while it reads, and then until it is closing;
    it enters the registry only by the upgrade, so once in its life.  A session
    that is closing stays so and starts no further write. *)
Theorem session_life_cycle r v n ev w s :
  repo_rel r ∅ → reachable tls strict r (Running v n) → step tls (Running v n) ev w →
  length (stage s (pending n)) ≤ 1 ∧
  ∃ v' n', w = Running v' n' ∧ life tls s (phase_of n s) ev (phase_of n' s) ∧
    (registered_ (session_at n' s) = true →
       phase_of n' s = Reading ∧
       (registered_ (session_at n s) = true ∨ phase_of n s = Accepting)) ∧
    (phase_of n' s = Reading →
       registered_ (session_at n' s) = true ∨ closing_ (session_at n' s) = true) ∧
    (closing_ (session_at n s) = true →
       closing_ (session_at n' s) = true ∧
       inflight s (pending n') ⊆ inflight s (pending n)).
Proof.
  intros Hr Hw%reachable_any Hstep.
  destruct (reachable_turn tls false r v n ev w Hr Hw Hstep)
    as (rooms & v' & n0 & rooms' & n' & -> & Hst & He & _ & _ & [_ Hio]).
  destruct (reachable_inv tls false r v' n' Hr) as (rooms1 & _ & [Hd' Hio']);
    [by eapply reachable_step|].
  split; [apply (io_stage _ Hio s)|]. exists v', n'. split; [done|].
  pose proof (effect_phase tls ev rooms n n0 rooms' n' s Hio Hst He) as Hl. split; [done|].
  pose proof (same_start _ _ _ Hst) as Hsame.
  assert (Hse : s < next_session n → settled (enters ev s) s n0 n').
  { intros Hs. eapply effect_settled; [|exact He]. by rewrite (sd_next _ _ Hsame). }
  split_and!.
  - intros Hreg. pose proof (registered_reading n' s (dir_net _ _ _ Hd') Hio' Hreg) as Hreading.
    split; [done|]. rewrite Hreading in Hl. destruct (life_to_reading s ev _ Hl) as [Hborn Henter].
    destruct (Hse (phase_born _ _ Hborn)) as [_ Hr' _].
    rewrite (sd_registered _ _ Hsame) in Hr'. destruct (Hr' Hreg) as [|He']; auto.
  - apply (reachable_active r v' n' Hr). by eapply reachable_step.
  - intros Hc. assert (Hk : s < next_session n).
    { destruct (decide (s < next_session n)) as [|Hge]; [done|].
      destruct (io_fresh _ Hio s ltac:(lia)) as [Hnone _].
      by rewrite (session_at_unknown n s Hnone) in Hc. }
    destruct (Hse Hk) as [Hc' _ Hw'].
    assert (Hc0 : closing_ (session_at n0 s) = true).
    { pose proof (start_event_same _ _ _ Hst) as (_ & Hsess & _). unfold session_at in *.
      by rewrite Hsess. }
    split; [auto|]. rewrite Hw' by done. by eapply inflight_start.
Qed.
End properties.

(** ** Witness: the second of two clients closes its connection *)

Lemma session_life_cycle_witness :
  phase_of sample_net 1 = Reading ∧
  ∃ (v v' : Rooms * nat) n',
    step false (Running v sample_net) (EvWebSocketRead 1 ReadClosed) (Running v' n') ∧
    phase_of n' 1 = Over ∧ registered_ (session_at n' 1) = false.
Proof.
  assert (Hphase : phase_of sample_net 1 = Reading) by (vm_compute; reflexivity).
  split; [exact Hphase|]. destruct (sample_running true) as (r & g & Hw & _).
  assert (Hst : match start_event (EvWebSocketRead 1 ReadClosed) sample_net
                with Some _ => true | None => false end = true) by (vm_compute; reflexivity).
  destruct (run_event false (EvWebSocketRead 1 ReadClosed) (Running (r, g) sample_net))
    as [w|] eqn:Hrun.
  2: { exfalso. unfold run_event in Hrun.
       destruct (start_event (EvWebSocketRead 1 _) sample_net); [discriminate Hrun|done]. }
  destruct (session_life_cycle false true NewRepository (r, g) sample_net
    (EvWebSocketRead 1 ReadClosed) w 1 NewRepository_rel Hw)
    as (_ & v' & n' & -> & Hl & Hreg & _); [constructor; exact Hrun|].
  exists (r, g), v', n'. split; [constructor; exact Hrun|]. rewrite Hphase in Hl.
  assert (Hover : phase_of n' 1 = Over).
  { inversion Hl as [| | | | | | | |p ev Hd]; [reflexivity|discriminate Hd]. }
  split; [exact Hover|]. apply not_true_iff_false. intros Hr. destruct (Hreg Hr) as [Hread _].
  rewrite Hover in Hread. discriminate Hread.
Defined.
