(* ===== verification/InterleavingProps.v ===== *)
(** * InterleavingProps: use cases on several threads

    The repository contract asks for atomic member functions so that several
    threads may use it.  These are the guarantees that the use cases keep then,
    whatever the schedule. *)

From S2P Require Import Prelude Text UnorderedMap Room RoomRepository InMemoryRoomRepository.
From S2P Require Import RoomService RoomServiceSpec Json JsonTree ControlDispatcher.
From S2P Require Import ControlDispatcherSpec Samples.
From S2P Require Import Interleaving InterleavingSpec InterleavingCalls InterleavingRun.

Section properties.
Context `{Json} {R : Type} `{LawfulRepository R}.
Implicit Types (work : list (CodeDraws * list task)) (schedule : list nat) (c : config R).

(** C27: whatever the threads do and however their calls interleave, no update
    is lost or half done: every stored room is under its own code and lists
    nobody twice. *)
Theorem interleaved_rooms_valid r work schedule c code room :
  repo_wf r → rooms_wf (rooms_of r) →
  run_schedule schedule (start_config r work) = Some c →
  rooms_of (shared c) !! code = Some room →
  GetCode room = code ∧ NoDup (GetId <$> GetParticipants room).
Proof.
  intros Hr Hwf Hrun Hroom.
  destruct (run_schedule_inv (λ d, config_ok d ∧ rooms_wf (rooms_of (shared d)))
    schedule (start_config r work) c) as [_ Hc]; [|by split; [apply config_ok_start|]|done|].
  - intros i d d' _ [Hd Hd'] Hstep. split; [by eapply config_ok_step|].
    destruct (run_step_atomic i d d' Hd Hstep) as (th & _ & Hat).
    by eapply atomic_step_wf.
  - destruct (Hc _ _ Hroom) as [Hcode Hnd]. by split.
Qed.

(** C28: nobody joins or leaves a room but by a request or the disconnection of
    his own: as long as the threads that speak for a participant make no call,
    he stays in the rooms he is in and out of all others, whatever the other
    threads do; in particular no such room is removed. *)
Theorem membership_is_ones_own r work schedule c schedule' c' pid code :
  repo_wf r → run_schedule schedule (start_config r work) = Some c →
  run_schedule schedule' c = Some c' →
  (∀ i w t, i ∈ schedule' → work !! i = Some w → t ∈ w.2 → task_speaker t ≠ pid) →
  in_room (rooms_of (shared c')) code pid = in_room (rooms_of (shared c)) code pid.
Proof.
  intros Hr Hrun Hrun' Hother.
  pose proof (config_ok_schedule _ _ _ (config_ok_start r work Hr) Hrun) as Hok.
  pose proof (tasks_schedule _ _ _ Hrun) as Htasks.
  apply (run_schedule_inv (λ d, config_ok d ∧ tasks <$> threads d = tasks <$> threads c ∧
    in_room (rooms_of (shared d)) code pid = in_room (rooms_of (shared c)) code pid)
    schedule' c c'); [|done..].
  intros i d d' Hi (Hd & Hts & Hin) Hstep.
  destruct (run_step_atomic i d d' Hd Hstep) as (th & Hth & Hat).
  split_and!; [by eapply config_ok_step| |].
  - rewrite <- Hts. by apply (tasks_schedule [i]); simpl; rewrite Hstep.
  - rewrite <- Hin. eapply atomic_step_other; [done|]. intros (t & Ht & Hpid).
    assert (Hw : (tasks <$> threads d) !! i = Some (tasks th)).
    { by rewrite list_lookup_fmap, Hth. }
    rewrite Hts, Htasks in Hw. simpl in Hw. rewrite <- list_fmap_compose in Hw.
    rewrite list_lookup_fmap in Hw. apply fmap_Some in Hw as (w & Hw & Heq). simpl in Heq.
    apply (Hother i w t Hi Hw); [by rewrite <- Heq|done].
Qed.

(** C29: when all threads have finished, no stored room is empty: whoever leaves
    a room empty, or creates one, looks after it with his next call, and if
    somebody else has changed the room in between, then he does. *)
Theorem empty_rooms_disappear r work schedule c code room :
  repo_wf r → no_empty_room (rooms_of r) →
  run_schedule schedule (start_config r work) = Some c → at_rest c →
  rooms_of (shared c) !! code = Some room → IsEmpty room = false.
Proof.
  intros Hr Hne Hrun Hrest Hroom. apply not_true_iff_false. intros He.
  pose proof (config_ok_start r work Hr) as Hstart.
  pose proof (config_ok_schedule _ _ _ Hstart Hrun) as [Hs Hths].
  destruct (looked_after_schedule _ _ _ Hstart (looked_after_start r work Hne) Hrun
    code room Hroom He) as (i & th & call & Hth & Hlast & Hem).
  apply (finished_settled th (shared c) code room call); [|done| |done..].
  - exact (Forall_lookup_1 _ _ _ _ Hths Hth).
  - exact (Forall_lookup_1 _ _ _ _ Hrest Hth).
Qed.

(** C30: a join or leave request is answered as the specification answers it on
    the rooms that its first call finds, although other threads may work on
    the rooms before, between and after its calls. *)
Theorem one_call_decides `{CodeDraws} (found : nat → R) request log g replies :
  (∀ k, repo_wf (found k)) → request_ok request →
  meta_type (meta request) = ControlMessageType.JoinRoom ∨
    meta_type (meta request) = ControlMessageType.LeaveRoom →
  ∃ log', 1 ≤ length log' ≤ 2 ∧
    run_task found (Request request) ((log, g), replies) =
    (Ret tt, ((log ++ log', g), replies ++
      [Answered (dispatch_spec request (rooms_of (found (length log))) g).1])).
Proof.
  intros Hfound Hok Hkind. unfold request_ok in Hok. cbn [run_task]. unfold Dispatch, dispatch_spec.
  destruct (command request) as [c|c|c|c] eqn:Hc; rewrite Hok in *; destruct Hkind as [|]; try done.
  - destruct (JoinRoom_run found Hfound (join_room_code c) (join_participant c)
      (join_password_hash c) log) as (after & _ & Hrun).
    eexists [_]. split; [simpl; lia|]. apply ptry_ret. cbn [alternative].
    unfold dispatch_join. rewrite Hc. erewrite pbind_ret by done.
    erewrite pbind_ret by (do 2 apply on_fst_eq; exact Hrun).
    cbn [alternative]. unfold answer_join, join_spec.
    destruct (_ !! join_room_code c) as [room|]; [|done].
    by destruct (join_outcome _ _ _).
  - destruct (LeaveRoom_run found Hfound (leave_room_code c) (leave_participant_id c) log)
      as (after & _ & Hrun).
    assert (Hshape : ∃ log', 1 ≤ length log' ≤ 2 ∧
      LeaveRoom (RoomRepository0 := interfered found) (leave_room_code c)
        (leave_participant_id c) log =
      (Ret (leave_spec (leave_room_code c) (leave_participant_id c)
         (rooms_of (found (length log)))).1, log ++ log')).
    { destruct (_ !! leave_room_code c) as [room|];
        [destruct (HasParticipant room (leave_participant_id c))|].
      - destruct Hrun as (_ & after' & _ & Hrun). rewrite <- app_assoc in Hrun.
        eexists. split; [|exact Hrun]. simpl. lia.
      - destruct Hrun as [_ Hrun]. eexists. split; [|exact Hrun]. simpl. lia.
      - destruct Hrun as [_ Hrun]. eexists. split; [|exact Hrun]. simpl. lia. }
    destruct Hshape as (log' & Hlen & Hleave). exists log'. split; [done|].
    apply ptry_ret. cbn [alternative]. unfold dispatch_leave. rewrite Hc.
    erewrite pbind_ret by done. erewrite pbind_ret by (do 2 apply on_fst_eq; exact Hleave).
    unfold answer_leave, leave_spec. destruct (_ !! leave_room_code c) as [room|]; [|done].
    by destruct (HasParticipant room _).
Qed.
End properties.

Section termination.
Context `{Json} {R : Type} `{!RoomRepository R}.

#[local] Instance at_rest_decision (c : config R) : Decision (at_rest c).
Proof. apply _. Defined.

(** C31: requests are wait-free: over any repository a request is finished after
    at most 101 calls of its thread, whatever the other threads do; so every
    schedule ends, with all threads at rest. *)
Theorem requests_are_wait_free (r : R) work schedule c :
  Forall (λ w, Forall (λ t, is_request t = true) w.2) work →
  run_schedule schedule (start_config r work) = Some c →
  length schedule ≤ 101 * sum_list (length ∘ snd <$> work) ∧
  (at_rest c ∨ ∃ i c', run_step i c = Some c').
Proof.
  intros Hreq Hrun. split.
  - pose proof (calls_made_schedule _ _ _ Hrun) as Hmade.
    assert (Hgen : all_genuine c).
    { eapply run_schedule_inv; [|apply (start_genuine r work)|exact Hrun].
      intros i d d' _. apply all_genuine_step. }
    pose proof (tasks_schedule _ _ _ Hrun) as Htasks.
    assert (Hzero : calls_made (start_config r work) = 0).
    { unfold calls_made. simpl. clear. by induction work as [|w work IH]. }
    assert (Hts : Forall (λ th, Forall (λ t, is_request t = true) (tasks th)) (threads c)).
    { apply Forall_forall. intros th Hth%(list_elem_of_fmap_2 tasks). rewrite Htasks in Hth.
      simpl in Hth. rewrite <- list_fmap_compose in Hth.
      apply list_elem_of_fmap in Hth as (w & -> & Hw).
      exact (proj1 (Forall_forall _ _) Hreq w Hw). }
    assert (Hsum : length ∘ snd <$> work = length ∘ tasks <$> threads c).
    { rewrite !(list_fmap_compose _ length), Htasks. simpl.
      f_equal. by rewrite <- list_fmap_compose. }
    rewrite Hsum. rewrite Hzero in Hmade. simpl in Hmade. rewrite <- Hmade.
    apply sum_list_bound, Forall_forall. intros th Hth.
    unfold compose. rewrite (Nat.mul_comm 101). apply (performed_bound th r).
    + exact (proj1 (Forall_forall _ _) Hgen th Hth).
    + exact (proj1 (Forall_forall _ _) Hts th Hth).
  - destruct (decide (at_rest c)) as [|Hmove%not_Forall_Exists]; [by left|right|apply _].
    apply Exists_exists in Hmove as (th & [i Hth]%list_elem_of_lookup & Hnext).
    destruct (next_call th (shared c)) as [after|] eqn:Hafter; [|done].
    exists i. eexists. unfold run_step. rewrite Hth. simpl. by rewrite Hafter.
Qed.
End termination.

(** ** A race *)

Definition meta_of (t : ControlMessageType.t) : RequestMeta := MkMeta t None None.

Definition carol : Participant := MkParticipant "p_c" "Carol".
Definition dan : Participant := MkParticipant "p_d" "Dan".

Definition create_request (p : Participant) : ControlDispatcherRequest :=
  MkRequest (meta_of ControlMessageType.CreateRoom)
    (CreateRoomAlt (MkCreateRoomCommand p None)).
Definition join_request (p : Participant) : ControlDispatcherRequest :=
  MkRequest (meta_of ControlMessageType.JoinRoom) (JoinRoomAlt (MkJoinRoomCommand "000000" p None)).
Definition leave_request (p : Participant) : ControlDispatcherRequest :=
  MkRequest (meta_of ControlMessageType.LeaveRoom)
    (LeaveRoomAlt (MkLeaveRoomCommand "000000" (GetId p))).

(** Carol creates a room; Dan joins it by its code and leaves. *)
Definition race_work : list (CodeDraws * list task) :=
  [(counting_codes, [Request (create_request carol)]);
   (counting_codes, [Request (join_request dan); Request (leave_request dan)])].

Definition race_start : config Rooms := start_config NewRepository race_work.

Definition race (schedule : list nat) : option (config Rooms) := run_schedule schedule race_start.

(** What a response says: the room entered if any, or the error. *)
Definition answer_of (response : ControlDispatcherResponse)
    : option RoomResponse + ErrorResponsePayload :=
  match response with
  | SuccessResponse _ (CreateRoomResponse room) => inl (Some room)
  | SuccessResponse _ (JoinRoomResponse room) => inl (Some room)
  | SuccessResponse _ _ => inl None
  | ErrorResponse _ e => inr e
  end.

(** The answers to the requests of a thread. *)
Definition answers (c : config Rooms) (i : nat)
    : list (option RoomResponse + ErrorResponsePayload) :=
  match threads c !! i with
  | Some th =>
      omap (λ a, match a with
                 | Answered result => Some (answer_of (response result))
                 | Departed _ => None
                 end) (replies_of (replay th (shared c)))
  | None => []
  end.

(** The configuration a schedule ends in, and whether all threads have finished. *)
Definition after_race (schedule : list nat) : config Rooms := default race_start (race schedule).

Definition race_over (schedule : list nat) : bool :=
  match race schedule with
  | Some c => forallb (λ th, match next_call th (shared c) with None => true | _ => false end)
                (threads c)
  | None => false
  end.

Lemma race_ends schedule :
  race_over schedule = true →
  race schedule = Some (after_race schedule) ∧ at_rest (after_race schedule).
Proof.
  unfold race_over, after_race. destruct (race schedule) as [c|]; [|done].
  rewrite forallb_forall. intros Hall. split; [done|]. apply Forall_forall.
  intros th Hth%list_elem_of_In%Hall. simpl. by destruct (next_call th (shared c)).
Qed.

(** C32: creating a room is not atomic: it is stored empty before its creator
    joins.  If another thread has a participant join and leave in between, the
    room is removed, and its creator is answered that the room was not found,
    although it was created; if the threads run one after the other he is
    answered with the room. *)
Theorem creator_can_lose_room :
  (∃ c, race [0; 1; 1; 1; 0] = Some c ∧ at_rest c ∧ rooms_of (shared c) = ∅ ∧
     answers c 0 = [inr RoomNotFoundResponse] ∧
     answers c 1 = [inl (Some (MkRoomResponse "000000" dan [dan])); inl None]) ∧
  (∃ c, race [0; 0; 1; 1; 1] = Some c ∧ at_rest c ∧
     answers c 0 = [inl (Some (MkRoomResponse "000000" carol [carol]))] ∧
     answers c 1 = [inl (Some (MkRoomResponse "000000" dan [carol; dan])); inl None]).
Proof.
  destruct (race_ends [0; 1; 1; 1; 0]) as [Hc Hr]; [by vm_compute|].
  destruct (race_ends [0; 0; 1; 1; 1]) as [Hc' Hr']; [by vm_compute|].
  split; eexists; (split; [eassumption|]); (split; [assumption|]);
    split_and!; vm_compute; reflexivity.
Qed.

(** ** Witnesses *)

(** A schedule of the race can be carried out. *)
Definition race_runs (schedule : list nat) : bool :=
  match race schedule with Some _ => true | None => false end.

Lemma race_after schedule :
  race_runs schedule = true →
  run_schedule schedule (start_config NewRepository race_work) = Some (after_race schedule).
Proof.
  unfold race_runs, after_race, race, race_start. by destruct (run_schedule _ _).
Qed.

Lemma new_repository_empty : rooms_of NewRepository = ∅.
Proof. apply NewRepository_rel. Qed.

Lemma interleaved_rooms_valid_witness :
  rooms_of (shared (after_race [0; 0; 1])) !! "000000" =
    Some (MkRoom "000000" None [carol; dan]) ∧ NoDup (GetId <$> [carol; dan]).
Proof.
  assert (Hroom : rooms_of (shared (after_race [0; 0; 1])) !! "000000" =
    Some (MkRoom "000000" None [carol; dan])) by (vm_compute; reflexivity).
  split; [exact Hroom|].
  apply (interleaved_rooms_valid NewRepository race_work [0; 0; 1] (after_race [0; 0; 1])
    "000000" (MkRoom "000000" None [carol; dan])).
  - apply NewRepository_rel.
  - rewrite new_repository_empty. apply map_Forall_empty.
  - apply race_after. vm_compute. reflexivity.
  - exact Hroom.
Defined.

Lemma membership_is_ones_own_witness :
  ∃ c, run_schedule [1; 1; 1] (after_race [0; 0]) = Some c ∧
    in_room (rooms_of (shared c)) "000000" "p_c" = true.
Proof.
  assert (Hruns : match run_schedule [1; 1; 1] (after_race [0; 0]) with
                  | Some _ => true | None => false end = true) by (vm_compute; reflexivity).
  destruct (run_schedule [1; 1; 1] (after_race [0; 0])) as [c|] eqn:Hc.
  - exists c. split; [reflexivity|].
    rewrite (membership_is_ones_own NewRepository race_work [0; 0] (after_race [0; 0])
      [1; 1; 1] c "p_c" "000000").
    + vm_compute. reflexivity.
    + apply NewRepository_rel.
    + apply race_after. vm_compute. reflexivity.
    + exact Hc.
    + intros i w t Hi Hw Ht.
      assert (i = 1) as ->.
      { clear -Hi. rewrite !elem_of_cons, elem_of_nil in Hi. by destruct_or!. }
      injection Hw as <-. simpl in Ht.
      apply elem_of_cons in Ht as [->|Ht]; [vm_compute; discriminate|].
      apply list_elem_of_singleton in Ht as ->. vm_compute. discriminate.
  - discriminate Hruns.
Defined.

Lemma empty_rooms_disappear_witness :
  in_room (rooms_of (shared (after_race [0; 0; 1; 1; 1]))) "000000" "p_c" = true ∧
  IsEmpty (MkRoom "000000" None [carol]) = false.
Proof.
  split; [vm_compute; reflexivity|].
  destruct (race_ends [0; 0; 1; 1; 1]) as [Hrun Hrest]; [vm_compute; reflexivity|].
  apply (empty_rooms_disappear NewRepository race_work [0; 0; 1; 1; 1]
    (after_race [0; 0; 1; 1; 1]) "000000" (MkRoom "000000" None [carol])).
  - apply NewRepository_rel.
  - rewrite new_repository_empty. apply map_Forall_empty.
  - exact Hrun.
  - exact Hrest.
  - vm_compute. reflexivity.
Defined.

(** Dan's request finds the room Carol has created and not yet joined. *)
Lemma one_call_decides_witness :
  ∃ log', run_task (λ _, shared (after_race [0])) (Request (join_request dan)) (([], 0), []) =
    (Ret tt, ((log', 0), [Answered (dispatch_spec (join_request dan)
       (rooms_of (shared (after_race [0]))) 0).1])).
Proof.
  destruct (one_call_decides (λ _, shared (after_race [0])) (join_request dan) [] 0 [])
    as (log' & _ & Hrun).
  - intros _. vm_compute. repeat constructor; set_solver.
  - reflexivity.
  - left. reflexivity.
  - exists log'. exact Hrun.
Defined.

Lemma requests_are_wait_free_witness :
  length [0; 1; 1; 1; 0] ≤ 101 * 3 ∧ at_rest (after_race [0; 1; 1; 1; 0]).
Proof.
  destruct (requests_are_wait_free NewRepository race_work [0; 1; 1; 1; 0]
    (after_race [0; 1; 1; 1; 0])) as [Hlen _].
  - repeat constructor.
  - apply race_after. vm_compute. reflexivity.
  - split; [exact Hlen|]. apply race_ends. vm_compute. reflexivity.
Defined.
