(* ===== verification/ConfigProps.v ===== *)
(** * ConfigProps: the environment, the port and the start of the server *)

From S2P Require Import Prelude Text UnorderedMap Room RoomRepository InMemoryRoomRepository.
From S2P Require Import RoomService Json JsonTree Session Config Server Samples.
From Stdlib Require Import Ascii.
From stdpp Require Import list numbers.

Local Open Scope Z_scope.

(** ** [std::stoi] *)

(** The number a list of digit characters denotes. *)
Definition decimal_value (ds : list Z) : Z := foldl (λ acc d, acc * 10 + d) 0 ds.

Definition digit_ascii (d : Z) : ascii := ascii_of_nat (48 + Z.to_nat d).

#[global] Arguments digit_ascii : simpl never.
#[global] Arguments digit_value : simpl never.

Lemma digit_ascii_nat d : 0 ≤ d < 10 → nat_of_ascii (digit_ascii d) = (48 + Z.to_nat d)%nat.
Proof. intros. apply nat_ascii_embedding. lia. Qed.

#[local] Opaque digit_ascii.

Lemma digit_value_ascii d : 0 ≤ d < 10 → digit_value (digit_ascii d) = Some d.
Proof.
  intros Hd. pose proof (digit_ascii_nat d Hd) as Hn. unfold digit_value. cbv zeta.
  case_decide; [f_equal; lia|lia].
Qed.

Lemma read_digits_run acc ds rest :
  Forall (λ d, 0 ≤ d < 10) ds →
  (∀ c rest', rest = c :: rest' → digit_value c = None) →
  read_digits acc ((digit_ascii <$> ds) ++ rest) =
  match ds with
  | [] => acc
  | _ :: _ => Some (foldl (λ acc d, acc * 10 + d) (default 0 acc) ds)
  end.
Proof.
  intros Hds Hrest. revert acc. induction Hds as [|d ds Hd Hds IH]; intros acc.
  - destruct rest as [|c rest]; [done|]. cbn [fmap list_fmap app read_digits].
    by rewrite (Hrest c rest).
  - cbn [fmap list_fmap app read_digits]. rewrite digit_value_ascii, IH by done.
    by destruct ds.
Qed.

Inductive sign : Type := NoSign | Plus | Minus.

Definition sign_text (s : sign) : list ascii :=
  match s with NoSign => [] | Plus => ["+"%char] | Minus => ["-"%char] end.
Definition signed (s : sign) (z : Z) : Z := match s with Minus => - z | _ => z end.

Lemma skip_spaces_app sp l :
  Forall (λ c, isspace c = true) sp → (∀ c l', l = c :: l' → isspace c = false) →
  skip_spaces (sp ++ l) = l.
Proof.
  intros Hsp Hl. induction Hsp as [|c sp Hc Hsp IH]; simpl; [|by rewrite Hc].
  destruct l as [|c l]; [done|]. simpl. by rewrite (Hl c l).
Qed.

Lemma digit_not_space d : 0 ≤ d < 10 → isspace (digit_ascii d) = false.
Proof.
  intros Hd. pose proof (digit_ascii_nat d Hd) as Hn. unfold isspace. cbv zeta.
  apply orb_false_iff. split; apply bool_decide_eq_false; lia.
Qed.

Lemma digit_ascii_ne d c :
  0 ≤ d < 10 → (nat_of_ascii c < 48)%nat → digit_ascii d ≠ c.
Proof. intros Hd Hc Heq. pose proof (digit_ascii_nat d Hd). subst c. lia. Qed.

(** [stoi] skips white space, reads an optional sign and as many digits as
    there are, and ignores whatever follows; the value must fit an [int]. *)
Theorem stoi_reads_prefix sp s d ds rest :
  Forall (λ c, isspace c = true) sp → Forall (λ d, 0 ≤ d < 10) (d :: ds) →
  (∀ c rest', rest = c :: rest' → digit_value c = None) →
  stoi (String.string_of_list_ascii
          (sp ++ sign_text s ++ (digit_ascii <$> d :: ds) ++ rest)) =
  let z := signed s (decimal_value (d :: ds)) in
  if decide (- 2 ^ 31 ≤ z ≤ 2 ^ 31 - 1) then Ret z else Throw (out_of_range "stoi").
Proof.
  intros Hsp Hds Hrest. unfold stoi. rewrite String.list_ascii_of_string_of_list_ascii.
  assert (Hd : 0 ≤ d < 10) by by inversion Hds.
  rewrite skip_spaces_app; [|done|].
  2: { intros c l'. destruct s; simpl; intros [= <- _]; [|done..]. by apply digit_not_space. }
  pose proof (read_digits_run None (d :: ds) rest Hds Hrest) as Hread.
  assert (Hsign : read_sign (sign_text s ++ (digit_ascii <$> d :: ds) ++ rest) =
    (match s with Minus => -1 | _ => 1 end, (digit_ascii <$> d :: ds) ++ rest)).
  { destruct s; simpl; [|done..]. rewrite !decide_False; [done|..].
    - apply digit_ascii_ne; [done|]. apply Nat.ltb_lt. vm_compute. reflexivity.
    - apply digit_ascii_ne; [done|]. apply Nat.ltb_lt. vm_compute. reflexivity. }
  rewrite Hsign, Hread. unfold decimal_value, int_min, int_max. simpl default.
  destruct s; simpl signed; rewrite ?Z.mul_1_l, <- ?Z.opp_eq_mul_m1; done.
Qed.

(** Text that does not start, after white space and a sign, with a digit is
    refused with [invalid_argument]. *)
Lemma stoi_refuses_text sp s rest :
  Forall (λ c, isspace c = true) sp →
  (∀ c rest', rest = c :: rest' → digit_value c = None ∧
     (s = NoSign → isspace c = false ∧ c ≠ "+"%char ∧ c ≠ "-"%char)) →
  stoi (String.string_of_list_ascii (sp ++ sign_text s ++ rest)) =
  Throw (invalid_argument "stoi").
Proof.
  intros Hsp Hrest. unfold stoi. rewrite String.list_ascii_of_string_of_list_ascii.
  rewrite skip_spaces_app; [|done|].
  2: { intros c l' Heq. destruct s; simpl in Heq; [|by simplify_eq..].
       by destruct (Hrest c l' Heq) as [_ (? & _)]. }
  assert (Hsign : ∃ z, read_sign (sign_text s ++ rest) = (z, rest)).
  { destruct s; simpl; [|by eexists..]. destruct rest as [|c rest]; [by eexists|].
    destruct (Hrest c rest eq_refl) as [_ (_ & Hp & Hm)]; [done|]. simpl.
    rewrite !decide_False by done. by eexists. }
  destruct Hsign as [z ->]. destruct rest as [|c rest]; [done|]. simpl.
  by rewrite (proj1 (Hrest c rest eq_refl)).
Qed.

(** ** The configuration *)

Definition port_variable : string := "BUZZWEB_SERVER_PORT".
Definition certificate_variable : string := "BUZZWEB_CERTIFICATE_FILE_PATH".
Definition key_variable : string := "BUZZWEB_PRIVATE_KEY_PATH".

Ltac config_cases :=
  cbn [obind port certificate_file private_key_file tls_enabled];
  first [ solve [right; auto] | split_and!; try done; eauto; by apply Z.mod_pos_bound ].

(** C40: a loaded configuration has a 16-bit port, 9291 by default, and TLS with
    both file names from the environment unless TLS is switched off; loading
    fails only for a port text that [stoi] refuses or, with TLS, for a missing
    variable. *)
Theorem load_config_decides getenv :
  match LoadConfig getenv with
  | Ret c =>
      0 ≤ port c < 2 ^ 16 ∧
      match getenv port_variable with
      | None => port c = 9291
      | Some s => ∃ z, stoi s = Ret z ∧ port c = z mod 2 ^ 16
      end ∧
      tls_enabled c = tls_required getenv ∧
      (if tls_enabled c then getenv certificate_variable = Some (certificate_file c) ∧
                             getenv key_variable = Some (private_key_file c)
       else certificate_file c = "" ∧ private_key_file c = "")
  | Throw e =>
      (∃ s, getenv port_variable = Some s ∧ stoi s = Throw e) ∨
      (tls_required getenv = true ∧ e = runtime_error "getenv_error" ∧
       (getenv certificate_variable = None ∨ getenv key_variable = None))
  end.
Proof.
  unfold LoadConfig, GetEnv, port_variable, certificate_variable, key_variable.
  replace (GetEnvOptional getenv "BUZZWEB_SERVER_PORT") with (getenv "BUZZWEB_SERVER_PORT")
    by (unfold GetEnvOptional; by destruct (getenv _)).
  destruct (getenv "BUZZWEB_SERVER_PORT") as [s|].
  - destruct (stoi s) as [z|e] eqn:Hs; cbn [obind]; [|by eauto].
    destruct (tls_required getenv); [|config_cases].
    destruct (getenv "BUZZWEB_CERTIFICATE_FILE_PATH"); cbn [obind]; [|config_cases].
    destruct (getenv "BUZZWEB_PRIVATE_KEY_PATH"); cbn [obind]; config_cases.
  - cbn [obind]. destruct (tls_required getenv); [|done].
    destruct (getenv "BUZZWEB_CERTIFICATE_FILE_PATH"); cbn [obind]; [|config_cases].
    destruct (getenv "BUZZWEB_PRIVATE_KEY_PATH"); cbn [obind]; config_cases.
Qed.

(** A port number that does not fit sixteen bits is accepted and silently
    replaced by another one. *)
Theorem port_silently_truncated getenv s z :
  getenv port_variable = Some s → stoi s = Ret z → ¬ 0 ≤ z < 2 ^ 16 →
  tls_required getenv = false →
  ∃ c, LoadConfig getenv = Ret c ∧ port c = z mod 2 ^ 16 ∧ port c ≠ z.
Proof.
  intros Hport Hs Hz Htls. unfold LoadConfig, GetEnvOptional.
  unfold port_variable in Hport. rewrite Hport, Htls. rewrite Hs. cbn [obind].
  eexists. split_and!; [reflexivity|reflexivity|]. cbn [port]. unfold to_unsigned_short.
  intros Heq. apply Hz. rewrite <- Heq. by apply Z.mod_pos_bound.
Qed.

(** ** Starting *)

Section starting.
Context `{BucketOrder, Json, CodeDraws, IdDraws}.

(** The server is constructed exactly if the TLS calls, which are made
    only with TLS enabled, and then opening, binding and listening succeed;
    with TLS disabled no certificate is ever looked at. *)
Lemma server_starts os config :
  ((∃ n, NewServer os config = Ret n) ↔
   (tls_enabled config = true →
      set_tls_options os = None ∧
      use_certificate_chain_file os (certificate_file config) = None ∧
      use_private_key_file os (private_key_file config) = None) ∧
   acceptor_open_error os = None ∧ reuse_address_error os = None ∧
   bind_error os (port config) = None ∧ listen_error os = None) ∧
  (∀ os', tls_enabled config = false →
     acceptor_open_error os' = acceptor_open_error os →
     reuse_address_error os' = reuse_address_error os →
     bind_error os' = bind_error os → listen_error os' = listen_error os →
     NewServer os' config = NewServer os config).
Proof.
  split.
  - unfold NewServer, ConfigureTls, NewListener.
    destruct (tls_enabled config), (set_tls_options os),
      (use_certificate_chain_file os _), (use_private_key_file os _),
      (acceptor_open_error os), (reuse_address_error os), (bind_error os _), (listen_error os);
      cbn; naive_solver.
  - intros os' Htls Ho Hr Hb Hl. unfold NewServer, NewListener.
    by rewrite Htls, Ho, Hr, Hb, Hl.
Qed.

(** [main] returns a failure status exactly for a configuration that
    cannot be loaded, dies of the exception of the server's constructor, and
    otherwise serves the loaded configuration. *)
Lemma main_outcomes getenv os :
  main getenv os =
  match LoadConfig getenv with
  | Throw _ => ExitFailure
  | Ret config =>
      match NewServer os config with
      | Throw e => Terminated e
      | Ret net => Serving config NewRepository (enqueue TcpAccept net)
      end
  end.
Proof. unfold main. destruct (LoadConfig getenv); [|done]. by destruct (NewServer _ _). Qed.
End starting.

(** ** Witnesses *)

Lemma stoi_reads_prefix_witness : stoi " -12x" = Ret (-12).
Proof.
  refine (stoi_reads_prefix [" "%char] Minus 1 [2] ["x"%char] _ _ _).
  - by apply Forall_singleton.
  - repeat (apply Forall_cons_2; [lia|]). apply Forall_nil_2.
  - by intros c rest' [= <- _].
Defined.

Lemma stoi_refuses_text_witness : stoi " -port" = Throw (invalid_argument "stoi").
Proof.
  apply (stoi_refuses_text [" "%char] Minus (String.list_ascii_of_string "port")).
  - by apply Forall_singleton.
  - by intros c rest' [= <- _].
Defined.

Definition port_env (name : string) : option string :=
  if decide (name = port_variable) then Some "70000"
  else if decide (name = "BUZZWEB_TLS_ENABLED") then Some "false" else None.

Lemma port_silently_truncated_witness :
  ∃ c, LoadConfig port_env = Ret c ∧ port c = 4464.
Proof.
  destruct (port_silently_truncated port_env "70000" 70000) as (c & Hc & Hport & _);
    [reflexivity|vm_compute; reflexivity|lia|vm_compute; reflexivity|].
  exists c. split; [exact Hc|]. rewrite Hport. reflexivity.
Defined.
